(** * flask_pydantic.openapi: route-template parsing, operation aggregation,
      document assembly and recursive merge

    A shallow embedding of [src/flask_pydantic/openapi.py].

    - Python [str] is [string]; the regular expression only distinguishes
      ASCII characters, so a byte-wise reading of UTF-8 text yields the same
      groups as a code-point-wise one.
    - JSON-like literals built by the module are [json] trees.
    - Python dictionaries that are mutated after they became reachable from
      somewhere else ([merge_dicts], the schema registry, the cached
      document) live in an explicit store [heap] and are passed by
      reference ([VDict l]).
    - Exceptions are values of [exn] carried by [outcome]. *)

From Stdlib Require Import ZArith Ascii String List Lia Bool DecimalString DecimalZ.
From stdpp Require Import base option list gmap strings.

Local Open Scope string_scope.
Local Open Scope list_scope.
Set Warnings "-register-all".

(** ** Python preliminaries *)

Module Py.

(** The exceptions this module can raise, or let escape. *)
Inductive exn : Type :=
| ValueError_used_twice (variable : string)
    (* ValueError(f"variable name {variable!r} used twice.") *)
| ValueError_malformed (rule : string)
    (* ValueError(f"malformed url rule: {rule!r}") *)
| TypeError_multiple_values (argument : string)
    (* get_converter_schema() got multiple values for argument ... *)
| ValueError_converter_argument (fragment : string)
    (* the routing library's
       ValueError(f"Cannot parse converter argument '{fragment}'") *)
| AttributeError (attribute : string)
| KeyError (key : string)
| AssertionError
| RuntimeError_changed_size.
    (* "dictionary changed size during iteration" *)

(** Result of running a piece of Python code. [Undefined] stands for the
    situations the language leaves open (a dictionary whose key set is
    edited while it is iterated, without a net change of size) and for
    stores with dangling references, which no Python program can build.
    [OutOfFuel] is an artefact of the embedding of recursion. *)
Inductive outcome (A : Type) : Type :=
| Ok (a : A)
| Raise (e : exn)
| Undefined
| OutOfFuel.
Arguments Ok {A} a.
Arguments Raise {A} e.
Arguments Undefined {A}.
Arguments OutOfFuel {A}.

Definition bind {A B} (m : outcome A) (f : A -> outcome B) : outcome B :=
  match m with
  | Ok a => f a
  | Raise e => Raise e
  | Undefined => Undefined
  | OutOfFuel => OutOfFuel
  end.

(** *** Characters and strings *)

Definition code (c : ascii) : nat := nat_of_ascii c.

Definition between (lo hi : nat) (c : ascii) : bool :=
  Nat.leb lo (code c) && Nat.leb (code c) hi.

Definition is_lower (c : ascii) : bool := between 97 122 c.
Definition is_upper (c : ascii) : bool := between 65 90 c.
Definition is_digit (c : ascii) : bool := between 48 57 c.

Definition ascii_eqb (a b : ascii) : bool := Ascii.eqb a b.

Definition to_lower (c : ascii) : ascii :=
  if is_upper c then ascii_of_nat (code c + 32) else c.
Definition to_upper (c : ascii) : ascii :=
  if is_lower c then ascii_of_nat (code c - 32) else c.

Fixpoint map_string (f : ascii -> ascii) (s : string) : string :=
  match s with
  | EmptyString => EmptyString
  | String c s' => String (f c) (map_string f s')
  end.

(** [str.lower()], on ASCII letters. *)
Definition lower (s : string) : string := map_string to_lower s.

(** [str.capitalize()], on ASCII letters: first character upper-cased,
    the others lower-cased. A string is a sequence of bytes here and a byte
    that is no ASCII letter is kept as it is, where Python maps the case of
    every cased character; the two agree on ASCII text. *)
Definition capitalize (s : string) : string :=
  match s with
  | EmptyString => EmptyString
  | String c s' => String (to_upper c) (lower s')
  end.

(** [s.startswith(p)]. *)
Fixpoint startswith (s p : string) : bool :=
  match p, s with
  | EmptyString, _ => true
  | String a p', String b s' => ascii_eqb a b && startswith s' p'
  | String _ _, EmptyString => false
  end.

(** [c in s] for a one-character [c]. *)
Fixpoint contains (c : ascii) (s : string) : bool :=
  match s with
  | EmptyString => false
  | String a s' => ascii_eqb a c || contains c s'
  end.

(** Longest prefix whose characters satisfy [p], and what follows it. *)
Fixpoint span (p : ascii -> bool) (s : string) : string * string :=
  match s with
  | EmptyString => (EmptyString, EmptyString)
  | String c s' =>
      if p c then let '(a, r) := span p s' in (String c a, r)
      else (EmptyString, s)
  end.

Definition newline : ascii := "010"%char.

(** [s.split("\n\n", 1)]: [None] when the separator does not occur. *)
Fixpoint split_blank_line (s : string) : option (string * string) :=
  match s with
  | EmptyString => None
  | String c s' =>
      match s' with
      | String c' r =>
          if ascii_eqb c newline && ascii_eqb c' newline then Some (EmptyString, r)
          else match split_blank_line s' with
               | Some (a, b) => Some (String c a, b)
               | None => None
               end
      | EmptyString => None
      end
  end.

(** *** Insertion-ordered dictionaries

    A [dict] keeps its entries in insertion order, one entry per key, as
    Python dictionaries do. *)

Section Dict.
Context {V : Type}.

Definition dict_keys (d : list (string * V)) : list string := map fst d.

Fixpoint dict_get (d : list (string * V)) (k : string) : option V :=
  match d with
  | [] => None
  | (k', v) :: d' => if String.eqb k' k then Some v else dict_get d' k
  end.

Definition dict_mem (d : list (string * V)) (k : string) : bool :=
  match dict_get d k with Some _ => true | None => false end.

(** [d[k] = v]: the value is replaced in place when [k] is present, and
    a new entry is appended otherwise. *)
Fixpoint dict_set (d : list (string * V)) (k : string) (v : V) : list (string * V) :=
  match d with
  | [] => [(k, v)]
  | (k', v') :: d' =>
      if String.eqb k' k then (k', v) :: d' else (k', v') :: dict_set d' k v
  end.

(** [del d[k]], also the store effect of [d.pop(k)]. *)
Fixpoint dict_del (d : list (string * V)) (k : string) : list (string * V) :=
  match d with
  | [] => []
  | (k', v') :: d' =>
      if String.eqb k' k then d' else (k', v') :: dict_del d' k
  end.

(** [d.update(d2)]. *)
Definition dict_update (d d2 : list (string * V)) : list (string * V) :=
  fold_left (fun acc kv => dict_set acc (fst kv) (snd kv)) d2 d.

End Dict.

End Py.

Import Py.

#[global] Instance outcome_ret : MRet outcome := @Ok.
#[global] Instance outcome_bind : MBind outcome := fun A B f m => Py.bind m f.

(** ** JSON-like values *)

(** Literals built by the module. A Python tuple or list is a [JList]; a
    float is kept as its literal. *)
Inductive json : Type :=
| JNone
| JBool (b : bool)
| JInt (z : Z)
| JFloat (literal : string)
| JStr (s : string)
| JList (l : list json)
| JDict (d : list (string * json)).

(** ** The route-template parser *)

Module Rule.

(** *** [RE_PARSE_RULE]

    <<
    (?P<static> [^<]* )  <
    (?: (?P<converter> [a-zA-Z_][a-zA-Z0-9_]* )
        (?: \( (?P<args> .*? ) \) )?  \:  )?
    (?P<variable> [a-zA-Z_][a-zA-Z0-9_]* )  >
    >>
    compiled with [re.VERBOSE] only (white space in the pattern is
    ignored), so [.] does not match a newline. *)

Definition ident_start (c : ascii) : bool :=
  is_lower c || is_upper c || ascii_eqb c "_".
Definition ident_char (c : ascii) : bool :=
  ident_start c || is_digit c.

(** [[a-zA-Z_][a-zA-Z0-9_]*], greedy. In the pattern an identifier is
    always followed by one of [(], [:] and [>], none of which is an
    identifier character: only the longest identifier can be followed by
    them, so backtracking into the identifier never succeeds. *)
Definition ident (s : string) : option (string * string) :=
  match s with
  | String c s' =>
      if ident_start c
      then let '(w, r) := span ident_char s' in Some (String c w, r)
      else None
  | EmptyString => None
  end.

(** [(?P<variable>...) >] *)
Definition variable_close (s : string) : option (string * string) :=
  match ident s with
  | Some (v, String ">" r) => Some (v, r)
  | _ => None
  end.

(** [\) \: (?P<variable>...) >], what has to follow the arguments. *)
Definition args_close (s : string) : option (string * string) :=
  match s with
  | String ")" (String ":" r) => variable_close r
  | _ => None
  end.

(** [(?P<args>.*?)] followed by [args_close]: lazy, so the shortest
    argument text after which the rest of the pattern matches; [.] stops
    at a newline. Result: arguments, variable, text after [>]. *)
Fixpoint lazy_args (s : string) : option (string * string * string) :=
  match args_close s with
  | Some (v, r) => Some (EmptyString, v, r)
  | None =>
      match s with
      | String c s' =>
          if ascii_eqb c newline then None
          else match lazy_args s' with
               | Some (a, v, r) => Some (String c a, v, r)
               | None => None
               end
      | EmptyString => None
      end
  end.

(** The groups of a match: [m.groupdict()] and the text from [m.end()]. *)
Record rmatch : Type := {
  m_static : string;
  m_converter : option string;
  m_args : option string;
  m_variable : string;
  m_rest : string
}.

(** What follows [<]. The optional converter group is tried first; when it
    fails the variable is tried directly after [<]. *)
Definition placeholder (static s : string) : option rmatch :=
  let with_converter :=
    match ident s with
    | Some (conv, String "(" r) =>
        match lazy_args r with
        | Some (a, v, r') => Some (Build_rmatch static (Some conv) (Some a) v r')
        | None => None
        end
    | Some (conv, String ":" r) =>
        match variable_close r with
        | Some (v, r') => Some (Build_rmatch static (Some conv) None v r')
        | None => None
        end
    | _ => None
    end in
  match with_converter with
  | Some m => Some m
  | None =>
      match variable_close s with
      | Some (v, r) => Some (Build_rmatch static None None v r)
      | None => None
      end
  end.

(** [RE_PARSE_RULE.match(rule, pos)], on the text [rule[pos:]]. The static
    part is the run of characters up to the first [<]. *)
Definition do_match (s : string) : option rmatch :=
  let '(static, r) := span (fun c => negb (ascii_eqb c "<")) s in
  match r with
  | String "<" r' => placeholder static r'
  | _ => None
  end.

(** *** [parse_rule] *)

(** The tuples yielded: [(None, None, text)] is [Static text], and
    [(converter, arguments, variable)] is [Dynamic]. *)
Inductive segment : Type :=
| Static (text : string)
| Dynamic (converter : string) (arguments : option string) (variable : string).

(** How a generator ends. *)
Inductive ending : Type :=
| Finished
| Raised (e : exn)
| NoFuel.

(** [x or None] for an optional string. *)
Definition or_None (x : option string) : option string :=
  match x with
  | Some EmptyString => None
  | _ => x
  end.

Definition or_default (x : option string) : string :=
  match x with
  | Some EmptyString | None => "default"
  | Some c => c
  end.

(** The code after the [while] loop, on [remaining = rule[pos:]]. *)
Definition parse_tail (rule remaining : string) : list segment * ending :=
  match remaining with
  | EmptyString => ([], Finished)
  | _ =>
      if contains ">" remaining || contains "<" remaining
      then ([], Raised (ValueError_malformed rule))
      else ([Static remaining], Finished)
  end.

(** The [while pos < end] loop, on [rest = rule[pos:]]. A match consumes
    at least the three characters [<v>], so [length rule] rounds suffice
    ([parse_loop_fuel] below). *)
Fixpoint parse_loop (fuel : nat) (rule rest : string) (used_names : gset string)
  : list segment * ending :=
  match fuel with
  | 0 => ([], NoFuel)
  | S fuel' =>
      match rest with
      | EmptyString => ([], Finished)
      | _ =>
          match do_match rest with
          | None => parse_tail rule rest
          | Some m =>
              let static :=
                match m_static m with
                | EmptyString => []
                | text => [Static text]
                end in
              let variable := m_variable m in
              let converter := or_default (m_converter m) in
              if decide (variable ∈ used_names)
              then (static, Raised (ValueError_used_twice variable))
              else
                let '(ys, e) :=
                  parse_loop fuel' rule (m_rest m) ({[variable]} ∪ used_names) in
                (static ++ Dynamic converter (or_None (m_args m)) variable :: ys, e)
          end
      end
  end.

(** The generator [parse_rule(rule)]: what it yields, and how it ends. *)
Definition parse_rule (rule : string) : list segment * ending :=
  parse_loop (S (String.length rule)) rule rule ∅.

End Rule.

Import Rule.

(** ** Converter schemas and the path spec builder *)

(** [get_converter_schema(converter, *args, **kwargs)] *)
Definition get_converter_schema (converter : string) (args : list json)
    (kwargs : list (string * json)) : json :=
  if String.eqb converter "any" then
    JDict [("type", JStr "array");
           ("items", JDict [("type", JStr "string"); ("enum", JList args)])]
  else if String.eqb converter "int" then
    JDict ([("type", JStr "integer"); ("format", JStr "int32")]
           ++ flat_map (fun prop =>
                match dict_get kwargs prop with
                | Some v => [(prop +:+ "imum", v)]
                | None => []
                end) ["min"; "max"])
  else if String.eqb converter "float" then
    JDict [("type", JStr "number"); ("format", JStr "float")]
  else if String.eqb converter "uuid" then
    JDict [("type", JStr "string"); ("format", JStr "uuid")]
  else if String.eqb converter "path" then
    JDict [("type", JStr "string"); ("format", JStr "path")]
  else if String.eqb converter "string" then
    JDict ([("type", JStr "string")]
           ++ flat_map (fun prop =>
                match dict_get kwargs prop with
                | Some v => [(prop, v)]
                | None => []
                end) ["length"; "maxLength"; "minLength"])
  else JDict [("type", JStr "string")].

(** What a call of [werkzeug.routing.parse_converter_args] gives: the
    positional and the keyword values it read, or the [ValueError] it
    raises for an argument text it cannot read, which names a fragment of
    that text. *)
Inductive tokens : Type :=
| Tokens (args : list json) (kwargs : list (string * json))
| CannotParse (fragment : string).

Definition tokenizer : Type := string -> tokens.

Section PathSpec.

(** [werkzeug.routing.parse_converter_args], the argument-string tokenizer
    of the routing library. *)
Variable parse_converter_args : tokenizer.

(** One round of the [for] loop of [parse_url]. The tokenizer is called
    for a placeholder with an argument text, and its [ValueError] is not
    caught. The call [get_converter_schema(converter, *args, **kwargs)] is
    a [TypeError] when a keyword is named like the first parameter. *)
Definition parse_url_step (seg : segment) (acc : string * list json)
  : outcome (string * list json) :=
  let '(subs, parameters) := acc in
  match seg with
  | Static text => Ok (subs +:+ text, parameters)
  | Dynamic converter arguments variable =>
      match
        match arguments with
        | Some a => parse_converter_args a
        | None => Tokens [] []
        end
      with
      | CannotParse fragment => Raise (ValueError_converter_argument fragment)
      | Tokens args kwargs =>
          if dict_mem kwargs "converter"
          then Raise (TypeError_multiple_values "converter")
          else
            let schema := get_converter_schema converter args kwargs in
            Ok (subs +:+ "{" +:+ variable +:+ "}",
                parameters ++ [JDict [("name", JStr variable); ("in", JStr "path");
                                      ("required", JBool true); ("schema", schema)]])
      end
  end.

Fixpoint parse_url_loop (segs : list segment) (acc : string * list json)
  : outcome (string * list json) :=
  match segs with
  | [] => Ok acc
  | seg :: segs' => acc' ← parse_url_step seg acc; parse_url_loop segs' acc'
  end.

(** [parse_url(path)]: the segments are consumed as the generator yields
    them, so an exception of the generator is met after the segments it
    yielded have been processed. *)
Definition parse_url (path : string) : outcome (string * list json) :=
  let '(segs, e) := parse_rule path in
  acc ← parse_url_loop segs (EmptyString, []);
  match e with
  | Finished => Ok acc
  | Raised x => Raise x
  | NoFuel => OutOfFuel
  end.

End PathSpec.

(** A stand-in for the tokenizer of the routing library on the argument
    texts [name=digits,...,name=digits] in which every [name] is an
    identifier: there the library reads each item as the keyword [name]
    with the integer the digits denote. Any other text is refused here,
    and named whole; the library reads more than this, and names the part
    of a text that it cannot read. *)
Module ArgTokenizer.

Fixpoint digits_value (s : string) (acc : Z) : option Z :=
  match s with
  | EmptyString => Some acc
  | String c s' =>
      if is_digit c then digits_value s' (acc * 10 + Z.of_nat (code c - 48))%Z
      else None
  end.

Definition int_literal (s : string) : option Z :=
  match s with
  | EmptyString => None
  | _ => digits_value s 0%Z
  end.

Fixpoint split_commas (s : string) (cur : string) : list string :=
  match s with
  | EmptyString => [cur]
  | String c s' =>
      if ascii_eqb c "," then cur :: split_commas s' EmptyString
      else split_commas s' (cur +:+ String c EmptyString)
  end.

(** One item [name=digits]. *)
Definition keyword (it : string) : option (string * json) :=
  match ident it with
  | Some (name, String "=" value) =>
      match int_literal value with
      | Some z => Some (name, JInt z)
      | None => None
      end
  | _ => None
  end.

Fixpoint keywords (items : list string) (kwargs : list (string * json))
  : option (list (string * json)) :=
  match items with
  | [] => Some kwargs
  | it :: items' =>
      match keyword it with
      | Some (name, v) => keywords items' (dict_set kwargs name v)
      | None => None
      end
  end.

Definition parse_int_args : tokenizer := fun argstr =>
  match keywords (split_commas argstr EmptyString) [] with
  | Some kwargs => Tokens [] kwargs
  | None => CannotParse argstr
  end.

End ArgTokenizer.

(** ** Handlers and their attached metadata *)

(** Python objects found in the [_openapi] attribute of a view function:
    the marker of the registration scheme that decorated it. Classes and
    instances are compared by identity, here by name. *)
Inductive pyobj : Type :=
| PNone
| PBool (b : bool)
| PInt (z : Z)
| PStr (s : string)
| PClass (name : string)
| PInstance (of_class : string).

#[global] Instance pyobj_eq_dec : EqDecision pyobj.
Proof. solve_decision. Defined.

(** Truth value of an object, as tested by [if] and [and]. *)
Definition truthy (o : pyobj) : bool :=
  match o with
  | PNone => false
  | PBool b => b
  | PInt z => negb (Z.eqb z 0)
  | PStr s => negb (String.eqb s "")
  | PClass _ | PInstance _ => true
  end.

(** A method of a view class ([view_func]), with the attributes the
    decorator may have set on it. *)
Record view_func : Type := {
  vf_body : option string;
  vf_form : option string;
  vf_query : option string
}.

(** A view function ([func]): [None] in a field is an absent attribute. *)
Record handler : Type := {
  f_name : string;                                 (* func.__name__ *)
  f_doc : option string;                           (* inspect.getdoc(func) *)
  f_tags : option (list string);
  f_openapi : option pyobj;                        (* func._openapi *)
  f_view_class : option (list (string * view_func)); (* attributes of func.view_class *)
  f_query : option string;
  f_body : option string;
  f_form : option string;
  f_response : option string;
  f_exceptions : option (list (string * string))   (* code -> message *)
}.

(** A routing rule: [str(rule)], [rule.endpoint], [rule.methods]. *)
Record rule : Type := {
  r_rule : string;
  r_endpoint : string;
  r_methods : list string
}.

Record flask_app : Type := {
  url_map : list rule;                       (* app.url_map.iter_rules() *)
  view_functions : list (string * handler)
}.

Definition loc : Type := positive.

(** An [OpenAPI] instance. [info] and [extra_props] are references to
    dictionaries owned by the caller; [_spec] is [None] or a reference to
    the cached document. *)
Record OpenAPI : Type := {
  cls : string;                              (* self.__class__ *)
  app : flask_app;
  endpoint : string;
  url_prefix : option string;
  mode : string;
  openapi_version : string;
  info : loc;
  extra_props : loc;
  _spec : option loc
}.

(** [OpenAPI._bypass(self, func)] *)
Definition _bypass (self : OpenAPI) (func : handler) : bool :=
  if String.eqb (mode self) "greedy" then false
  else if String.eqb (mode self) "strict" then
    if decide (default PNone (f_openapi func) = PClass (cls self)) then false
    else true
  else
    let decorator := default PNone (f_openapi func) in
    if truthy decorator && negb (bool_decide (decorator = PClass (cls self)))
    then true
    else false.

(** [get_summary_desc(func)] *)
Definition get_summary_desc (func : handler) : option string * option string :=
  match f_doc func with
  | None | Some EmptyString => (None, None)
  | Some doc =>
      match split_blank_line doc with
      | None => (Some doc, None)
      | Some (summary, desc) => (Some summary, Some desc)
      end
  end.

(** [x or y] on optional strings. *)
Definition or_else (x : option string) (y : string) : string :=
  match x with
  | None | Some EmptyString => y
  | Some s => s
  end.

Definition is_some {A} (x : option A) : bool :=
  match x with Some _ => true | None => false end.

(** ** The operation aggregator: the body of the [for method] loop *)

Definition schema_ref (name : string) : json :=
  JDict [("$ref", JStr ("#/components/schemas/" +:+ name))].

Definition json_content (name : string) : json :=
  JDict [("application/json", JDict [("schema", schema_ref name)])].

(** Lines 217-247: request body and query parameter of the view class
    method, when the view class has an attribute named like the method. *)
Definition with_view_func (func : handler) (method : string)
    (spec : list (string * json)) (params : list json)
  : list (string * json) * list json :=
  match f_view_class func with
  | None => (spec, params)
  | Some attributes =>
      match dict_get attributes (lower method) with
      | None => (spec, params)
      | Some view_func =>
          let spec1 :=
            match vf_body view_func with
            | Some body => dict_set spec "requestBody" (JDict [("content", json_content body)])
            | None => spec
            end in
          let spec2 :=
            match vf_form view_func with
            | Some form => dict_set spec1 "requestBody" (JDict [("content", json_content form)])
            | None => spec1
            end in
          let params1 :=
            match vf_query view_func with
            | Some query =>
                params ++ [JDict [("name", JStr query); ("in", JStr "query");
                                  ("required", JBool true); ("schema", schema_ref query)]]
            | None => params
            end in
          (spec2, params1)
      end
  end.

(** Lines 250-258: the declared exceptions. *)
Definition declared_responses (exceptions : list (string * string))
  : list (string * json) * bool :=
  fold_left
    (fun '(responses, has_2xx) '(code, msg) =>
       (dict_set responses code (JDict [("description", JStr msg)]),
        if startswith code "2" then true else has_2xx))
    exceptions ([], false).

(** Lines 250-279: [spec["responses"]]. *)
Definition responses_of (func : handler) : list (string * json) :=
  let '(responses, has_2xx) :=
    match f_exceptions func with
    | Some exceptions => declared_responses exceptions
    | None => ([], false)
    end in
  let responses1 :=
    match f_response func with
    | Some response =>
        dict_set responses "200"
          (JDict [("description", JStr "Successful Response");
                  ("content", json_content response)])
    | None =>
        if negb has_2xx
        then dict_set responses "200" (JDict [("description", JStr "Successful Response")])
        else responses
    end in
  if is_some (f_query func) || is_some (f_body func)
     || is_some (f_form func) || is_some (f_response func)
  then dict_set responses1 "400" (JDict [("description", JStr "Validation Error")])
  else responses1.

(** Lines 206-279: the operation of [func] for [method], given the path
    parameters of the rule. *)
Definition operation (func : handler) (method : string) (parameters : list json)
  : list (string * json) :=
  let '(summary, desc) := get_summary_desc func in
  let spec :=
    [("summary", JStr (or_else summary (capitalize (f_name func))));
     ("description", JStr (or_else desc ""));
     ("operationID", JStr (f_name func +:+ "__" +:+ lower method));
     ("tags", JList (map JStr (default [] (f_tags func))))] in
  let '(spec1, params) := with_view_func func method spec parameters in
  let spec2 := dict_set spec1 "parameters" (JList params) in
  dict_set spec2 "responses" (JDict (responses_of func)).

(** ** The first loop of [generate_spec]: routes and tags *)

Definition routes_t : Type := list (string * list (string * json)).
Definition tags_t : Type := list (string * json).

Definition add_tags (func : handler) (tags : tags_t) : tags_t :=
  match f_tags func with
  | Some ts =>
      fold_left (fun tags tag =>
                   if dict_mem tags tag then tags
                   else dict_set tags tag (JDict [("name", JStr tag)])) ts tags
  | None => tags
  end.

(** One round of [for method in rule.methods]. *)
Definition visit_method (func : handler) (path : string) (parameters : list json)
    (acc : routes_t * tags_t) (method : string) : routes_t * tags_t :=
  let '(routes, tags) := acc in
  if String.eqb method "HEAD" || String.eqb method "OPTIONS" then (routes, tags)
  else
    let tags1 := add_tags func tags in
    let spec := operation func method parameters in
    (dict_set routes path
       (dict_set (default [] (dict_get routes path)) (lower method) (JDict spec)),
     tags1).

Section Routes.

Variable parse_converter_args : tokenizer.

(** [rule] lies under the document's own endpoint or under [/static]. *)
Definition own_route (self : OpenAPI) (r : rule) : bool :=
  startswith (r_rule r) (default "" (url_prefix self) +:+ endpoint self)
  || startswith (r_rule r) "/static".

(** One round of [for rule in self.app.url_map.iter_rules()]. *)
Definition visit_rule (self : OpenAPI) (acc : routes_t * tags_t) (r : rule)
  : outcome (routes_t * tags_t) :=
  if own_route self r then Ok acc
  else
    match dict_get (view_functions (app self)) (r_endpoint r) with
    | None => Raise (KeyError (r_endpoint r))
    | Some func =>
        '(path, parameters) ← parse_url parse_converter_args (r_rule r);
        if _bypass self func then Ok acc
        else
          let '(routes, tags) := acc in
          let routes1 :=
            if dict_mem routes path then routes else dict_set routes path [] in
          Ok (fold_left (visit_method func path parameters) (r_methods r)
                (routes1, tags))
    end.

Fixpoint visit_rules (self : OpenAPI) (rules : list rule) (acc : routes_t * tags_t)
  : outcome (routes_t * tags_t) :=
  match rules with
  | [] => Ok acc
  | r :: rules' => acc' ← visit_rule self acc r; visit_rules self rules' acc'
  end.

Definition collect_routes (self : OpenAPI) : outcome (routes_t * tags_t) :=
  visit_rules self (url_map (app self)) ([], []).

End Routes.

(** ** The store of dictionaries *)

(** A Python value that is not a dictionary. Lists are never mutated once
    they are reachable from a dictionary, so their contents are kept as
    literals. *)
Inductive atom : Type :=
| ANone
| ABool (b : bool)
| AInt (z : Z)
| AFloat (literal : string)
| AStr (s : string)
| AList (l : list json).

(** A value held by a dictionary: an atom, or a reference to a dictionary,
    for which [isinstance(v, dict)] holds. *)
Inductive value : Type :=
| VAtom (a : atom)
| VDict (l : loc).

(** A dictionary object. [version] counts the insertions and deletions of
    keys the object went through; it lets an iteration notice that the key
    set of the dictionary it walks was edited. *)
Record dictobj : Type := {
  entries : list (string * value);
  version : nat
}.

Abbreviation heap := (gmap loc dictobj).

Definition json_of_atom (a : atom) : json :=
  match a with
  | ANone => JNone
  | ABool b => JBool b
  | AInt z => JInt z
  | AFloat s => JFloat s
  | AStr s => JStr s
  | AList l => JList l
  end.

Module Store.

Definition deref (h : heap) (l : loc) : outcome dictobj :=
  match h !! l with
  | Some o => Ok o
  | None => Undefined
  end.

(** [{...}]: a new dictionary with the given entries. *)
Definition new_dict (es : list (string * value)) (h : heap) : loc * heap :=
  let l := fresh (dom h) in
  (l, <[l := {| entries := es; version := 0 |}]> h).

(** [d[k] = v] *)
Definition setitem (l : loc) (k : string) (v : value) (h : heap) : outcome heap :=
  o ← deref h l;
  Ok (<[l := {| entries := dict_set (entries o) k v;
                version := if dict_mem (entries o) k then version o
                           else S (version o) |}]> h).

(** [del d[k]], and the store effect of [d.pop(k)], for a present [k]. *)
Definition delitem (l : loc) (k : string) (h : heap) : outcome heap :=
  o ← deref h l;
  Ok (<[l := {| entries := dict_del (entries o) k; version := S (version o) |}]> h).

(** [d.update(d2)] *)
Definition update (l l2 : loc) (h : heap) : outcome heap :=
  o2 ← deref h l2;
  fold_left (fun acc kv => h' ← acc; setitem l (fst kv) (snd kv) h')
            (entries o2) (Ok h).

(** The test made by [next()] on a dictionary view: the dictionary must
    have the size it had when the iteration started. *)
Definition iter_check (h : heap) (d : loc) (size0 version0 : nat) : outcome unit :=
  o ← deref h d;
  if negb (Nat.eqb (length (entries o)) size0) then Raise RuntimeError_changed_size
  else if negb (Nat.eqb (version o) version0) then Undefined
  else Ok tt.

Section ForItems.
Context {A : Type}.
Variable body : string -> value -> A * heap -> outcome (A * heap).

(** [for k, v in d.items(): body], over the keys [ks] still to come. The
    value is read from the dictionary when its turn comes. *)
Fixpoint for_items_from (d : loc) (size0 version0 : nat) (ks : list string)
    (st : A * heap) : outcome (A * heap) :=
  match ks with
  | [] => _ ← iter_check (snd st) d size0 version0; Ok st
  | k :: ks' =>
      _ ← iter_check (snd st) d size0 version0;
      o ← deref (snd st) d;
      match dict_get (entries o) k with
      | None => Undefined
      | Some v =>
          st' ← body k v st;
          for_items_from d size0 version0 ks' st'
      end
  end.

Definition for_items (d : loc) (st : A * heap) : outcome (A * heap) :=
  o ← deref (snd st) d;
  for_items_from d (length (entries o)) (version o) (dict_keys (entries o)) st.
End ForItems.

(** Building the dictionaries of a literal: every [JDict] becomes a new
    object. *)
Fixpoint alloc (j : json) (h : heap) : value * heap :=
  match j with
  | JNone => (VAtom ANone, h)
  | JBool b => (VAtom (ABool b), h)
  | JInt z => (VAtom (AInt z), h)
  | JFloat s => (VAtom (AFloat s), h)
  | JStr s => (VAtom (AStr s), h)
  | JList l => (VAtom (AList l), h)
  | JDict d =>
      let '(es, h1) :=
        (fix alloc_entries (d : list (string * json)) (h : heap) :=
           match d with
           | [] => ([], h)
           | (k, x) :: d' =>
               let '(v, h1) := alloc x h in
               let '(es, h2) := alloc_entries d' h1 in
               ((k, v) :: es, h2)
           end) d h in
      let '(l, h2) := new_dict es h1 in
      (VDict l, h2)
  end.

(** Reading a value back as a literal, down to [fuel] nested
    dictionaries. *)
Fixpoint read (fuel : nat) (h : heap) (v : value) : option json :=
  match v with
  | VAtom a => Some (json_of_atom a)
  | VDict l =>
      match fuel with
      | 0 => None
      | S fuel' =>
          o ← h !! l;
          d ← mapM (fun kv => x ← read fuel' h (snd kv); Some (fst kv, x)) (entries o);
          Some (JDict d)
      end
  end.

End Store.

Import Store.

(** ** The recursive merge *)

(** The body of [for k, v in d1.items()] in [merge_dicts]; [rec] is the
    recursive call. *)
Definition merge_body (rec : loc -> loc -> heap -> outcome (loc * heap))
    (d1 d2 : loc) (k : string) (v : value) (st : unit * heap)
  : outcome (unit * heap) :=
  let h := snd st in
  o2 ← deref h d2;
  match dict_get (entries o2) k with
  | None => Ok st                                    (* k not in d2 *)
  | Some v2 =>
      h1 ← delitem d2 k h;                           (* v2 = d2.pop(k) *)
      match v, v2 with
      | VDict a, VDict b =>
          '(_, h2) ← rec a b h1;                     (* merge_dicts(v, v2) *)
          Ok (tt, h2)
      | _, _ =>
          h2 ← setitem d1 k v2 h1;                   (* d1[k] = v2 *)
          Ok (tt, h2)
      end
  end.

(** [merge_dicts(d1, d2)]: the reference returned is [d1] itself. *)
Fixpoint merge_dicts (fuel : nat) (d1 d2 : loc) (h : heap) : outcome (loc * heap) :=
  match fuel with
  | 0 => OutOfFuel
  | S fuel' =>
      '(_, h1) ← for_items (merge_body (merge_dicts fuel') d1 d2) d1 (tt, h);
      h2 ← update d1 d2 h1;
      Ok (d1, h2)
  end.

(** ** Document assembly *)

(** The body of [for _, schema in self._models.items()]: the nested
    definitions of a registered schema are hoisted and the nested map is
    deleted from the schema. The registry is written by [add_model] only,
    which stores dictionaries; another kind of entry is outside the model. *)
Definition flatten_body (name : string) (schema : value)
    (st : list (string * value) * heap) : outcome (list (string * value) * heap) :=
  match schema with
  | VAtom _ => Undefined
  | VDict s =>
      o ← deref (snd st) s;
      match dict_get (entries o) "definitions" with
      | None => Ok st
      | Some (VAtom _) => Raise (AttributeError "items")
      | Some (VDict nested) =>
          '(definitions, h1) ←
            for_items (fun key value st => Ok (dict_set (fst st) key value, snd st))
                      nested st;
          h2 ← delitem s "definitions" h1;
          Ok (definitions, h2)
      end
  end.

Section Assembly.

Variable parse_converter_args : tokenizer.

(** The class attribute [OpenAPI._models], one dictionary for the whole
    process. *)
Variable _models : loc.

(** [OpenAPI.generate_spec(self)] *)
Definition generate_spec (fuel : nat) (self : OpenAPI) (h : heap)
  : outcome (loc * heap) :=
  '(routes, tags) ← collect_routes parse_converter_args self;
  '(definitions, h1) ← for_items flatten_body _models ([], h);
  let '(paths, h2) :=
    alloc (JDict (map (fun '(path, methods) => (path, JDict methods)) routes)) h1 in
  registry ← deref h2 _models;
  let '(schemas, h3) := new_dict (entries registry) h2 in
  let '(components, h4) := new_dict [("schemas", VDict schemas)] h3 in
  let '(defs, h5) := new_dict definitions h4 in
  let '(data, h6) :=
    new_dict [("openapi", VAtom (AStr (openapi_version self)));
              ("info", VDict (info self));
              ("tags", VAtom (AList (map snd tags)));
              ("paths", paths);
              ("components", VDict components);
              ("definitions", VDict defs)] h5 in
  '(_, h7) ← merge_dicts fuel data (extra_props self) h6;
  Ok (data, h7).

Definition set_spec (self : OpenAPI) (d : option loc) : OpenAPI :=
  {| cls := cls self; app := app self; endpoint := endpoint self;
     url_prefix := url_prefix self; mode := mode self;
     openapi_version := openapi_version self; info := info self;
     extra_props := extra_props self; _spec := d |}.

Definition set_extra_props (self : OpenAPI) (e : loc) : OpenAPI :=
  {| cls := cls self; app := app self; endpoint := endpoint self;
     url_prefix := url_prefix self; mode := mode self;
     openapi_version := openapi_version self; info := info self;
     extra_props := e; _spec := _spec self |}.

(** The property [OpenAPI.spec]: the document, the instance and the store
    after the access. *)
Definition spec (fuel : nat) (self : OpenAPI) (h : heap)
  : outcome (loc * OpenAPI * heap) :=
  match _spec self with
  | None =>
      '(data, h') ← generate_spec fuel self h;
      Ok (data, set_spec self (Some data), h')
  | Some data => Ok (data, self, h)
  end.

(** [OpenAPI.add_model(model)], with [name = model.__name__] and [schema]
    the dictionary that the call [model.schema()] returns, which the model
    class keeps: the registry gets a reference to that dictionary, not a
    copy of it. *)
Definition add_model (name : string) (schema : loc) (h : heap) : outcome heap :=
  setitem _models name (VDict schema) h.

(** [add_openapi_spec(app, ...)]; [singleton] is the function attribute
    [add_openapi_spec.openapi], [None] while it is not set. The arguments
    are given as the instance they would build. *)
Definition add_openapi_spec (fuel : nat) (singleton : option OpenAPI)
    (args : OpenAPI) (h : heap) : outcome (loc * option OpenAPI * heap) :=
  if negb (String.eqb (mode args) "normal" || String.eqb (mode args) "greedy"
           || String.eqb (mode args) "strict")
  then Raise AssertionError
  else
    let openapi :=
      match singleton with
      | None => set_spec args None
      | Some o => o
      end in
    let openapi1 := set_extra_props openapi (extra_props args) in
    match spec fuel openapi1 h with
    | Ok (data, openapi2, h') => Ok (data, Some openapi2, h')
    | Raise e => Raise e            (* the attribute was set before *)
    | Undefined => Undefined
    | OutOfFuel => OutOfFuel
    end.

End Assembly.

(** * Specification-side definitions *)

(** ** Templates as the data model describes them

    Literal text interleaved with placeholders [<name>], [<converter:name>]
    and [<converter(args):name>]. *)
Inductive piece : Type :=
| Lit (text : string)
| Hole (converter : option (string * option string)) (name : string).

Definition render_piece (p : piece) : string :=
  match p with
  | Lit text => text
  | Hole None name => "<" +:+ name +:+ ">"
  | Hole (Some (c, None)) name => "<" +:+ c +:+ ":" +:+ name +:+ ">"
  | Hole (Some (c, Some a)) name => "<" +:+ c +:+ "(" +:+ a +:+ "):" +:+ name +:+ ">"
  end.

Definition render (ps : list piece) : string :=
  fold_right (fun p s => render_piece p +:+ s) EmptyString ps.



(** The argument texts among the segments of a template, which [parse_url]
    hands to the tokenizer. *)
Definition segment_arguments (ys : list segment) : list string :=
  flat_map (fun seg => match seg with Dynamic _ (Some a) _ => [a] | _ => [] end) ys.


(** [s] is an identifier: [[a-zA-Z_][a-zA-Z0-9_]*]. *)
Definition identifier (s : string) : Prop :=
  exists c w, s = String c w /\ ident_start c = true
              /\ span ident_char w = (w, EmptyString).

(** Some part of the argument text closes a placeholder already: the text
    holds [):name>] for an identifier [name]. *)
Fixpoint closes_early (a : string) : bool :=
  match args_close a with
  | Some _ => true
  | None =>
      match a with
      | String _ a' => closes_early a'
      | EmptyString => false
      end
  end.

(** The pieces that are read as they are written: literal text holds no
    [<]; converter and name are identifiers; the argument text holds no
    newline, which the pattern does not accept there, and no [):name>],
    at which the pattern would end the placeholder. *)
Definition wf_piece (p : piece) : Prop :=
  match p with
  | Lit text => contains "<" text = false
  | Hole conv name =>
      identifier name /\
      match conv with
      | None => True
      | Some (c, None) => identifier c
      | Some (c, Some a) =>
          identifier c /\ closes_early a = false /\ contains newline a = false
      end
  end.

(** ** The merge, in the words of the specification

    For every key present in both: if both values are mappings, merge
    recursively, otherwise the overlay value replaces the base value. Keys
    present only in the overlay are added; keys present only in the base
    are untouched. *)
Fixpoint merge_spec_value (b o : json) {struct b} : json :=
  match b, o with
  | JDict bd, JDict od =>
      JDict
        ((fix walk (bd : list (string * json)) : list (string * json) :=
            match bd with
            | [] => []
            | (k, v) :: bd' =>
                (k, match dict_get od k with
                    | Some v2 => merge_spec_value v v2
                    | None => v
                    end) :: walk bd'
            end) bd
         ++ filter (fun kv => dict_mem bd (fst kv) = false) od)
  | _, _ => o
  end.

Definition merge_spec (base overlay : list (string * json)) : list (string * json) :=
  match merge_spec_value (JDict base) (JDict overlay) with
  | JDict d => d
  | _ => []
  end.

(** ** Tree-shaped regions of the store *)

(** A dictionary of the store together with everything reachable from it,
    when that is a tree: each node names the object that holds it. *)
Inductive shape : Type :=
| SLeaf (a : atom)
| SNode (l : loc) (children : list (string * shape)).

Definition root (s : shape) : value :=
  match s with
  | SLeaf a => VAtom a
  | SNode l _ => VDict l
  end.

Definition rootkv (kc : string * shape) : string * value := (fst kc, root (snd kc)).

(** The objects of a shape. *)
Fixpoint locs (s : shape) : list loc :=
  match s with
  | SLeaf _ => []
  | SNode l cs => l :: flat_map (fun '(_, c) => locs c) cs
  end.

(** The literal a shape stands for. *)
Fixpoint erase (s : shape) : json :=
  match s with
  | SLeaf a => json_of_atom a
  | SNode _ cs => JDict (map (fun '(k, c) => (k, erase c)) cs)
  end.

Fixpoint depth (s : shape) : nat :=
  match s with
  | SLeaf _ => 0
  | SNode _ cs => S (fold_right (fun '(_, c) n => Nat.max (depth c) n) 0 cs)
  end.

(** The store holds the shape: every node is an object whose entries are
    the roots of its children, under distinct keys. *)
Fixpoint holds (h : heap) (s : shape) : Prop :=
  match s with
  | SLeaf _ => True
  | SNode l cs =>
      (entries <$> h !! l) = Some (map rootkv cs)
      /\ NoDup (map fst cs)
      /\ fold_right (fun '(_, c) P => holds h c /\ P) True cs
  end.

(** Two shapes that share no object. *)
Definition separate (s1 s2 : shape) : Prop := NoDup (locs s1 ++ locs s2).

(** [v] stands for the literal [j] in [h]. *)
Definition denotes (h : heap) (v : value) (j : json) : Prop :=
  exists s, holds h s /\ root s = v /\ erase s = j.

(** What [merge_dicts] leaves of an overlay: from every overlay dictionary
    that met a base dictionary, the keys of that base dictionary are
    gone. *)
Fixpoint overlay_popped (h' : heap) (b o : shape) {struct b} : Prop :=
  match b, o with
  | SNode _ bcs, SNode l2 ocs =>
      (entries <$> h' !! l2)
        = Some (map rootkv (filter (fun kc => dict_mem bcs (fst kc) = false) ocs))
      /\ (fix walk (bcs : list (string * shape)) : Prop :=
            match bcs with
            | [] => True
            | (k, c) :: bcs' =>
                match dict_get ocs k with
                | Some c2 => overlay_popped h' c c2
                | None => True
                end /\ walk bcs'
            end) bcs
  | _, _ => True
  end.

(** ** Definitions used by the statements and their proofs *)

(** The path has an operation stored under [key]. *)
Definition has_operation (routes : routes_t) (path key : string) : Prop :=
  exists methods, dict_get routes path = Some methods /\ dict_mem methods key = true.

Definition foreign_handler : handler :=
  {| f_name := "ping"; f_doc := None; f_tags := None;
     f_openapi := Some (PBool false); f_view_class := None;
     f_query := None; f_body := None; f_form := None; f_response := None;
     f_exceptions := None |}.

Definition spectree_handler : handler :=
  {| f_name := "other"; f_doc := None; f_tags := None;
     f_openapi := Some (PInstance "SpecTree"); f_view_class := None;
     f_query := None; f_body := None; f_form := None; f_response := None;
     f_exceptions := None |}.

Definition unmarked_handler : handler :=
  {| f_name := "ping"; f_doc := None; f_tags := None;
     f_openapi := None; f_view_class := None;
     f_query := None; f_body := None; f_form := None; f_response := None;
     f_exceptions := None |}.

Definition mixed_instance : OpenAPI :=
  {| cls := "OpenAPI";
     app := {| url_map := [ {| r_rule := "/ping"; r_endpoint := "ping";
                               r_methods := ["GET"; "HEAD"] |};
                            {| r_rule := "/other"; r_endpoint := "other";
                               r_methods := ["GET"] |} ];
               view_functions := [("ping", unmarked_handler);
                                  ("other", spectree_handler)] |};
     endpoint := "/docs/new/"; url_prefix := None; mode := "normal";
     openapi_version := "3.0.2"; info := 1%positive; extra_props := 2%positive;
     _spec := None |}.

Definition normal_instance : OpenAPI :=
  {| cls := "OpenAPI";
     app := {| url_map := [ {| r_rule := "/ping"; r_endpoint := "ping";
                               r_methods := ["GET"] |} ];
               view_functions := [("ping", foreign_handler)] |};
     endpoint := "/docs/new/"; url_prefix := None; mode := "normal";
     openapi_version := "3.0.2"; info := 1%positive; extra_props := 2%positive;
     _spec := None |}.

Definition set_view_class (func : handler)
    (attributes : option (list (string * view_func))) : handler :=
  {| f_name := f_name func; f_doc := f_doc func; f_tags := f_tags func;
     f_openapi := f_openapi func;
     f_view_class := attributes;
     f_query := f_query func; f_body := f_body func; f_form := f_form func;
     f_response := f_response func; f_exceptions := f_exceptions func |}.

(** The same attributes, with the [body] attribute removed from the
    method named [name]. *)
Fixpoint without_body (attributes : list (string * view_func)) (name : string)
  : list (string * view_func) :=
  match attributes with
  | [] => []
  | (k, vf) :: rest =>
      if String.eqb k name
      then (k, {| vf_body := None; vf_form := vf_form vf; vf_query := vf_query vf |}) :: rest
      else (k, vf) :: without_body rest name
  end.

Definition upload_handler : handler :=
  {| f_name := "upload"; f_doc := None; f_tags := None; f_openapi := None;
     f_view_class :=
       Some [("post", {| vf_body := Some "Payload"; vf_form := Some "UploadForm";
                         vf_query := None |})];
     f_query := None; f_body := None; f_form := None; f_response := None;
     f_exceptions := None |}.

Definition description (msg : string) : json := JDict [("description", JStr msg)].

Definition typed (func : handler) : bool :=
  is_some (f_query func) || is_some (f_body func)
  || is_some (f_form func) || is_some (f_response func).

Definition validated_handler : handler :=
  {| f_name := "search"; f_doc := None; f_tags := None; f_openapi := None;
     f_view_class := None;
     f_query := Some "SearchQuery"; f_body := None; f_form := None;
     f_response := None;
     f_exceptions := Some [("400", "Bad request"); ("404", "Not found")] |}.

Definition plain_handler : handler :=
  {| f_name := "ping"; f_doc := None; f_tags := None; f_openapi := None;
     f_view_class := None;
     f_query := None; f_body := None; f_form := None; f_response := None;
     f_exceptions := Some [("400", "Validation Error")] |}.

(** A handler that declares a response type, and a message for the code
    "200". *)
Definition answering_handler : handler :=
  {| f_name := "show"; f_doc := None; f_tags := None; f_openapi := None;
     f_view_class := None;
     f_query := None; f_body := None; f_form := None;
     f_response := Some "Pet";
     f_exceptions := Some [("200", "Found"); ("404", "Not found")] |}.

(** A store with the caller's [info] (1) and [extra_props] (2) dictionaries
    and the registry (3). *)
Definition initial_store : heap :=
  <[1%positive := {| entries := [("title", VAtom (AStr "Service Documents"));
                                 ("version", VAtom (AStr "latest"))];
                     version := 0 |}]>
  (<[2%positive := {| entries := []; version := 0 |}]>
  (<[3%positive := {| entries := []; version := 0 |}]> ∅)).

(** The store [initial_store] with [extra_props] (2) that share no key with
    [info] (1): a text and a dictionary (4). *)
Definition extension_store : heap :=
  <[2%positive := {| entries := [("x-logo", VAtom (AStr "logo.png"));
                                 ("contact", VDict 4%positive)];
                     version := 0 |}]>
  (<[4%positive := {| entries := [("email", VAtom (AStr "dev@example.org"))];
                      version := 0 |}]> initial_store).

(** The text of a placeholder after its [<]. *)
Definition hole_body (conv : option (string * option string)) (name : string) : string :=
  match conv with
  | None => name +:+ ">"
  | Some (c, None) => c +:+ ":" +:+ name +:+ ">"
  | Some (c, Some a) => c +:+ "(" +:+ a +:+ "):" +:+ name +:+ ">"
  end.

Definition children_locs (cs : list (string * shape)) : list loc :=
  flat_map (fun '(_, c) => locs c) cs.

Definition erase_entries (cs : list (string * shape)) : list (string * json) :=
  map (fun kc => (fst kc, erase (snd kc))) cs.

Definition ents (h : heap) (l : loc) : option (list (string * value)) :=
  entries <$> h !! l.

Definition merge_child (od : list (string * json)) (kv : string * json)
  : string * json :=
  (fst kv, match dict_get od (fst kv) with
           | Some v2 => merge_spec_value (snd kv) v2
           | None => snd kv
           end).

(** The contract of one call [merge_dicts(a, b)] on the dictionaries [a]
    and [b] with children [ca] and [cb]. *)
Definition merge_post (a : loc) (ca : list (string * shape))
    (b : loc) (cb : list (string * shape)) (h h' : heap) : Prop :=
  exists ca',
    holds h' (SNode a ca')
    /\ erase_entries ca' = merge_spec (erase_entries ca) (erase_entries cb)
    /\ (forall l, In l (children_locs ca') ->
                  In l (children_locs ca) \/ In l (children_locs cb))
    /\ (forall l, ~ In l (locs (SNode a ca)) -> ~ In l (locs (SNode b cb)) ->
                  h' !! l = h !! l)
    /\ overlay_popped h' (SNode a ca) (SNode b cb)
    /\ holds h' (SNode b (filter (fun kc => dict_mem ca (fst kc) = false) cb)).

(** The objects a round of the loop of [merge_dicts(l1, l2)] for key [k]
    may write; [cs1] and [cs2] are the children of [l1] and [l2]. *)
Definition modified (l1 l2 : loc) (cs1 cs2 : list (string * shape))
    (k : string) (l : loc) : Prop :=
  l = l1 \/ l = l2
  \/ (exists c, In (k, c) cs1 /\ In l (locs c))
  \/ (exists c, In (k, c) cs2 /\ In l (locs c)).

(** What a finished round leaves for the child [c] of the base at [k]:
    the child [c'] now held under [k]. [cs2] are the children of the
    overlay. *)
Definition step_post (cs2 : list (string * shape)) (h : heap) (k : string)
    (c c' : shape) : Prop :=
  holds h c'
  /\ erase c' = match dict_get cs2 k with
                | Some c2 => merge_spec_value (erase c) (erase c2)
                | None => erase c
                end
  /\ (forall l, In l (locs c') ->
                In l (locs c) \/ exists c2, dict_get cs2 k = Some c2 /\ In l (locs c2))
  /\ match dict_get cs2 k with
     | Some c2 => overlay_popped h c c2
     | None => True
     end.

(** The invariant of the loop of [merge_dicts(l1, l2)]: the children
    [done] of the base have been visited and [todo] are still to come;
    [done'] are the children now held under the keys of [done]. *)
Definition merge_inv (l1 l2 : loc) (cs2 : list (string * shape)) (ver0 : nat)
    (done todo done' : list (string * shape)) (h : heap) : Prop :=
  (exists o1, h !! l1 = Some o1 /\ entries o1 = map rootkv (done' ++ todo)
              /\ version o1 = ver0)
  /\ ents h l2
     = Some (map rootkv (filter (fun kc => dict_mem done (fst kc) = false) cs2))
  /\ Forall2 (fun kc kc' => fst kc = fst kc'
                            /\ step_post cs2 h (fst kc) (snd kc) (snd kc')) done done'
  /\ Forall (fun kc => holds h (snd kc)) todo
  /\ Forall (fun kc => dict_mem done (fst kc) = false -> holds h (snd kc)) cs2.

Ltac rewrite_beta lem :=
  let H := fresh "Hbeta" in
  pose proof lem as H; cbv beta in H; rewrite H; clear H.

Ltac rewrite_beta_rev lem :=
  let H := fresh "Hbeta" in
  pose proof lem as H; cbv beta in H; rewrite <- H; clear H.

(** The store of the first example: the base [{"c": {"a": 1}}] is object 2
    and the overlay [{"c": {"b": 2}}] is object 4. *)
Definition example_store : heap :=
  <[1%positive := {| entries := [("a", VAtom (AInt 1))]; version := 0 |}]>
  (<[2%positive := {| entries := [("c", VDict 1%positive)]; version := 0 |}]>
  (<[3%positive := {| entries := [("b", VAtom (AInt 2))]; version := 0 |}]>
  (<[4%positive := {| entries := [("c", VDict 3%positive)]; version := 0 |}]> ∅))).

Definition example_base : list (string * shape) :=
  [("c", SNode 1%positive [("a", SLeaf (AInt 1))])].

Definition example_overlay : list (string * shape) :=
  [("c", SNode 3%positive [("b", SLeaf (AInt 2))])].

(** A literal whose dictionaries have one entry per key, as every Python
    dictionary has. *)
Fixpoint wf_json (j : json) : Prop :=
  match j with
  | JDict d =>
      NoDup (map fst d) /\ fold_right (fun '(_, x) P => wf_json x /\ P) True d
  | _ => True
  end.

(** What building a literal gives: a tree of new objects that stands for
    the literal; the objects that existed are left as they were. *)
Definition built (j : json) (h : heap) (s : shape) (h' : heap) : Prop :=
  alloc j h = (root s, h')
  /\ holds h' s
  /\ erase s = j
  /\ NoDup (locs s)
  /\ (forall l, In l (locs s) -> h !! l = None)
  /\ (forall l o, h !! l = Some o -> h' !! l = Some o).

(** ** Templates as the parser reads them *)

(** The segment a piece of static text gives: none when it is empty. *)
Definition static_segment (text : string) : list segment :=
  match text with
  | EmptyString => []
  | _ => [Static text]
  end.

(** The converter tag and the argument text of a placeholder, as
    [parse_rule] yields them. *)
Definition converter_of (conv : option (string * option string)) : string :=
  match conv with
  | Some (c, _) => c
  | None => "default"
  end.

Definition arguments_of (conv : option (string * option string)) : option string :=
  match conv with
  | Some (_, Some a) => or_None (Some a)
  | _ => None
  end.

(** A template as a sequence of items, each a run of static text followed
    by a placeholder. *)
Definition item : Type := string * option (string * option string) * string.

Definition item_name (it : item) : string := snd it.

Definition items_pieces (items : list item) : list piece :=
  flat_map (fun it : item => [Lit (fst (fst it)); Hole (snd (fst it)) (snd it)]) items.

Definition item_segments (it : item) : list segment :=
  static_segment (fst (fst it))
  ++ [Dynamic (converter_of (snd (fst it))) (arguments_of (snd (fst it))) (snd it)].

(** The placeholder a match stands for. *)
Definition hole_of_match (m : rmatch) : option (string * option string) :=
  match m_converter m with
  | Some c => Some (c, m_args m)
  | None => None
  end.

(** What the pattern guarantees of a matched placeholder: converter and name
    are identifiers and the argument text holds no newline. *)
Definition lexical (conv : option (string * option string)) (name : string) : Prop :=
  identifier name /\
  match conv with
  | None => True
  | Some (c, None) => identifier c
  | Some (c, Some a) => identifier c /\ contains newline a = false
  end.

Definition lexical_item (it : item) : Prop :=
  contains "<" (fst (fst it)) = false /\ lexical (snd (fst it)) (snd it).

Definition wf_item (it : item) : Prop :=
  contains "<" (fst (fst it)) = false /\ wf_piece (Hole (snd (fst it)) (snd it)).

(** The normalized path of a template: each placeholder is written
    [{name}]. *)
Definition item_path (it : item) : string :=
  fst (fst it) +:+ "{" +:+ snd it +:+ "}".

Definition normalized_path (items : list item) (tail : string) : string :=
  fold_right (fun it s => item_path it +:+ s) tail items.

(** What the tokenizer gives for the argument text of a placeholder; it is
    not called for a placeholder without argument text. *)
Definition item_arguments (parse_converter_args : tokenizer) (it : item) : tokens :=
  match arguments_of (snd (fst it)) with
  | Some a => parse_converter_args a
  | None => Tokens [] []
  end.

(** The path parameter of a placeholder read with the positional values
    [args] and the keyword values [kwargs]. *)
Definition path_parameter (it : item) (args : list json) (kwargs : list (string * json))
  : json :=
  JDict [("name", JStr (snd it)); ("in", JStr "path"); ("required", JBool true);
         ("schema", get_converter_schema (converter_of (snd (fst it))) args kwargs)].

(** [p] is the path parameter of the placeholder: the tokenizer reads its
    argument text, without a keyword named [converter]. *)
Definition item_parameter (parse_converter_args : tokenizer) (it : item) (p : json)
  : Prop :=
  exists args kwargs,
    item_arguments parse_converter_args it = Tokens args kwargs
    /\ dict_mem kwargs "converter" = false
    /\ p = path_parameter it args kwargs.

(** The path parameters of the placeholders of a template, in their order.
    The first placeholder whose argument text the tokenizer refuses, or
    reads with a keyword named [converter], ends the work with its
    exception. *)
Fixpoint path_parameters (parse_converter_args : tokenizer) (items : list item)
  : outcome (list json) :=
  match items with
  | [] => Ok []
  | it :: items' =>
      match item_arguments parse_converter_args it with
      | CannotParse fragment => Raise (ValueError_converter_argument fragment)
      | Tokens args kwargs =>
          if dict_mem kwargs "converter"
          then Raise (TypeError_multiple_values "converter")
          else parameters ← path_parameters parse_converter_args items';
               Ok (path_parameter it args kwargs :: parameters)
      end
  end.

(** ** The view class method of an operation *)

(** [getattr(view_class, method.lower())], when [func] has a view class
    with such an attribute. *)
Definition method_view (func : handler) (method : string) : option view_func :=
  match f_view_class func with
  | Some attributes => dict_get attributes (lower method)
  | None => None
  end.

(** The schema named by the request body of the operation. *)
Definition request_schema (func : handler) (method : string) : option string :=
  match method_view func method with
  | Some vf =>
      match vf_form vf with
      | Some form => Some form
      | None => vf_body vf
      end
  | None => None
  end.

(** The query parameter of the operation. *)
Definition query_parameter (func : handler) (method : string) : list json :=
  match method_view func method with
  | Some vf =>
      match vf_query vf with
      | Some query =>
          [JDict [("name", JStr query); ("in", JStr "query");
                  ("required", JBool true);
                  ("schema", JDict [("$ref", JStr ("#/components/schemas/" +:+ query))])]]
      | None => []
      end
  | None => []
  end.

Definition known_converter (converter : string) : bool :=
  String.eqb converter "any" || String.eqb converter "int"
  || String.eqb converter "float" || String.eqb converter "uuid"
  || String.eqb converter "path" || String.eqb converter "string".

Definition blank_line : string := String newline (String newline EmptyString).

(** [method in ["HEAD", "OPTIONS"]] *)
Definition skipped (method : string) : bool :=
  String.eqb method "HEAD" || String.eqb method "OPTIONS".

(** Some method of the list that is not skipped is [key] in lower case. *)
Definition listed (methods : list string) (key : string) : bool :=
  existsb (fun method => negb (skipped method) && String.eqb (lower method) key) methods.

(** An application in mode [strict] with one rule, whose handler has no
    marker and whose template is malformed. *)
Definition strict_instance : OpenAPI :=
  {| cls := "OpenAPI";
     app := {| url_map := [ {| r_rule := "/ping/<id"; r_endpoint := "ping";
                               r_methods := ["GET"] |} ];
               view_functions := [("ping", unmarked_handler)] |};
     endpoint := "/docs/new/"; url_prefix := None; mode := "strict";
     openapi_version := "3.0.2"; info := 1%positive; extra_props := 2%positive;
     _spec := None |}.

(** What the loop of [generate_spec] keeps true of routes and tags: paths,
    the method keys of a path and tags are pairwise distinct, and a tag is
    entered as [{"name": tag}]. *)
Definition routes_inv (acc : routes_t * tags_t) : Prop :=
  NoDup (map fst (fst acc))
  /\ Forall (fun kv => NoDup (map fst (snd kv))) (fst acc)
  /\ NoDup (map fst (snd acc))
  /\ Forall (fun kv => snd kv = JDict [("name", JStr (fst kv))]) (snd acc).

(** Some view function of the application declares the tag. *)
Definition declared_tag (self : OpenAPI) (tag : string) : Prop :=
  exists endpoint func,
    dict_get (view_functions (app self)) endpoint = Some func
    /\ In tag (default [] (f_tags func)).

Ltac case_converter c :=
  destruct (String.eqb_spec c "any") as [->|?];
  [|destruct (String.eqb_spec c "int") as [->|?];
    [|destruct (String.eqb_spec c "float") as [->|?];
      [|destruct (String.eqb_spec c "uuid") as [->|?];
        [|destruct (String.eqb_spec c "path") as [->|?];
          [|destruct (String.eqb_spec c "string") as [->|?]]]]]].

(** ** The registry of schemas *)

(** The nested definitions of a registered schema, and the schema once
    they are deleted from it. *)
Definition nested (c : shape) : list (string * shape) :=
  match c with
  | SNode _ cs =>
      match dict_get cs "definitions" with
      | Some (SNode _ ds) => ds
      | _ => []
      end
  | SLeaf _ => []
  end.

Definition stripped (c : shape) : shape :=
  match c with
  | SNode s cs => SNode s (dict_del cs "definitions")
  | SLeaf a => SLeaf a
  end.

(** A registered schema is a dictionary; its [definitions], when it has
    any, is a dictionary. *)
Definition schema_shape (c : shape) : Prop :=
  match c with
  | SNode _ cs =>
      match dict_get cs "definitions" with
      | Some (SLeaf _) => False
      | _ => True
      end
  | SLeaf _ => False
  end.

Definition hoist (defs : list (string * shape)) (reg : list (string * shape))
  : list (string * shape) :=
  fold_left (fun acc kc => dict_update acc (nested (snd kc))) reg defs.

(** The same on literals. *)
Definition nested_json (schema : json) : list (string * json) :=
  match schema with
  | JDict d =>
      match dict_get d "definitions" with
      | Some (JDict ds) => ds
      | _ => []
      end
  | _ => []
  end.

Definition strip_json (schema : json) : json :=
  match schema with
  | JDict d => JDict (dict_del d "definitions")
  | _ => schema
  end.

Definition hoist_json (defs : list (string * json)) (registry : list (string * json))
  : list (string * json) :=
  fold_left (fun acc kv => dict_update acc (nested_json (snd kv))) registry defs.

Definition strip_registry (registry : list (string * json)) : list (string * json) :=
  map (fun kv => (fst kv, strip_json (snd kv))) registry.

(** A store with the registry (3) holding one schema [Pet] (4), whose
    nested definitions (5) hold the schema [Owner] (6); and the caller's
    [info] (1) and [extra_props] (2). *)
Definition registry_store : heap :=
  <[1%positive := {| entries := [("title", VAtom (AStr "Service Documents"));
                                 ("version", VAtom (AStr "latest"))];
                     version := 0 |}]>
  (<[2%positive := {| entries := []; version := 0 |}]>
  (<[3%positive := {| entries := [("Pet", VDict 4%positive)]; version := 0 |}]>
  (<[4%positive := {| entries := [("title", VAtom (AStr "Pet"));
                                  ("definitions", VDict 5%positive)];
                      version := 0 |}]>
  (<[5%positive := {| entries := [("Owner", VDict 6%positive)]; version := 0 |}]>
  (<[6%positive := {| entries := [("type", VAtom (AStr "object"))];
                      version := 0 |}]> ∅))))).

Definition registry_schemas : list (string * shape) :=
  [("Pet", SNode 4%positive
             [("title", SLeaf (AStr "Pet"));
              ("definitions",
               SNode 5%positive
                 [("Owner", SNode 6%positive [("type", SLeaf (AStr "object"))])])])].

(** The [paths] of the document, as a literal. *)
Definition paths_json (routes : routes_t) : list (string * json) :=
  map (fun kv => (fst kv, JDict (snd kv))) routes.

(** The document [generate_spec] builds before the extra properties are
    merged into it, as a literal: [info] and [registry] are the literals of
    the caller's info block and of the registered schemas. *)
Definition document_json (self : OpenAPI) (routes : routes_t) (tags : tags_t)
    (info registry : list (string * json)) : list (string * json) :=
  [("openapi", JStr (openapi_version self));
   ("info", JDict info);
   ("tags", JList (map snd tags));
   ("paths", JDict (paths_json routes));
   ("components", JDict [("schemas", JDict (strip_registry registry))]);
   ("definitions", JDict (hoist_json [] registry))].

(** Every dictionary of [h] is a dictionary of [h'], with the same
    entries. *)
Definition preserved (h h' : heap) : Prop :=
  forall l o, h !! l = Some o -> h' !! l = Some o.

(** Every dictionary of [h] is still a dictionary of [h']. *)
Definition allocated_in (h h' : heap) : Prop :=
  forall l, is_Some (h !! l) -> is_Some (h' !! l).

(** ** The decorator [openapi_docs] *)

Module Docs.

(** [str(n)] for an integer. *)
Definition str (n : Z) : string := NilZero.string_of_int (Z.to_int n).

(** The elements of [exceptions]: instances of [APIError], with their
    [code] and [msg], and other objects. *)
Inductive pyerror : Type :=
| APIError (code : Z) (msg : string)
| NotAPIError.

(** [APIError.__repr__] *)
Definition APIError_repr (e : pyerror) : option string :=
  match e with
  | APIError code msg => Some (str code +:+ " " +:+ msg)
  | NotAPIError => None
  end.

(** The objects met as models: a subclass of [BaseModel], with its
    [__name__] and the dictionary its [schema()] returns, an object of the
    store; another class; an object that is not a class, with its truth
    value (an annotation given as a string, for one). *)
Inductive pymodel : Type :=
| BaseModelClass (name : string) (schema : loc)
| OtherClass (name : string)
| Object (truth : bool).

(** Truth value of an optional model, [None] when absent. *)
Definition truth (x : option pymodel) : bool :=
  match x with
  | None => false
  | Some (Object b) => b
  | Some _ => true
  end.

(** [x or y] *)
Definition or_ (x y : option pymodel) : option pymodel :=
  if truth x then x else y.

(** A plain function: the attributes [generate_spec] reads, its
    [__annotations__], and the attributes [_query], [_body], [_form]. *)
Record pyfunc : Type := {
  fn_handler : handler;
  fn_annotations : list (string * pymodel);
  fn__query : option pymodel;
  fn__body : option pymodel;
  fn__form : option pymodel
}.

(** How a call of the decorator ends without returning. *)
Inductive failure : Type :=
| TypeError_issubclass        (* issubclass() arg 1 must be a class *)
| AssertionFailed             (* AssertionError *)
| StoreUndefined.             (* a store without the registry *)

Inductive result (A : Type) : Type :=
| Returned (a : A)
| Failed (f : failure).
Arguments Returned {A} a.
Arguments Failed {A} f.

Definition then_ {A B} (m : result A) (f : A -> result B) : result B :=
  match m with
  | Returned a => f a
  | Failed e => Failed e
  end.

(** [setattr(wrapper, name, value)] for the attributes the decorator sets. *)
Definition set_query (v : string) (w : handler) : handler :=
  {| f_name := f_name w; f_doc := f_doc w; f_tags := f_tags w;
     f_openapi := f_openapi w; f_view_class := f_view_class w;
     f_query := Some v; f_body := f_body w; f_form := f_form w;
     f_response := f_response w; f_exceptions := f_exceptions w |}.

Definition set_body (v : string) (w : handler) : handler :=
  {| f_name := f_name w; f_doc := f_doc w; f_tags := f_tags w;
     f_openapi := f_openapi w; f_view_class := f_view_class w;
     f_query := f_query w; f_body := Some v; f_form := f_form w;
     f_response := f_response w; f_exceptions := f_exceptions w |}.

Definition set_form (v : string) (w : handler) : handler :=
  {| f_name := f_name w; f_doc := f_doc w; f_tags := f_tags w;
     f_openapi := f_openapi w; f_view_class := f_view_class w;
     f_query := f_query w; f_body := f_body w; f_form := Some v;
     f_response := f_response w; f_exceptions := f_exceptions w |}.

Definition set_response (v : string) (w : handler) : handler :=
  {| f_name := f_name w; f_doc := f_doc w; f_tags := f_tags w;
     f_openapi := f_openapi w; f_view_class := f_view_class w;
     f_query := f_query w; f_body := f_body w; f_form := f_form w;
     f_response := Some v; f_exceptions := f_exceptions w |}.

Definition set_exceptions (v : list (string * string)) (w : handler) : handler :=
  {| f_name := f_name w; f_doc := f_doc w; f_tags := f_tags w;
     f_openapi := f_openapi w; f_view_class := f_view_class w;
     f_query := f_query w; f_body := f_body w; f_form := f_form w;
     f_response := f_response w; f_exceptions := Some v |}.

Definition set_tags (v : list string) (w : handler) : handler :=
  {| f_name := f_name w; f_doc := f_doc w; f_tags := Some v;
     f_openapi := f_openapi w; f_view_class := f_view_class w;
     f_query := f_query w; f_body := f_body w; f_form := f_form w;
     f_response := f_response w; f_exceptions := f_exceptions w |}.

Definition set_openapi (v : pyobj) (w : handler) : handler :=
  {| f_name := f_name w; f_doc := f_doc w; f_tags := f_tags w;
     f_openapi := Some v; f_view_class := f_view_class w;
     f_query := f_query w; f_body := f_body w; f_form := f_form w;
     f_response := f_response w; f_exceptions := f_exceptions w |}.

(** One round of the loop over the four models: [if model: ...]. *)
Definition register (_models : loc) (model : option pymodel)
    (set : string -> handler -> handler) (st : handler * heap)
  : result (handler * heap) :=
  if truth model then
    match model with
    | Some (BaseModelClass name schema) =>
        match add_model _models name schema (snd st) with
        | Ok h' => Returned (set name (fst st), h')
        | _ => Failed StoreUndefined
        end
    | Some (OtherClass _) => Failed AssertionFailed
    | _ => Failed TypeError_issubclass
    end
  else Returned st.

(** The loop over [exceptions], from the dictionary [api_errs] so far. *)
Fixpoint api_errs (exceptions : list pyerror) (acc : list (string * string))
  : result (list (string * string)) :=
  match exceptions with
  | [] => Returned acc
  | APIError code msg :: rest => api_errs rest (dict_set acc (str code) msg)
  | NotAPIError :: _ => Failed AssertionFailed
  end.

(** [openapi_docs(response, exceptions, tags)(func)]: the wrapper, which
    [wraps] gives the name, the documentation text, the annotations and the
    attributes of [func], and the store afterwards. *)
Definition openapi_docs (_models : loc) (response : option pymodel)
    (exceptions : list pyerror) (tags : list string) (func : pyfunc) (h : heap)
  : result (pyfunc * heap) :=
  let query := or_ (dict_get (fn_annotations func) "query") (fn__query func) in
  let body := or_ (dict_get (fn_annotations func) "body") (fn__body func) in
  let form := or_ (dict_get (fn_annotations func) "form") (fn__form func) in
  then_ (register _models query set_query (fn_handler func, h)) (fun st1 =>
  then_ (register _models body set_body st1) (fun st2 =>
  then_ (register _models form set_form st2) (fun st3 =>
  then_ (register _models response set_response st3) (fun st4 =>
  then_ (api_errs exceptions []) (fun errs =>
    let w1 := match errs with
              | [] => fst st4
              | _ => set_exceptions errs (fst st4)
              end in
    let w2 := match tags with
              | [] => w1
              | _ => set_tags tags w1
              end in
    let w3 := set_openapi (PClass "OpenAPI") w2 in
    Returned ({| fn_handler := w3;
                 fn_annotations := fn_annotations func;
                 fn__query := fn__query func;
                 fn__body := fn__body func;
                 fn__form := fn__form func |}, snd st4)))))).

End Docs.

Import Docs.

(** The attribute the decorator leaves for a model: its name when it is
    a model class, and what the function had otherwise. *)
Definition declared (model : option Docs.pymodel) (old : option string) : option string :=
  match model with
  | Some (Docs.BaseModelClass name _) => Some name
  | _ => old
  end.

(** The dictionaries that the schemas of the models are, as trees: the
    children of each one. *)
Definition schema_trees : Type := loc -> list (string * shape).

Definition schema_tree (tree : schema_trees) (s : loc) : shape := SNode s (tree s).

(** The registry once a model has been entered: the entries of the
    registry object, the registry as a tree, and what it reads as. *)
Definition enter_value (model : option Docs.pymodel) (es : list (string * value))
  : list (string * value) :=
  match model with
  | Some (Docs.BaseModelClass name s) => dict_set es name (VDict s)
  | _ => es
  end.

Definition enter_tree (tree : schema_trees) (model : option Docs.pymodel)
    (reg : list (string * shape)) : list (string * shape) :=
  match model with
  | Some (Docs.BaseModelClass name s) => dict_set reg name (schema_tree tree s)
  | _ => reg
  end.

Definition enter (tree : schema_trees) (model : option Docs.pymodel)
    (registry : list (string * json)) : list (string * json) :=
  match model with
  | Some (Docs.BaseModelClass name s) =>
      dict_set registry name (erase (schema_tree tree s))
  | _ => registry
  end.

(** The four models of a decorated function, in the order of the loop. *)
Definition models_of (response : option Docs.pymodel) (func : Docs.pyfunc)
  : list (option Docs.pymodel) :=
  [Docs.or_ (dict_get (Docs.fn_annotations func) "query") (Docs.fn__query func);
   Docs.or_ (dict_get (Docs.fn_annotations func) "body") (Docs.fn__body func);
   Docs.or_ (dict_get (Docs.fn_annotations func) "form") (Docs.fn__form func);
   response].

(** The tree [t] can be entered in the registry under [name]: it is a
    tree of the store that holds neither the registry object nor an object
    of a schema registered under another name. *)
Definition enterable (_models : loc) (h : heap) (reg : list (string * shape))
    (name : string) (t : shape) : Prop :=
  holds h t
  /\ NoDup (locs t)
  /\ ~ In _models (locs t)
  /\ forall k c l, In (k, c) reg -> k <> name -> In l (locs c) -> ~ In l (locs t).

(** A model that is given is a model class whose schema can be entered
    under its name. *)
Definition model_ok (_models : loc) (h : heap) (reg : list (string * shape))
    (tree : schema_trees) (model : option Docs.pymodel) : Prop :=
  Docs.truth model = true ->
  exists name s, model = Some (Docs.BaseModelClass name s)
                 /\ enterable _models h reg name (schema_tree tree s).

(** The schemas of models with different names share no object. *)
Definition separate_models (tree : schema_trees) (models : list (option Docs.pymodel))
  : Prop :=
  forall name1 s1 name2 s2 l,
    In (Some (Docs.BaseModelClass name1 s1)) models ->
    In (Some (Docs.BaseModelClass name2 s2)) models ->
    name1 <> name2 ->
    In l (locs (schema_tree tree s1)) -> ~ In l (locs (schema_tree tree s2)).

(** The store [registry_store] with the schema of a model [PetQuery] (7);
    the schema of the model [Pet] is the dictionary (4) that is registered
    already. *)
Definition models_store : heap :=
  <[7%positive := {| entries := [("title", VAtom (AStr "PetQuery"))]; version := 0 |}]>
  registry_store.

Definition models_trees : schema_trees := fun s =>
  if decide (s = 7%positive) then [("title", SLeaf (AStr "PetQuery"))]
  else if decide (s = 4%positive)
       then [("title", SLeaf (AStr "Pet"));
             ("definitions",
              SNode 5%positive
                [("Owner", SNode 6%positive [("type", SLeaf (AStr "object"))])])]
       else [].

(** A function with a query annotation, and the models of the examples. *)
Definition pet_query : Docs.pymodel := Docs.BaseModelClass "PetQuery" 7%positive.

Definition pet_model : Docs.pymodel := Docs.BaseModelClass "Pet" 4%positive.

Definition list_pets : Docs.pyfunc :=
  {| Docs.fn_handler := unmarked_handler;
     Docs.fn_annotations := [("query", pet_query)];
     Docs.fn__query := None; Docs.fn__body := None; Docs.fn__form := None |}.

Ltac then_cases H :=
  repeat match type of H with
         | then_ ?m _ = Returned _ =>
             let st := fresh "st" in
             let E := fresh "E" in
             destruct m as [st|?] eqn:E; [cbn [then_] in H | discriminate H]
         end.

(** The store [registry_store] with [extra_props] (2) that replace the
    [openapi] entry of the document, add a [contact] (7) to its [info], and
    bring an entry of their own. *)
Definition override_store : heap :=
  <[2%positive := {| entries := [("openapi", VAtom (AStr "3.1.0"));
                                 ("info", VDict 7%positive);
                                 ("x-logo", VAtom (AStr "logo.png"))];
                     version := 0 |}]>
  (<[7%positive := {| entries := [("contact", VAtom (AStr "dev@example.org"))];
                      version := 0 |}]> registry_store).

(** * Properties *)

(** ** Dictionaries *)

Section DictFacts.
Context {V : Type}.
Implicit Types (d : list (string * V)) (k : string) (v : V).

Lemma dict_get_set d k v k' :
  dict_get (dict_set d k v) k' = if String.eqb k k' then Some v else dict_get d k'.
Proof.
  induction d as [|[k0 v0] d IH]; simpl.
  - destruct (String.eqb_spec k k'); reflexivity.
  - destruct (String.eqb_spec k0 k) as [->|Hne]; simpl.
    + destruct (String.eqb_spec k k'); reflexivity.
    + rewrite IH. destruct (String.eqb_spec k0 k') as [->|Hne'].
      * destruct (String.eqb_spec k k'); [congruence | reflexivity].
      * reflexivity.
Qed.

Lemma dict_get_set_eq d k v : dict_get (dict_set d k v) k = Some v.
Proof. rewrite dict_get_set, String.eqb_refl. reflexivity. Qed.

Lemma dict_get_set_ne d k v k' :
  k <> k' -> dict_get (dict_set d k v) k' = dict_get d k'.
Proof.
  intros Hne. rewrite dict_get_set.
  destruct (String.eqb_spec k k'); [contradiction | reflexivity].
Qed.

Lemma dict_get_None d k : dict_get d k = None <-> ~ In k (map fst d).
Proof.
  induction d as [|[k0 v0] d IH]; simpl.
  - tauto.
  - destruct (String.eqb_spec k0 k) as [->|Hne].
    + split; [discriminate | intros H; exfalso; apply H; now left].
    + rewrite IH. tauto.
Qed.

Lemma dict_get_Some_In d k v : dict_get d k = Some v -> In (k, v) d.
Proof.
  induction d as [|[k0 v0] d IH]; simpl; [discriminate|].
  destruct (String.eqb_spec k0 k) as [->|Hne].
  - intros [= ->]. now left.
  - intros H. right. auto.
Qed.

Lemma dict_get_In d k v :
  NoDup (map fst d) -> In (k, v) d -> dict_get d k = Some v.
Proof.
  induction d as [|[k0 v0] d IH]; simpl; [tauto|].
  intros Hnd [Heq|Hin].
  - injection Heq as -> ->. now rewrite String.eqb_refl.
  - apply NoDup_cons in Hnd as [Hk0 Hnd'].
    destruct (String.eqb_spec k0 k) as [->|Hne].
    + exfalso. apply Hk0. apply list_elem_of_In.
      change k with (fst (k, v)). now apply in_map.
    + auto.
Qed.

Lemma dict_mem_true d k : dict_mem d k = true <-> In k (map fst d).
Proof.
  unfold dict_mem. destruct (dict_get d k) eqn:E.
  - split; [intros _ | reflexivity].
    apply dict_get_Some_In in E. change k with (fst (k, v)). now apply in_map.
  - apply dict_get_None in E. split; [discriminate | contradiction].
Qed.

Lemma dict_mem_false d k : dict_mem d k = false <-> ~ In k (map fst d).
Proof.
  rewrite <- dict_mem_true. destruct (dict_mem d k); split; congruence.
Qed.

End DictFacts.

(** ** Inclusion policy *)

Lemma dict_mem_set {V} (d : list (string * V)) k v k' :
  dict_mem (dict_set d k v) k' = String.eqb k k' || dict_mem d k'.
Proof.
  unfold dict_mem. rewrite dict_get_set.
  destruct (String.eqb k k'); reflexivity.
Qed.

Lemma visit_method_keeps func path parameters routes tags method key :
  has_operation routes path key ->
  has_operation (fst (visit_method func path parameters (routes, tags) method)) path key.
Proof.
  intros (ms & Hget & Hmem). unfold visit_method.
  destruct (String.eqb method "HEAD" || String.eqb method "OPTIONS"); simpl.
  - exists ms. auto.
  - eexists. split; [apply dict_get_set_eq|].
    rewrite Hget. simpl. rewrite dict_mem_set, Hmem. apply orb_true_r.
Qed.

Lemma visit_method_path func path parameters routes tags method :
  dict_mem routes path = true ->
  dict_mem (fst (visit_method func path parameters (routes, tags) method)) path = true.
Proof.
  intros Hmem. unfold visit_method.
  destruct (String.eqb method "HEAD" || String.eqb method "OPTIONS"); simpl; [assumption|].
  rewrite dict_mem_set, String.eqb_refl. reflexivity.
Qed.

Lemma visit_methods_spec func path parameters methods routes tags :
  dict_mem routes path = true ->
  let routes' := fst (fold_left (visit_method func path parameters) methods (routes, tags)) in
  dict_mem routes' path = true
  /\ (forall key, has_operation routes path key -> has_operation routes' path key)
  /\ (forall method, In method methods -> method <> "HEAD" -> method <> "OPTIONS" ->
        has_operation routes' path (lower method)).
Proof.
  revert routes tags. induction methods as [|m methods IH]; intros routes tags Hmem;
    cbv zeta.
  - simpl. repeat split; auto. intros ? [].
  - change (fold_left (visit_method func path parameters) (m :: methods) (routes, tags))
      with (fold_left (visit_method func path parameters) methods
              (visit_method func path parameters (routes, tags) m)).
    destruct (visit_method func path parameters (routes, tags) m) as [routes1 tags1] eqn:E.
    assert (H1 : dict_mem routes1 path = true).
    { change routes1 with (fst (routes1, tags1)). rewrite <- E.
      now apply visit_method_path. }
    destruct (IH routes1 tags1 H1) as (Hp & Hkeep & Hnew).
    split; [exact Hp|]. split.
    + intros key Hk. apply Hkeep.
      change routes1 with (fst (routes1, tags1)). rewrite <- E.
      now apply visit_method_keeps.
    + intros method [->|Hin] Hh Ho; [|now apply Hnew].
      apply Hkeep. unfold visit_method in E.
      destruct (String.eqb_spec method "HEAD"); [contradiction|].
      destruct (String.eqb_spec method "OPTIONS"); [contradiction|].
      simpl in E. injection E as <- _.
      eexists. split; [apply dict_get_set_eq|].
      rewrite dict_mem_set, String.eqb_refl. reflexivity.
Qed.

Lemma bypass_normal_iff (self : OpenAPI) (func : handler) :
  mode self = "normal" ->
  (_bypass self func = true <->
   exists marker, f_openapi func = Some marker /\ truthy marker = true
                  /\ marker <> PClass (cls self)).
Proof.
  intros Hmode. unfold _bypass. rewrite Hmode. simpl.
  destruct (f_openapi func) as [m|]; simpl.
  - destruct (truthy m) eqn:Ht; simpl.
    + destruct (bool_decide_reflect (m = PClass (cls self))) as [->|Hne]; simpl.
      * split; [discriminate|]. intros (m' & [= <-] & _ & Hne). contradiction.
      * split; [|reflexivity]. intros _. exists m. auto.
    + split; [discriminate|]. intros (m' & [= <-] & Ht' & _). congruence.
  - split; [discriminate|]. intros (m' & Hm & _). discriminate.
Qed.

(** C1 (amended). Under the "normal" policy the bypass decision is true
    iff the handler carries an [_openapi] marker whose truth value is true
    and which differs from this system's class. A rule whose handler is
    bypassed leaves routes and tags as they were; a rule whose handler
    carries no marker gets its path into the routes, with an operation for
    each of its methods but HEAD and OPTIONS. *)
Theorem normal_policy_bypass :
  forall (self : OpenAPI) (func : handler),
    mode self = "normal" ->
    (_bypass self func = true <->
     exists marker, f_openapi func = Some marker /\ truthy marker = true
                    /\ marker <> PClass (cls self))
    /\ forall parse_converter_args acc r path parameters,
        own_route self r = false ->
        dict_get (view_functions (app self)) (r_endpoint r) = Some func ->
        parse_url parse_converter_args (r_rule r) = Ok (path, parameters) ->
        (_bypass self func = true ->
         visit_rule parse_converter_args self acc r = Ok acc)
        /\ (f_openapi func = None ->
            exists routes tags,
              visit_rule parse_converter_args self acc r = Ok (routes, tags)
              /\ dict_mem routes path = true
              /\ forall method, In method (r_methods r) ->
                   method <> "HEAD" -> method <> "OPTIONS" ->
                   has_operation routes path (lower method)).
Proof.
  intros self func Hmode. split; [now apply bypass_normal_iff|].
  intros pca [routes tags] r path parameters Hown Hfunc Hparse.
  unfold visit_rule. rewrite Hown, Hfunc, Hparse. simpl. split.
  - intros ->. reflexivity.
  - intros Hnone.
    assert (Hb : _bypass self func = false).
    { destruct (_bypass self func) eqn:E; [|reflexivity].
      apply (bypass_normal_iff self func Hmode) in E.
      destruct E as (m & Hm & _). congruence. }
    rewrite Hb.
    set (routes1 := if dict_mem routes path then routes else dict_set routes path []).
    assert (H1 : dict_mem routes1 path = true).
    { subst routes1. destruct (dict_mem routes path) eqn:E; [exact E|].
      rewrite dict_mem_set, String.eqb_refl. reflexivity. }
    pose proof (visit_methods_spec func path parameters (r_methods r) routes1 tags H1)
      as Hs. cbv zeta in Hs.
    match goal with
    | |- context [Ok ?X] => exists (fst X), (snd X)
    end.
    split; [now rewrite <- surjective_pairing|].
    exact (conj (proj1 Hs) (proj2 (proj2 Hs))).
Qed.

(** A handler whose marker is present and is not this system's class, but
    is false as a truth value ([func._openapi = False]): "present and
    different" holds of it, and the code does not bypass it. *)
Lemma normal_policy_falsy_marker :
  mode normal_instance = "normal"
  /\ (exists marker, f_openapi foreign_handler = Some marker
                     /\ marker <> PClass (cls normal_instance))
  /\ _bypass normal_instance foreign_handler = false.
Proof.
  split; [reflexivity|]. split; [|reflexivity].
  exists (PBool false). split; [reflexivity | discriminate].
Qed.

Lemma normal_policy_bypass_witness :
  _bypass mixed_instance spectree_handler = true
  /\ visit_rule ArgTokenizer.parse_int_args mixed_instance ([], [])
       {| r_rule := "/other"; r_endpoint := "other"; r_methods := ["GET"] |}
     = Ok ([], [])
  /\ exists routes tags,
      visit_rule ArgTokenizer.parse_int_args mixed_instance ([], [])
        {| r_rule := "/ping"; r_endpoint := "ping"; r_methods := ["GET"; "HEAD"] |}
      = Ok (routes, tags)
      /\ dict_mem routes "/ping" = true
      /\ has_operation routes "/ping" "get".
Proof.
  destruct (normal_policy_bypass mixed_instance spectree_handler eq_refl)
    as [Hiff Hother].
  destruct (normal_policy_bypass mixed_instance unmarked_handler eq_refl)
    as [_ Hping].
  assert (Hb : _bypass mixed_instance spectree_handler = true).
  { apply Hiff. exists (PInstance "SpecTree").
    split; [reflexivity|]. split; [reflexivity | discriminate]. }
  split; [exact Hb|]. split.
  - apply (Hother ArgTokenizer.parse_int_args ([], [])
             {| r_rule := "/other"; r_endpoint := "other"; r_methods := ["GET"] |}
             "/other" [] eq_refl eq_refl eq_refl).
    exact Hb.
  - destruct (Hping ArgTokenizer.parse_int_args ([], [])
                {| r_rule := "/ping"; r_endpoint := "ping";
                   r_methods := ["GET"; "HEAD"] |}
                "/ping" [] eq_refl eq_refl eq_refl) as [_ Hinc].
    destruct (Hinc eq_refl) as (routes & tags & Hrun & Hmem & Hops).
    exists routes, tags. split; [exact Hrun|]. split; [exact Hmem|].
    apply (Hops "GET"); [now left | discriminate | discriminate].
Defined.

(** ** The operation aggregator *)

Lemma with_view_func_get func method spec params k :
  k <> "requestBody" ->
  dict_get (fst (with_view_func func method spec params)) k = dict_get spec k.
Proof.
  intros Hk. unfold with_view_func.
  destruct (f_view_class func) as [attrs|]; [|reflexivity].
  destruct (dict_get attrs (lower method)) as [vf|]; [|reflexivity].
  simpl. destruct (vf_body vf), (vf_form vf);
    rewrite ?dict_get_set_ne by congruence; reflexivity.
Qed.

Lemma operation_get func method parameters k :
  k <> "requestBody" -> k <> "parameters" -> k <> "responses" ->
  dict_get (operation func method parameters) k =
  dict_get [("summary", JStr (or_else (fst (get_summary_desc func))
                                      (capitalize (f_name func))));
            ("description", JStr (or_else (snd (get_summary_desc func)) ""));
            ("operationID", JStr (f_name func +:+ "__" +:+ lower method));
            ("tags", JList (map JStr (default [] (f_tags func))))] k.
Proof.
  intros H1 H2 H3. unfold operation.
  destruct (get_summary_desc func) as [summary desc].
  match goal with
  | |- context [with_view_func ?f ?m ?s ?p] =>
      pose proof (with_view_func_get f m s p k H1) as Hv;
      destruct (with_view_func f m s p) as [spec1 params]
  end.
  rewrite !dict_get_set_ne by congruence. exact Hv.
Qed.

(** C8. The operation built for a handler and a method holds the operation
    identifier under the key [operationID]; it has no key [operationId]. *)
Theorem operation_identifier_key :
  forall (func : handler) (method : string) (parameters : list json),
    dict_get (operation func method parameters) "operationID"
      = Some (JStr (f_name func +:+ "__" +:+ lower method))
    /\ dict_get (operation func method parameters) "operationId" = None.
Proof.
  intros func method parameters.
  split; rewrite operation_get by discriminate; reflexivity.
Qed.

(** The keys of an operation, in the order of insertion. *)
Lemma operation_keys_example :
  dict_keys (operation foreign_handler "GET" [])
  = ["summary"; "description"; "operationID"; "tags"; "parameters"; "responses"].
Proof. reflexivity. Qed.

Lemma dict_get_without_body attributes name :
  dict_get (without_body attributes name) name
  = option_map (fun vf => {| vf_body := None; vf_form := vf_form vf;
                             vf_query := vf_query vf |})
               (dict_get attributes name).
Proof.
  induction attributes as [|[k vf] rest IH]; simpl; [reflexivity|].
  destruct (String.eqb_spec k name) as [->|Hne]; simpl.
  - now rewrite String.eqb_refl.
  - destruct (String.eqb_spec k name); [contradiction | exact IH].
Qed.

Lemma count_key_set {V} (d : list (string * V)) k v :
  NoDup (map fst d) -> NoDup (map fst (dict_set d k v)).
Proof.
  induction d as [|[k0 v0] d IH]; simpl; intros Hnd.
  - apply NoDup_singleton.
  - apply NoDup_cons in Hnd as [Hk0 Hnd].
    destruct (String.eqb_spec k0 k) as [->|Hne]; simpl.
    + apply NoDup_cons. auto.
    + apply NoDup_cons. split; [|auto].
      rewrite list_elem_of_In in *. rewrite <- dict_mem_true in *.
      rewrite dict_mem_set. destruct (String.eqb_spec k k0); [congruence|].
      simpl. destruct (dict_mem d k0); [exfalso; auto | discriminate].
Qed.

Lemma operation_keys_nodup func method parameters :
  NoDup (dict_keys (operation func method parameters)).
Proof.
  unfold operation, dict_keys.
  destruct (get_summary_desc func) as [summary desc].
  match goal with
  | |- context [with_view_func ?f ?m ?s ?p] =>
      assert (Hv : NoDup (map fst (fst (with_view_func f m s p))));
      [|destruct (with_view_func f m s p) as [spec1 params]]
  end.
  - unfold with_view_func.
    assert (H0 : NoDup (map fst
                [("summary", JStr (or_else summary (capitalize (f_name func))));
                 ("description", JStr (or_else desc ""));
                 ("operationID", JStr (f_name func +:+ "__" +:+ lower method));
                 ("tags", JList (map JStr (default [] (f_tags func))))])).
    { simpl. apply (bool_decide_unpack _). vm_compute. reflexivity. }
    destruct (f_view_class func) as [attrs|]; [|exact H0].
    destruct (dict_get attrs (lower method)) as [vf|]; [|exact H0].
    cbn [fst]. destruct (vf_body vf), (vf_form vf); repeat apply count_key_set; exact H0.
  - repeat apply count_key_set. exact Hv.
Qed.

(** C10. When the view-class method declares both a body and a form
    schema, the operation has one [requestBody] entry, which references the
    form schema; the operation is the one obtained when the method declares
    the form schema alone. *)
Theorem form_overrides_body :
  forall (func : handler) (attributes : list (string * view_func))
         (method : string) (parameters : list json)
         (vf : view_func) (body form : string),
    f_view_class func = Some attributes ->
    dict_get attributes (lower method) = Some vf ->
    vf_body vf = Some body ->
    vf_form vf = Some form ->
    dict_get (operation func method parameters) "requestBody"
      = Some (JDict [("content",
                      JDict [("application/json",
                              JDict [("schema",
                                      JDict [("$ref",
                                              JStr ("#/components/schemas/" +:+ form))])])])])
    /\ length (filter (fun k => k = "requestBody")
                 (dict_keys (operation func method parameters))) = 1
    /\ operation func method parameters
       = operation (set_view_class func (Some (without_body attributes (lower method))))
                   method parameters.
Proof.
  intros func attributes method parameters vf body form Hvc Hvf Hbody Hform.
  assert (Hop : forall f, f_view_class f = Some attributes ->
            dict_get (operation f method parameters) "requestBody"
            = Some (JDict [("content",
                            JDict [("application/json",
                                    JDict [("schema",
                                            JDict [("$ref",
                                                    JStr ("#/components/schemas/"
                                                          +:+ form))])])])])).
  { intros f Hf. unfold operation.
    destruct (get_summary_desc f) as [summary desc].
    unfold with_view_func. rewrite Hf, Hvf, Hbody, Hform.
    destruct (vf_query vf); rewrite !dict_get_set_ne by discriminate;
      apply dict_get_set_eq. }
  split; [now apply Hop|]. split.
  - pose proof (operation_keys_nodup func method parameters) as Hnd.
    specialize (Hop func Hvc). apply dict_get_Some_In in Hop.
    apply (in_map fst) in Hop. simpl in Hop. fold (dict_keys (operation func method parameters)) in Hop.
    revert Hnd Hop. generalize (dict_keys (operation func method parameters)).
    intros ks. induction ks as [|k ks IH]; intros Hnd Hin; [destruct Hin|].
    apply NoDup_cons in Hnd as [Hk Hnd]. rewrite filter_cons.
    destruct (decide (k = "requestBody")) as [->|Hne].
    + simpl. f_equal. clear IH Hin. induction ks as [|k' ks IH]; [reflexivity|].
      rewrite filter_cons. destruct (decide (k' = "requestBody")) as [->|Hne'].
      * exfalso. apply Hk. left.
      * apply IH; [set_solver | now apply NoDup_cons in Hnd as [_ ?]].
    + destruct Hin as [->|Hin]; [contradiction|]. auto.
  - unfold operation, set_view_class. simpl.
    destruct (get_summary_desc func) as [summary desc] eqn:Ed.
    assert (Ed' : get_summary_desc
              {| f_name := f_name func; f_doc := f_doc func; f_tags := f_tags func;
                 f_openapi := f_openapi func;
                 f_view_class := Some (without_body attributes (lower method));
                 f_query := f_query func; f_body := f_body func;
                 f_form := f_form func; f_response := f_response func;
                 f_exceptions := f_exceptions func |} = (summary, desc)) by exact Ed.
    rewrite Ed'. unfold with_view_func, responses_of. simpl.
    rewrite Hvc, Hvf, dict_get_without_body, Hvf. simpl.
    rewrite Hbody, Hform. reflexivity.
Qed.

Lemma form_overrides_body_witness :
  dict_get (operation upload_handler "POST" []) "requestBody"
    = Some (JDict [("content",
                    JDict [("application/json",
                            JDict [("schema",
                                    JDict [("$ref",
                                            JStr "#/components/schemas/UploadForm")])])])])
  /\ length (filter (fun k => k = "requestBody")
               (dict_keys (operation upload_handler "POST" []))) = 1
  /\ operation upload_handler "POST" []
     = operation (set_view_class upload_handler
                    (Some (without_body
                             [("post", {| vf_body := Some "Payload";
                                          vf_form := Some "UploadForm";
                                          vf_query := None |})]
                             (lower "POST"))))
                 "POST" [].
Proof.
  apply (form_overrides_body upload_handler _ "POST" []
           {| vf_body := Some "Payload"; vf_form := Some "UploadForm";
              vf_query := None |} "Payload" "UploadForm");
    reflexivity.
Defined.

(** ** Responses *)

Lemma declared_responses_get exceptions acc flag code :
  NoDup (map fst exceptions) ->
  dict_get (fst (fold_left
                   (fun '(responses, has_2xx) '(code, msg) =>
                      (dict_set responses code (JDict [("description", JStr msg)]),
                       if startswith code "2" then true else has_2xx))
                   exceptions (acc, flag))) code
  = match dict_get exceptions code with
    | Some msg => Some (description msg)
    | None => dict_get acc code
    end.
Proof.
  revert acc flag. induction exceptions as [|[c m] rest IH]; intros acc flag Hnd; simpl.
  - reflexivity.
  - apply NoDup_cons in Hnd as [Hc Hnd]. rewrite IH by exact Hnd.
    destruct (String.eqb_spec c code) as [->|Hne].
    + rewrite list_elem_of_In in Hc. apply (dict_get_None rest code) in Hc.
      rewrite Hc. apply dict_get_set_eq.
    + rewrite dict_get_set_ne by exact Hne. reflexivity.
Qed.

Lemma declared_responses_flag exceptions acc flag :
  snd (fold_left
         (fun '(responses, has_2xx) '(code, msg) =>
            (dict_set responses code (JDict [("description", JStr msg)]),
             if startswith code "2" then true else has_2xx))
         exceptions (acc, flag))
  = flag || existsb (fun code => startswith code "2") (map fst exceptions).
Proof.
  revert acc flag. induction exceptions as [|[c m] rest IH]; intros acc flag; simpl.
  - now rewrite orb_false_r.
  - rewrite IH. destruct (startswith c "2"), flag; reflexivity.
Qed.

(** C3 (amended). With [E] the declared exceptions of the handler:
    a declared code keeps its message as description, unless it is "200"
    and a response type is declared, or "400" and one of
    query/body/form/response is declared; a declared response type makes
    [responses["200"]] the entry that references its schema; with no
    response type and no declared code starting with "2", the entry is the
    bare "Successful Response"; with one of query/body/form/response
    declared, [responses["400"]] is "Validation Error", and otherwise it is
    whatever is declared for "400". *)
Theorem responses_of_handler :
  forall (func : handler),
    NoDup (map fst (default [] (f_exceptions func))) ->
    let E := default [] (f_exceptions func) in
    let R := responses_of func in
    (forall method parameters,
        dict_get (operation func method parameters) "responses" = Some (JDict R))
    /\ (forall code msg,
          dict_get E code = Some msg ->
          ~ (code = "200" /\ is_some (f_response func) = true) ->
          ~ (code = "400" /\ typed func = true) ->
          dict_get R code = Some (description msg))
    /\ (forall response,
          f_response func = Some response ->
          dict_get R "200"
          = Some (JDict [("description", JStr "Successful Response");
                         ("content",
                          JDict [("application/json",
                                  JDict [("schema",
                                          JDict [("$ref",
                                                  JStr ("#/components/schemas/"
                                                        +:+ response))])])])]))
    /\ (f_response func = None ->
        (forall code, In code (map fst E) -> startswith code "2" = false) ->
        dict_get R "200" = Some (description "Successful Response"))
    /\ (typed func = true -> dict_get R "400" = Some (description "Validation Error"))
    /\ (typed func = false ->
        dict_get R "400" = option_map description (dict_get E "400")).
Proof.
  intros func Hnd E R.
  split.
  { intros method parameters. unfold operation.
    destruct (get_summary_desc func) as [summary desc].
    destruct (with_view_func _ _ _ _) as [spec1 params].
    apply dict_get_set_eq. }
  assert (Hfold : forall code,
             dict_get (fst (match f_exceptions func with
                            | Some exceptions => declared_responses exceptions
                            | None => ([], false)
                            end)) code
             = option_map description (dict_get E code)).
  { intros code. subst E. destruct (f_exceptions func) as [ex|]; simpl; [|reflexivity].
    unfold declared_responses. rewrite declared_responses_get by exact Hnd.
    simpl. destruct (dict_get ex code); reflexivity. }
  assert (Hflag : snd (match f_exceptions func with
                       | Some exceptions => declared_responses exceptions
                       | None => ([], false)
                       end)
                  = existsb (fun code => startswith code "2") (map fst E)).
  { subst E. destruct (f_exceptions func) as [ex|]; simpl; [|reflexivity].
    unfold declared_responses. now rewrite declared_responses_flag. }
  subst R. unfold responses_of, typed in *.
  destruct (match f_exceptions func with
            | Some exceptions => declared_responses exceptions
            | None => ([], false)
            end) as [responses has_2xx].
  simpl in Hfold, Hflag.
  split; [|split; [|split; [|split]]].
  - intros code msg Hget H200 H400.
    assert (Hbase : dict_get responses code = Some (description msg))
      by (rewrite Hfold, Hget; reflexivity).
    destruct (f_response func) as [resp|] eqn:Er.
    + simpl. rewrite orb_true_r. rewrite !dict_get_set_ne; [exact Hbase | |].
      * intros <-. apply H200. auto.
      * intros <-. apply H400. simpl. split; [reflexivity | apply orb_true_r].
    + assert (H2 : has_2xx = true \/ code <> "200").
      { destruct (String.eqb_spec code "200") as [->|]; [left | now right].
        rewrite Hflag. apply existsb_exists. exists "200". split; [|reflexivity].
        apply dict_get_Some_In in Hget. now apply (in_map fst) in Hget. }
      rewrite orb_false_r.
      destruct (is_some (f_query func) || is_some (f_body func) || is_some (f_form func))
        eqn:Et.
      * rewrite dict_get_set_ne by (intros <-; apply H400; split; reflexivity).
        destruct has_2xx; simpl; [exact Hbase|].
        destruct H2 as [|H2]; [discriminate|].
        rewrite dict_get_set_ne by congruence. exact Hbase.
      * destruct has_2xx; simpl; [exact Hbase|].
        destruct H2 as [|H2]; [discriminate|].
        rewrite dict_get_set_ne by congruence. exact Hbase.
  - intros response ->. simpl. rewrite orb_true_r.
    rewrite dict_get_set_ne by discriminate. apply dict_get_set_eq.
  - intros -> Hno.
    assert (has_2xx = false) as ->.
    { rewrite Hflag. destruct (existsb _ _) eqn:Ex; [|reflexivity].
      apply existsb_exists in Ex as (c & Hin & Hc). rewrite (Hno c Hin) in Hc.
      discriminate. }
    simpl. rewrite orb_false_r.
    destruct (is_some (f_query func) || is_some (f_body func) || is_some (f_form func));
      rewrite ?dict_get_set_ne by discriminate; apply dict_get_set_eq.
  - intros ->. apply dict_get_set_eq.
  - intros Ht. rewrite Ht. destruct (f_response func) as [resp|] eqn:Er.
    + simpl in Ht. rewrite orb_true_r in Ht. discriminate.
    + destruct has_2xx; simpl; rewrite ?dict_get_set_ne by discriminate; apply Hfold.
Qed.

(** A declared code "400" loses its message when a query type is declared;
    and a handler that declares none of query/body/form/response still has
    [responses["400"] = {description: "Validation Error"}] when that entry
    is declared as an exception. *)
Lemma responses_of_handler_overwritten :
  (dict_get (default [] (f_exceptions validated_handler)) "400" = Some "Bad request"
   /\ dict_get (responses_of validated_handler) "400"
      <> Some (description "Bad request"))
  /\ (typed plain_handler = false
      /\ dict_get (responses_of plain_handler) "400"
         = Some (description "Validation Error")).
Proof.
  split; split; try reflexivity. vm_compute. discriminate.
Qed.

Lemma responses_of_handler_witness :
  NoDup (map fst (default [] (f_exceptions validated_handler)))
  /\ dict_get (responses_of validated_handler) "404" = Some (description "Not found")
  /\ dict_get (responses_of validated_handler) "400"
     = Some (description "Validation Error")
  /\ NoDup (map fst (default [] (f_exceptions answering_handler)))
  /\ dict_get (responses_of answering_handler) "200"
     = Some (JDict [("description", JStr "Successful Response");
                    ("content",
                     JDict [("application/json",
                             JDict [("schema",
                                     JDict [("$ref",
                                             JStr "#/components/schemas/Pet")])])])]).
Proof.
  assert (Hnd : NoDup (map fst (default [] (f_exceptions validated_handler)))).
  { apply (bool_decide_unpack _). vm_compute. reflexivity. }
  assert (Hnd' : NoDup (map fst (default [] (f_exceptions answering_handler)))).
  { apply (bool_decide_unpack _). vm_compute. reflexivity. }
  split; [exact Hnd|].
  destruct (responses_of_handler validated_handler Hnd) as (_ & Hcode & _ & _ & H400 & _).
  destruct (responses_of_handler answering_handler Hnd') as (_ & _ & H200 & _).
  split; [|split; [|split]].
  - apply Hcode; [reflexivity | |]; intros [H _]; discriminate.
  - apply H400. reflexivity.
  - exact Hnd'.
  - apply (H200 "Pet"). reflexivity.
Defined.

(** ** Templates without placeholders *)

Lemma span_no_occurrence c s :
  contains c s = false ->
  span (fun x => negb (ascii_eqb x c)) s = (s, EmptyString).
Proof.
  induction s as [|a s IH]; simpl; [reflexivity|].
  destruct (ascii_eqb a c); simpl; [discriminate|].
  intros H. now rewrite IH.
Qed.

Lemma do_match_no_bracket t :
  contains "<" t = false -> do_match t = None.
Proof.
  intros H. unfold do_match. now rewrite span_no_occurrence.
Qed.

Lemma parse_rule_static t :
  contains "<" t = false -> contains ">" t = false ->
  parse_rule t = (match t with EmptyString => [] | _ => [Static t] end, Finished).
Proof.
  intros Hlt Hgt. unfold parse_rule. simpl.
  destruct t as [|c t]; [reflexivity|].
  rewrite do_match_no_bracket by exact Hlt.
  unfold parse_tail. now rewrite Hgt, Hlt.
Qed.

(** C4 (amended). For every template that holds neither [<] nor [>],
    parsing the path returns the template itself and no parameter. *)
Theorem parse_url_static :
  forall (parse_converter_args : tokenizer)
         (t : string),
    contains "<" t = false ->
    contains ">" t = false ->
    parse_url parse_converter_args t = Ok (t, []).
Proof.
  intros pca t Hlt Hgt. unfold parse_url.
  rewrite parse_rule_static by assumption.
  destruct t; reflexivity.
Qed.

(** A template without any placeholder, not even a [<], for which parsing
    the path raises instead of returning the template. *)
Lemma parse_url_stray_bracket :
  contains "<" "a>b" = false
  /\ parse_url ArgTokenizer.parse_int_args "a>b" = Raise (ValueError_malformed "a>b").
Proof. split; reflexivity. Qed.

Lemma parse_url_static_witness :
  parse_url ArgTokenizer.parse_int_args "/users/list" = Ok ("/users/list", []).
Proof.
  apply (parse_url_static ArgTokenizer.parse_int_args "/users/list"); reflexivity.
Defined.

(** ** The integer converter *)

Lemma int_schema_keys args kwargs :
  exists d,
    get_converter_schema "int" args kwargs = JDict d
    /\ dict_get d "type" = Some (JStr "integer")
    /\ dict_get d "format" = Some (JStr "int32")
    /\ dict_get d "minimum" = dict_get kwargs "min"
    /\ dict_get d "maximum" = dict_get kwargs "max"
    /\ forall k, k <> "type" -> k <> "format" -> k <> "minimum" -> k <> "maximum" ->
                 dict_get d k = None.
Proof.
  exists ([("type", JStr "integer"); ("format", JStr "int32")]
          ++ flat_map (fun prop =>
               match dict_get kwargs prop with
               | Some v => [(prop +:+ "imum", v)]
               | None => []
               end) ["min"; "max"]).
  split; [reflexivity|].
  cbn [flat_map app].
  destruct (dict_get kwargs "min") as [lo|], (dict_get kwargs "max") as [hi|];
    cbn [app]; change ("min" +:+ "imum") with "minimum";
    change ("max" +:+ "imum") with "maximum";
    (split; [reflexivity|]); (split; [reflexivity|]);
    (split; [reflexivity|]); (split; [reflexivity|]);
    intros k H1 H2 H3 H4; cbv [Datatypes.app dict_get];
    repeat (match goal with
            | |- context [String.eqb ?a k] =>
                destruct (String.eqb_spec a k); [congruence|]
            end); reflexivity.
Qed.

(** C6. When the argument tokenizer reads [min=1,max=10] as the keywords
    [min = 1] and [max = 10], the template [/items/<int(min=1,max=10):id>]
    gives the path [/items/{id}] and one required path parameter [id] with
    schema [{type: integer, format: int32, minimum: 1, maximum: 10}]; and
    the schema of the [int] converter has [minimum] and [maximum] exactly
    when the keywords [min] and [max] are given, with their values. *)
Theorem parse_url_int_range :
  forall (parse_converter_args : tokenizer),
    parse_converter_args "min=1,max=10"
    = Tokens [] [("min", JInt 1); ("max", JInt 10)] ->
    parse_url parse_converter_args "/items/<int(min=1,max=10):id>"
    = Ok ("/items/{id}",
          [JDict [("name", JStr "id"); ("in", JStr "path"); ("required", JBool true);
                  ("schema", JDict [("type", JStr "integer"); ("format", JStr "int32");
                                    ("minimum", JInt 1); ("maximum", JInt 10)])]])
    /\ forall args kwargs,
        exists d,
          get_converter_schema "int" args kwargs = JDict d
          /\ dict_get d "type" = Some (JStr "integer")
          /\ dict_get d "format" = Some (JStr "int32")
          /\ dict_get d "minimum" = dict_get kwargs "min"
          /\ dict_get d "maximum" = dict_get kwargs "max"
          /\ forall k, k <> "type" -> k <> "format" -> k <> "minimum" ->
                       k <> "maximum" -> dict_get d k = None.
Proof.
  intros pca Hargs. split; [|apply int_schema_keys].
  unfold parse_url.
  replace (parse_rule "/items/<int(min=1,max=10):id>")
    with ([Static "/items/"; Dynamic "int" (Some "min=1,max=10") "id"], Finished)
    by (vm_compute; reflexivity).
  simpl. rewrite Hargs. reflexivity.
Qed.

Lemma parse_url_int_range_witness :
  parse_url ArgTokenizer.parse_int_args "/items/<int(min=1,max=10):id>"
  = Ok ("/items/{id}",
        [JDict [("name", JStr "id"); ("in", JStr "path"); ("required", JBool true);
                ("schema", JDict [("type", JStr "integer"); ("format", JStr "int32");
                                  ("minimum", JInt 1); ("maximum", JInt 10)])]]).
Proof.
  apply (parse_url_int_range ArgTokenizer.parse_int_args). reflexivity.
Defined.

(** ** The cached document *)

(** C7. Once an access to [spec] has returned a document, the instance
    holds a reference to it, and every later access returns that same
    reference and leaves the instance and the store as they are, whatever
    happened to the store, the route table or the extra properties in
    between, and with no fuel to compute anything. The first access of an
    instance without a document is the one that runs [generate_spec] and
    stores its result. *)
Theorem spec_cached :
  forall (parse_converter_args : tokenizer)
         (_models : loc) (fuel : nat) (self self' : OpenAPI) (h h' : heap)
         (data : loc),
    spec parse_converter_args _models fuel self h = Ok (data, self', h') ->
    _spec self' = Some data
    /\ (_spec self = None ->
        generate_spec parse_converter_args _models fuel self h = Ok (data, h')
        /\ self' = set_spec self (Some data))
    /\ (forall (later : OpenAPI) (fuel2 : nat) (h2 : heap),
          _spec later = Some data ->
          spec parse_converter_args _models fuel2 later h2 = Ok (data, later, h2))
    /\ (forall (fuel2 : nat) (h2 : heap),
          spec parse_converter_args _models fuel2 self' h2 = Ok (data, self', h2))
    /\ (forall (e : loc), _spec (set_extra_props self' e) = Some data)
    /\ (forall (args : OpenAPI) (fuel2 : nat) (h2 : heap),
          (mode args = "normal" \/ mode args = "greedy" \/ mode args = "strict") ->
          add_openapi_spec parse_converter_args _models fuel2 (Some self') args h2
          = Ok (data, Some (set_extra_props self' (extra_props args)), h2)).
Proof.
  intros pca models fuel self self' h h' data Hspec.
  assert (Hlater : forall later fuel2 h2, _spec later = Some data ->
            spec pca models fuel2 later h2 = Ok (data, later, h2)).
  { intros later fuel2 h2 Hl. unfold spec. now rewrite Hl. }
  assert (Hstored : _spec self' = Some data).
  { unfold spec in Hspec. destruct (_spec self) as [d|] eqn:Es.
    - injection Hspec as -> -> ->. exact Es.
    - destruct (generate_spec pca models fuel self h) as [[d hd]| | |];
        simpl in Hspec; try discriminate.
      injection Hspec as -> <- ->. reflexivity. }
  split; [exact Hstored|]. split; [|split; [exact Hlater|split; [|split]]].
  - intros Hnone. unfold spec in Hspec. rewrite Hnone in Hspec.
    destruct (generate_spec pca models fuel self h) as [[d hd]| | |];
      simpl in Hspec; try discriminate.
    injection Hspec as -> <- ->. split; reflexivity.
  - intros fuel2 h2. now apply Hlater.
  - intros e. exact Hstored.
  - intros args fuel2 h2 Hmode. unfold add_openapi_spec.
    replace (negb _) with false.
    + rewrite Hlater by exact Hstored. reflexivity.
    + destruct Hmode as [-> | [-> | ->]]; reflexivity.
Qed.

Lemma spec_cached_witness :
  exists data self' h',
    spec ArgTokenizer.parse_int_args 3%positive 4 normal_instance initial_store
      = Ok (data, self', h')
    /\ _spec normal_instance = None
    /\ _spec self' = Some data
    /\ forall fuel2 h2,
        spec ArgTokenizer.parse_int_args 3%positive fuel2 self' h2
        = Ok (data, self', h2).
Proof.
  destruct (spec ArgTokenizer.parse_int_args 3%positive 4 normal_instance initial_store)
    as [[[data self'] h']| | |] eqn:E.
  - exists data, self', h'. split; [reflexivity|]. split; [reflexivity|].
    pose proof (spec_cached _ _ _ _ _ _ _ _ E) as (H1 & _ & _ & H2 & _).
    split; [exact H1 | exact H2].
  - vm_compute in E. discriminate E.
  - vm_compute in E. discriminate E.
  - vm_compute in E. discriminate E.
Defined.

(** ** Templates with a repeated parameter name *)

Lemma append_cons c s r : String c s +:+ r = String c (s +:+ r).
Proof. reflexivity. Qed.

Lemma append_nil s : EmptyString +:+ s = s.
Proof. reflexivity. Qed.

Lemma append_assoc s1 s2 s3 : (s1 +:+ s2) +:+ s3 = s1 +:+ (s2 +:+ s3).
Proof.
  induction s1 as [|c s1 IH]; [reflexivity|].
  rewrite !append_cons. now rewrite IH.
Qed.

Lemma length_append s1 s2 :
  String.length (s1 +:+ s2) = String.length s1 + String.length s2.
Proof.
  induction s1 as [|c s1 IH]; [reflexivity|].
  rewrite append_cons. simpl. now rewrite IH.
Qed.

Lemma contains_append c s1 s2 :
  contains c (s1 +:+ s2) = contains c s1 || contains c s2.
Proof.
  induction s1 as [|a s1 IH]; [reflexivity|].
  rewrite append_cons. simpl. rewrite IH. now rewrite orb_assoc.
Qed.

(** A run of characters satisfying [p], followed by one that does not. *)
Lemma span_stop p w x r :
  span p w = (w, EmptyString) -> p x = false ->
  span p (w +:+ String x r) = (w, String x r).
Proof.
  revert x r. induction w as [|c w IH]; intros x r Hw Hx.
  - rewrite append_nil. simpl. now rewrite Hx.
  - rewrite append_cons. simpl in *. destruct (p c); [|discriminate].
    destruct (span p w) as [a b] eqn:E. injection Hw as -> ->.
    now rewrite (IH x r eq_refl Hx).
Qed.

Lemma span_no_bracket_stop pre r :
  contains "<" pre = false ->
  span (fun c => negb (ascii_eqb c "<")) (pre +:+ String "<" r) = (pre, String "<" r).
Proof.
  intros H. apply span_stop; [now apply span_no_occurrence | reflexivity].
Qed.

Lemma ident_followed v x r :
  identifier v -> ident_char x = false ->
  ident (v +:+ String x r) = Some (v, String x r).
Proof.
  intros (c & w & -> & Hc & Hw) Hx. rewrite append_cons. unfold ident.
  rewrite Hc. now rewrite (span_stop _ _ _ _ Hw Hx).
Qed.

Lemma variable_close_ok v r :
  identifier v -> variable_close (v +:+ String ">" r) = Some (v, r).
Proof.
  intros Hv. unfold variable_close. now rewrite ident_followed.
Qed.

Lemma span_append_stop p w w1 y w2 s :
  span p w = (w1, String y w2) -> span p (w +:+ s) = (w1, String y (w2 +:+ s)).
Proof.
  revert w1. induction w as [|c w IH]; intros w1 H; simpl in *; [discriminate|].
  destruct (p c).
  - destruct (span p w) as [a b] eqn:E. injection H as <- ->.
    now rewrite (IH a eq_refl).
  - now injection H as <- <- <-.
Qed.

Lemma span_whole_or_stop p w :
  span p w = (w, EmptyString) \/ exists w1 y w2, span p w = (w1, String y w2).
Proof.
  induction w as [|c w IH]; simpl; [now left|].
  destruct (p c) eqn:Ec; [|right; eauto].
  destruct IH as [->|(w1 & y & w2 & ->)]; [now left | right; eauto].
Qed.

(** What does not close a placeholder does not close it when a closing
    parenthesis follows: an identifier cannot run across the parenthesis
    up to a [>]. *)
Lemma variable_close_blocked a r :
  variable_close a = None -> variable_close (a +:+ String ")" r) = None.
Proof.
  unfold variable_close, ident. destruct a as [|c a]; [reflexivity|].
  rewrite append_cons. destruct (ident_start c); [|reflexivity].
  destruct (span_whole_or_stop ident_char a) as [Hw|(w1 & y & w2 & Hw)].
  - intros _. now rewrite (span_stop ident_char a ")" r Hw eq_refl).
  - rewrite Hw, (span_append_stop _ _ _ _ _ _ Hw).
    destruct y as [[] [] [] [] [] [] [] []]; try reflexivity. discriminate.
Qed.

Lemma args_close_blocked a r :
  a <> EmptyString -> args_close a = None ->
  args_close (a +:+ String ")" r) = None.
Proof.
  intros Hne. destruct a as [|c a]; [contradiction|].
  rewrite append_cons. unfold args_close.
  destruct (Ascii.eqb_spec c ")") as [->|Hc].
  - destruct a as [|c' a].
    + reflexivity.
    + rewrite append_cons. destruct (Ascii.eqb_spec c' ":") as [->|Hc'].
      * apply variable_close_blocked.
      * destruct c' as [[] [] [] [] [] [] [] []]; try reflexivity. contradiction.
  - destruct c as [[] [] [] [] [] [] [] []]; try reflexivity. contradiction.
Qed.

Lemma closes_early_cons c a :
  closes_early (String c a) = false ->
  args_close (String c a) = None /\ closes_early a = false.
Proof.
  cbn [closes_early]. destruct (args_close (String c a)); [discriminate | auto].
Qed.

Lemma lazy_args_ok a v r :
  identifier v -> closes_early a = false -> contains newline a = false ->
  lazy_args (a +:+ String ")" (String ":" (v +:+ String ">" r))) = Some (a, v, r).
Proof.
  intros Hv. induction a as [|c a IH]; intros Hearly Hnl.
  - rewrite append_nil. simpl. now rewrite variable_close_ok.
  - apply closes_early_cons in Hearly as [Hclose Hearly].
    pose proof (args_close_blocked (String c a)
                  (String ":" (v +:+ String ">" r)) ltac:(discriminate) Hclose) as Hblk.
    rewrite append_cons in *.
    simpl in Hnl. apply orb_false_elim in Hnl as [Hc Hnl].
    cbn [lazy_args]. rewrite Hblk, Hc. now rewrite IH.
Qed.

Lemma render_hole conv name : render_piece (Hole conv name) = String "<" (hole_body conv name).
Proof. destruct conv as [[c [a|]]|]; reflexivity. Qed.



Lemma parse_loop_match fuel rule s U m :
  do_match s = Some m ->
  parse_loop (S fuel) rule s U
  = let static := match m_static m with
                  | EmptyString => []
                  | text => [Static text]
                  end in
    if decide (m_variable m ∈ U)
    then (static, Raised (ValueError_used_twice (m_variable m)))
    else let '(ys, e) := parse_loop fuel rule (m_rest m) ({[m_variable m]} ∪ U) in
         (static ++ Dynamic (or_default (m_converter m)) (or_None (m_args m))
                      (m_variable m) :: ys, e).
Proof.
  intros Hm. destruct s as [|c s]; [discriminate Hm|].
  cbn [parse_loop]. now rewrite Hm.
Qed.

Lemma segment_arguments_app ys1 ys2 :
  segment_arguments (ys1 ++ ys2) = segment_arguments ys1 ++ segment_arguments ys2.
Proof. apply flat_map_app. Qed.





(** How the loop of [parse_url] over yielded segments ends: it returns, or
    the call of [get_converter_schema] raises for an argument text read
    with a keyword named [converter], or the tokenizer raises for an
    argument text. *)
Lemma parse_url_loop_outcome pca ys acc :
  (exists acc', parse_url_loop pca ys acc = Ok acc')
  \/ (exists a args kwargs,
        In a (segment_arguments ys)
        /\ pca a = Tokens args kwargs /\ dict_mem kwargs "converter" = true
        /\ parse_url_loop pca ys acc = Raise (TypeError_multiple_values "converter"))
  \/ (exists a fragment,
        In a (segment_arguments ys)
        /\ pca a = CannotParse fragment
        /\ parse_url_loop pca ys acc = Raise (ValueError_converter_argument fragment)).
Proof.
  revert acc. induction ys as [|seg ys IH]; intros [subs parameters].
  - left. simpl. eauto.
  - assert (Hnext : forall acc1,
               parse_url_step pca seg (subs, parameters) = Ok acc1 ->
               forall a, In a (segment_arguments ys) ->
                         In a (segment_arguments (seg :: ys))).
    { intros _ _ a Ha. change (seg :: ys) with ([seg] ++ ys).
      rewrite segment_arguments_app. apply in_app_iff. now right. }
    cbn [parse_url_loop].
    destruct (parse_url_step pca seg (subs, parameters)) as [acc1|e| |] eqn:Es;
      cbn [mbind outcome_bind Py.bind].
    + destruct (IH acc1) as [H|[(a & args & kwargs & Ha & Hp & Hk & H)
                                |(a & fragment & Ha & Hp & H)]].
      * now left.
      * right. left. exists a, args, kwargs. eauto using Hnext.
      * right. right. exists a, fragment. eauto using Hnext.
    + destruct seg as [text|conv [a|] var]; cbn [parse_url_step] in Es;
        try discriminate Es.
      * destruct (pca a) as [args kwargs|fragment] eqn:Ea.
        -- destruct (dict_mem kwargs "converter") eqn:Ek; [|discriminate Es].
           injection Es as <-. right. left. exists a, args, kwargs.
           repeat split; auto. now left.
        -- injection Es as <-. right. right. exists a, fragment.
           repeat split; auto. now left.
    + destruct seg as [text|conv [a|] var]; cbn [parse_url_step] in Es;
        try discriminate Es.
      destruct (pca a) as [args kwargs|fragment]; [|discriminate Es].
      destruct (dict_mem kwargs "converter"); discriminate Es.
    + destruct seg as [text|conv [a|] var]; cbn [parse_url_step] in Es;
        try discriminate Es.
      destruct (pca a) as [args kwargs|fragment]; [|discriminate Es].
      destruct (dict_mem kwargs "converter"); discriminate Es.
Qed.




(** ** The parser never runs out of fuel *)

Lemma span_length p s a r :
  span p s = (a, r) -> String.length s = String.length a + String.length r.
Proof.
  revert a r. induction s as [|c s IH]; intros a r; simpl.
  - intros [= <- <-]. reflexivity.
  - destruct (p c).
    + destruct (span p s) as [a' r'] eqn:E. intros [= <- <-]. simpl.
      now rewrite (IH a' r' eq_refl).
    + intros [= <- <-]. reflexivity.
Qed.

Lemma ident_shorter s v r : ident s = Some (v, r) -> String.length r < String.length s.
Proof.
  unfold ident. destruct s as [|c s]; [discriminate|].
  destruct (ident_start c); [|discriminate].
  destruct (span ident_char s) as [w r'] eqn:E. intros [= <- <-].
  apply span_length in E. simpl. lia.
Qed.

Lemma variable_close_shorter s v r :
  variable_close s = Some (v, r) -> String.length r < String.length s.
Proof.
  unfold variable_close. destruct (ident s) as [[v' r']|] eqn:E; [|discriminate].
  apply ident_shorter in E. destruct r' as [|c r']; [discriminate|].
  destruct (Ascii.eqb_spec c ">") as [->|Hc].
  - intros [= <- <-]. simpl in E. lia.
  - destruct c as [[] [] [] [] [] [] [] []]; try discriminate. contradiction.
Qed.

Lemma args_close_shorter s v r :
  args_close s = Some (v, r) -> String.length r < String.length s.
Proof.
  unfold args_close. destruct s as [|c s]; [discriminate|].
  destruct (Ascii.eqb_spec c ")") as [->|Hc].
  - destruct s as [|c' s]; [discriminate|].
    destruct (Ascii.eqb_spec c' ":") as [->|Hc'].
    + intros H. apply variable_close_shorter in H. simpl. lia.
    + destruct c' as [[] [] [] [] [] [] [] []]; try discriminate. contradiction.
  - destruct c as [[] [] [] [] [] [] [] []]; try discriminate. contradiction.
Qed.

Lemma lazy_args_shorter s a v r :
  lazy_args s = Some (a, v, r) -> String.length r < String.length s.
Proof.
  revert a. induction s as [|c s IH]; intros a.
  - simpl. discriminate.
  - cbn [lazy_args]. destruct (args_close (String c s)) as [[v' r']|] eqn:E.
    + intros [= <- <- <-]. now apply args_close_shorter in E.
    + destruct (ascii_eqb c newline); [discriminate|].
      destruct (lazy_args s) as [[[a' v'] r']|] eqn:E'; [|discriminate].
      intros [= <- <- <-]. specialize (IH a' eq_refl). simpl. lia.
Qed.

Lemma placeholder_shorter static s m :
  placeholder static s = Some m -> String.length (m_rest m) < String.length s.
Proof.
  unfold placeholder.
  assert (Hv : forall m,
             match variable_close s with
             | Some (v, r) => Some (Build_rmatch static None None v r)
             | None => None
             end = Some m -> String.length (m_rest m) < String.length s).
  { intros m'. destruct (variable_close s) as [[v r]|] eqn:E; [|discriminate].
    intros [= <-]. simpl. now apply variable_close_shorter in E. }
  destruct (ident s) as [[conv r]|] eqn:Ei; [|apply Hv].
  pose proof (ident_shorter s conv r Ei) as Hlen.
  destruct r as [|c r]; [apply Hv|].
  destruct (Ascii.eqb_spec c "(") as [->|Hc1].
  - destruct (lazy_args r) as [[[a v] r']|] eqn:El; [|apply Hv].
    intros [= <-]. simpl. apply lazy_args_shorter in El. simpl in Hlen. lia.
  - destruct (Ascii.eqb_spec c ":") as [->|Hc2].
    + destruct (variable_close r) as [[v r']|] eqn:Ev; [|apply Hv].
      intros [= <-]. simpl. apply variable_close_shorter in Ev. simpl in Hlen. lia.
    + destruct c as [[] [] [] [] [] [] [] []]; try apply Hv; contradiction.
Qed.

Lemma do_match_shorter s m :
  do_match s = Some m -> String.length (m_rest m) < String.length s.
Proof.
  unfold do_match.
  destruct (span (fun c => negb (ascii_eqb c "<")) s) as [static r] eqn:E.
  apply span_length in E. destruct r as [|c r]; [discriminate|].
  destruct (Ascii.eqb_spec c "<") as [->|Hc].
  - intros H. apply placeholder_shorter in H. simpl in E. lia.
  - destruct c as [[] [] [] [] [] [] [] []]; try discriminate. contradiction.
Qed.

Lemma parse_loop_fuel rule :
  forall fuel rest U,
    String.length rest < fuel -> snd (parse_loop fuel rule rest U) <> NoFuel.
Proof.
  induction fuel as [|fuel IH]; intros rest U Hlen; [lia|].
  cbn [parse_loop]. destruct rest as [|c rest]; [discriminate|].
  destruct (do_match (String c rest)) as [m|] eqn:Em.
  - destruct (decide (m_variable m ∈ U)); [discriminate|].
    apply do_match_shorter in Em.
    specialize (IH (m_rest m) ({[m_variable m]} ∪ U) ltac:(lia)).
    destruct (parse_loop fuel rule (m_rest m) ({[m_variable m]} ∪ U)) as [ys e].
    exact IH.
  - unfold parse_tail.
    destruct (contains ">" (String c rest) || contains "<" (String c rest));
      discriminate.
Qed.

(** [parse_rule] ends, by finishing or by raising; so does [parse_url]. *)
Lemma parse_rule_ends rule : snd (parse_rule rule) <> NoFuel.
Proof. unfold parse_rule. apply parse_loop_fuel. lia. Qed.

Lemma parse_url_ends (parse_converter_args : tokenizer)
    (path : string) :
  parse_url parse_converter_args path <> OutOfFuel
  /\ parse_url parse_converter_args path <> Undefined.
Proof.
  unfold parse_url. pose proof (parse_rule_ends path) as Hend.
  destruct (parse_rule path) as [segs e]. simpl in Hend.
  destruct (parse_url_loop_outcome parse_converter_args segs (EmptyString, []))
    as [(acc & ->)|[(a & args & kwargs & _ & _ & _ & ->)|(a & fragment & _ & _ & ->)]];
    simpl.
  - destruct e; split; try discriminate; contradiction.
  - split; discriminate.
  - split; discriminate.
Qed.

(** ** Shapes and the store *)

Lemma shape_ind' (P : shape -> Prop) :
  (forall a, P (SLeaf a)) ->
  (forall l cs, Forall (fun kc => P (snd kc)) cs -> P (SNode l cs)) ->
  forall s, P s.
Proof.
  intros Hleaf Hnode.
  refine (fix IH (s : shape) : P s :=
            match s with
            | SLeaf a => Hleaf a
            | SNode l cs =>
                Hnode l cs
                  ((fix go (cs : list (string * shape))
                     : Forall (fun kc => P (snd kc)) cs :=
                      match cs with
                      | [] => List.Forall_nil _
                      | (k, c) :: cs' => List.Forall_cons _ (k, c) cs' (IH c) (go cs')
                      end) cs)
            end).
Qed.

Lemma holds_node h l cs :
  holds h (SNode l cs)
  <-> ents h l = Some (map rootkv cs)
      /\ NoDup (map fst cs)
      /\ Forall (fun kc => holds h (snd kc)) cs.
Proof.
  cbn [holds]. unfold ents.
  assert (Hf : fold_right (fun '(_, c) P => holds h c /\ P) True cs
               <-> Forall (fun kc => holds h (snd kc)) cs).
  { induction cs as [|[k c] cs IH]; simpl.
    - split; [constructor | trivial].
    - rewrite Forall_cons. simpl. now rewrite IH. }
  now rewrite Hf.
Qed.

Lemma locs_node l cs : locs (SNode l cs) = l :: children_locs cs.
Proof. reflexivity. Qed.

Lemma erase_node l cs : erase (SNode l cs) = JDict (erase_entries cs).
Proof.
  cbn [erase]. f_equal. unfold erase_entries. apply map_ext. now intros [k c].
Qed.

Lemma child_locs_in cs k c l :
  In (k, c) cs -> In l (locs c) -> In l (children_locs cs).
Proof.
  intros Hin Hl. unfold children_locs. apply in_flat_map.
  exists (k, c). auto.
Qed.

Lemma children_locs_app cs1 cs2 :
  children_locs (cs1 ++ cs2) = children_locs cs1 ++ children_locs cs2.
Proof. unfold children_locs. apply flat_map_app. Qed.

(** The store agrees on the objects of a shape: the shape still holds. *)
Lemma holds_frame h h' s :
  (forall l, In l (locs s) -> h' !! l = h !! l) -> holds h s -> holds h' s.
Proof.
  induction s as [a|l cs IH] using shape_ind'; intros Hagree Hh; [exact I|].
  apply holds_node in Hh as (He & Hnd & Hcs). apply holds_node.
  split; [|split; [exact Hnd|]].
  - unfold ents in *. rewrite Hagree; [exact He | now left].
  - rewrite Forall_forall in *. intros [k c] Hin.
    apply (IH (k, c) Hin); [|now apply (Hcs (k, c))].
    intros l' Hl'. apply Hagree. rewrite locs_node. right.
    apply list_elem_of_In in Hin. now apply (child_locs_in cs k c).
Qed.

Lemma depth_child l cs k c : In (k, c) cs -> depth c < depth (SNode l cs).
Proof.
  intros Hin. cbn [depth]. induction cs as [|[k' c'] cs IH]; [destruct Hin|].
  simpl. destruct Hin as [[= -> ->]|Hin]; [lia|].
  specialize (IH Hin). lia.
Qed.

Lemma erase_is_dict s d : erase s = JDict d -> exists l cs, s = SNode l cs.
Proof.
  destruct s as [a|l cs]; [|eauto]. destruct a; discriminate.
Qed.

(** ** More on dictionaries *)

Section DictMore.
Context {V W : Type}.
Implicit Types (d : list (string * V)) (k : string).

Lemma dict_get_app d1 d2 k :
  dict_get (d1 ++ d2) k
  = match dict_get d1 k with Some v => Some v | None => dict_get d2 k end.
Proof.
  induction d1 as [|[k0 v0] d1 IH]; simpl; [reflexivity|].
  destruct (String.eqb k0 k); [reflexivity | exact IH].
Qed.

Lemma dict_get_map (f : V -> W) d k :
  dict_get (map (fun kv => (fst kv, f (snd kv))) d) k = option_map f (dict_get d k).
Proof.
  induction d as [|[k0 v0] d IH]; simpl; [reflexivity|].
  destruct (String.eqb k0 k); [reflexivity | exact IH].
Qed.

Lemma dict_mem_map (f : V -> W) d k :
  dict_mem (map (fun kv => (fst kv, f (snd kv))) d) k = dict_mem d k.
Proof. unfold dict_mem. rewrite dict_get_map. now destruct (dict_get d k). Qed.

Lemma keys_map (f : V -> W) d :
  map fst (map (fun kv => (fst kv, f (snd kv))) d) = map fst d.
Proof. rewrite map_map. reflexivity. Qed.

Lemma dict_mem_app d1 d2 k : dict_mem (d1 ++ d2) k = dict_mem d1 k || dict_mem d2 k.
Proof.
  unfold dict_mem. rewrite dict_get_app. now destruct (dict_get d1 k).
Qed.

Lemma dict_mem_keys d (d' : list (string * W)) k :
  map fst d = map fst d' -> dict_mem d k = dict_mem d' k.
Proof.
  intros Hk. destruct (dict_mem d k) eqn:E1, (dict_mem d' k) eqn:E2; try reflexivity.
  - apply dict_mem_true in E1. apply dict_mem_false in E2. rewrite Hk in E1. contradiction.
  - apply dict_mem_false in E1. apply dict_mem_true in E2. rewrite Hk in E1. contradiction.
Qed.

Lemma dict_set_middle d1 d2 k v v' :
  dict_mem d1 k = false ->
  dict_set (d1 ++ (k, v) :: d2) k v' = d1 ++ (k, v') :: d2.
Proof.
  induction d1 as [|[k0 v0] d1 IH]; simpl; intros Hk.
  - now rewrite String.eqb_refl.
  - unfold dict_mem in Hk. simpl in Hk. destruct (String.eqb k0 k) eqn:E; [discriminate|].
    f_equal. apply IH. exact Hk.
Qed.

Lemma dict_set_new d k v : dict_mem d k = false -> dict_set d k v = d ++ [(k, v)].
Proof.
  induction d as [|[k0 v0] d IH]; simpl; intros Hk; [reflexivity|].
  unfold dict_mem in Hk. simpl in Hk. destruct (String.eqb k0 k) eqn:E; [discriminate|].
  f_equal. apply IH. exact Hk.
Qed.

Lemma dict_del_filter d k :
  NoDup (map fst d) -> dict_del d k = filter (fun kv => fst kv <> k) d.
Proof.
  induction d as [|[k0 v0] d IH]; simpl; intros Hnd; [reflexivity|].
  apply NoDup_cons in Hnd as [Hk0 Hnd]. rewrite filter_cons. simpl.
  destruct (String.eqb_spec k0 k) as [->|Hne].
  - destruct (decide (k <> k)) as [?|_]; [contradiction|].
    symmetry. clear IH Hnd. induction d as [|[k1 v1] d IH]; [reflexivity|].
    rewrite filter_cons. simpl. destruct (decide (k1 <> k)) as [_|Heq].
    + f_equal. apply IH. intros Hin. apply Hk0. simpl. apply elem_of_cons. now right.
    + exfalso. apply Hk0. simpl. apply elem_of_cons. left.
      destruct (decide (k1 = k)); [auto|contradiction].
  - destruct (decide (k0 <> k)) as [_|?]; [|contradiction].
    f_equal. now apply IH.
Qed.

Lemma filter_map_key (f : V -> W) (P : string -> Prop) `{!forall k, Decision (P k)} d :
  map (fun kv => (fst kv, f (snd kv))) (filter (fun kv => P (fst kv)) d)
  = filter (fun kv => P (fst kv)) (map (fun kv => (fst kv, f (snd kv))) d).
Proof.
  induction d as [|[k0 v0] d IH]; [reflexivity|].
  simpl. rewrite !filter_cons. simpl. destruct (decide (P k0)); simpl; now rewrite IH.
Qed.

Lemma filter_key_ext (P Q : string -> Prop) `{!forall k, Decision (P k)}
    `{!forall k, Decision (Q k)} d :
  (forall k, P k <-> Q k) ->
  filter (fun kv => P (fst kv)) d = filter (fun kv => Q (fst kv)) d.
Proof.
  intros HPQ. induction d as [|[k0 v0] d IH]; [reflexivity|].
  rewrite !filter_cons. simpl.
  destruct (decide (P k0)) as [HP|HP], (decide (Q k0)) as [HQ|HQ];
    try (now rewrite IH); exfalso; apply HPQ in HP || apply HPQ in HQ; contradiction.
Qed.

Lemma filter_key_and (P Q : string -> Prop) `{!forall k, Decision (P k)}
    `{!forall k, Decision (Q k)} d :
  filter (fun kv => Q (fst kv)) (filter (fun kv => P (fst kv)) d)
  = filter (fun kv => P (fst kv) /\ Q (fst kv)) d.
Proof.
  induction d as [|[k0 v0] d IH]; [reflexivity|].
  rewrite !filter_cons. simpl.
  destruct (decide (P k0)) as [HP|HP].
  - rewrite filter_cons. simpl.
    destruct (decide (Q k0)), (decide (P k0 /\ Q k0)); try (now rewrite IH); tauto.
  - destruct (decide (P k0 /\ Q k0)); [tauto | exact IH].
Qed.

Lemma keys_filter_nodup (P : string -> Prop) `{!forall k, Decision (P k)} d :
  NoDup (map fst d) -> NoDup (map fst (filter (fun kv => P (fst kv)) d)).
Proof.
  induction d as [|[k0 v0] d IH]; simpl; intros Hnd; [constructor|].
  apply NoDup_cons in Hnd as [Hk0 Hnd]. rewrite filter_cons. simpl.
  destruct (decide (P k0)); [|now apply IH].
  simpl. apply NoDup_cons. split; [|now apply IH].
  intros Hin. apply Hk0. apply list_elem_of_In in Hin. apply list_elem_of_In.
  apply in_map_iff in Hin as (kv & <- & Hkv). apply in_map.
  apply list_elem_of_In in Hkv. apply list_elem_of_filter in Hkv as [_ Hkv].
  now apply list_elem_of_In.
Qed.

Lemma dict_get_filter (P : string -> Prop) `{!forall k, Decision (P k)} d k :
  dict_get (filter (fun kv => P (fst kv)) d) k
  = if decide (P k) then dict_get d k else None.
Proof.
  induction d as [|[k0 v0] d IH]; simpl.
  - now destruct (decide (P k)).
  - rewrite filter_cons. simpl. destruct (decide (P k0)) as [HP|HP]; simpl.
    + destruct (String.eqb_spec k0 k) as [->|Hne].
      * now destruct (decide (P k)).
      * exact IH.
    + rewrite IH. destruct (String.eqb_spec k0 k) as [->|Hne]; [|reflexivity].
      now destruct (decide (P k)).
Qed.

End DictMore.

(** ** Store operations on an allocated dictionary *)

Lemma setitem_ok h l o k v :
  h !! l = Some o ->
  setitem l k v h
  = Ok (<[l := {| entries := dict_set (entries o) k v;
                  version := if dict_mem (entries o) k then version o
                             else S (version o) |}]> h).
Proof. intros Hl. unfold setitem, deref. now rewrite Hl. Qed.

Lemma delitem_ok h l o k :
  h !! l = Some o ->
  delitem l k h
  = Ok (<[l := {| entries := dict_del (entries o) k; version := S (version o) |}]> h).
Proof. intros Hl. unfold delitem, deref. now rewrite Hl. Qed.

Lemma update_fold_ok l es :
  forall h o,
    h !! l = Some o ->
    exists ver,
      fold_left (fun acc kv => h' ← acc; setitem l (fst kv) (snd kv) h') es (Ok h)
      = Ok (<[l := {| entries := dict_update (entries o) es; version := ver |}]> h).
Proof.
  induction es as [|[k v] es IH]; intros h o Hl.
  - exists (version o). simpl. rewrite insert_id; [reflexivity|].
    rewrite Hl. now destruct o.
  - cbn [fold_left]. simpl mbind. cbn [fst snd]. rewrite (setitem_ok h l o k v Hl).
    set (o' := {| entries := dict_set (entries o) k v;
                  version := if dict_mem (entries o) k then version o
                             else S (version o) |}).
    destruct (IH (<[l := o']> h) o') as (ver & Hfold); [apply lookup_insert_eq|].
    simpl in Hfold |- *. rewrite Hfold. exists ver. rewrite insert_insert_eq. reflexivity.
Qed.

Lemma update_ok h l l2 o o2 :
  h !! l = Some o -> h !! l2 = Some o2 ->
  exists ver,
    update l l2 h
    = Ok (<[l := {| entries := dict_update (entries o) (entries o2); version := ver |}]> h).
Proof.
  intros Hl Hl2. unfold update, deref. rewrite Hl2. simpl.
  now apply update_fold_ok.
Qed.

Lemma dict_update_new {V} (d d2 : list (string * V)) :
  NoDup (map fst d2) ->
  (forall k, In k (map fst d2) -> dict_mem d k = false) ->
  dict_update d d2 = d ++ d2.
Proof.
  unfold dict_update. revert d. induction d2 as [|[k v] d2 IH]; intros d Hnd Hnew; simpl.
  - now rewrite app_nil_r.
  - apply NoDup_cons in Hnd as [Hk Hnd].
    rewrite dict_set_new by (apply Hnew; now left).
    rewrite IH; [now rewrite <- app_assoc|exact Hnd|].
    intros k' Hk'. rewrite dict_mem_app, Hnew by now right.
    unfold dict_mem. simpl. destruct (String.eqb_spec k k') as [->|]; [|reflexivity].
    exfalso. apply Hk. now apply list_elem_of_In.
Qed.

Lemma iter_check_ok h d o :
  h !! d = Some o ->
  iter_check h d (length (entries o)) (version o) = Ok tt.
Proof.
  intros Hd. unfold iter_check, deref. rewrite Hd. simpl.
  now rewrite !Nat.eqb_refl.
Qed.

(** ** The specification merge, unfolded *)

Lemma merge_spec_value_dict bd od :
  merge_spec_value (JDict bd) (JDict od)
  = JDict (map (merge_child od) bd
           ++ filter (fun kv => dict_mem bd (fst kv) = false) od).
Proof.
  cbn [merge_spec_value]. f_equal. f_equal.
  induction bd as [|[k v] bd IH]; [reflexivity|].
  simpl. f_equal. exact IH.
Qed.

Lemma merge_spec_unfold bd od :
  merge_spec bd od
  = map (merge_child od) bd ++ filter (fun kv => dict_mem bd (fst kv) = false) od.
Proof. unfold merge_spec. now rewrite merge_spec_value_dict. Qed.

Lemma merge_spec_value_atom b o :
  (forall d, o <> JDict d) \/ (forall d, b <> JDict d) ->
  merge_spec_value b o = o.
Proof.
  intros [Ho|Hb]; destruct b, o; try reflexivity.
  - exfalso. now apply (Ho d0).
  - exfalso. now apply (Hb d).
Qed.

(** ** What is left of the overlay *)

Lemma overlay_popped_node h' l1 bcs l2 ocs :
  overlay_popped h' (SNode l1 bcs) (SNode l2 ocs)
  <-> ents h' l2
      = Some (map rootkv (filter (fun kc => dict_mem bcs (fst kc) = false) ocs))
      /\ Forall (fun kc => match dict_get ocs (fst kc) with
                           | Some c2 => overlay_popped h' (snd kc) c2
                           | None => True
                           end) bcs.
Proof.
  cbn [overlay_popped]. unfold ents.
  match goal with
  | |- (_ /\ ?W) <-> (_ /\ ?F) => assert (Hw : W <-> F)
  end.
  { generalize bcs. intros cs.
    induction cs as [|[k c] cs IH]; simpl.
    - split; [constructor | trivial].
    - rewrite Forall_cons. simpl. now rewrite IH. }
  now rewrite Hw.
Qed.

Lemma overlay_popped_frame h h' b :
  forall o,
    (forall l, In l (locs o) -> h' !! l = h !! l) ->
    overlay_popped h b o -> overlay_popped h' b o.
Proof.
  induction b as [a|l1 bcs IH] using shape_ind'; intros o Hagree Hp; [exact I|].
  destruct o as [a|l2 ocs]; [exact I|].
  apply overlay_popped_node in Hp as [He Hcs]. apply overlay_popped_node. split.
  - unfold ents in *. rewrite Hagree; [exact He | now left].
  - rewrite Forall_forall in *. intros [k c] Hin. specialize (Hcs (k, c) Hin).
    specialize (IH (k, c) Hin). cbn [fst snd] in *.
    destruct (dict_get ocs k) as [c2|] eqn:E2; [|exact I].
    apply IH; [|exact Hcs]. intros l Hl. apply Hagree. rewrite locs_node. right.
    apply dict_get_Some_In in E2. now apply (child_locs_in ocs k c2).
Qed.

(** ** The merge on a tree-shaped store *)

Lemma filter_ext_in {A} (P Q : A -> Prop) `{!forall x, Decision (P x)}
    `{!forall x, Decision (Q x)} (l : list A) :
  (forall x, In x l -> (P x <-> Q x)) -> filter P l = filter Q l.
Proof.
  induction l as [|x l IH]; intros Hext; [reflexivity|].
  rewrite !filter_cons.
  assert (Hx : P x <-> Q x) by (apply Hext; now left).
  assert (Hl : filter P l = filter Q l)
    by (apply IH; intros y Hy; apply Hext; now right).
  destruct (decide (P x)), (decide (Q x)); try (now rewrite Hl); tauto.
Qed.

Lemma children_disjoint cs k c k' c' l :
  NoDup (children_locs cs) -> In (k, c) cs -> In (k', c') cs -> k <> k' ->
  In l (locs c) -> In l (locs c') -> False.
Proof.
  induction cs as [|[k0 c0] cs IH]; intros Hnd Hin Hin' Hne Hl Hl'; [destruct Hin|].
  change (children_locs ((k0, c0) :: cs)) with (locs c0 ++ children_locs cs) in Hnd.
  apply NoDup_app in Hnd as (_ & Hdis & Hnd).
  destruct Hin as [[= -> ->]|Hin], Hin' as [[= -> ->]|Hin'].
  - contradiction.
  - apply (Hdis l); [now apply list_elem_of_In|].
    apply list_elem_of_In. now apply (child_locs_in cs k' c').
  - apply (Hdis l); [now apply list_elem_of_In|].
    apply list_elem_of_In. now apply (child_locs_in cs k c).
  - now apply IH.
Qed.

Lemma children_nodup cs k c :
  NoDup (children_locs cs) -> In (k, c) cs -> NoDup (locs c).
Proof.
  induction cs as [|[k0 c0] cs IH]; intros Hnd Hin; [destruct Hin|].
  change (children_locs ((k0, c0) :: cs)) with (locs c0 ++ children_locs cs) in Hnd.
  apply NoDup_app in Hnd as (Hc0 & _ & Hnd).
  destruct Hin as [[= -> ->]|Hin]; [exact Hc0 | now apply IH].
Qed.

Lemma rootkv_map cs : map rootkv cs = map (fun kc => (fst kc, root (snd kc))) cs.
Proof. reflexivity. Qed.

Lemma rootkv_middle a k c b :
  map rootkv (a ++ (k, c) :: b) = map rootkv a ++ (k, root c) :: map rootkv b.
Proof. now rewrite map_app. Qed.

Lemma dict_mem_rootkv cs k : dict_mem (map rootkv cs) k = dict_mem cs k.
Proof. rewrite rootkv_map. apply dict_mem_map. Qed.

Lemma dict_get_rootkv cs k : dict_get (map rootkv cs) k = option_map root (dict_get cs k).
Proof. rewrite rootkv_map. apply dict_get_map. Qed.

Lemma ents_Some h l es :
  ents h l = Some es <-> exists o, h !! l = Some o /\ entries o = es.
Proof.
  unfold ents. destruct (h !! l) as [o|]; simpl; split.
  - intros [= <-]. eauto.
  - intros (o' & [= <-] & <-). reflexivity.
  - discriminate.
  - intros (o' & Ho & _). discriminate.
Qed.

Lemma ents_insert h l o : ents (<[l := o]> h) l = Some (entries o).
Proof. unfold ents. now rewrite lookup_insert_eq. Qed.

Lemma ents_agree h h' l : h' !! l = h !! l -> ents h' l = ents h l.
Proof. unfold ents. now intros ->. Qed.

Lemma Forall2_impl_In {A B} (R R' : A -> B -> Prop) l k :
  Forall2 R l k -> (forall x y, In x l -> R x y -> R' x y) -> Forall2 R' l k.
Proof.
  induction 1 as [|x y l k Hxy _ IH]; intros Himp; constructor.
  - apply Himp; [now left | exact Hxy].
  - apply IH. intros x' y' Hin. apply Himp. now right.
Qed.

Lemma Forall2_keys (R : string * shape -> string * shape -> Prop)
    (l k : list (string * shape)) :
  Forall2 (fun kc kc' => fst kc = fst kc' /\ R kc kc') l k ->
  map fst l = map fst k.
Proof.
  induction 1 as [|x y l k [Hxy _] _ IH]; [reflexivity|].
  simpl. now rewrite Hxy, IH.
Qed.

Section MergeLoop.

Variable rec : loc -> loc -> heap -> outcome (loc * heap).
Variables (l1 l2 : loc) (cs1 cs2 : list (string * shape)).

Hypothesis Hsep : NoDup ((l1 :: children_locs cs1) ++ (l2 :: children_locs cs2)).
Hypothesis Hk1 : NoDup (map fst cs1).
Hypothesis Hk2 : NoDup (map fst cs2).
Hypothesis Hrec :
  forall k a ca b cb h,
    In (k, SNode a ca) cs1 -> In (k, SNode b cb) cs2 ->
    holds h (SNode a ca) -> holds h (SNode b cb) ->
    exists h', rec a b h = Ok (a, h') /\ merge_post a ca b cb h h'.

Local Abbreviation F l :=
  (In l ((l1 :: children_locs cs1) ++ (l2 :: children_locs cs2))).
Local Abbreviation modified := (modified l1 l2 cs1 cs2).
Local Abbreviation step_post := (step_post cs2).

Lemma sep_facts :
  l1 <> l2
  /\ ~ In l1 (children_locs cs1) /\ ~ In l1 (children_locs cs2)
  /\ ~ In l2 (children_locs cs1) /\ ~ In l2 (children_locs cs2)
  /\ NoDup (children_locs cs1) /\ NoDup (children_locs cs2)
  /\ (forall l, In l (children_locs cs1) -> In l (children_locs cs2) -> False).
Proof.
  pose proof Hsep as H. simpl in H.
  apply NoDup_cons in H as [H1 H].
  apply NoDup_app in H as (HA & Hdis & HB).
  apply NoDup_cons in HB as [H2 HB].
  rewrite list_elem_of_In, in_app_iff in H1. simpl in H1.
  repeat split; try tauto.
  - intros ->. tauto.
  - intros Hin. apply list_elem_of_In in Hin. apply (Hdis _ Hin). left.
  - now rewrite <- list_elem_of_In.
  - intros l Hl Hl'. apply list_elem_of_In in Hl. apply (Hdis _ Hl).
    right. now apply list_elem_of_In.
Qed.

Lemma modified_in_F k l : modified k l -> F l.
Proof.
  rewrite in_app_iff. simpl.
  intros [->|[->|[(c & Hc & Hl)|(c & Hc & Hl)]]].
  - left. now left.
  - right. now left.
  - left. right. now apply (child_locs_in cs1 k c).
  - right. right. now apply (child_locs_in cs2 k c).
Qed.

Lemma untouched1 k k' c' l :
  k' <> k -> In (k', c') cs1 -> In l (locs c') -> ~ modified k l.
Proof.
  intros Hne Hin Hl.
  destruct sep_facts as (_ & H1 & _ & H2 & _ & Hn1 & _ & Hx).
  pose proof (child_locs_in cs1 k' c' l Hin Hl) as Hc.
  intros [->|[->|[(c & Hc1 & Hl1)|(c & Hc2 & Hl2)]]].
  - contradiction.
  - contradiction.
  - apply (children_disjoint cs1 k' c' k c l); auto.
  - apply (Hx l Hc). now apply (child_locs_in cs2 k c).
Qed.

Lemma untouched2 k k' c' l :
  k' <> k -> In (k', c') cs2 -> In l (locs c') -> ~ modified k l.
Proof.
  intros Hne Hin Hl.
  destruct sep_facts as (_ & _ & H1 & _ & H2 & _ & Hn2 & Hx).
  pose proof (child_locs_in cs2 k' c' l Hin Hl) as Hc.
  intros [->|[->|[(c & Hc1 & Hl1)|(c & Hc2 & Hl2)]]].
  - contradiction.
  - contradiction.
  - apply (Hx l); [now apply (child_locs_in cs1 k c) | exact Hc].
  - apply (children_disjoint cs2 k' c' k c l); auto.
Qed.

Lemma step_post_frame h h' k c c' :
  step_post h k c c' ->
  (forall l, In l (locs c) \/ (exists c2, dict_get cs2 k = Some c2 /\ In l (locs c2)) ->
             h' !! l = h !! l) ->
  step_post h' k c c'.
Proof.
  intros (Hh & He & Hl & Hp) Hagree. repeat split.
  - apply (holds_frame h); [|exact Hh]. intros l Hin. apply Hagree. now apply Hl.
  - exact He.
  - exact Hl.
  - destruct (dict_get cs2 k) as [c2|] eqn:E2; [|exact I].
    apply (overlay_popped_frame h); [|exact Hp].
    intros l Hin. apply Hagree. right. eauto.
Qed.

Lemma step_post_untouched h h' k k' c c' :
  k' <> k -> In (k', c) cs1 ->
  (forall l, ~ modified k l -> h' !! l = h !! l) ->
  step_post h k' c c' -> step_post h' k' c c'.
Proof.
  intros Hne Hin Hframe Hsp. apply (step_post_frame h); [exact Hsp|].
  intros l [Hl|(c2 & Hc2 & Hl)]; apply Hframe.
  - now apply (untouched1 k k' c).
  - apply dict_get_Some_In in Hc2. now apply (untouched2 k k' c2).
Qed.

Local Abbreviation merge_inv := (merge_inv l1 l2 cs2).

Lemma key_not_done done k c todo :
  cs1 = done ++ (k, c) :: todo -> dict_mem done k = false.
Proof.
  intros Hcs. apply dict_mem_false. intros Hin.
  pose proof Hk1 as Hnd. rewrite Hcs, map_app in Hnd.
  apply NoDup_app in Hnd as (_ & Hdis & _).
  apply (Hdis k); [now apply list_elem_of_In|]. simpl. apply elem_of_cons. now left.
Qed.

Lemma key_not_todo done k c todo k' c' :
  cs1 = done ++ (k, c) :: todo -> In (k', c') todo -> k' <> k.
Proof.
  intros Hcs Hin ->. pose proof Hk1 as Hnd. rewrite Hcs, map_app in Hnd.
  apply NoDup_app in Hnd as (_ & _ & Hnd). simpl in Hnd.
  apply NoDup_cons in Hnd as [Hk _]. apply Hk. apply list_elem_of_In.
  change k with (fst (k, c')). now apply in_map.
Qed.

Lemma key_done_ne done k c todo k' c' :
  cs1 = done ++ (k, c) :: todo -> In (k', c') done -> k' <> k.
Proof.
  intros Hcs Hin ->. pose proof (key_not_done done k c todo Hcs) as Hm.
  apply dict_mem_false in Hm. apply Hm.
  change k with (fst (k, c')). now apply in_map.
Qed.

Lemma merge_step ver0 done k c1 todo done' h :
  cs1 = done ++ (k, c1) :: todo ->
  merge_inv ver0 done ((k, c1) :: todo) done' h ->
  exists h2 c1',
    merge_body rec l1 l2 k (root c1) (tt, h) = Ok (tt, h2)
    /\ (exists o1, h2 !! l1 = Some o1
                   /\ entries o1 = map rootkv (done' ++ (k, c1') :: todo)
                   /\ version o1 = ver0)
    /\ ents h2 l2
       = Some (map rootkv
                 (filter (fun kc => dict_mem (done ++ [(k, c1)]) (fst kc) = false) cs2))
    /\ step_post h2 k c1 c1'
    /\ (forall l, ~ modified k l -> h2 !! l = h !! l).
Proof.
  intros Hcs ((o1 & Ho1 & He1 & Hv1) & He2 & Hdone & Htodo & Hrem).
  destruct sep_facts as (Hl12 & Hs1 & Hs2 & Hs3 & Hs4 & Hn1 & Hn2 & Hx).
  pose proof (key_not_done done k c1 todo Hcs) as Hkd.
  assert (Hin1 : In (k, c1) cs1) by (rewrite Hcs; apply in_elt).
  apply ents_Some in He2 as (o2 & Ho2 & He2).
  assert (Hget2 : dict_get (entries o2) k = option_map root (dict_get cs2 k)).
  { rewrite He2, dict_get_rootkv.
    rewrite_beta (dict_get_filter (fun k' => dict_mem done k' = false) cs2 k).
    destruct (decide (dict_mem done k = false)); [reflexivity | contradiction]. }
  apply Forall_cons in Htodo as [Hc1 Htodo]. cbn [snd] in Hc1.
  unfold merge_body. cbn [snd]. unfold deref at 1. rewrite Ho2. simpl mbind.
  rewrite Hget2.
  destruct (dict_get cs2 k) as [c2|] eqn:Ec2; cbn [option_map].
  - (* k in d2 *)
    pose proof (dict_get_Some_In _ _ _ Ec2) as Hin2.
    rewrite (delitem_ok h l2 o2 k Ho2). simpl mbind.
    set (h1 := <[l2 := {| entries := dict_del (entries o2) k;
                          version := S (version o2) |}]> h).
    assert (Hh1 : forall l, l <> l2 -> h1 !! l = h !! l).
    { intros l Hl. unfold h1. now rewrite lookup_insert_ne. }
    assert (Hl2c1 : ~ In l2 (locs c1)).
    { intros Hin. apply Hs3. now apply (child_locs_in cs1 k c1). }
    assert (Hl2c2 : ~ In l2 (locs c2)).
    { intros Hin. apply Hs4. now apply (child_locs_in cs2 k c2). }
    assert (Hl1c1 : ~ In l1 (locs c1)).
    { intros Hin. apply Hs1. now apply (child_locs_in cs1 k c1). }
    assert (Hl1c2 : ~ In l1 (locs c2)).
    { intros Hin. apply Hs2. now apply (child_locs_in cs2 k c2). }
    assert (Hc2 : holds h c2).
    { rewrite Forall_forall in Hrem. apply (Hrem (k, c2)); [|exact Hkd].
      now apply list_elem_of_In. }
    assert (Hrem' : ents h1 l2
              = Some (map rootkv
                   (filter (fun kc => dict_mem (done ++ [(k, c1)]) (fst kc) = false) cs2))).
    { unfold h1. rewrite ents_insert. cbn [entries]. rewrite He2. f_equal.
      rewrite dict_del_filter.
      - rewrite !rootkv_map.
        rewrite_beta_rev (filter_map_key root (fun k' => k' <> k)
                            (filter (fun kc => dict_mem done (fst kc) = false) cs2)).
        f_equal.
        rewrite_beta (filter_key_and (fun k' => dict_mem done k' = false)
                        (fun k' => k' <> k) cs2).
        pose proof (filter_key_ext (fun k' => dict_mem done k' = false /\ k' <> k)
                      (fun k' => dict_mem (done ++ [(k, c1)]) k' = false) cs2) as Hext.
        cbv beta in Hext. apply Hext. clear Hext.
        intros k'. rewrite dict_mem_app.
        assert (Hs : dict_mem [(k, c1)] k' = String.eqb k k').
        { unfold dict_mem. simpl. now destruct (String.eqb k k'). }
        rewrite Hs.
        destruct (String.eqb_spec k k') as [->|Hne]; destruct (dict_mem done k');
          simpl; intuition congruence.
      - rewrite rootkv_map, keys_map.
        exact (keys_filter_nodup (fun k' => dict_mem done k' = false) cs2 Hk2). }
    assert (Hget1 : dict_mem done' k = false).
    { rewrite <- Hkd. symmetry. apply dict_mem_keys.
      exact (Forall2_keys
               (fun kc kc' => step_post h (fst kc) (snd kc) (snd kc')) _ _ Hdone). }
    assert (Ho1' : h1 !! l1 = Some o1) by (rewrite Hh1; [exact Ho1 | exact Hl12]).
    assert (Hmem1 : dict_mem (entries o1) k = true).
    { rewrite He1, dict_mem_rootkv, dict_mem_app, Hget1.
      unfold dict_mem. simpl. now rewrite String.eqb_refl. }
    assert (Hrepl :
      (forall d, erase c2 <> JDict d) \/ (forall d, erase c1 <> JDict d) ->
      exists h2 c1',
        (h2' ← setitem l1 k (root c2) h1; Ok (tt, h2')) = Ok (tt, h2)
        /\ (exists o1, h2 !! l1 = Some o1
                       /\ entries o1 = map rootkv (done' ++ (k, c1') :: todo)
                       /\ version o1 = ver0)
        /\ ents h2 l2
           = Some (map rootkv
                     (filter (fun kc => dict_mem (done ++ [(k, c1)]) (fst kc) = false)
                             cs2))
        /\ step_post h2 k c1 c1'
        /\ (forall l, ~ modified k l -> h2 !! l = h !! l)).
    { intros Hatom. eexists _, c2.
      rewrite (setitem_ok h1 l1 o1 k (root c2) Ho1'). simpl mbind.
      split; [reflexivity|].
      split; [|split; [|split; [split; [|split; [|split]]|]]].
      - eexists. split; [apply lookup_insert_eq|]. cbn [entries version]. split.
        + rewrite He1, !rootkv_middle.
          apply dict_set_middle. now rewrite dict_mem_rootkv.
        + rewrite Hmem1. exact Hv1.
      - rewrite <- Hrem'. apply ents_agree. now rewrite lookup_insert_ne.
      - apply (holds_frame h); [|exact Hc2].
        intros l Hl. rewrite lookup_insert_ne by (intros <-; contradiction).
        apply Hh1. intros ->. contradiction.
      - rewrite Ec2. symmetry. apply merge_spec_value_atom. exact Hatom.
      - intros l Hl. right. eauto.
      - rewrite Ec2. destruct Hatom as [Ha|Ha].
        + destruct c2 as [a2|b cb]; [now destruct c1|].
          exfalso. apply (Ha (erase_entries cb)). apply erase_node.
        + destruct c1 as [a1|a ca]; [exact I|].
          exfalso. apply (Ha (erase_entries ca)). apply erase_node.
      - intros l Hl. rewrite lookup_insert_ne; [apply Hh1|]; intros ->; apply Hl.
        + right. now left.
        + now left. }
    destruct c1 as [a1|a ca], c2 as [a2|b cb].
    + apply Hrepl. left. intros d. destruct a2; discriminate.
    + apply Hrepl. right. intros d. destruct a1; discriminate.
    + apply Hrepl. left. intros d. destruct a2; discriminate.
    + (* both are dictionaries *)
      cbn [root].
      destruct (Hrec k a ca b cb h1 Hin1 Hin2) as (h2 & Hcall & Hpost).
      { apply (holds_frame h); [|exact Hc1].
        intros l Hl. apply Hh1. intros ->. contradiction. }
      { apply (holds_frame h); [|exact Hc2].
        intros l Hl. apply Hh1. intros ->. contradiction. }
      destruct Hpost as (ca' & Hca' & Herase & Hlocs & Hframe & Hpop & _).
      assert (Hh2 : forall l, ~ In l (locs (SNode a ca)) -> ~ In l (locs (SNode b cb)) ->
                              l <> l2 -> h2 !! l = h !! l).
      { intros l Ha Hb Hl. rewrite Hframe by assumption. now apply Hh1. }
      exists h2, (SNode a ca'). rewrite Hcall. simpl mbind.
      split; [reflexivity|].
      split; [|split; [|split; [split; [|split; [|split]]|]]].
      * exists o1. split; [|split; [|exact Hv1]].
        -- rewrite Hframe by assumption. exact Ho1'.
        -- rewrite He1, !rootkv_middle. reflexivity.
      * rewrite <- Hrem'. apply ents_agree. now apply Hframe.
      * exact Hca'.
      * rewrite Ec2, !erase_node, Herase. unfold merge_spec.
        now rewrite merge_spec_value_dict.
      * intros l Hl. rewrite locs_node in Hl. destruct Hl as [<-|Hl].
        -- left. rewrite locs_node. now left.
        -- destruct (Hlocs l Hl) as [H|H].
           ++ left. rewrite locs_node. now right.
           ++ right. exists (SNode b cb). split; [exact Ec2|].
              rewrite locs_node. now right.
      * rewrite Ec2. exact Hpop.
      * intros l Hl. apply Hh2.
        -- intros Hin. apply Hl. right. right. left. eauto.
        -- intros Hin. apply Hl. right. right. right. eauto.
        -- intros ->. apply Hl. right. now left.
  - (* k not in d2 *)
    exists h, c1. split; [reflexivity|].
    split; [|split; [|split; [split; [|split; [|split]]|]]].
    + exists o1. auto.
    + apply ents_Some. exists o2. split; [exact Ho2|]. rewrite He2. f_equal.
      apply filter_ext_in. intros [k' c'] Hin. cbn [fst].
      rewrite dict_mem_app.
      assert (Hs : dict_mem [(k, c1)] k' = false).
      { unfold dict_mem. simpl. destruct (String.eqb_spec k k') as [->|]; [|reflexivity].
        apply dict_get_None in Ec2. exfalso. apply Ec2.
        change k' with (fst (k', c')). now apply in_map. }
      rewrite Hs, orb_false_r. reflexivity.
    + exact Hc1.
    + now rewrite Ec2.
    + intros l Hl. now left.
    + now rewrite Ec2.
    + reflexivity.
Qed.

Lemma merge_inv_size ver0 done todo done' h o1 :
  merge_inv ver0 done todo done' h -> h !! l1 = Some o1 ->
  length (entries o1) = length (done ++ todo) /\ version o1 = ver0.
Proof.
  intros ((o & Ho & He & Hv) & _ & Hdone & _) Ho1.
  rewrite Ho in Ho1. injection Ho1 as <-. split; [|exact Hv].
  rewrite He, length_map, !length_app. f_equal. symmetry.
  now apply Forall2_length in Hdone.
Qed.

Lemma merge_loop_ok ver0 :
  forall todo done done' h,
    cs1 = done ++ todo ->
    merge_inv ver0 done todo done' h ->
    exists h' done'',
      for_items_from (merge_body rec l1 l2) l1 (length cs1) ver0 (map fst todo) (tt, h)
      = Ok (tt, h')
      /\ merge_inv ver0 cs1 [] done'' h'
      /\ (forall l, ~ F l -> h' !! l = h !! l).
Proof.
  induction todo as [|[k c1] todo IH]; intros done done' h Hcs Hinv.
  - destruct Hinv as ((o1 & Ho1 & He1 & Hv1) & Hrest).
    pose proof (merge_inv_size ver0 done [] done' h o1
                  (conj (ex_intro _ o1 (conj Ho1 (conj He1 Hv1))) Hrest) Ho1)
      as [Hlen Hver].
    rewrite app_nil_r in Hcs. subst done.
    exists h, done'. split; [|split; [|reflexivity]].
    + cbn [map for_items_from snd]. unfold iter_check, deref. rewrite Ho1. simpl mbind.
      rewrite app_nil_r in Hlen. rewrite Hlen, Hver, !Nat.eqb_refl. reflexivity.
    + split; [eauto | exact Hrest].
  - pose proof Hinv as ((o1 & Ho1 & He1 & Hv1) & He2 & Hdone & Htodo & Hrem).
    pose proof (merge_inv_size ver0 _ _ _ _ o1 Hinv Ho1) as [Hlen Hver].
    pose proof (key_not_done done k c1 todo Hcs) as Hkd.
    destruct (merge_step ver0 done k c1 todo done' h Hcs Hinv)
      as (h2 & c1' & Hbody & Hi1 & Hi2 & Hsp & Hframe).
    destruct (IH (done ++ [(k, c1)]) (done' ++ [(k, c1')]) h2) as (h' & done'' & Hrun & Hinv' & Hframe').
    { rewrite <- app_assoc. exact Hcs. }
    { split; [|split; [|split; [|split]]].
      - rewrite <- app_assoc. exact Hi1.
      - exact Hi2.
      - apply Forall2_app; [|constructor; [split; [reflexivity | exact Hsp] | constructor]].
        apply (Forall2_impl_In _ _ _ _ Hdone).
        intros [k' c] [k'' c'] Hin [Hk Hs]. cbn [fst snd] in *. split; [exact Hk|].
        apply (step_post_untouched h h2 k k' c c'); auto.
        + now apply (key_done_ne done k c1 todo k' c).
        + rewrite Hcs. apply in_or_app. now left.
      - apply Forall_cons in Htodo as [_ Htodo]. rewrite Forall_forall in *.
        intros [k' c'] Hin. cbn [snd]. apply (holds_frame h); [|now apply (Htodo (k', c'))].
        intros l Hl. apply Hframe. apply list_elem_of_In in Hin.
        apply (untouched1 k k' c'); auto.
        + now apply (key_not_todo done k c1 todo k' c').
        + rewrite Hcs. apply in_or_app. right. now right.
      - rewrite Forall_forall in *. intros [k' c'] Hin Hmem. cbn [fst snd] in *.
        rewrite dict_mem_app in Hmem. apply orb_false_elim in Hmem as [Hm1 Hm2].
        apply (holds_frame h); [|now apply (Hrem (k', c'))].
        intros l Hl. apply Hframe. apply list_elem_of_In in Hin.
        apply (untouched2 k k' c'); auto.
        intros ->. unfold dict_mem in Hm2. simpl in Hm2.
        rewrite String.eqb_refl in Hm2. discriminate. }
    exists h', done''. split; [|split; [exact Hinv'|]].
    + cbn [map fst for_items_from snd]. unfold iter_check, deref at 1 2. rewrite Ho1.
      simpl mbind. rewrite Hcs, Hlen, Hver, !Nat.eqb_refl. cbn [negb].
      rewrite He1, dict_get_rootkv, dict_get_app.
      assert (Hd' : dict_get done' k = None).
      { assert (Hm : dict_mem done' k = false).
        { rewrite <- Hkd. symmetry. apply dict_mem_keys.
          exact (Forall2_keys
                   (fun kc kc' => step_post h (fst kc) (snd kc) (snd kc')) _ _ Hdone). }
        unfold dict_mem in Hm. now destruct (dict_get done' k). }
      rewrite Hd'. simpl dict_get. rewrite String.eqb_refl. cbn [option_map].
      rewrite Hbody. simpl mbind. rewrite <- Hcs. exact Hrun.
    + intros l Hl. rewrite Hframe' by exact Hl. apply Hframe.
      intros Hm. apply Hl. now apply (modified_in_F k).
Qed.

End MergeLoop.

Lemma Forall2_Forall_l {A B} (R : A -> B -> Prop) (P : A -> Prop) l k :
  Forall2 R l k -> (forall x y, In x l -> R x y -> P x) -> Forall P l.
Proof.
  induction 1 as [|x y l k Hxy _ IH]; intros Himp; constructor.
  - apply (Himp x y); [now left | exact Hxy].
  - apply IH. intros x' y' Hin. apply Himp. now right.
Qed.

Lemma Forall2_Forall_r {A B} (R : A -> B -> Prop) (P : B -> Prop) l k :
  Forall2 R l k -> (forall x y, In x l -> R x y -> P y) -> Forall P k.
Proof.
  induction 1 as [|x y l k Hxy _ IH]; intros Himp; constructor.
  - apply (Himp x y); [now left | exact Hxy].
  - apply IH. intros x' y' Hin. apply Himp. now right.
Qed.

Lemma filter_all {A} (P : A -> Prop) `{!forall x, Decision (P x)} (l : list A) :
  (forall x, In x l -> P x) -> filter P l = l.
Proof.
  induction l as [|x l IH]; intros Hall; [reflexivity|].
  rewrite filter_cons. destruct (decide (P x)) as [_|Hn].
  - f_equal. apply IH. intros y Hy. apply Hall. now right.
  - exfalso. apply Hn, Hall. now left.
Qed.

Lemma erase_done cs2 h done done' :
  Forall2 (fun kc kc' => fst kc = fst kc'
                         /\ step_post cs2 h (fst kc) (snd kc) (snd kc')) done done' ->
  erase_entries done' = map (merge_child (erase_entries cs2)) (erase_entries done).
Proof.
  induction 1 as [|[k c] [k' c'] l l' [Hk (_ & He & _)] _ IH]; [reflexivity|].
  cbn [fst snd] in *. subst k'. unfold erase_entries in *. cbn [map]. rewrite IH.
  f_equal. unfold merge_child. cbn [fst snd]. f_equal. rewrite He.
  rewrite dict_get_map. now destruct (dict_get cs2 k).
Qed.

Lemma erase_remaining cs1 cs2 :
  erase_entries (filter (fun kc => dict_mem cs1 (fst kc) = false) cs2)
  = filter (fun kv => dict_mem (erase_entries cs1) (fst kv) = false) (erase_entries cs2).
Proof.
  unfold erase_entries.
  rewrite_beta (filter_map_key erase (fun k => dict_mem cs1 k = false) cs2).
  pose proof (filter_key_ext (fun k => dict_mem cs1 k = false)
                (fun k => dict_mem (map (fun kc => (fst kc, erase (snd kc))) cs1) k = false)
                (map (fun kc => (fst kc, erase (snd kc))) cs2)) as Hext.
  cbv beta in Hext. apply Hext. intros k. now rewrite dict_mem_map.
Qed.

Lemma merge_dicts_shape :
  forall fuel l1 cs1 l2 cs2 h,
    depth (SNode l1 cs1) <= fuel ->
    holds h (SNode l1 cs1) -> holds h (SNode l2 cs2) ->
    NoDup (locs (SNode l1 cs1) ++ locs (SNode l2 cs2)) ->
    exists h', merge_dicts fuel l1 l2 h = Ok (l1, h') /\ merge_post l1 cs1 l2 cs2 h h'.
Proof.
  induction fuel as [|fuel IH]; intros l1 cs1 l2 cs2 h Hd H1 H2 Hsep.
  - cbn [depth] in Hd. lia.
  - apply holds_node in H1 as (He1 & Hk1 & Hc1).
    apply holds_node in H2 as (He2 & Hk2 & Hc2).
    rewrite !locs_node in Hsep.
    destruct (sep_facts l1 l2 cs1 cs2 Hsep)
      as (Hl12 & Hs1 & Hs2 & Hs3 & Hs4 & Hn1 & Hn2 & Hx).
    assert (Hrec : forall k a ca b cb h0,
               In (k, SNode a ca) cs1 -> In (k, SNode b cb) cs2 ->
               holds h0 (SNode a ca) -> holds h0 (SNode b cb) ->
               exists h', merge_dicts fuel a b h0 = Ok (a, h')
                          /\ merge_post a ca b cb h0 h').
    { intros k a ca b cb h0 Hin1 Hin2 Ha Hb. apply IH; auto.
      - pose proof (depth_child l1 cs1 k _ Hin1). lia.
      - apply NoDup_app. split; [now apply (children_nodup cs1 k)|].
        split; [|now apply (children_nodup cs2 k)].
        intros l Hl Hl'. apply list_elem_of_In in Hl, Hl'. apply (Hx l).
        + now apply (child_locs_in cs1 k (SNode a ca)).
        + now apply (child_locs_in cs2 k (SNode b cb)). }
    apply ents_Some in He1 as (o1 & Ho1 & He1).
    destruct (merge_loop_ok (merge_dicts fuel) l1 l2 cs1 cs2 Hsep Hk1 Hk2 Hrec
                (version o1) cs1 [] [] h eq_refl)
      as (h' & done'' & Hrun & Hinv & Hframe).
    { split; [|split; [|split; [|split]]].
      - exists o1. auto.
      - rewrite filter_all; [exact He2|]. reflexivity.
      - constructor.
      - exact Hc1.
      - rewrite Forall_forall in *. intros kc Hin _. now apply Hc2. }
    destruct Hinv as ((o1' & Ho1' & He1' & Hv1') & He2' & Hdone & _ & Hrem).
    rewrite app_nil_r in He1'.
    set (rem := filter (fun kc => dict_mem cs1 (fst kc) = false) cs2) in *.
    apply ents_Some in He2' as (o2' & Ho2' & He2'').
    destruct (update_ok h' l1 l2 o1' o2' Ho1' Ho2') as (ver & Hupd).
    pose proof (Forall2_keys
                  (fun kc kc' => step_post cs2 h' (fst kc) (snd kc) (snd kc')) _ _ Hdone)
      as Hkeys.
    assert (Hrem_in : forall kc, In kc rem -> In kc cs2 /\ dict_mem cs1 (fst kc) = false).
    { intros kc Hin. apply list_elem_of_In in Hin. unfold rem in Hin.
      apply list_elem_of_filter in Hin as [Hp Hin]. split; [now apply list_elem_of_In | exact Hp]. }
    assert (Hnew : dict_update (entries o1') (entries o2') = map rootkv (done'' ++ rem)).
    { rewrite He1', He2'', map_app. apply dict_update_new.
      - rewrite rootkv_map, keys_map.
        exact (keys_filter_nodup (fun k => dict_mem cs1 k = false) cs2 Hk2).
      - intros k Hk. rewrite dict_mem_rootkv.
        rewrite rootkv_map, keys_map in Hk. apply in_map_iff in Hk as (kc & <- & Hkc).
        rewrite <- (dict_mem_keys cs1 done'' _ Hkeys). now apply Hrem_in. }
    rewrite Hnew in Hupd.
    eexists. split.
    { cbn [merge_dicts]. unfold for_items. cbn [snd]. unfold deref at 1. rewrite Ho1.
      simpl mbind. rewrite He1, length_map. unfold dict_keys.
      rewrite rootkv_map, keys_map. rewrite Hrun. simpl mbind.
      rewrite Hupd. reflexivity. }
    set (h'' := <[l1 := {| entries := map rootkv (done'' ++ rem); version := ver |}]> h').
    assert (Hh'' : forall l, l <> l1 -> h'' !! l = h' !! l).
    { intros l Hl. unfold h''. now rewrite lookup_insert_ne. }
    assert (Hchild_ne : forall l, In l (children_locs cs1) \/ In l (children_locs cs2) ->
                                  l <> l1).
    { intros l [Hl|Hl] ->; contradiction. }
    assert (Hdone_locs :
      Forall (fun kc' => forall l, In l (locs (snd kc')) ->
                In l (children_locs cs1) \/ In l (children_locs cs2)) done'').
    { apply (Forall2_Forall_r _ _ _ _ Hdone).
      intros [k c] [k' c'] Hin [_ (_ & _ & Hl & _)] l Hin'. cbn [fst snd] in *.
      destruct (Hl l Hin') as [Hc|(c2 & Hg & Hc)].
      - left. now apply (child_locs_in cs1 k c).
      - right. apply dict_get_Some_In in Hg. now apply (child_locs_in cs2 k c2). }
    assert (Hrem'' : Forall (fun kc => holds h'' (snd kc)) rem).
    { rewrite Forall_forall in *. intros [k c] Hin. cbn [snd].
      apply list_elem_of_In in Hin. destruct (Hrem_in _ Hin) as [Hin2 Hm].
      apply (holds_frame h').
      - intros l Hl. apply Hh'', Hchild_ne. right.
        now apply (child_locs_in cs2 k c).
      - apply (Hrem (k, c)); [now apply list_elem_of_In | exact Hm]. }
    exists (done'' ++ rem). split; [|split; [|split; [|split; [|split]]]].
    + apply holds_node. split; [|split].
      * unfold h''. apply ents_insert.
      * rewrite map_app. apply NoDup_app. split; [now rewrite <- Hkeys|]. split.
        -- intros k Hk Hk'. apply list_elem_of_In in Hk, Hk'.
           apply in_map_iff in Hk' as (kc & <- & Hkc).
           destruct (Hrem_in kc Hkc) as [_ Hm]. apply dict_mem_false in Hm.
           apply Hm. now rewrite Hkeys.
        -- exact (keys_filter_nodup (fun k => dict_mem cs1 k = false) cs2 Hk2).
      * apply Forall_app. split.
        -- apply (Forall2_Forall_r _ _ _ _ Hdone).
           intros [k c] [k' c'] Hin [_ (Hh & _ & Hl & _)]. cbn [fst snd] in *.
           apply (holds_frame h'); [|exact Hh].
           intros l Hin'. apply Hh'', Hchild_ne.
           destruct (Hl l Hin') as [Hc|(c2 & Hg & Hc)].
           ++ left. now apply (child_locs_in cs1 k c).
           ++ right. apply dict_get_Some_In in Hg. now apply (child_locs_in cs2 k c2).
        -- exact Hrem''.
    + unfold erase_entries at 1. rewrite map_app. fold (erase_entries done'').
      fold (erase_entries rem). rewrite merge_spec_unfold. f_equal.
      * exact (erase_done cs2 h' cs1 done'' Hdone).
      * apply erase_remaining.
    + intros l Hl. rewrite children_locs_app in Hl. apply in_app_or in Hl as [Hl|Hl].
      * unfold children_locs in Hl. apply in_flat_map in Hl as ([k' c'] & Hin & Hl).
        rewrite Forall_forall in Hdone_locs.
        apply (Hdone_locs (k', c')); [now apply list_elem_of_In | exact Hl].
      * unfold children_locs in Hl. apply in_flat_map in Hl as ([k' c'] & Hin & Hl).
        right. destruct (Hrem_in _ Hin) as [Hin2 _].
        now apply (child_locs_in cs2 k' c').
    + intros l Hn1' Hn2'. rewrite !locs_node in *.
      rewrite Hh'' by (intros ->; apply Hn1'; now left).
      apply Hframe. intros HF. apply in_app_or in HF as [HF|HF]; contradiction.
    + apply overlay_popped_node. split.
      * rewrite (ents_agree h' h'' l2) by (apply Hh''; auto).
        apply ents_Some. eauto.
      * apply (Forall2_Forall_l _ _ _ _ Hdone).
        intros [k c] [k' c'] Hin [_ (_ & _ & _ & Hp)]. cbn [fst snd] in *.
        destruct (dict_get cs2 k) as [c2|] eqn:E2; [|exact I].
        apply (overlay_popped_frame h'); [|exact Hp].
        intros l Hl. apply Hh'', Hchild_ne. right.
        apply dict_get_Some_In in E2. now apply (child_locs_in cs2 k c2).
    + apply holds_node. split; [|split; [|exact Hrem'']].
      * rewrite (ents_agree h' h'' l2) by (apply Hh''; auto).
        apply ents_Some. eauto.
      * exact (keys_filter_nodup (fun k => dict_mem cs1 k = false) cs2 Hk2).
Qed.

(** ** Literals built in the store *)

Lemma json_ind' (P : json -> Prop) :
  P JNone -> (forall b, P (JBool b)) -> (forall z, P (JInt z)) ->
  (forall s, P (JFloat s)) -> (forall s, P (JStr s)) -> (forall l, P (JList l)) ->
  (forall d, Forall (fun kv => P (snd kv)) d -> P (JDict d)) ->
  forall j, P j.
Proof.
  intros Hn Hb Hi Hf Hs Hl Hd.
  refine (fix IH (j : json) : P j :=
            match j with
            | JNone => Hn
            | JBool b => Hb b
            | JInt z => Hi z
            | JFloat s => Hf s
            | JStr s => Hs s
            | JList l => Hl l
            | JDict d =>
                Hd d ((fix go (d : list (string * json))
                        : Forall (fun kv => P (snd kv)) d :=
                         match d with
                         | [] => List.Forall_nil _
                         | (k, x) :: d' => List.Forall_cons _ (k, x) d' (IH x) (go d')
                         end) d)
            end).
Qed.

Lemma wf_json_dict d :
  wf_json (JDict d) <-> NoDup (map fst d) /\ Forall (fun kv => wf_json (snd kv)) d.
Proof.
  cbn [wf_json].
  assert (Hf : fold_right (fun '(_, x) P => wf_json x /\ P) True d
               <-> Forall (fun kv => wf_json (snd kv)) d).
  { induction d as [|[k x] d IH]; simpl.
    - split; [constructor | trivial].
    - rewrite Forall_cons. simpl. now rewrite IH. }
  now rewrite Hf.
Qed.

Lemma holds_allocated h s l : holds h s -> In l (locs s) -> is_Some (h !! l).
Proof.
  revert l. induction s as [a|l0 cs IH] using shape_ind'; intros l Hh Hl; [destruct Hl|].
  apply holds_node in Hh as (He & _ & Hcs). rewrite locs_node in Hl.
  destruct Hl as [<-|Hl].
  - apply ents_Some in He as (o & Ho & _). eauto.
  - unfold children_locs in Hl. apply in_flat_map in Hl as ([k c] & Hin & Hl).
    rewrite Forall_forall in IH, Hcs. apply list_elem_of_In in Hin.
    apply (IH (k, c) Hin); [now apply (Hcs (k, c)) | exact Hl].
Qed.

Lemma alloc_built j :
  wf_json j -> forall h, exists s h', built j h s h'.
Proof.
  induction j as [| | | | | |d IH] using json_ind'; intros Hwf h.
  - exists (SLeaf ANone), h. repeat split; auto; try constructor. intros l [].
  - exists (SLeaf (ABool b)), h. repeat split; auto; try constructor. intros l [].
  - exists (SLeaf (AInt z)), h. repeat split; auto; try constructor. intros l [].
  - exists (SLeaf (AFloat s)), h. repeat split; auto; try constructor. intros l [].
  - exists (SLeaf (AStr s)), h. repeat split; auto; try constructor. intros l [].
  - exists (SLeaf (AList l)), h. repeat split; auto; try constructor. intros l0 [].
  - apply wf_json_dict in Hwf as [Hnd Hwf].
    unfold built. cbn [alloc].
    match goal with
    | |- context [?F d h] => is_fix F; set (AE := F)
    end.
    assert (Hentries : forall h, exists cs h1,
               AE d h = (map rootkv cs, h1)
               /\ Forall (fun kc => holds h1 (snd kc)) cs
               /\ erase_entries cs = d
               /\ NoDup (children_locs cs)
               /\ (forall l, In l (children_locs cs) -> h !! l = None)
               /\ (forall l o, h !! l = Some o -> h1 !! l = Some o)).
    { clear h Hnd. induction d as [|[k x] d IHd]; intros h.
      - exists [], h. repeat split; auto; try constructor. intros l [].
      - apply Forall_cons in IH as [IHx IH]. apply Forall_cons in Hwf as [Hwx Hwf].
        cbn [snd] in IHx, Hwx.
        destruct (IHx Hwx h) as (s & ha & (Ha & Hs & Hes & Hns & Hfs & Hps)).
        destruct (IHd IH Hwf ha) as (cs & h1 & Hae & Hcs & Hecs & Hncs & Hfcs & Hpcs).
        exists ((k, s) :: cs), h1.
        assert (Hal : forall l, In l (locs s) -> is_Some (ha !! l)).
        { intros l Hl. now apply (holds_allocated ha s). }
        split; [|split; [|split; [|split; [|split]]]].
        + unfold built in Ha. cbn [AE]. fold AE. rewrite Ha, Hae. reflexivity.
        + constructor; [|exact Hcs]. cbn [snd].
          apply (holds_frame ha); [|exact Hs]. intros l Hl.
          destruct (Hal l Hl) as [o Ho]. rewrite Ho. now apply Hpcs.
        + unfold erase_entries in *. cbn [map fst snd]. now rewrite Hes, Hecs.
        + change (children_locs ((k, s) :: cs)) with (locs s ++ children_locs cs).
          apply NoDup_app. split; [exact Hns|]. split; [|exact Hncs].
          intros l Hl Hl'. apply list_elem_of_In in Hl, Hl'.
          destruct (Hal l Hl) as [o Ho]. rewrite (Hfcs l Hl') in Ho. discriminate.
        + intros l Hl.
          change (children_locs ((k, s) :: cs)) with (locs s ++ children_locs cs) in Hl.
          apply in_app_or in Hl as [Hl|Hl]; [now apply Hfs|].
          destruct (h !! l) as [o|] eqn:E; [|reflexivity].
          apply Hps in E. rewrite (Hfcs l Hl) in E. discriminate.
        + intros l o Ho. apply Hpcs, Hps, Ho. }
    destruct (Hentries h) as (cs & h1 & Hae & Hcs & Hecs & Hncs & Hfcs & Hpcs).
    set (l := fresh (dom h1)).
    assert (Hl : h1 !! l = None).
    { apply not_elem_of_dom. apply is_fresh. }
    assert (Hlc : ~ In l (children_locs cs)).
    { intros Hin. unfold children_locs in Hin.
      apply in_flat_map in Hin as ([k c] & Hkc & Hin).
      rewrite Forall_forall in Hcs. apply list_elem_of_In in Hkc.
      destruct (holds_allocated h1 c l (Hcs (k, c) Hkc) Hin) as [o Ho].
      rewrite Hl in Ho. discriminate. }
    exists (SNode l cs), (<[l := {| entries := map rootkv cs; version := 0 |}]> h1).
    split; [rewrite Hae; reflexivity|]. split; [|split; [|split; [|split]]].
    + apply holds_node. split; [apply ents_insert|]. split.
      * rewrite <- Hecs in Hnd. unfold erase_entries in Hnd. now rewrite keys_map in Hnd.
      * rewrite Forall_forall in *. intros [k c] Hkc. cbn [snd].
        apply (holds_frame h1); [|now apply (Hcs (k, c))].
        intros l' Hl'. apply lookup_insert_ne. intros <-. apply Hlc.
        apply list_elem_of_In in Hkc. now apply (child_locs_in cs k c).
    + now rewrite erase_node, Hecs.
    + rewrite locs_node. apply NoDup_cons. split; [|exact Hncs].
      now rewrite list_elem_of_In.
    + intros l' Hl'. rewrite locs_node in Hl'. destruct Hl' as [<-|Hl']; [|now apply Hfcs].
      destruct (h !! l) as [o|] eqn:E; [|reflexivity].
      apply Hpcs in E. rewrite Hl in E. discriminate.
    + intros l' o Ho. apply Hpcs in Ho. rewrite lookup_insert_ne; [exact Ho|].
      intros <-. rewrite Hl in Ho. discriminate.
Qed.

Lemma merge_dicts_on_literals :
  forall (base overlay : list (string * json)) (h : heap),
    wf_json (JDict base) -> wf_json (JDict overlay) ->
    exists d1 h1 d2 h2,
      alloc (JDict base) h = (VDict d1, h1)
      /\ alloc (JDict overlay) h1 = (VDict d2, h2)
      /\ exists n, forall fuel, n <= fuel ->
           exists h',
             merge_dicts fuel d1 d2 h2 = Ok (d1, h')
             /\ denotes h' (VDict d1) (JDict (merge_spec base overlay))
             /\ denotes h' (VDict d2)
                  (JDict (filter (fun kv => dict_mem base (fst kv) = false) overlay)).
Proof.
  intros base overlay h Hwb Hwo.
  destruct (alloc_built (JDict base) Hwb h) as (s1 & h1 & Ha1 & Hh1 & He1 & Hn1 & Hf1 & Hp1).
  destruct (erase_is_dict s1 base He1) as (d1 & cs1 & ->).
  destruct (alloc_built (JDict overlay) Hwo h1)
    as (s2 & h2 & Ha2 & Hh2 & He2 & Hn2 & Hf2 & Hp2).
  destruct (erase_is_dict s2 overlay He2) as (d2 & cs2 & ->).
  rewrite erase_node in He1, He2. injection He1 as He1. injection He2 as He2.
  exists d1, h1, d2, h2. split; [exact Ha1|]. split; [exact Ha2|].
  assert (Hal : forall l, In l (locs (SNode d1 cs1)) -> is_Some (h1 !! l)).
  { intros l Hl. now apply (holds_allocated h1 (SNode d1 cs1)). }
  assert (Hh1' : holds h2 (SNode d1 cs1)).
  { apply (holds_frame h1); [|exact Hh1]. intros l Hl.
    destruct (Hal l Hl) as [o Ho]. rewrite Ho. now apply Hp2. }
  assert (Hsep : NoDup (locs (SNode d1 cs1) ++ locs (SNode d2 cs2))).
  { apply NoDup_app. split; [exact Hn1|]. split; [|exact Hn2].
    intros l Hl Hl'. apply list_elem_of_In in Hl, Hl'.
    destruct (Hal l Hl) as [o Ho]. rewrite (Hf2 l Hl') in Ho. discriminate. }
  exists (depth (SNode d1 cs1)). intros fuel Hfuel.
  destruct (merge_dicts_shape fuel d1 cs1 d2 cs2 h2 Hfuel Hh1' Hh2 Hsep)
    as (h' & Hrun & ca' & Hca' & Herase & _ & _ & _ & Hrem).
  exists h'. split; [exact Hrun|]. split.
  - exists (SNode d1 ca'). split; [exact Hca'|]. split; [reflexivity|].
    now rewrite erase_node, Herase, He1, He2.
  - eexists. split; [exact Hrem|]. split; [reflexivity|].
    now rewrite erase_node, erase_remaining, He1, He2.
Qed.

(** ** The merge, key by key *)

Lemma dict_get_merge_children od bd k :
  dict_get (map (merge_child od) bd) k
  = match dict_get bd k with
    | Some v => Some (match dict_get od k with
                      | Some v2 => merge_spec_value v v2
                      | None => v
                      end)
    | None => None
    end.
Proof.
  induction bd as [|[k0 v0] bd IH]; [reflexivity|].
  cbn [map merge_child fst snd dict_get].
  destruct (String.eqb_spec k0 k) as [->|Hne]; [reflexivity | exact IH].
Qed.

(** The result of the specification merge at a key, by cases on the
    presence of the key in the base and in the overlay. *)
Lemma merge_spec_at base overlay k :
  dict_get (merge_spec base overlay) k
  = match dict_get base k, dict_get overlay k with
    | Some (JDict x), Some (JDict y) => Some (JDict (merge_spec x y))
    | Some _, Some v2 => Some v2
    | None, Some v2 => Some v2
    | Some v, None => Some v
    | None, None => None
    end.
Proof.
  rewrite merge_spec_unfold, dict_get_app, dict_get_merge_children.
  rewrite_beta (dict_get_filter (fun k' => dict_mem base k' = false) overlay k).
  unfold dict_mem. destruct (dict_get base k) as [v|] eqn:Eb.
  - destruct (dict_get overlay k) as [v2|]; [|now destruct v].
    destruct v, v2; reflexivity.
  - destruct (decide (false = false)); [|contradiction].
    now destruct (dict_get overlay k).
Qed.

Lemma merge_dicts_on_shapes :
  forall (h : heap) (l1 l2 : loc) (cs1 cs2 : list (string * shape)) (fuel : nat),
    holds h (SNode l1 cs1) ->
    holds h (SNode l2 cs2) ->
    separate (SNode l1 cs1) (SNode l2 cs2) ->
    depth (SNode l1 cs1) <= fuel ->
    exists h',
      merge_dicts fuel l1 l2 h = Ok (l1, h')
      /\ denotes h' (VDict l1)
           (JDict (merge_spec (erase_entries cs1) (erase_entries cs2))).
Proof.
  intros h l1 l2 cs1 cs2 fuel H1 H2 Hsep Hfuel.
  destruct (merge_dicts_shape fuel l1 cs1 l2 cs2 h Hfuel H1 H2 Hsep)
    as (h' & Hrun & ca' & Hca' & Herase & _).
  exists h'. split; [exact Hrun|].
  exists (SNode l1 ca'). split; [exact Hca'|]. split; [reflexivity|].
  now rewrite erase_node, Herase.
Qed.

(** The two examples of the specification, run on the store. *)
Example merge_dicts_example_nested :
  let '(base, h1) := alloc (JDict [("c", JDict [("a", JInt 1)])]) ∅ in
  let '(overlay, h2) := alloc (JDict [("c", JDict [("b", JInt 2)])]) h1 in
  match base, overlay with
  | VDict d1, VDict d2 =>
      exists h', merge_dicts 2 d1 d2 h2 = Ok (d1, h')
                 /\ read 3 h' base = Some (JDict [("c", JDict [("a", JInt 1); ("b", JInt 2)])])
  | _, _ => False
  end.
Proof. vm_compute. eexists. split; reflexivity. Qed.

Example merge_dicts_example_replace :
  let '(base, h1) := alloc (JDict [("c", JInt 1)]) ∅ in
  let '(overlay, h2) := alloc (JDict [("c", JDict [("b", JInt 2)])]) h1 in
  match base, overlay with
  | VDict d1, VDict d2 =>
      exists h', merge_dicts 2 d1 d2 h2 = Ok (d1, h')
                 /\ read 3 h' base = Some (JDict [("c", JDict [("b", JInt 2)])])
  | _, _ => False
  end.
Proof. vm_compute. eexists. split; reflexivity. Qed.

(** C2. [merge_dicts] returns the base reference, and the base then stands
    for the merge of the two mappings in the words of the specification:
    at every key, two mappings are merged recursively, otherwise the
    overlay value replaces the base value, keys of the overlay alone are
    added and keys of the base alone keep their value. This holds for a
    base and an overlay that are separate trees of the store, and so for
    every two mappings built as literals, one after the other, in any
    store; the two examples of the specification are run on the store. *)
Theorem merge_dicts_merges :
  (forall (h : heap) (l1 l2 : loc) (cs1 cs2 : list (string * shape)) (fuel : nat),
      holds h (SNode l1 cs1) ->
      holds h (SNode l2 cs2) ->
      separate (SNode l1 cs1) (SNode l2 cs2) ->
      depth (SNode l1 cs1) <= fuel ->
      exists h',
        merge_dicts fuel l1 l2 h = Ok (l1, h')
        /\ denotes h' (VDict l1)
             (JDict (merge_spec (erase_entries cs1) (erase_entries cs2))))
  /\ (forall (base overlay : list (string * json)) (h : heap),
        wf_json (JDict base) -> wf_json (JDict overlay) ->
        exists d1 h1 d2 h2,
          alloc (JDict base) h = (VDict d1, h1)
          /\ alloc (JDict overlay) h1 = (VDict d2, h2)
          /\ exists n, forall fuel, n <= fuel ->
               exists h',
                 merge_dicts fuel d1 d2 h2 = Ok (d1, h')
                 /\ denotes h' (VDict d1) (JDict (merge_spec base overlay)))
  /\ (forall (base overlay : list (string * json)) (k : string),
        dict_get (merge_spec base overlay) k
        = match dict_get base k, dict_get overlay k with
          | Some (JDict x), Some (JDict y) => Some (JDict (merge_spec x y))
          | Some _, Some v2 => Some v2
          | None, Some v2 => Some v2
          | Some v, None => Some v
          | None, None => None
          end)
  /\ (let '(base, h1) := alloc (JDict [("c", JDict [("a", JInt 1)])]) ∅ in
      let '(overlay, h2) := alloc (JDict [("c", JDict [("b", JInt 2)])]) h1 in
      match base, overlay with
      | VDict d1, VDict d2 =>
          exists h', merge_dicts 2 d1 d2 h2 = Ok (d1, h')
                     /\ read 3 h' base
                        = Some (JDict [("c", JDict [("a", JInt 1); ("b", JInt 2)])])
      | _, _ => False
      end)
  /\ (let '(base, h1) := alloc (JDict [("c", JInt 1)]) ∅ in
      let '(overlay, h2) := alloc (JDict [("c", JDict [("b", JInt 2)])]) h1 in
      match base, overlay with
      | VDict d1, VDict d2 =>
          exists h', merge_dicts 2 d1 d2 h2 = Ok (d1, h')
                     /\ read 3 h' base = Some (JDict [("c", JDict [("b", JInt 2)])])
      | _, _ => False
      end).
Proof.
  split; [exact merge_dicts_on_shapes|].
  split; [|split; [exact merge_spec_at|]];
    [|split; [exact merge_dicts_example_nested | exact merge_dicts_example_replace]].
  intros base overlay h Hwb Hwo.
  destruct (merge_dicts_on_literals base overlay h Hwb Hwo)
    as (d1 & h1 & d2 & h2 & Ha1 & Ha2 & n & Hn).
  exists d1, h1, d2, h2. split; [exact Ha1|]. split; [exact Ha2|].
  exists n. intros fuel Hfuel. destruct (Hn fuel Hfuel) as (h' & Hrun & Hden & _).
  exists h'. auto.
Qed.

Lemma example_holds :
  holds example_store (SNode 2%positive example_base)
  /\ holds example_store (SNode 4%positive example_overlay)
  /\ separate (SNode 2%positive example_base) (SNode 4%positive example_overlay).
Proof.
  assert (Hnd : forall l : list string, bool_decide (NoDup l) = true -> NoDup l).
  { intros l. apply bool_decide_eq_true_1. }
  split; [|split].
  - cbn [holds example_base fold_right]. repeat split; try (apply Hnd; reflexivity).
  - cbn [holds example_overlay fold_right]. repeat split; try (apply Hnd; reflexivity).
  - unfold separate. apply (bool_decide_unpack _). vm_compute. reflexivity.
Qed.

Lemma merge_dicts_merges_witness :
  (exists h',
      merge_dicts 2 2%positive 4%positive example_store = Ok (2%positive, h')
      /\ denotes h' (VDict 2%positive)
           (JDict [("c", JDict [("a", JInt 1); ("b", JInt 2)])]))
  /\ (exists d1 h1 d2 h2,
        alloc (JDict [("c", JInt 1)]) ∅ = (VDict d1, h1)
        /\ alloc (JDict [("c", JDict [("b", JInt 2)])]) h1 = (VDict d2, h2)
        /\ exists n, forall fuel, n <= fuel ->
             exists h',
               merge_dicts fuel d1 d2 h2 = Ok (d1, h')
               /\ denotes h' (VDict d1) (JDict [("c", JDict [("b", JInt 2)])])).
Proof.
  destruct merge_dicts_merges as (Hshapes & Hliterals & _).
  split.
  - destruct example_holds as (Hb & Ho & Hsep).
    apply (Hshapes example_store 2%positive 4%positive
             example_base example_overlay 2 Hb Ho Hsep).
    cbn. lia.
  - apply (Hliterals [("c", JInt 1)] [("c", JDict [("b", JInt 2)])] ∅).
    + apply wf_json_dict. split; [apply NoDup_singleton | repeat constructor].
    + apply wf_json_dict. split; [apply NoDup_singleton|].
      constructor; [|constructor]. apply wf_json_dict.
      split; [apply NoDup_singleton | repeat constructor].
Defined.

(** ** What the merge does to the overlay *)

Lemma keys_rootkv cs : map fst (map rootkv cs) = map fst cs.
Proof. rewrite rootkv_map. apply keys_map. Qed.

Lemma filter_keeps_all cs1 (cs2 : list (string * shape)) :
  map rootkv (filter (fun kc => dict_mem cs1 (fst kc) = false) cs2) = map rootkv cs2
  <-> (forall k, In k (map fst cs2) -> dict_mem (V:=shape) cs1 k = false).
Proof.
  split.
  - intros Heq k Hk.
    assert (Hkeys : map fst (filter (fun kc => dict_mem cs1 (fst kc) = false) cs2)
                    = map fst cs2).
    { rewrite <- (keys_rootkv cs2), <- Heq. symmetry. apply keys_rootkv. }
    rewrite <- Hkeys in Hk. apply in_map_iff in Hk as (kc & <- & Hkc).
    apply list_elem_of_In, list_elem_of_filter in Hkc as [Hp _]. exact Hp.
  - intros Hall. rewrite filter_all; [reflexivity|].
    intros kc Hin. apply Hall. now apply in_map.
Qed.

Lemma overlay_on_shapes :
  forall (h : heap) (l1 l2 : loc) (cs1 cs2 : list (string * shape)) (fuel : nat),
    holds h (SNode l1 cs1) ->
    holds h (SNode l2 cs2) ->
    separate (SNode l1 cs1) (SNode l2 cs2) ->
    depth (SNode l1 cs1) <= fuel ->
    exists h',
      merge_dicts fuel l1 l2 h = Ok (l1, h')
      /\ ents h' l2
         = Some (map rootkv (filter (fun kc => dict_mem cs1 (fst kc) = false) cs2))
      /\ (forall k es, dict_mem cs1 k = true -> ents h' l2 = Some es ->
                       dict_mem es k = false)
      /\ overlay_popped h' (SNode l1 cs1) (SNode l2 cs2)
      /\ (ents h' l2 = ents h l2
          <-> forall k, In k (map fst cs2) -> dict_mem cs1 k = false).
Proof.
  intros h l1 l2 cs1 cs2 fuel H1 H2 Hsep Hfuel.
  destruct (merge_dicts_shape fuel l1 cs1 l2 cs2 h Hfuel H1 H2 Hsep)
    as (h' & Hrun & ca' & _ & _ & _ & _ & Hpop & _).
  pose proof Hpop as Hpop'. apply overlay_popped_node in Hpop' as [Hents _].
  apply holds_node in H2 as (He2 & Hk2 & _).
  exists h'. split; [exact Hrun|]. split; [exact Hents|]. split; [|split; [exact Hpop|]].
  - intros k es Hk Hes. rewrite Hents in Hes. injection Hes as <-.
    rewrite dict_mem_rootkv. apply dict_mem_false. intros Hin.
    apply in_map_iff in Hin as (kc & <- & Hkc).
    apply list_elem_of_In, list_elem_of_filter in Hkc as [Hp _]. congruence.
  - rewrite Hents, He2. rewrite <- filter_keeps_all. split; [|now intros ->].
    now intros [= ->].
Qed.

(** C9. [merge_dicts] leaves in the overlay dictionary the entries whose
    key is not a key of the base, in their order; the same holds of every
    overlay sub-dictionary that met a base sub-dictionary under the same
    key, recursively; and the entries of the overlay are unchanged iff no
    key of the overlay is a key of the base. This holds for a base and an
    overlay that are separate trees of the store; for two mappings built
    as literals the overlay then stands for its entries under the keys that
    the base does not have. *)
Theorem merge_dicts_pops_overlay :
  (forall (h : heap) (l1 l2 : loc) (cs1 cs2 : list (string * shape)) (fuel : nat),
      holds h (SNode l1 cs1) ->
      holds h (SNode l2 cs2) ->
      separate (SNode l1 cs1) (SNode l2 cs2) ->
      depth (SNode l1 cs1) <= fuel ->
      exists h',
        merge_dicts fuel l1 l2 h = Ok (l1, h')
        /\ ents h' l2
           = Some (map rootkv (filter (fun kc => dict_mem cs1 (fst kc) = false) cs2))
        /\ (forall k es, dict_mem cs1 k = true -> ents h' l2 = Some es ->
                         dict_mem es k = false)
        /\ overlay_popped h' (SNode l1 cs1) (SNode l2 cs2)
        /\ (ents h' l2 = ents h l2
            <-> forall k, In k (map fst cs2) -> dict_mem cs1 k = false))
  /\ (forall (base overlay : list (string * json)) (h : heap),
        wf_json (JDict base) -> wf_json (JDict overlay) ->
        exists d1 h1 d2 h2,
          alloc (JDict base) h = (VDict d1, h1)
          /\ alloc (JDict overlay) h1 = (VDict d2, h2)
          /\ exists n, forall fuel, n <= fuel ->
               exists h',
                 merge_dicts fuel d1 d2 h2 = Ok (d1, h')
                 /\ denotes h' (VDict d2)
                      (JDict (filter (fun kv => dict_mem base (fst kv) = false)
                                     overlay))).
Proof.
  split; [exact overlay_on_shapes|].
  intros base overlay h Hwb Hwo.
  destruct (merge_dicts_on_literals base overlay h Hwb Hwo)
    as (d1 & h1 & d2 & h2 & Ha1 & Ha2 & n & Hn).
  exists d1, h1, d2, h2. split; [exact Ha1|]. split; [exact Ha2|].
  exists n. intros fuel Hfuel. destruct (Hn fuel Hfuel) as (h' & Hrun & _ & Hden).
  exists h'. auto.
Qed.

Lemma merge_dicts_pops_overlay_witness :
  (exists h',
      merge_dicts 2 2%positive 4%positive example_store = Ok (2%positive, h')
      /\ ents h' 4%positive = Some []
      /\ ents h' 3%positive = Some [("b", VAtom (AInt 2))])
  /\ (exists d1 h1 d2 h2,
        alloc (JDict [("c", JInt 1); ("x", JInt 0)]) ∅ = (VDict d1, h1)
        /\ alloc (JDict [("c", JInt 2); ("y", JInt 3)]) h1 = (VDict d2, h2)
        /\ exists n, forall fuel, n <= fuel ->
             exists h',
               merge_dicts fuel d1 d2 h2 = Ok (d1, h')
               /\ denotes h' (VDict d2) (JDict [("y", JInt 3)])).
Proof.
  destruct merge_dicts_pops_overlay as (Hshapes & Hliterals).
  split.
  - destruct example_holds as (Hb & Ho & Hsep).
    destruct (Hshapes example_store 2%positive 4%positive
                example_base example_overlay 2 Hb Ho Hsep)
      as (h' & Hrun & Hents & _ & Hpop & _).
    + cbn. lia.
    + exists h'. split; [exact Hrun|]. split; [exact Hents|].
      apply overlay_popped_node in Hpop as [_ Hsub].
      apply Forall_cons in Hsub as [Hsub _]. cbn in Hsub.
      destruct Hsub as [Hsub _]. exact Hsub.
  - apply (Hliterals [("c", JInt 1); ("x", JInt 0)] [("c", JInt 2); ("y", JInt 3)] ∅);
      apply wf_json_dict; (split; [apply (bool_decide_unpack _); vm_compute; reflexivity
                                  | repeat constructor]).
Defined.

(** An overlay with a key of the base loses it: after
    [merge_dicts({"c": 1, "x": 0}, {"c": 2, "y": 3})] the overlay is
    [{"y": 3}]. *)
Example merge_dicts_example_overlay :
  let '(base, h1) := alloc (JDict [("c", JInt 1); ("x", JInt 0)]) ∅ in
  let '(overlay, h2) := alloc (JDict [("c", JInt 2); ("y", JInt 3)]) h1 in
  match base, overlay with
  | VDict d1, VDict d2 =>
      exists h', merge_dicts 1 d1 d2 h2 = Ok (d1, h')
                 /\ read 2 h' overlay = Some (JDict [("y", JInt 3)])
                 /\ read 2 h' base
                    = Some (JDict [("c", JInt 2); ("x", JInt 0); ("y", JInt 3)])
  | _, _ => False
  end.
Proof. vm_compute. eexists. repeat split; reflexivity. Qed.

(** Merging a dictionary into itself is outside the separate case: the
    key set of the dictionary changes while it is walked. *)
Example merge_dicts_example_aliased :
  let '(base, h1) := alloc (JDict [("c", JInt 1)]) ∅ in
  match base with
  | VDict d => merge_dicts 3 d d h1 = Undefined
  | _ => False
  end.
Proof. vm_compute. reflexivity. Qed.

(** ** What a match of the pattern consumed *)

Lemma span_split p s a r :
  span p s = (a, r) -> s = a +:+ r /\ span p a = (a, EmptyString).
Proof.
  revert a r. induction s as [|c s IH]; intros a r; simpl.
  - intros [= <- <-]. split; reflexivity.
  - destruct (p c) eqn:Ec.
    + destruct (span p s) as [a' r'] eqn:E. intros [= <- <-].
      destruct (IH a' r' eq_refl) as [-> Ha]. split; [reflexivity|].
      simpl. now rewrite Ec, Ha.
    + intros [= <- <-]. split; reflexivity.
Qed.

Lemma span_all_not c a :
  span (fun x => negb (ascii_eqb x c)) a = (a, EmptyString) -> contains c a = false.
Proof.
  induction a as [|x a IH]; simpl; [reflexivity|].
  destruct (ascii_eqb x c); simpl; [discriminate|].
  destruct (span _ a) as [a' r'] eqn:E. intros [= -> ->]. now apply IH.
Qed.

Lemma ident_split s v r : ident s = Some (v, r) -> s = v +:+ r /\ identifier v.
Proof.
  unfold ident. destruct s as [|c s]; [discriminate|].
  destruct (ident_start c) eqn:Ec; [|discriminate].
  destruct (span ident_char s) as [w r'] eqn:E. intros [= <- <-].
  apply span_split in E as [-> Hw]. split; [reflexivity|].
  exists c, w. auto.
Qed.

Lemma variable_close_split s v r :
  variable_close s = Some (v, r) -> s = v +:+ String ">" r /\ identifier v.
Proof.
  unfold variable_close. destruct (ident s) as [[v' r']|] eqn:E; [|discriminate].
  apply ident_split in E as [-> Hv]. destruct r' as [|c r']; [discriminate|].
  destruct (Ascii.eqb_spec c ">") as [->|Hc].
  - intros [= <- <-]. auto.
  - destruct c as [[] [] [] [] [] [] [] []]; try discriminate. contradiction.
Qed.

Lemma args_close_split s v r :
  args_close s = Some (v, r) ->
  s = String ")" (String ":" (v +:+ String ">" r)) /\ identifier v.
Proof.
  unfold args_close. destruct s as [|c s]; [discriminate|].
  destruct (Ascii.eqb_spec c ")") as [->|Hc].
  - destruct s as [|c' s]; [discriminate|].
    destruct (Ascii.eqb_spec c' ":") as [->|Hc'].
    + intros H. apply variable_close_split in H as [-> Hv]. auto.
    + destruct c' as [[] [] [] [] [] [] [] []]; try discriminate. contradiction.
  - destruct c as [[] [] [] [] [] [] [] []]; try discriminate. contradiction.
Qed.

Lemma lazy_args_split s a v r :
  lazy_args s = Some (a, v, r) ->
  s = a +:+ String ")" (String ":" (v +:+ String ">" r))
  /\ identifier v /\ contains newline a = false.
Proof.
  revert a. induction s as [|c s IH]; intros a.
  - simpl. discriminate.
  - cbn [lazy_args]. destruct (args_close (String c s)) as [[v' r']|] eqn:E.
    + intros [= <- <- <-]. apply args_close_split in E as [-> Hv]. auto.
    + destruct (ascii_eqb c newline) eqn:Ec; [discriminate|].
      destruct (lazy_args s) as [[[a' v'] r']|] eqn:E'; [|discriminate].
      intros [= <- <- <-]. destruct (IH a' eq_refl) as (-> & Hv & Ha).
      split; [reflexivity|]. split; [exact Hv|].
      simpl. now rewrite Ec, Ha.
Qed.

Lemma placeholder_split static s m :
  placeholder static s = Some m ->
  s = hole_body (hole_of_match m) (m_variable m) +:+ m_rest m
  /\ m_static m = static
  /\ lexical (hole_of_match m) (m_variable m)
  /\ (m_converter m = None -> m_args m = None).
Proof.
  unfold placeholder.
  assert (Hv : forall m,
             match variable_close s with
             | Some (v, r) => Some (Build_rmatch static None None v r)
             | None => None
             end = Some m ->
             s = hole_body (hole_of_match m) (m_variable m) +:+ m_rest m
             /\ m_static m = static
             /\ lexical (hole_of_match m) (m_variable m)
             /\ (m_converter m = None -> m_args m = None)).
  { intros m'. destruct (variable_close s) as [[v r]|] eqn:E; [|discriminate].
    intros [= <-]. apply variable_close_split in E as [-> Hid].
    unfold hole_of_match, hole_body, lexical. simpl.
    rewrite append_assoc. repeat split; auto. }
  destruct (ident s) as [[conv r]|] eqn:Ei; [|apply Hv].
  pose proof (ident_split s conv r Ei) as [Hs Hconv].
  destruct r as [|c r]; [apply Hv|].
  destruct (Ascii.eqb_spec c "(") as [->|Hc1].
  - destruct (lazy_args r) as [[[a v] r']|] eqn:El; [|apply Hv].
    intros [= <-]. apply lazy_args_split in El as (-> & Hid & Ha).
    unfold hole_of_match, hole_body, lexical. simpl.
    split; [|repeat split; auto; discriminate].
    rewrite Hs, !append_assoc. reflexivity.
  - destruct (Ascii.eqb_spec c ":") as [->|Hc2].
    + destruct (variable_close r) as [[v r']|] eqn:Ev; [|apply Hv].
      intros [= <-]. apply variable_close_split in Ev as [-> Hid].
      unfold hole_of_match, hole_body, lexical. simpl.
      split; [|repeat split; auto; discriminate].
      rewrite Hs, !append_assoc. reflexivity.
    + destruct c as [[] [] [] [] [] [] [] []]; try apply Hv; contradiction.
Qed.

Lemma do_match_split s m :
  do_match s = Some m ->
  s = m_static m +:+ render_piece (Hole (hole_of_match m) (m_variable m)) +:+ m_rest m
  /\ contains "<" (m_static m) = false
  /\ lexical (hole_of_match m) (m_variable m)
  /\ (m_converter m = None -> m_args m = None).
Proof.
  unfold do_match.
  destruct (span (fun c => negb (ascii_eqb c "<")) s) as [static r] eqn:E.
  apply span_split in E as [-> Hst]. apply span_all_not in Hst.
  destruct r as [|c r]; [discriminate|].
  destruct (Ascii.eqb_spec c "<") as [->|Hc].
  - intros H. apply placeholder_split in H as (-> & Hs & Hlex & Hargs).
    rewrite Hs, render_hole, append_cons. auto.
  - destruct c as [[] [] [] [] [] [] [] []]; try discriminate. contradiction.
Qed.

(** ** Every template is made of pieces read as they are written *)

Lemma variable_close_append a y v r :
  variable_close a = Some (v, r) -> variable_close (a +:+ y) = Some (v, r +:+ y).
Proof.
  intros H. apply variable_close_split in H as [-> Hv].
  rewrite append_assoc, append_cons. now apply variable_close_ok.
Qed.

Lemma args_close_append a y v r :
  args_close a = Some (v, r) -> args_close (a +:+ y) = Some (v, r +:+ y).
Proof.
  intros H. apply args_close_split in H as [-> Hv].
  rewrite !append_cons, append_assoc, append_cons. cbn [args_close].
  now apply variable_close_ok.
Qed.

(** The arguments of a match are the shortest ones: nothing inside them
    closes the placeholder. *)
Lemma lazy_args_closes_late s :
  forall a v r, lazy_args s = Some (a, v, r) -> closes_early a = false.
Proof.
  induction s as [|c s IH]; intros a v r.
  - simpl. discriminate.
  - cbn [lazy_args]. destruct (args_close (String c s)) as [[v' r']|] eqn:E.
    + intros [= <- <- <-]. reflexivity.
    + destruct (ascii_eqb c newline) eqn:Ec; [discriminate|].
      destruct (lazy_args s) as [[[a' v'] r']|] eqn:E'; [|discriminate].
      intros [= <- <- <-]. cbn [closes_early].
      destruct (args_close (String c a')) as [[v2 r2]|] eqn:E2.
      * apply lazy_args_split in E' as (Hs & _ & _).
        apply (args_close_append _ (String ")" (String ":" (v' +:+ String ">" r')))) in E2.
        rewrite append_cons, <- Hs, E in E2. discriminate.
      * exact (IH a' v' r' eq_refl).
Qed.

Lemma placeholder_args static s m :
  placeholder static s = Some m ->
  forall a, m_args m = Some a -> closes_early a = false.
Proof.
  unfold placeholder.
  assert (Hv : forall m,
             match variable_close s with
             | Some (v, r) => Some (Build_rmatch static None None v r)
             | None => None
             end = Some m ->
             forall a, m_args m = Some a -> closes_early a = false).
  { intros m'. destruct (variable_close s) as [[v r]|]; [|discriminate].
    intros [= <-] a. discriminate. }
  destruct (ident s) as [[conv r]|] eqn:Ei; [|apply Hv].
  destruct r as [|c r]; [apply Hv|].
  destruct (Ascii.eqb_spec c "(") as [->|Hc1].
  - destruct (lazy_args r) as [[[a v] r']|] eqn:El; [|apply Hv].
    intros [= <-] a' [= <-]. exact (lazy_args_closes_late r a v r' El).
  - destruct (Ascii.eqb_spec c ":") as [->|Hc2].
    + destruct (variable_close r) as [[v r']|] eqn:Ev; [|apply Hv].
      intros [= <-] a. discriminate.
    + destruct c as [[] [] [] [] [] [] [] []]; try apply Hv; contradiction.
Qed.

(** What the pattern matches is a placeholder that is read as it is
    written. *)
Lemma do_match_wf s m :
  do_match s = Some m -> wf_piece (Hole (hole_of_match m) (m_variable m)).
Proof.
  intros Hm. pose proof (do_match_split s m Hm) as (_ & _ & [Hn Hlex] & _).
  assert (Ha : forall a, m_args m = Some a -> closes_early a = false).
  { revert Hm. unfold do_match.
    destruct (span (fun c => negb (ascii_eqb c "<")) s) as [static r].
    destruct r as [|c r]; [discriminate|].
    destruct (Ascii.eqb_spec c "<") as [->|Hc].
    - apply placeholder_args.
    - destruct c as [[] [] [] [] [] [] [] []]; try discriminate. contradiction. }
  split; [exact Hn|]. unfold hole_of_match in *.
  destruct (m_converter m) as [c|]; [|exact I].
  destruct (m_args m) as [a|]; [|exact Hlex].
  destruct Hlex as [Hc Hnl]. split; [exact Hc|]. split; [now apply Ha | exact Hnl].
Qed.

(** Every text is a template: literal texts and placeholders that are read
    as they are written, up to a text in which the pattern finds no
    placeholder. *)
Lemma template_pieces (rule : string) :
  exists (ps : list piece) (tail : string),
    rule = render ps +:+ tail /\ Forall wf_piece ps /\ do_match tail = None.
Proof.
  remember (S (String.length rule)) as n eqn:Hn.
  assert (Hlen : String.length rule < n) by lia. clear Hn.
  revert rule Hlen. induction n as [|n IH]; intros rule Hlen; [lia|].
  destruct (do_match rule) as [m|] eqn:Em.
  - pose proof (do_match_shorter rule m Em) as Hsh.
    pose proof (do_match_wf rule m Em) as Hwf.
    pose proof (do_match_split rule m Em) as (Hs & Hst & _ & _).
    destruct (IH (m_rest m) ltac:(lia)) as (ps & tail & Hr & Hps & Ht).
    exists (Lit (m_static m) :: Hole (hole_of_match m) (m_variable m) :: ps), tail.
    split; [|split; [|exact Ht]].
    + rewrite Hs at 1. rewrite Hr at 1. unfold render. cbn [fold_right render_piece].
      now rewrite !append_assoc.
    + constructor; [exact Hst|]. constructor; [exact Hwf | exact Hps].
  - exists [], rule. split; [|split; [constructor | exact Em]].
    unfold render. cbn [fold_right]. now rewrite append_nil.
Qed.

(** ** Parsing a rendered template *)

Lemma identifier_nonempty v : identifier v -> v <> EmptyString.
Proof. intros (c & w & -> & _). discriminate. Qed.

Lemma placeholder_groups static conv name r :
  wf_piece (Hole conv name) ->
  placeholder static (hole_body conv name +:+ r)
  = Some {| m_static := static;
            m_converter := option_map fst conv;
            m_args := match conv with Some (_, a) => a | None => None end;
            m_variable := name;
            m_rest := r |}.
Proof.
  intros [Hn Hconv]. unfold placeholder, hole_body.
  destruct conv as [[c [a|]]|].
  - destruct Hconv as (Hc & Hgt & Hnl).
    rewrite !append_assoc. change ("(" +:+ ?x) with (String "(" x).
    rewrite ident_followed by (exact Hc || reflexivity).
    change ("):" +:+ ?x) with (String ")" (String ":" x)).
    change (">" +:+ r) with (String ">" r).
    rewrite lazy_args_ok by assumption. reflexivity.
  - rewrite !append_assoc. change (":" +:+ ?x) with (String ":" x).
    rewrite ident_followed by (exact Hconv || reflexivity).
    change (">" +:+ r) with (String ">" r).
    rewrite variable_close_ok by assumption. reflexivity.
  - rewrite !append_assoc. change (">" +:+ r) with (String ">" r).
    rewrite ident_followed by (exact Hn || reflexivity).
    rewrite variable_close_ok by assumption. reflexivity.
Qed.

Lemma do_match_item pre conv name r :
  contains "<" pre = false -> wf_piece (Hole conv name) ->
  do_match (pre +:+ render_piece (Hole conv name) +:+ r)
  = Some {| m_static := pre;
            m_converter := option_map fst conv;
            m_args := match conv with Some (_, a) => a | None => None end;
            m_variable := name;
            m_rest := r |}.
Proof.
  intros Hpre Hwf. rewrite render_hole, append_cons. unfold do_match.
  rewrite span_no_bracket_stop by exact Hpre.
  now apply placeholder_groups.
Qed.

Lemma render_items_cons (it : item) items :
  render (items_pieces (it :: items))
  = fst (fst it) +:+ render_piece (Hole (snd (fst it)) (snd it))
    +:+ render (items_pieces items).
Proof. reflexivity. Qed.

Lemma converter_of_wf conv name :
  wf_piece (Hole conv name) -> or_default (option_map fst conv) = converter_of conv.
Proof.
  intros [_ Hconv]. destruct conv as [[c a]|]; [|reflexivity].
  assert (Hc : identifier c) by (destruct a; tauto).
  destruct Hc as (x & w & -> & _). reflexivity.
Qed.

Lemma arguments_of_groups conv :
  or_None (match conv with Some (_, a) => a | None => None end) = arguments_of conv.
Proof. destruct conv as [[c [a|]]|]; reflexivity. Qed.

Lemma parse_loop_plain fuel rule tail U :
  contains "<" tail = false -> contains ">" tail = false ->
  parse_loop (S fuel) rule tail U = (static_segment tail, Finished).
Proof.
  intros Hlt Hgt. destruct tail as [|c tail]; [reflexivity|].
  cbn [parse_loop]. rewrite do_match_no_bracket by exact Hlt.
  unfold parse_tail. now rewrite Hgt, Hlt.
Qed.

Lemma parse_loop_items rule (items : list item) :
  Forall wf_item items ->
  forall tail (U : gset string) fuel,
    NoDup (map item_name items) ->
    (forall n, In n (map item_name items) -> n ∉ U) ->
    contains "<" tail = false -> contains ">" tail = false ->
    String.length (render (items_pieces items) +:+ tail) < fuel ->
    parse_loop fuel rule (render (items_pieces items) +:+ tail) U
    = (flat_map item_segments items ++ static_segment tail, Finished).
Proof.
  induction 1 as [|[[pre conv] name] items [Hpre Hwf] Hitems IH];
    intros tail U fuel Hnd HU Hlt Hgt Hlen.
  - destruct fuel as [|fuel]; [lia|]. simpl. rewrite append_nil.
    now apply parse_loop_plain.
  - destruct fuel as [|fuel]; [lia|]. cbn [fst snd] in Hpre, Hwf.
    rewrite render_items_cons in *. cbn [fst snd] in *. rewrite !append_assoc in *.
    rewrite (parse_loop_match _ _ _ _ _
               (do_match_item _ _ _ (render (items_pieces items) +:+ tail) Hpre Hwf)).
    cbn [m_static m_variable m_rest m_converter m_args].
    rewrite (converter_of_wf _ _ Hwf), arguments_of_groups.
    destruct (decide (name ∈ U)) as [Hin|Hnin].
    { exfalso. apply (HU name); [now left | exact Hin]. }
    simpl in Hnd. apply NoDup_cons in Hnd as [Hfresh Hnd].
    rewrite (IH tail ({[name]} ∪ U) fuel Hnd).
    + unfold item_segments, static_segment.
      destruct pre; simpl; reflexivity.
    + intros n Hn Hin. apply elem_of_union in Hin as [Hin|Hin].
      * apply elem_of_singleton in Hin as ->. apply Hfresh.
        now apply list_elem_of_In.
      * apply (HU n); [now right | exact Hin].
    + exact Hlt.
    + exact Hgt.
    + rewrite !length_append in Hlen. rewrite render_hole in Hlen. simpl in Hlen.
      rewrite length_append in *. lia.
Qed.

Lemma parse_rule_items (items : list item) (tail : string) :
  Forall wf_item items ->
  NoDup (map item_name items) ->
  contains "<" tail = false -> contains ">" tail = false ->
  parse_rule (render (items_pieces items) +:+ tail)
  = (flat_map item_segments items ++ static_segment tail, Finished).
Proof.
  intros Hwf Hnd Hlt Hgt. unfold parse_rule.
  apply parse_loop_items; auto.
  intros n _ Hin. now apply not_elem_of_empty in Hin.
Qed.

(** ** The templates the parser accepts *)

Lemma converter_of_match m :
  lexical (hole_of_match m) (m_variable m) ->
  or_default (m_converter m) = converter_of (hole_of_match m).
Proof.
  unfold hole_of_match. intros [_ Hconv].
  destruct (m_converter m) as [c|]; [|reflexivity].
  assert (Hc : identifier c) by (destruct (m_args m); tauto).
  destruct Hc as (x & w & -> & _). reflexivity.
Qed.

Lemma arguments_of_match m :
  (m_converter m = None -> m_args m = None) ->
  or_None (m_args m) = arguments_of (hole_of_match m).
Proof.
  unfold hole_of_match. intros Hargs.
  destruct (m_converter m) as [c|].
  - destruct (m_args m); reflexivity.
  - now rewrite Hargs.
Qed.

Lemma static_segment_match text :
  match text with
  | EmptyString => []
  | String a s => [Static (String a s)]
  end = static_segment text.
Proof. destruct text; reflexivity. Qed.

Lemma parse_loop_accepts rule :
  forall fuel rest (U : gset string) ys,
    parse_loop fuel rule rest U = (ys, Finished) ->
    exists (items : list item) (tail : string),
      rest = render (items_pieces items) +:+ tail
      /\ Forall lexical_item items
      /\ NoDup (map item_name items)
      /\ (forall n, In n (map item_name items) -> n ∉ U)
      /\ contains "<" tail = false /\ contains ">" tail = false
      /\ ys = flat_map item_segments items ++ static_segment tail.
Proof.
  induction fuel as [|fuel IH]; intros rest U ys; [discriminate|].
  destruct (do_match rest) as [m|] eqn:Em.
  - rewrite (parse_loop_match _ _ _ _ _ Em). cbv zeta.
    destruct (decide (m_variable m ∈ U)) as [Hin|Hnin]; [discriminate|].
    destruct (parse_loop fuel rule (m_rest m) ({[m_variable m]} ∪ U)) as [ys' e] eqn:E.
    intros [= <- ->].
    destruct (IH _ _ _ E) as (items & tail & Hrest & Hlex & Hnd & HU & Hlt & Hgt & ->).
    apply do_match_split in Em as (Hs & Hst & Hm & Hargs).
    exists ((m_static m, hole_of_match m, m_variable m) :: items), tail.
    split; [|split; [|split; [|split; [|split; [|split]]]]].
    + rewrite render_items_cons. cbn [fst snd]. rewrite !append_assoc.
      rewrite <- Hrest. exact Hs.
    + constructor; [split; assumption | exact Hlex].
    + simpl. apply NoDup_cons. split; [|exact Hnd].
      intros Hin. apply list_elem_of_In in Hin. apply (HU _ Hin).
      apply elem_of_union. left. now apply elem_of_singleton.
    + intros n [<-|Hn]; [exact Hnin|].
      intros Hin. apply (HU n Hn). apply elem_of_union. now right.
    + exact Hlt.
    + exact Hgt.
    + rewrite static_segment_match, (converter_of_match m Hm), (arguments_of_match m Hargs).
      unfold item_segments. cbn [fst snd flat_map]. now rewrite <- !app_assoc.
  - destruct rest as [|c rest].
    + intros [= <-]. exists [], EmptyString. repeat split; try constructor.
      all: intros n [].
    + cbn [parse_loop]. rewrite Em. unfold parse_tail.
      destruct (contains ">" (String c rest) || contains "<" (String c rest)) eqn:Eb;
        [discriminate|].
      intros [= <-]. apply orb_false_elim in Eb as [Hgt Hlt].
      exists [], (String c rest). repeat split; try constructor; auto.
      all: intros n [].
Qed.

Lemma parse_rule_accepts rule ys :
  parse_rule rule = (ys, Finished) ->
  exists (items : list item) (tail : string),
    rule = render (items_pieces items) +:+ tail
    /\ Forall lexical_item items
    /\ NoDup (map item_name items)
    /\ contains "<" tail = false /\ contains ">" tail = false
    /\ ys = flat_map item_segments items ++ static_segment tail.
Proof.
  intros H. apply parse_loop_accepts in H
    as (items & tail & Hr & Hlex & Hnd & _ & Hlt & Hgt & Hys).
  exists items, tail. auto 10.
Qed.

(** ** The path spec of a template *)

Lemma parse_url_loop_app pca ys1 ys2 acc :
  parse_url_loop pca (ys1 ++ ys2) acc
  = (acc' ← parse_url_loop pca ys1 acc; parse_url_loop pca ys2 acc').
Proof.
  revert acc. induction ys1 as [|seg ys1 IH]; intros acc; simpl; [reflexivity|].
  destruct (parse_url_step pca seg acc) as [acc'| | |]; simpl; auto.
Qed.

Lemma parse_url_loop_static pca text acc :
  parse_url_loop pca (static_segment text) acc = Ok (fst acc +:+ text, snd acc).
Proof.
  destruct acc as [subs parameters]. destruct text as [|c text]; simpl.
  - f_equal. f_equal. clear. induction subs as [|x subs IH]; [reflexivity|].
    rewrite append_cons. now rewrite <- IH.
  - reflexivity.
Qed.

Lemma parse_url_loop_item pca (it : item) acc :
  parse_url_loop pca (item_segments it) acc
  = match item_arguments pca it with
    | CannotParse fragment => Raise (ValueError_converter_argument fragment)
    | Tokens args kwargs =>
        if dict_mem kwargs "converter"
        then Raise (TypeError_multiple_values "converter")
        else Ok (fst acc +:+ item_path it, snd acc ++ [path_parameter it args kwargs])
    end.
Proof.
  unfold item_segments. rewrite parse_url_loop_app, parse_url_loop_static.
  destruct acc as [subs parameters]. destruct it as [[pre conv] name].
  unfold path_parameter, item_path, item_arguments in *. cbn [fst snd] in *.
  cbn [mbind outcome_bind Py.bind parse_url_loop parse_url_step].
  destruct (match arguments_of conv with
            | Some a => pca a
            | None => Tokens [] []
            end) as [args kwargs|fragment]; [|reflexivity].
  destruct (dict_mem kwargs "converter"); [reflexivity|].
  cbn [mbind outcome_bind Py.bind]. now rewrite !append_assoc.
Qed.

Lemma parse_url_loop_items pca (items : list item) tail :
  forall acc,
    parse_url_loop pca (flat_map item_segments items ++ static_segment tail) acc
    = (parameters ← path_parameters pca items;
       Ok (fst acc +:+ normalized_path items tail, snd acc ++ parameters)).
Proof.
  induction items as [|it items IH]; intros acc.
  - simpl. rewrite parse_url_loop_static. now rewrite app_nil_r.
  - cbn [flat_map path_parameters]. rewrite <- app_assoc, parse_url_loop_app.
    rewrite (parse_url_loop_item pca it acc).
    destruct (item_arguments pca it) as [args kwargs|fragment]; [|reflexivity].
    destruct (dict_mem kwargs "converter"); [reflexivity|].
    cbn [mbind outcome_bind Py.bind]. rewrite IH.
    destruct (path_parameters pca items) as [parameters| | |];
      cbn [mbind outcome_bind Py.bind fst snd normalized_path fold_right]; try reflexivity.
    now rewrite append_assoc, <- app_assoc.
Qed.

(** The path parameters are returned exactly when the tokenizer reads the
    argument text of every placeholder, without a keyword named
    [converter]: one parameter for each placeholder. *)
Lemma path_parameters_Ok pca (items : list item) :
  forall parameters,
    path_parameters pca items = Ok parameters
    <-> Forall2 (item_parameter pca) items parameters.
Proof.
  induction items as [|it items IH]; intros parameters; cbn [path_parameters].
  - split.
    + intros [= <-]. constructor.
    + intros H. apply Forall2_nil_inv_l in H. now subst.
  - split.
    + destruct (item_arguments pca it) as [args kwargs|fragment] eqn:Ea; [|discriminate].
      destruct (dict_mem kwargs "converter") eqn:Ek; [discriminate|].
      destruct (path_parameters pca items) as [ps| | |] eqn:Ep; try discriminate.
      cbn [mbind outcome_bind Py.bind]. intros [= <-]. constructor.
      * exists args, kwargs. auto.
      * now apply IH.
    + intros H. apply Forall2_cons_inv_l in H as (p & ps & (args & kwargs & -> & Hk & ->) & Hps & ->).
      rewrite Hk. apply IH in Hps. rewrite Hps. reflexivity.
Qed.

Lemma span_all_excludes p c w :
  span p w = (w, EmptyString) -> p c = false -> contains c w = false.
Proof.
  intros Hw Hc. induction w as [|x w IH]; [reflexivity|].
  simpl in *. destruct (p x) eqn:Ex; [|discriminate].
  destruct (span p w) as [a r] eqn:E. injection Hw as -> ->.
  rewrite (IH eq_refl), orb_false_r.
  destruct (Ascii.eqb_spec x c) as [->|Hne]; [congruence|].
  unfold ascii_eqb. now apply Ascii.eqb_neq.
Qed.

Lemma identifier_excludes v c :
  identifier v -> ident_char c = false -> contains c v = false.
Proof.
  intros (x & w & -> & Hx & Hw) Hc. simpl.
  rewrite (span_all_excludes _ _ _ Hw Hc), orb_false_r.
  destruct (Ascii.eqb_spec x c) as [->|Hne].
  - unfold ident_char in Hc. rewrite Hx in Hc. discriminate.
  - unfold ascii_eqb. now apply Ascii.eqb_neq.
Qed.

Lemma normalized_path_no_bracket (items : list item) tail :
  Forall lexical_item items -> contains "<" tail = false ->
  contains "<" (normalized_path items tail) = false.
Proof.
  intros Hlex Ht. induction Hlex as [|[[pre conv] name] items [Hpre [Hn _]] _ IH];
    [exact Ht|].
  cbn [normalized_path fold_right]. unfold item_path. cbn [fst snd] in *.
  rewrite !contains_append, Hpre, (identifier_excludes name "<" Hn eq_refl).
  exact IH.
Qed.

Lemma parse_loop_raises rule :
  forall fuel rest (U : gset string) ys e,
    parse_loop fuel rule rest U = (ys, Raised e) ->
    (exists v, e = ValueError_used_twice v /\ identifier v)
    \/ (e = ValueError_malformed rule
        /\ contains "<" rest || contains ">" rest = true).
Proof.
  induction fuel as [|fuel IH]; intros rest U ys e; [discriminate|].
  destruct (do_match rest) as [m|] eqn:Em.
  - rewrite (parse_loop_match _ _ _ _ _ Em). cbv zeta.
    apply do_match_split in Em as (Hs & _ & [Hv _] & _).
    destruct (decide (m_variable m ∈ U)) as [Hin|Hnin].
    + intros [= <- <-]. left. eauto.
    + destruct (parse_loop fuel rule (m_rest m) ({[m_variable m]} ∪ U)) as [ys' e'] eqn:E.
      intros [= <- ->]. destruct (IH _ _ _ _ E) as [Hl|[-> Hr]]; [now left|].
      right. split; [reflexivity|]. rewrite Hs, !contains_append.
      apply orb_prop in Hr as [-> | ->]; rewrite ?orb_true_r; reflexivity.
  - destruct rest as [|c rest]; [discriminate|].
    cbn [parse_loop]. rewrite Em. unfold parse_tail.
    destruct (contains ">" (String c rest) || contains "<" (String c rest)) eqn:Eb;
      [|discriminate].
    intros [= <- <-]. right. split; [reflexivity|]. now rewrite orb_comm.
Qed.

(** X1. A match of [RE_PARSE_RULE] splits the text it is tried on into
    its groups: the text is the static part, then [<], the converter with
    its arguments if any, the variable, [>], and the text after the match,
    which is shorter than the text. The static part holds no [<], converter
    and variable are identifiers, the argument text holds no newline, and
    arguments come with a converter only. *)
Theorem rule_match_splits :
  forall (s : string) (m : rmatch),
    do_match s = Some m ->
    s = m_static m +:+ render_piece (Hole (hole_of_match m) (m_variable m)) +:+ m_rest m
    /\ contains "<" (m_static m) = false
    /\ lexical (hole_of_match m) (m_variable m)
    /\ (m_converter m = None -> m_args m = None)
    /\ String.length (m_rest m) < String.length s.
Proof.
  intros s m Hm. pose proof (do_match_shorter s m Hm) as Hlen.
  apply do_match_split in Hm as (Hs & Hst & Hlex & Hargs). auto.
Qed.

Lemma rule_match_splits_witness :
  "/a/<int(min=1):id>/b" = "/a/" +:+ "<int(min=1):id>" +:+ "/b"
  /\ lexical (Some ("int", Some "min=1")) "id".
Proof.
  destruct (rule_match_splits "/a/<int(min=1):id>/b"
              {| m_static := "/a/"; m_converter := Some "int";
                 m_args := Some "min=1"; m_variable := "id"; m_rest := "/b" |}
              eq_refl) as (Hs & _ & Hlex & _).
  split; [exact Hs | exact Hlex].
Defined.

(** X2. Parsing a rendered template gives its segments back. For static
    texts without [<], placeholders with identifiers as converter and name
    and an argument text without newline that holds no [):name>] for an
    identifier [name] (any other [>] may stand in it), pairwise distinct names,
    and a trailing text without [<] and [>]: [parse_rule] yields, for each
    placeholder, the static text before it when it is not empty and then
    the placeholder, with the converter ["default"] when none is written
    and no arguments when the argument text is empty; then the trailing
    text when it is not empty; and it ends without an exception. *)
Theorem parse_rule_of_template :
  forall (items : list item) (tail : string),
    Forall wf_item items ->
    NoDup (map item_name items) ->
    contains "<" tail = false ->
    contains ">" tail = false ->
    parse_rule (render (items_pieces items) +:+ tail)
    = (flat_map item_segments items ++ static_segment tail, Finished).
Proof.
  intros items tail Hwf Hnd Hlt Hgt. unfold parse_rule.
  apply parse_loop_items; auto.
  intros n _ Hin. now apply not_elem_of_empty in Hin.
Qed.

Lemma identifier_decide v :
  match ident v with Some (w, EmptyString) => True | _ => False end -> identifier v.
Proof.
  destruct (ident v) as [[w r]|] eqn:E; [|tauto].
  destruct r; [|tauto]. intros _. apply ident_split in E as [-> Hw].
  replace (w +:+ "") with w; [exact Hw|].
  clear. induction w as [|c w IH]; [reflexivity|]. rewrite append_cons. now rewrite <- IH.
Qed.

Lemma parse_rule_of_template_witness :
  parse_rule "/users/<int(min=1):uid>/posts/<slug>/<string():tag>.json"
  = ([Static "/users/"; Dynamic "int" (Some "min=1") "uid";
      Static "/posts/"; Dynamic "default" None "slug";
      Static "/"; Dynamic "string" None "tag"; Static ".json"], Finished).
Proof.
  apply (parse_rule_of_template
           [("/users/", Some ("int", Some "min=1"), "uid");
            ("/posts/", None, "slug");
            ("/", Some ("string", Some ""), "tag")] ".json").
  - repeat constructor; try (apply identifier_decide; exact I).
  - apply (bool_decide_unpack _). vm_compute. reflexivity.
  - reflexivity.
  - reflexivity.
Defined.

(** X3. Every template that [parse_rule] reads to its end without an
    exception is a sequence of static texts and placeholders followed by a
    trailing text: static texts hold no [<], converters and names are
    identifiers, argument texts hold no newline, the names are pairwise
    distinct, the trailing text holds neither [<] nor [>]; and the segments
    yielded are those of that sequence. *)
Theorem parse_rule_accepted :
  forall (rule : string) (ys : list segment),
    parse_rule rule = (ys, Finished) ->
    exists (items : list item) (tail : string),
      rule = render (items_pieces items) +:+ tail
      /\ Forall lexical_item items
      /\ NoDup (map item_name items)
      /\ contains "<" tail = false /\ contains ">" tail = false
      /\ ys = flat_map item_segments items ++ static_segment tail.
Proof.
  intros rule ys H. unfold parse_rule in H.
  apply parse_loop_accepts in H
    as (items & tail & Hr & Hlex & Hnd & _ & Hlt & Hgt & Hys).
  exists items, tail. auto 10.
Qed.

Lemma parse_rule_accepted_witness :
  exists (items : list item) (tail : string),
    "/a>b/<x>/<path:rest>" = render (items_pieces items) +:+ tail
    /\ NoDup (map item_name items).
Proof.
  destruct (parse_rule_accepted "/a>b/<x>/<path:rest>"
              [Static "/a>b/"; Dynamic "default" None "x";
               Static "/"; Dynamic "path" None "rest"] eq_refl)
    as (items & tail & Hr & _ & Hnd & _).
  exists items, tail. split; [exact Hr | exact Hnd].
Defined.

(** X4. The path spec of a rendered template. Under the conditions of X2,
    [parse_url] goes through the placeholders in their order and ends with
    the [ValueError] of the tokenizer for the first argument text it
    refuses, or with the [TypeError] of [get_converter_schema] for the
    first argument text read with a keyword named [converter]; the
    tokenizer is not called for a placeholder without arguments or with an
    empty argument text. When the tokenizer reads every argument text
    without such a keyword, [parse_url] returns the template with every
    placeholder written [{name}], and one parameter for each placeholder,
    in their order: a required path parameter with the name of the
    placeholder and the schema of its converter for the arguments read. *)
Theorem parse_url_of_template :
  forall (parse_converter_args : tokenizer)
         (items : list item) (tail : string),
    Forall wf_item items ->
    NoDup (map item_name items) ->
    contains "<" tail = false ->
    contains ">" tail = false ->
    parse_url parse_converter_args (render (items_pieces items) +:+ tail)
    = (parameters ← path_parameters parse_converter_args items;
       Ok (normalized_path items tail, parameters))
    /\ forall parameters,
        Forall2 (item_parameter parse_converter_args) items parameters ->
        parse_url parse_converter_args (render (items_pieces items) +:+ tail)
        = Ok (normalized_path items tail, parameters).
Proof.
  intros pca items tail Hwf Hnd Hlt Hgt.
  assert (Hrun : parse_url pca (render (items_pieces items) +:+ tail)
                 = (parameters ← path_parameters pca items;
                    Ok (normalized_path items tail, parameters))).
  { unfold parse_url.
    rewrite (parse_rule_items items tail Hwf Hnd Hlt Hgt).
    rewrite (parse_url_loop_items pca items tail).
    destruct (path_parameters pca items); reflexivity. }
  split; [exact Hrun|].
  intros parameters Hps. apply path_parameters_Ok in Hps.
  now rewrite Hrun, Hps.
Qed.

Lemma parse_url_of_template_witness :
  parse_url ArgTokenizer.parse_int_args
    "/users/<int(min=1):uid>/posts/<slug>/<uuid():tag>.json"
  = Ok ("/users/{uid}/posts/{slug}/{tag}.json",
        [JDict [("name", JStr "uid"); ("in", JStr "path"); ("required", JBool true);
                ("schema", JDict [("type", JStr "integer"); ("format", JStr "int32");
                                  ("minimum", JInt 1)])];
         JDict [("name", JStr "slug"); ("in", JStr "path"); ("required", JBool true);
                ("schema", JDict [("type", JStr "string")])];
         JDict [("name", JStr "tag"); ("in", JStr "path"); ("required", JBool true);
                ("schema", JDict [("type", JStr "string"); ("format", JStr "uuid")])]])
  /\ exists fragment,
      parse_url ArgTokenizer.parse_int_args "/users/<int(min=-5):uid>/posts/<slug>"
      = Raise (ValueError_converter_argument fragment).
Proof.
  split; [|exists "min=-5"].
  - apply (parse_url_of_template ArgTokenizer.parse_int_args
             [("/users/", Some ("int", Some "min=1"), "uid");
              ("/posts/", None, "slug");
              ("/", Some ("uuid", Some ""), "tag")] ".json").
    + repeat constructor; try (apply identifier_decide; exact I).
    + apply (bool_decide_unpack _). vm_compute. reflexivity.
    + reflexivity.
    + reflexivity.
    + repeat constructor.
      * exists [], [("min", JInt 1)]. repeat split.
      * exists [], []. repeat split.
      * exists [], []. repeat split.
  - apply (parse_url_of_template ArgTokenizer.parse_int_args
             [("/users/", Some ("int", Some "min=-5"), "uid");
              ("/posts/", None, "slug")] "").
    + repeat constructor; try (apply identifier_decide; exact I).
    + apply (bool_decide_unpack _). vm_compute. reflexivity.
    + reflexivity.
    + reflexivity.
Defined.

(** X5. Whatever the template, a path spec that [parse_url] returns comes
    from a sequence of static texts and placeholders with pairwise distinct
    names: the path is that sequence with every placeholder written
    [{name}] and holds no [<], and there is one required path parameter for
    each placeholder, in their order, so no two parameters have the same
    name; the tokenizer has read the argument text of every placeholder. *)
Theorem parse_url_result :
  forall (parse_converter_args : tokenizer)
         (path p : string) (parameters : list json),
    parse_url parse_converter_args path = Ok (p, parameters) ->
    contains "<" p = false
    /\ exists (items : list item) (tail : string),
        path = render (items_pieces items) +:+ tail
        /\ Forall lexical_item items
        /\ NoDup (map item_name items)
        /\ contains "<" tail = false /\ contains ">" tail = false
        /\ p = normalized_path items tail
        /\ Forall2 (item_parameter parse_converter_args) items parameters.
Proof.
  intros pca path p parameters. unfold parse_url.
  destruct (parse_rule path) as [ys e] eqn:Er.
  destruct (parse_url_loop pca ys (EmptyString, [])) as [acc| | |] eqn:El;
    try discriminate.
  destruct e; try discriminate. cbn [mbind outcome_bind Py.bind]. intros [= ->].
  apply parse_rule_accepts in Er as (items & tail & Hr & Hlex & Hnd & Hlt & Hgt & ->).
  rewrite (parse_url_loop_items pca items tail) in El.
  destruct (path_parameters pca items) as [ps| | |] eqn:Eps; try discriminate El.
  cbn [mbind outcome_bind Py.bind fst snd app] in El. rewrite append_nil in El.
  injection El as <- <-.
  split; [now apply normalized_path_no_bracket|].
  exists items, tail. apply path_parameters_Ok in Eps. auto 10.
Qed.

Lemma parse_url_result_witness :
  contains "<" "/a>b/{x}/{rest}" = false
  /\ exists (items : list item) (tail : string),
      "/a>b/<x>/<path:rest>" = render (items_pieces items) +:+ tail
      /\ NoDup (map item_name items)
      /\ "/a>b/{x}/{rest}" = normalized_path items tail.
Proof.
  destruct (parse_url_result ArgTokenizer.parse_int_args "/a>b/<x>/<path:rest>"
              "/a>b/{x}/{rest}"
              [JDict [("name", JStr "x"); ("in", JStr "path"); ("required", JBool true);
                      ("schema", JDict [("type", JStr "string")])];
               JDict [("name", JStr "rest"); ("in", JStr "path"); ("required", JBool true);
                      ("schema", JDict [("type", JStr "string");
                                        ("format", JStr "path")])]]
              eq_refl)
    as (Hp & items & tail & Hr & _ & Hnd & _ & _ & Hpath & _).
  split; [exact Hp|]. exists items, tail. auto.
Defined.

(** X6. [parse_url] ends, and fails in four ways only: the "used twice"
    [ValueError] for an identifier; the "malformed url rule" [ValueError],
    which carries the whole template and needs a [<] or a [>] in it; the
    [TypeError] of the call of [get_converter_schema], which needs an
    argument text of the template read with a keyword named [converter];
    and the [ValueError] of the tokenizer, for an argument text of the
    template that it refuses. *)
Theorem parse_url_failures :
  forall (parse_converter_args : tokenizer)
         (path : string),
    match parse_url parse_converter_args path with
    | Ok _ => True
    | Raise (ValueError_used_twice v) => identifier v
    | Raise (ValueError_malformed rule) =>
        rule = path /\ contains "<" path || contains ">" path = true
    | Raise (TypeError_multiple_values argument) =>
        argument = "converter"
        /\ exists a args kwargs,
            In a (segment_arguments (fst (parse_rule path)))
            /\ parse_converter_args a = Tokens args kwargs
            /\ dict_mem kwargs "converter" = true
    | Raise (ValueError_converter_argument fragment) =>
        exists a,
          In a (segment_arguments (fst (parse_rule path)))
          /\ parse_converter_args a = CannotParse fragment
    | _ => False
    end.
Proof.
  intros pca path. unfold parse_url.
  pose proof (parse_rule_ends path) as Hend.
  destruct (parse_rule path) as [ys e] eqn:Er. cbn [fst snd] in *.
  destruct (parse_url_loop_outcome pca ys (EmptyString, []))
    as [(acc & ->)|[(a & args & kwargs & Ha & Hp & Hk & ->)
                   |(a & fragment & Ha & Hp & ->)]];
    cbn [mbind outcome_bind Py.bind].
  - destruct e as [|x|]; [exact I| |contradiction].
    apply parse_loop_raises in Er as [(v & -> & Hv)|[-> Hb]]; [exact Hv|].
    split; [reflexivity | exact Hb].
  - split; [reflexivity|]. exists a, args, kwargs. auto.
  - exists a. auto.
Qed.

Lemma parse_url_failures_witness :
  exists a fragment,
    In a (segment_arguments (fst (parse_rule "/users/<int(min=-5):uid>")))
    /\ ArgTokenizer.parse_int_args a = CannotParse fragment.
Proof.
  pose proof (parse_url_failures ArgTokenizer.parse_int_args "/users/<int(min=-5):uid>")
    as H.
  replace (parse_url ArgTokenizer.parse_int_args "/users/<int(min=-5):uid>")
    with (@Raise (string * list json) (ValueError_converter_argument "min=-5")) in H
    by (vm_compute; reflexivity).
  destruct H as (a & Ha). exists a, "min=-5". exact Ha.
Defined.

(** ** Converter schemas *)

(** X7. Every schema of [get_converter_schema] is a mapping whose [type]
    is [array] for the converter [any], [integer] for [int], [number] for
    [float] and [string] for every other converter. A converter that is not
    one of [any], [int], [float], [uuid], [path], [string] has the schema
    [{type: string}]; the schemas of [float], [uuid], [path] and of those
    converters do not depend on the arguments, and the schema of [any]
    lists its positional arguments, in their order, whatever the
    keywords. *)
Theorem converter_schema_type :
  forall (converter : string) (args : list json) (kwargs : list (string * json)),
    (exists d,
        get_converter_schema converter args kwargs = JDict d
        /\ dict_get d "type"
           = Some (JStr (if String.eqb converter "any" then "array"
                         else if String.eqb converter "int" then "integer"
                         else if String.eqb converter "float" then "number"
                         else "string")))
    /\ (known_converter converter = false ->
        get_converter_schema converter args kwargs = JDict [("type", JStr "string")])
    /\ (converter <> "any" -> converter <> "int" -> converter <> "string" ->
        get_converter_schema converter args kwargs = get_converter_schema converter [] [])
    /\ get_converter_schema "any" args kwargs
       = JDict [("type", JStr "array");
                ("items", JDict [("type", JStr "string"); ("enum", JList args)])].
Proof.
  intros c args kwargs. split; [|split; [|split]].
  - unfold get_converter_schema. case_converter c; cbn [String.eqb Ascii.eqb Bool.eqb];
      eexists; split; reflexivity.
  - unfold known_converter, get_converter_schema. intros H.
    repeat (apply orb_false_elim in H as [H ?]).
    repeat match goal with
           | H : String.eqb c _ = false |- _ => rewrite H; clear H
           end.
    reflexivity.
  - intros H1 H2 H3. unfold get_converter_schema.
    apply String.eqb_neq in H1, H2, H3. rewrite H1, H2, H3.
    destruct (String.eqb c "float"), (String.eqb c "uuid"), (String.eqb c "path");
      reflexivity.
  - reflexivity.
Qed.

(** X8. The schema of the [string] converter has the type [string] and
    the keys [length], [maxLength] and [minLength], each exactly when a
    keyword of that very name is given, with its value; keywords of any
    other name, such as [minlength] and [maxlength], leave no trace. *)
Theorem string_schema_keys :
  forall (args : list json) (kwargs : list (string * json)),
    exists d,
      get_converter_schema "string" args kwargs = JDict d
      /\ dict_get d "type" = Some (JStr "string")
      /\ dict_get d "length" = dict_get kwargs "length"
      /\ dict_get d "maxLength" = dict_get kwargs "maxLength"
      /\ dict_get d "minLength" = dict_get kwargs "minLength"
      /\ (forall k, k <> "type" -> k <> "length" -> k <> "maxLength" ->
                    k <> "minLength" -> dict_get d k = None)
      /\ (dict_get kwargs "length" = None -> dict_get kwargs "maxLength" = None ->
          dict_get kwargs "minLength" = None -> d = [("type", JStr "string")]).
Proof.
  intros args kwargs.
  exists ([("type", JStr "string")]
          ++ flat_map (fun prop =>
               match dict_get kwargs prop with
               | Some v => [(prop, v)]
               | None => []
               end) ["length"; "maxLength"; "minLength"]).
  split; [reflexivity|].
  cbn [flat_map app].
  destruct (dict_get kwargs "length") as [v1|], (dict_get kwargs "maxLength") as [v2|],
    (dict_get kwargs "minLength") as [v3|];
    cbn [app];
    (split; [reflexivity|]); (split; [reflexivity|]);
    (split; [reflexivity|]); (split; [reflexivity|]);
    (split; [|intros; try discriminate; reflexivity]);
    intros k H1 H2 H3 H4; cbv [Datatypes.app dict_get];
    repeat (match goal with
            | |- context [String.eqb ?a k] =>
                destruct (String.eqb_spec a k); [congruence|]
            end); reflexivity.
Qed.

(** ** Inclusion policy, the other modes *)

(** X9. In mode [greedy] no handler is bypassed. In mode [strict] a
    handler is bypassed unless its [_openapi] marker is this system's
    class, so a handler without marker is bypassed. A handler marked with
    this system's class is bypassed in no mode; a handler without marker is
    bypassed in mode [strict] only. *)
Theorem bypass_by_mode :
  forall (self : OpenAPI) (func : handler),
    (mode self = "greedy" -> _bypass self func = false)
    /\ (mode self = "strict" ->
        (_bypass self func = true <-> f_openapi func <> Some (PClass (cls self))))
    /\ (f_openapi func = Some (PClass (cls self)) -> _bypass self func = false)
    /\ (f_openapi func = None -> (_bypass self func = true <-> mode self = "strict")).
Proof.
  intros self func. unfold _bypass. split; [|split; [|split]].
  - intros ->. reflexivity.
  - intros ->. simpl. destruct (f_openapi func) as [m|]; simpl.
    + destruct (decide (m = PClass (cls self))) as [->|Hne].
      * split; [discriminate | intros H; now contradiction H].
      * split; [intros _ [= ?]; contradiction | reflexivity].
    + destruct (decide (PNone = PClass (cls self))); [discriminate|].
      split; [discriminate | reflexivity].
  - intros ->. simpl.
    destruct (String.eqb (mode self) "greedy"); [reflexivity|].
    destruct (String.eqb (mode self) "strict").
    + destruct (decide _) as [|Hne]; [reflexivity | now contradiction Hne].
    + destruct (bool_decide_reflect (PClass (cls self) = PClass (cls self))) as [|Hne];
        [reflexivity | now contradiction Hne].
  - intros ->. simpl.
    destruct (String.eqb_spec (mode self) "greedy") as [Hg|Hg].
    + split; [discriminate|]. rewrite Hg. discriminate.
    + destruct (String.eqb_spec (mode self) "strict") as [Hs|Hs].
      * destruct (decide (PNone = PClass (cls self))); [discriminate|]. split; auto.
      * split; [discriminate | contradiction].
Qed.

Lemma bypass_by_mode_witness :
  _bypass {| cls := "OpenAPI"; app := app mixed_instance; endpoint := "/docs/new/";
             url_prefix := None; mode := "strict"; openapi_version := "3.0.2";
             info := 1%positive; extra_props := 2%positive; _spec := None |}
          unmarked_handler = true.
Proof.
  apply (bypass_by_mode
           {| cls := "OpenAPI"; app := app mixed_instance; endpoint := "/docs/new/";
              url_prefix := None; mode := "strict"; openapi_version := "3.0.2";
              info := 1%positive; extra_props := 2%positive; _spec := None |}
           unmarked_handler); reflexivity.
Defined.

(** ** Summary and description *)

Lemma split_blank_line_cons c c' r :
  split_blank_line (String c (String c' r))
  = if ascii_eqb c newline && ascii_eqb c' newline then Some (EmptyString, r)
    else match split_blank_line (String c' r) with
         | Some (a, b) => Some (String c a, b)
         | None => None
         end.
Proof. reflexivity. Qed.

Lemma split_blank_line_join s a b :
  split_blank_line s = Some (a, b) ->
  s = a +:+ blank_line +:+ b /\ split_blank_line a = None.
Proof.
  revert a. induction s as [|c s IH]; intros a; [discriminate|].
  destruct s as [|c' r]; [discriminate|]. rewrite split_blank_line_cons.
  destruct (ascii_eqb c newline && ascii_eqb c' newline) eqn:E.
  - intros [= <- <-]. apply andb_prop in E as [E1 E2].
    apply Ascii.eqb_eq in E1, E2. subst. split; reflexivity.
  - destruct (split_blank_line (String c' r)) as [[a' b']|] eqn:Es; [|discriminate].
    intros [= <- <-]. destruct (IH a' eq_refl) as [Hs Ha]. split.
    + rewrite append_cons. now rewrite <- Hs.
    + destruct a' as [|x a']; [reflexivity|].
      rewrite append_cons in Hs. injection Hs as -> _.
      rewrite split_blank_line_cons, E, Ha. reflexivity.
Qed.

(** X10. [get_summary_desc] gives nothing for a handler without
    documentation text. Otherwise the summary is the text before the first
    blank line and the description is all the text after it: the summary
    holds no blank line and the two, joined by a blank line, are the
    documentation text; without a blank line the text is the summary and
    there is no description. *)
Theorem summary_desc_split :
  forall (func : handler),
    match get_summary_desc func with
    | (None, None) => f_doc func = None \/ f_doc func = Some EmptyString
    | (Some summary, None) =>
        f_doc func = Some summary /\ summary <> EmptyString
        /\ split_blank_line summary = None
    | (Some summary, Some desc) =>
        f_doc func = Some (summary +:+ blank_line +:+ desc)
        /\ split_blank_line summary = None
    | (None, Some _) => False
    end.
Proof.
  intros func. unfold get_summary_desc.
  destruct (f_doc func) as [[|c doc]|]; [now right | | now left].
  destruct (split_blank_line (String c doc)) as [[a b]|] eqn:E.
  - apply split_blank_line_join in E as [-> Ha]. auto.
  - split; [reflexivity|]. split; [discriminate | exact E].
Qed.

(** ** The keys of an operation *)

Lemma with_view_func_request func method spec params :
  fst (with_view_func func method spec params)
  = match request_schema func method with
    | Some name => dict_set spec "requestBody" (JDict [("content", json_content name)])
    | None => spec
    end.
Proof.
  unfold with_view_func, request_schema, method_view.
  destruct (f_view_class func) as [attrs|]; [|reflexivity].
  destruct (dict_get attrs (lower method)) as [vf|]; [|reflexivity].
  cbn [fst]. destruct (vf_body vf) as [body|], (vf_form vf) as [form|]; try reflexivity.
  clear. induction spec as [|[k v] spec IH]; simpl; [reflexivity|].
  destruct (String.eqb k "requestBody") eqn:E; simpl; rewrite E; [reflexivity|].
  now rewrite IH.
Qed.

Lemma with_view_func_params func method spec params :
  snd (with_view_func func method spec params) = params ++ query_parameter func method.
Proof.
  unfold with_view_func, query_parameter, method_view.
  destruct (f_view_class func) as [attrs|]; [|now rewrite app_nil_r].
  destruct (dict_get attrs (lower method)) as [vf|]; [|now rewrite app_nil_r].
  cbn [snd]. destruct (vf_query vf); [reflexivity | now rewrite app_nil_r].
Qed.

(** X11. An operation has the keys [summary], [description],
    [operationID], [tags], then [requestBody] when there is one, then
    [parameters] and [responses], and no other. The request body is read
    from the method of the view class of the handler named like the HTTP
    method in lower case: it references the form schema of that method, or
    its body schema when it has no form schema. A handler without view
    class, or whose view class has no such method, has no request body,
    whatever is declared on the handler itself. *)
Theorem operation_keys :
  forall (func : handler) (method : string) (parameters : list json),
    dict_keys (operation func method parameters)
    = ["summary"; "description"; "operationID"; "tags"]
      ++ (if is_some (request_schema func method) then ["requestBody"] else [])
      ++ ["parameters"; "responses"]
    /\ dict_get (operation func method parameters) "requestBody"
       = option_map
           (fun name =>
              JDict [("content",
                      JDict [("application/json",
                              JDict [("schema",
                                      JDict [("$ref",
                                              JStr ("#/components/schemas/" +:+ name))])])])])
           (request_schema func method)
    /\ (method_view func method = None ->
        dict_get (operation func method parameters) "requestBody" = None).
Proof.
  intros func method parameters.
  assert (Hop : operation func method parameters
                = dict_set
                    (dict_set
                       (match request_schema func method with
                        | Some name =>
                            dict_set
                              [("summary", JStr (or_else (fst (get_summary_desc func))
                                                   (capitalize (f_name func))));
                               ("description",
                                JStr (or_else (snd (get_summary_desc func)) ""));
                               ("operationID",
                                JStr (f_name func +:+ "__" +:+ lower method));
                               ("tags", JList (map JStr (default [] (f_tags func))))]
                              "requestBody" (JDict [("content", json_content name)])
                        | None =>
                            [("summary", JStr (or_else (fst (get_summary_desc func))
                                                 (capitalize (f_name func))));
                             ("description",
                              JStr (or_else (snd (get_summary_desc func)) ""));
                             ("operationID",
                              JStr (f_name func +:+ "__" +:+ lower method));
                             ("tags", JList (map JStr (default [] (f_tags func))))]
                        end)
                       "parameters" (JList (parameters ++ query_parameter func method)))
                    "responses" (JDict (responses_of func))).
  { unfold operation. destruct (get_summary_desc func) as [summary desc]. cbn [fst snd].
    match goal with
    | |- context [with_view_func ?f ?m ?s ?p] =>
        pose proof (with_view_func_request f m s p) as H1;
        pose proof (with_view_func_params f m s p) as H2;
        destruct (with_view_func f m s p) as [spec1 params]
    end.
    cbn [fst snd] in H1, H2. now rewrite H1, H2. }
  rewrite Hop. split; [|split].
  - destruct (request_schema func method); reflexivity.
  - destruct (request_schema func method); reflexivity.
  - unfold request_schema. intros ->. reflexivity.
Qed.

Lemma operation_keys_witness :
  dict_get (operation validated_handler "POST" []) "requestBody" = None.
Proof.
  apply (operation_keys validated_handler "POST" []). reflexivity.
Defined.

(** X12. The parameters of an operation are the path parameters of the
    rule, in their order, followed by one query parameter when the method
    of the view class has a query schema: a required parameter named like
    the schema, which it references. A handler without such a method has
    the path parameters only. *)
Theorem operation_parameters :
  forall (func : handler) (method : string) (parameters : list json),
    dict_get (operation func method parameters) "parameters"
    = Some (JList (parameters ++ query_parameter func method))
    /\ (forall vf query,
          method_view func method = Some vf -> vf_query vf = Some query ->
          query_parameter func method
          = [JDict [("name", JStr query); ("in", JStr "query");
                    ("required", JBool true);
                    ("schema", JDict [("$ref", JStr ("#/components/schemas/" +:+ query))])]])
    /\ (method_view func method = None ->
        dict_get (operation func method parameters) "parameters"
        = Some (JList parameters)).
Proof.
  intros func method parameters.
  assert (Hp : dict_get (operation func method parameters) "parameters"
               = Some (JList (parameters ++ query_parameter func method))).
  { unfold operation. destruct (get_summary_desc func) as [summary desc].
    match goal with
    | |- context [with_view_func ?f ?m ?s ?p] =>
        pose proof (with_view_func_params f m s p) as H2;
        destruct (with_view_func f m s p) as [spec1 params]
    end.
    cbn [snd] in H2. rewrite H2.
    rewrite dict_get_set_ne by discriminate. apply dict_get_set_eq. }
  split; [exact Hp|]. split.
  - intros vf query Hvf Hq. unfold query_parameter. now rewrite Hvf, Hq.
  - intros Hvf. rewrite Hp. unfold query_parameter. rewrite Hvf. now rewrite app_nil_r.
Qed.

Lemma operation_parameters_witness :
  dict_get (operation validated_handler "GET" [JStr "p"]) "parameters"
  = Some (JList [JStr "p"]).
Proof.
  apply (operation_parameters validated_handler "GET" [JStr "p"]). reflexivity.
Defined.

(** ** The response codes of an operation *)

Lemma declared_responses_mem exceptions acc flag code :
  dict_mem (fst (fold_left
                   (fun '(responses, has_2xx) '(code, msg) =>
                      (dict_set responses code (JDict [("description", JStr msg)]),
                       if startswith code "2" then true else has_2xx))
                   exceptions (acc, flag))) code
  = dict_mem acc code || existsb (String.eqb code) (map fst exceptions).
Proof.
  revert acc flag. induction exceptions as [|[c m] rest IH]; intros acc flag; simpl.
  - now rewrite orb_false_r.
  - rewrite IH, dict_mem_set. rewrite (String.eqb_sym c code).
    destruct (String.eqb code c), (dict_mem acc code); reflexivity.
Qed.

Lemma declared_responses_nodup exceptions acc flag :
  NoDup (map fst acc) ->
  NoDup (map fst (fst (fold_left
                   (fun '(responses, has_2xx) '(code, msg) =>
                      (dict_set responses code (JDict [("description", JStr msg)]),
                       if startswith code "2" then true else has_2xx))
                   exceptions (acc, flag)))).
Proof.
  revert acc flag. induction exceptions as [|[c m] rest IH]; intros acc flag Hnd; simpl.
  - exact Hnd.
  - apply IH. now apply count_key_set.
Qed.

Lemma existsb_eqb_In code (l : list string) :
  existsb (String.eqb code) l = true <-> In code l.
Proof.
  rewrite existsb_exists. split.
  - intros (x & Hx & E). apply String.eqb_eq in E. now subst.
  - intros H. exists code. split; [exact H | apply String.eqb_refl].
Qed.

(** X13. The response codes of an operation are pairwise distinct; one of
    them starts with [2]; and apart from [200] and [400] they are declared
    error codes of the handler. *)
Theorem responses_codes :
  forall (func : handler),
    NoDup (dict_keys (responses_of func))
    /\ (exists code, dict_mem (responses_of func) code = true
                     /\ startswith code "2" = true)
    /\ (forall code, dict_mem (responses_of func) code = true ->
          code = "200" \/ code = "400"
          \/ In code (map fst (default [] (f_exceptions func)))).
Proof.
  intros func. unfold responses_of, dict_keys.
  assert (Hd : exists responses has_2xx,
             match f_exceptions func with
             | Some exceptions => declared_responses exceptions
             | None => ([], false)
             end = (responses, has_2xx)
             /\ NoDup (map fst responses)
             /\ (forall code, dict_mem responses code = true <->
                   In code (map fst (default [] (f_exceptions func))))
             /\ (has_2xx = true ->
                 exists code, dict_mem responses code = true
                              /\ startswith code "2" = true)).
  { destruct (f_exceptions func) as [ex|]; simpl.
    - unfold declared_responses.
      destruct (fold_left _ ex ([], false)) as [responses has_2xx] eqn:E.
      exists responses, has_2xx. split; [reflexivity|].
      pose proof (declared_responses_nodup ex [] false (NoDup_nil_2 (A:=string))) as Hnd.
      pose proof (declared_responses_flag ex [] false) as Hflag.
      pose proof (fun code => declared_responses_mem ex [] false code) as Hmem.
      rewrite E in Hnd, Hflag, Hmem. cbn [fst snd] in *.
      split; [exact Hnd|]. split.
      + intros code. rewrite Hmem. simpl. apply existsb_eqb_In.
      + intros ->. symmetry in Hflag. simpl in Hflag.
        apply existsb_exists in Hflag as (code & Hin & Hcode).
        exists code. split; [|exact Hcode].
        rewrite Hmem. simpl. now apply existsb_eqb_In.
    - exists [], false. split; [reflexivity|]. split; [constructor|].
      split; [|discriminate]. intros code. split; [discriminate | intros []]. }
  destruct Hd as (responses & has_2xx & -> & Hnd & Hmem & H2xx).
  set (r1 := match f_response func with
             | Some response =>
                 dict_set responses "200"
                   (JDict [("description", JStr "Successful Response");
                           ("content", json_content response)])
             | None =>
                 if negb has_2xx
                 then dict_set responses "200"
                        (JDict [("description", JStr "Successful Response")])
                 else responses
             end).
  assert (H1 : NoDup (map fst r1)
               /\ (exists code, dict_mem r1 code = true /\ startswith code "2" = true)
               /\ (forall code, dict_mem r1 code = true ->
                     code = "200" \/ dict_mem responses code = true)).
  { subst r1. destruct (f_response func) as [resp|]; [|destruct has_2xx; cbn [negb]].
    - split; [now apply count_key_set|]. split.
      + exists "200". rewrite dict_mem_set. split; reflexivity.
      + intros code. rewrite dict_mem_set.
        destruct (String.eqb_spec "200" code) as [<-|]; auto.
    - split; [exact Hnd|]. split; [now apply H2xx | auto].
    - split; [now apply count_key_set|]. split.
      + exists "200". rewrite dict_mem_set. split; reflexivity.
      + intros code. rewrite dict_mem_set.
        destruct (String.eqb_spec "200" code) as [<-|]; auto. }
  clearbody r1. destruct H1 as (Hnd1 & (c2 & Hc2 & Hs2) & Hin1).
  destruct (is_some (f_query func) || is_some (f_body func)
            || is_some (f_form func) || is_some (f_response func)).
  - split; [now apply count_key_set|]. split.
    + exists c2. rewrite dict_mem_set, Hc2, orb_true_r. auto.
    + intros code. rewrite dict_mem_set.
      destruct (String.eqb_spec "400" code) as [<-|]; [auto|]. simpl.
      intros H. destruct (Hin1 code H) as [->|H']; [auto|].
      right. right. now apply Hmem.
  - split; [exact Hnd1|]. split; [eauto|].
    intros code H. destruct (Hin1 code H) as [->|H']; [auto|].
    right. right. now apply Hmem.
Qed.

(** ** The rule loop *)

Lemma visit_rule_own pca self acc r :
  own_route self r = true -> visit_rule pca self acc r = Ok acc.
Proof. intros H. unfold visit_rule. now rewrite H. Qed.

(** X14. The rule loop of [generate_spec] ignores the rules under the
    document's own endpoint and under [/static]: it gives what it gives on
    the other rules alone, so such a rule needs neither a view function nor
    a well-formed template. *)
Theorem own_routes_skipped :
  forall (parse_converter_args : tokenizer)
         (self : OpenAPI) (rules : list rule) (acc : routes_t * tags_t),
    visit_rules parse_converter_args self rules acc
    = visit_rules parse_converter_args self
        (List.filter (fun r => negb (own_route self r)) rules) acc.
Proof.
  intros pca self rules. induction rules as [|r rules IH]; intros acc; [reflexivity|].
  cbn [List.filter visit_rules]. destruct (own_route self r) eqn:E; cbn [negb].
  - rewrite (visit_rule_own pca self acc r E). exact (IH acc).
  - cbn [visit_rules]. destruct (visit_rule pca self acc r); simpl; auto.
Qed.

Lemma skipped_spec method :
  skipped method = false <-> method <> "HEAD" /\ method <> "OPTIONS".
Proof.
  unfold skipped. destruct (String.eqb_spec method "HEAD"),
    (String.eqb_spec method "OPTIONS"); simpl; split; try tauto; try discriminate.
  all: intros [? ?]; contradiction.
Qed.

Lemma operation_lower func method method' parameters :
  lower method = lower method' ->
  operation func method parameters = operation func method' parameters.
Proof.
  intros H. unfold operation, with_view_func. now rewrite H.
Qed.

Lemma listed_In methods key :
  listed methods key = true <->
  exists method, In method methods /\ skipped method = false /\ lower method = key.
Proof.
  unfold listed. rewrite existsb_exists. split.
  - intros (m & Hin & H). apply andb_prop in H as [H1 H2].
    apply negb_true_iff in H1. apply String.eqb_eq in H2. eauto.
  - intros (m & Hin & H1 & H2). exists m. split; [exact Hin|].
    rewrite H1, H2, String.eqb_refl. reflexivity.
Qed.

Lemma visit_method_eq func path parameters routes tags method :
  visit_method func path parameters (routes, tags) method
  = if skipped method then (routes, tags)
    else (dict_set routes path
            (dict_set (default [] (dict_get routes path)) (lower method)
               (JDict (operation func method parameters))),
          add_tags func tags).
Proof. reflexivity. Qed.

Lemma visit_methods_item func path parameters methods :
  forall routes tags item,
    dict_get routes path = Some item ->
    exists item',
      dict_get (fst (fold_left (visit_method func path parameters) methods (routes, tags)))
               path = Some item'
      /\ (forall p, p <> path ->
            dict_get (fst (fold_left (visit_method func path parameters) methods
                             (routes, tags))) p = dict_get routes p)
      /\ (forall key,
            (exists method, In method methods /\ skipped method = false
                            /\ lower method = key
                            /\ dict_get item' key
                               = Some (JDict (operation func method parameters)))
            \/ (listed methods key = false /\ dict_get item' key = dict_get item key)).
Proof.
  induction methods as [|m methods IH]; intros routes tags item Hitem.
  - exists item. split; [exact Hitem|]. split; [reflexivity|]. intros key. now right.
  - change (fold_left (visit_method func path parameters) (m :: methods) (routes, tags))
      with (fold_left (visit_method func path parameters) methods
              (visit_method func path parameters (routes, tags) m)).
    rewrite visit_method_eq.
    destruct (skipped m) eqn:Es.
    + destruct (IH routes tags item Hitem) as (item' & Hget & Hother & Hkeys).
      exists item'. split; [exact Hget|]. split; [exact Hother|].
      intros key. destruct (Hkeys key) as [(m' & Hin & H)|[Hl Hk]].
      * left. exists m'. split; [now right | exact H].
      * right. split; [|exact Hk]. unfold listed. cbn [existsb]. rewrite Es. exact Hl.
    + rewrite Hitem. cbn [default].
      set (item1 := dict_set item (lower m) (JDict (operation func m parameters))).
      destruct (IH (dict_set routes path item1) (add_tags func tags) item1
                  (dict_get_set_eq _ _ _)) as (item' & Hget & Hother & Hkeys).
      exists item'. split; [exact Hget|]. split.
      * intros p Hp. transitivity (dict_get (dict_set routes path item1) p);
          [exact (Hother p Hp) | now apply dict_get_set_ne].
      * intros key. destruct (Hkeys key) as [(m' & Hin & H)|[Hl Hk]].
        -- left. exists m'. split; [now right | exact H].
        -- destruct (String.eqb_spec (lower m) key) as [Hkey|Hkey].
           ++ left. exists m. split; [now left|]. split; [exact Es|].
              split; [exact Hkey|]. rewrite Hk. subst item1 key.
              apply dict_get_set_eq.
           ++ right. split.
              ** unfold listed. cbn [existsb]. rewrite Es.
                 apply String.eqb_neq in Hkey. rewrite Hkey. exact Hl.
              ** rewrite Hk. subst item1. now apply dict_get_set_ne.
Qed.

(** X15. What a rule adds to the routes. For a rule that is not the
    document's own, whose endpoint has the view function [func], whose
    template parses to [path] and [parameters], and whose handler is not
    bypassed: the path has an item afterwards, the other paths keep theirs;
    for every method of the rule but HEAD and OPTIONS the item holds, under
    the method in lower case, the operation of [func] for it; and under
    every other key the item holds what the path had before, if anything.
    So a rule with the methods HEAD and OPTIONS only gives a new path an
    empty item, and a later rule on the same path replaces the operations
    of its methods and keeps the others. *)
Theorem visit_rule_routes :
  forall (parse_converter_args : tokenizer)
         (self : OpenAPI) (routes : routes_t) (tags : tags_t) (r : rule)
         (func : handler) (path : string) (parameters : list json),
    own_route self r = false ->
    dict_get (view_functions (app self)) (r_endpoint r) = Some func ->
    parse_url parse_converter_args (r_rule r) = Ok (path, parameters) ->
    _bypass self func = false ->
    exists routes' tags' item,
      visit_rule parse_converter_args self (routes, tags) r = Ok (routes', tags')
      /\ dict_get routes' path = Some item
      /\ (forall p, p <> path -> dict_get routes' p = dict_get routes p)
      /\ (forall method,
            In method (r_methods r) -> method <> "HEAD" -> method <> "OPTIONS" ->
            dict_get item (lower method)
            = Some (JDict (operation func method parameters)))
      /\ (forall key,
            (forall method,
                In method (r_methods r) -> method <> "HEAD" -> method <> "OPTIONS" ->
                lower method <> key) ->
            dict_get item key = dict_get (default [] (dict_get routes path)) key).
Proof.
  intros pca self routes tags r func path parameters Hown Hfunc Hparse Hbypass.
  unfold visit_rule. rewrite Hown, Hfunc, Hparse. cbn [mbind outcome_bind Py.bind].
  rewrite Hbypass.
  set (routes1 := if dict_mem routes path then routes else dict_set routes path []).
  assert (H1 : dict_get routes1 path = Some (default [] (dict_get routes path))
               /\ forall p, p <> path -> dict_get routes1 p = dict_get routes p).
  { subst routes1. unfold dict_mem. destruct (dict_get routes path) as [item|] eqn:E.
    - split; [exact E | reflexivity].
    - split; [apply dict_get_set_eq|]. intros p Hp. now apply dict_get_set_ne. }
  destruct H1 as [Hitem Hother1].
  destruct (visit_methods_item func path parameters (r_methods r) routes1 tags _ Hitem)
    as (item' & Hget & Hother & Hkeys).
  match goal with
  | |- context [Ok ?X] => exists (fst X), (snd X), item'
  end.
  split; [now rewrite <- surjective_pairing|]. split; [exact Hget|]. split; [|split].
  - intros p Hp. transitivity (dict_get routes1 p);
      [exact (Hother p Hp) | now apply Hother1].
  - intros method Hin Hh Ho.
    destruct (Hkeys (lower method)) as [(m' & _ & _ & Hl & Hv)|[Hl _]].
    + rewrite Hv. now rewrite (operation_lower func m' method parameters Hl).
    + exfalso. apply not_true_iff_false in Hl. apply Hl. apply listed_In.
      exists method. split; [exact Hin|]. split; [|reflexivity].
      now apply skipped_spec.
  - intros key Hnone. destruct (Hkeys key) as [(m' & Hin & Hs & Hl & _)|[_ Hv]];
      [|exact Hv].
    exfalso. apply skipped_spec in Hs as [Hh Ho]. exact (Hnone m' Hin Hh Ho Hl).
Qed.

Lemma visit_rule_routes_witness :
  exists routes' tags' item,
    visit_rule ArgTokenizer.parse_int_args mixed_instance ([], [])
      {| r_rule := "/ping"; r_endpoint := "ping"; r_methods := ["HEAD"; "OPTIONS"] |}
    = Ok (routes', tags')
    /\ dict_get routes' "/ping" = Some item
    /\ forall key, dict_get item key = None.
Proof.
  destruct (visit_rule_routes ArgTokenizer.parse_int_args mixed_instance [] []
              {| r_rule := "/ping"; r_endpoint := "ping";
                 r_methods := ["HEAD"; "OPTIONS"] |}
              unmarked_handler "/ping" [] eq_refl eq_refl eq_refl eq_refl)
    as (routes' & tags' & item & Hrun & Hget & _ & _ & Hkeep).
  exists routes', tags', item. split; [exact Hrun|]. split; [exact Hget|].
  intros key. rewrite (Hkeep key); [reflexivity|].
  simpl. intros method [<-|[<-|[]]] Hh Ho; congruence.
Defined.

Lemma visit_rule_ends pca self acc r :
  (exists acc', visit_rule pca self acc r = Ok acc')
  \/ (exists e, visit_rule pca self acc r = Raise e).
Proof.
  unfold visit_rule. destruct (own_route self r); [left; eauto|].
  destruct (dict_get (view_functions (app self)) (r_endpoint r)) as [func|];
    [|right; eauto].
  destruct (parse_url_ends pca (r_rule r)) as [H1 H2].
  destruct (parse_url pca (r_rule r)) as [[path parameters]|e| |];
    cbn [mbind outcome_bind Py.bind]; try contradiction; [|right; eauto].
  destruct (_bypass self func); [left; eauto|].
  destruct acc as [routes tags]. left. eauto.
Qed.

Lemma visit_rules_raises pca self r rules :
  In r rules ->
  (exists e, forall acc, visit_rule pca self acc r = Raise e) ->
  forall acc, exists e, visit_rules pca self rules acc = Raise e.
Proof.
  intros Hin (e & He). induction rules as [|r' rules IH]; intros acc; [destruct Hin|].
  cbn [visit_rules]. destruct Hin as [->|Hin].
  - rewrite He. eauto.
  - destruct (visit_rule_ends pca self acc r') as [(acc' & ->)|(e' & ->)].
    + cbn [mbind outcome_bind Py.bind]. now apply IH.
    + eauto.
Qed.

(** X16. No rule is isolated from the others: when a rule of the
    application that is not the document's own has no view function for
    its endpoint, or a template whose parsing raises, the rule loop of
    [generate_spec] raises, whatever the inclusion policy and whether or
    not the handler would have been bypassed. *)
Theorem collect_routes_no_isolation :
  forall (parse_converter_args : tokenizer)
         (self : OpenAPI) (r : rule),
    In r (url_map (app self)) ->
    own_route self r = false ->
    (dict_get (view_functions (app self)) (r_endpoint r) = None
     \/ exists e, parse_url parse_converter_args (r_rule r) = Raise e) ->
    exists e, collect_routes parse_converter_args self = Raise e.
Proof.
  intros pca self r Hin Hown Hbad. unfold collect_routes.
  apply (visit_rules_raises pca self r); [exact Hin|].
  unfold visit_rule. rewrite Hown.
  destruct (dict_get (view_functions (app self)) (r_endpoint r)) as [func|].
  - destruct Hbad as [Hnone|(e & He)]; [discriminate|].
    exists e. intros acc. now rewrite He.
  - eexists. intros acc. reflexivity.
Qed.

Lemma collect_routes_no_isolation_witness :
  _bypass strict_instance unmarked_handler = true
  /\ exists e, collect_routes ArgTokenizer.parse_int_args strict_instance = Raise e.
Proof.
  split; [reflexivity|].
  apply (collect_routes_no_isolation ArgTokenizer.parse_int_args strict_instance
           {| r_rule := "/ping/<id"; r_endpoint := "ping"; r_methods := ["GET"] |}).
  - now left.
  - reflexivity.
  - right. exists (ValueError_malformed "/ping/<id"). reflexivity.
Defined.

(** ** Routes and tags *)

Lemma dict_set_Forall {V} (P : string * V -> Prop) (d : list (string * V)) k v :
  Forall P d -> P (k, v) -> Forall P (dict_set d k v).
Proof.
  intros Hd Hkv. induction Hd as [|[k' v'] d Hx Hd IH]; simpl.
  - now constructor.
  - destruct (String.eqb_spec k' k) as [->|Hne]; constructor; auto.
Qed.

Lemma add_tags_inv (P : string -> Prop) func tags :
  (forall tag, In tag (default [] (f_tags func)) -> P tag) ->
  NoDup (map fst tags) ->
  Forall (fun kv : string * json => snd kv = JDict [("name", JStr (fst kv))]
                                    /\ P (fst kv)) tags ->
  NoDup (map fst (add_tags func tags))
  /\ Forall (fun kv : string * json => snd kv = JDict [("name", JStr (fst kv))]
                                       /\ P (fst kv)) (add_tags func tags).
Proof.
  unfold add_tags. destruct (f_tags func) as [ts|]; [|auto]. cbn [default].
  revert tags. induction ts as [|t ts IH]; intros tags HP Hnd Hall; [auto|].
  cbn [fold_left]. apply IH.
  - intros tag Hin. apply HP. now right.
  - destruct (dict_mem tags t); [exact Hnd | now apply count_key_set].
  - destruct (dict_mem tags t); [exact Hall|].
    apply dict_set_Forall; [exact Hall|]. split; [reflexivity|]. apply HP. now left.
Qed.

Lemma visit_method_inv (P : string -> Prop) func path parameters acc method :
  (forall tag, In tag (default [] (f_tags func)) -> P tag) ->
  routes_inv acc /\ Forall (fun kv => P (fst kv)) (snd acc) ->
  routes_inv (visit_method func path parameters acc method)
  /\ Forall (fun kv => P (fst kv)) (snd (visit_method func path parameters acc method)).
Proof.
  intros HP [(Hr & Hitems & Ht & Hnames) Hdecl]. destruct acc as [routes tags].
  rewrite visit_method_eq. destruct (skipped method); [repeat split; assumption|].
  cbn [fst snd] in *.
  assert (Hall : Forall (fun kv : string * json =>
                           snd kv = JDict [("name", JStr (fst kv))] /\ P (fst kv)) tags).
  { apply Forall_forall. intros kv Hin. rewrite Forall_forall in Hnames, Hdecl. auto. }
  destruct (add_tags_inv P func tags HP Ht Hall) as [Ht' Hall'].
  split; [split; [|split; [|split]]|]; cbn [fst snd].
  - now apply count_key_set.
  - apply dict_set_Forall; [exact Hitems|]. cbn [snd]. apply count_key_set.
    destruct (dict_get routes path) as [item|] eqn:E; [|constructor].
    apply dict_get_Some_In in E. rewrite Forall_forall in Hitems.
    apply list_elem_of_In in E. exact (Hitems _ E).
  - exact Ht'.
  - eapply Forall_impl; [exact Hall'|]. intros kv [H _]. exact H.
  - eapply Forall_impl; [exact Hall'|]. intros kv [_ H]. exact H.
Qed.

Lemma visit_rule_inv pca self acc r acc' :
  visit_rule pca self acc r = Ok acc' ->
  routes_inv acc /\ Forall (fun kv => declared_tag self (fst kv)) (snd acc) ->
  routes_inv acc' /\ Forall (fun kv => declared_tag self (fst kv)) (snd acc').
Proof.
  unfold visit_rule. destruct (own_route self r); [now intros [= <-]|].
  destruct (dict_get (view_functions (app self)) (r_endpoint r)) as [func|] eqn:Ef;
    [|discriminate].
  destruct (parse_url pca (r_rule r)) as [[path parameters]| | |];
    cbn [mbind outcome_bind Py.bind]; try discriminate.
  destruct (_bypass self func); [now intros [= <-]|].
  destruct acc as [routes tags]. intros [= <-] Hinv.
  assert (HP : forall tag, In tag (default [] (f_tags func)) -> declared_tag self tag).
  { intros tag Hin. exists (r_endpoint r), func. auto. }
  set (acc0 := (if dict_mem routes path then routes else dict_set routes path [], tags)).
  assert (H1 : routes_inv acc0 /\ Forall (fun kv => declared_tag self (fst kv)) (snd acc0)).
  { subst acc0. destruct Hinv as [(Hr & Hitems & Ht & Hnames) Hdecl]. cbn [fst snd] in *.
    split; [|exact Hdecl]. destruct (dict_mem routes path).
    - repeat split; assumption.
    - split; [|split; [|split]]; cbn [fst snd]; auto.
      + now apply count_key_set.
      + apply dict_set_Forall; [exact Hitems | constructor]. }
  clearbody acc0. revert acc0 H1.
  induction (r_methods r) as [|m ms IH]; intros acc Hacc; [exact Hacc|].
  cbn [fold_left]. apply IH. now apply visit_method_inv.
Qed.

Lemma visit_rules_inv pca self rules :
  forall acc acc',
    visit_rules pca self rules acc = Ok acc' ->
    routes_inv acc /\ Forall (fun kv => declared_tag self (fst kv)) (snd acc) ->
    routes_inv acc' /\ Forall (fun kv => declared_tag self (fst kv)) (snd acc').
Proof.
  induction rules as [|r rules IH]; intros acc acc'; cbn [visit_rules].
  - now intros [= <-].
  - destruct (visit_rule pca self acc r) as [acc1| | |] eqn:E;
      cbn [mbind outcome_bind Py.bind]; try discriminate.
    intros Hrest Hinv. apply (IH acc1 acc' Hrest).
    exact (visit_rule_inv pca self acc r acc1 E Hinv).
Qed.

(** X17. The routes and tags that the rule loop of [generate_spec]
    returns: the paths are pairwise distinct, and so are the method keys of
    every path and the tags; the [tags] list of the document names every
    tag once, as [{"name": tag}], in the order of first use; and every tag
    is declared by a view function of the application. *)
Theorem collect_routes_distinct :
  forall (parse_converter_args : tokenizer)
         (self : OpenAPI) (routes : routes_t) (tags : tags_t),
    collect_routes parse_converter_args self = Ok (routes, tags) ->
    NoDup (dict_keys routes)
    /\ (forall path item, dict_get routes path = Some item -> NoDup (dict_keys item))
    /\ NoDup (dict_keys tags)
    /\ map snd tags = map (fun tag => JDict [("name", JStr tag)]) (dict_keys tags)
    /\ (forall tag, In tag (dict_keys tags) -> declared_tag self tag).
Proof.
  intros pca self routes tags Hrun. unfold collect_routes in Hrun.
  destruct (visit_rules_inv pca self _ _ _ Hrun) as [(Hr & Hitems & Ht & Hnames) Hdecl].
  { split; [|constructor]. repeat split; constructor. }
  cbn [fst snd] in *. split; [exact Hr|]. split; [|split; [exact Ht|split]].
  - intros path item Hget. apply dict_get_Some_In in Hget.
    rewrite Forall_forall in Hitems. apply list_elem_of_In in Hget.
    exact (Hitems _ Hget).
  - unfold dict_keys. rewrite map_map. apply map_ext_in. intros kv Hin.
    rewrite Forall_forall in Hnames. apply list_elem_of_In in Hin. exact (Hnames _ Hin).
  - intros tag Hin. unfold dict_keys in Hin. apply in_map_iff in Hin as (kv & <- & Hin).
    rewrite Forall_forall in Hdecl. apply list_elem_of_In in Hin. exact (Hdecl _ Hin).
Qed.

Lemma collect_routes_distinct_witness :
  exists routes tags,
    collect_routes ArgTokenizer.parse_int_args mixed_instance = Ok (routes, tags)
    /\ NoDup (dict_keys routes) /\ NoDup (dict_keys tags).
Proof.
  destruct (collect_routes ArgTokenizer.parse_int_args mixed_instance)
    as [[routes tags]| | |] eqn:E; try (vm_compute in E; discriminate E).
  exists routes, tags. split; [reflexivity|].
  destruct (collect_routes_distinct _ _ _ _ E) as (H1 & _ & H2 & _). auto.
Defined.

(** ** Loops over a dictionary *)

Lemma keys_have_values {V} (d : list (string * V)) k :
  In k (dict_keys d) -> exists v, dict_get d k = Some v.
Proof.
  intros Hin. apply dict_mem_true in Hin. unfold dict_mem in Hin.
  destruct (dict_get d k) as [v|]; [eauto | discriminate].
Qed.

Lemma for_items_from_noop {A} (body : string -> value -> A * heap -> outcome (A * heap))
    d o ks (st : A * heap) :
  snd st !! d = Some o ->
  (forall k v, In k ks -> dict_get (entries o) k = Some v -> body k v st = Ok st) ->
  (forall k, In k ks -> In k (dict_keys (entries o))) ->
  for_items_from body d (length (entries o)) (version o) ks st = Ok st.
Proof.
  intros Hd. induction ks as [|k ks IH]; intros Hbody Hkeys; cbn [for_items_from].
  - rewrite (iter_check_ok _ _ _ Hd). reflexivity.
  - rewrite (iter_check_ok _ _ _ Hd). cbn [mbind outcome_bind Py.bind].
    unfold deref. rewrite Hd. cbn [mbind outcome_bind Py.bind].
    destruct (keys_have_values (entries o) k (Hkeys k (or_introl eq_refl))) as [v Hv].
    rewrite Hv, (Hbody k v (or_introl eq_refl) Hv). cbn [mbind outcome_bind Py.bind].
    apply IH; intros; [apply Hbody | apply Hkeys]; auto; now right.
Qed.

Lemma for_items_noop {A} (body : string -> value -> A * heap -> outcome (A * heap))
    d o (st : A * heap) :
  snd st !! d = Some o ->
  (forall k v, dict_get (entries o) k = Some v -> body k v st = Ok st) ->
  for_items body d st = Ok st.
Proof.
  intros Hd Hbody. unfold for_items, deref. rewrite Hd.
  cbn [mbind outcome_bind Py.bind]. apply for_items_from_noop; auto.
Qed.

Lemma fold_keys_entries {V A} (f : string -> V -> A -> A) (pre es : list (string * V)) a :
  NoDup (map fst (pre ++ es)) ->
  fold_left (fun a k => match dict_get (pre ++ es) k with
                        | Some v => f k v a
                        | None => a
                        end) (map fst es) a
  = fold_left (fun a kv => f (fst kv) (snd kv) a) es a.
Proof.
  revert pre a. induction es as [|[k v] es IH]; intros pre a Hnd; [reflexivity|].
  cbn [map fold_left fst snd].
  assert (Hk : dict_get (pre ++ (k, v) :: es) k = Some v).
  { rewrite dict_get_app.
    assert (Hpre : dict_get pre k = None).
    { apply dict_get_None. intros Hin. rewrite map_app in Hnd.
      apply NoDup_app in Hnd as (_ & Hdis & _).
      apply (Hdis k); [now apply list_elem_of_In | left]. }
    rewrite Hpre. simpl. now rewrite String.eqb_refl. }
  rewrite Hk.
  replace (pre ++ (k, v) :: es) with ((pre ++ [(k, v)]) ++ es) in *
    by now rewrite <- app_assoc.
  now apply IH.
Qed.

Lemma for_items_from_pure {A} (f : string -> value -> A -> A) d o ks a h :
  h !! d = Some o ->
  (forall k, In k ks -> In k (dict_keys (entries o))) ->
  for_items_from (fun k v st => Ok (f k v (fst st), snd st)) d
    (length (entries o)) (version o) ks (a, h)
  = Ok (fold_left (fun a k => match dict_get (entries o) k with
                              | Some v => f k v a
                              | None => a
                              end) ks a, h).
Proof.
  intros Hd. revert a. induction ks as [|k ks IH]; intros a Hkeys; cbn [for_items_from snd].
  - rewrite (iter_check_ok _ _ _ Hd). reflexivity.
  - rewrite (iter_check_ok _ _ _ Hd). cbn [mbind outcome_bind Py.bind].
    unfold deref. rewrite Hd.
    destruct (keys_have_values (entries o) k (Hkeys k (or_introl eq_refl))) as [v Hv].
    cbn [mbind outcome_bind Py.bind fold_left]. rewrite Hv. cbn [fst snd].
    apply IH. intros k' Hk'. apply Hkeys. now right.
Qed.

Lemma for_items_pure {A} (f : string -> value -> A -> A) d o a h :
  h !! d = Some o ->
  NoDup (dict_keys (entries o)) ->
  for_items (fun k v st => Ok (f k v (fst st), snd st)) d (a, h)
  = Ok (fold_left (fun a kv => f (fst kv) (snd kv) a) (entries o) a, h).
Proof.
  intros Hd Hnd. unfold for_items, deref. cbn [snd]. rewrite Hd.
  cbn [mbind outcome_bind Py.bind].
  rewrite (for_items_from_pure f d o _ a h Hd) by auto.
  f_equal. f_equal. exact (fold_keys_entries f [] (entries o) a Hnd).
Qed.

(** ** The merge when no key is shared *)

Lemma merge_dicts_as_update :
  forall (fuel : nat) (h : heap) (d1 d2 : loc) (o1 o2 : dictobj),
    h !! d1 = Some o1 ->
    h !! d2 = Some o2 ->
    NoDup (dict_keys (entries o2)) ->
    (forall k, In k (dict_keys (entries o1)) -> dict_mem (entries o2) k = false) ->
    exists h',
      merge_dicts (S fuel) d1 d2 h = Ok (d1, h')
      /\ ents h' d1 = Some (entries o1 ++ entries o2)
      /\ (forall l, l <> d1 -> h' !! l = h !! l)
      /\ (entries o2 = [] -> h' = h).
Proof.
  intros fuel h d1 d2 o1 o2 H1 H2 Hnd Hdis. cbn [merge_dicts].
  rewrite (for_items_noop _ d1 o1 (tt, h) H1).
  - cbn [mbind outcome_bind Py.bind].
    destruct (update_ok h d1 d2 o1 o2 H1 H2) as (ver & Hup). rewrite Hup.
    cbn [mbind outcome_bind Py.bind]. eexists. split; [reflexivity|].
    assert (Hnew : dict_update (entries o1) (entries o2) = entries o1 ++ entries o2).
    { apply dict_update_new; [exact Hnd|]. intros k Hk.
      destruct (dict_mem (entries o1) k) eqn:E; [|reflexivity].
      apply dict_mem_true in E. apply Hdis in E. apply dict_mem_true in Hk. congruence. }
    rewrite Hnew.
    split; [apply ents_insert|]. split.
    + intros l Hl. now apply lookup_insert_ne.
    + intros He.
      assert (Hh : update d1 d2 h = Ok h)
        by (unfold update, deref; rewrite H2; cbn [mbind outcome_bind Py.bind];
            rewrite He; reflexivity).
      rewrite Hh in Hup. injection Hup as Hup. rewrite <- Hnew. now symmetry.
  - intros k v Hv. unfold merge_body. cbn [snd]. unfold deref. rewrite H2.
    cbn [mbind outcome_bind Py.bind].
    assert (Hk : dict_mem (entries o2) k = false).
    { apply Hdis. apply dict_mem_true. unfold dict_mem. now rewrite Hv. }
    unfold dict_mem in Hk. destruct (dict_get (entries o2) k); [discriminate | reflexivity].
Qed.

(** X18. When no key of the base is a key of the overlay, [merge_dicts]
    is [d1.update(d2)], whatever the dictionaries hold: it returns the base
    reference, the base gets the entries of the overlay after its own, with
    the very values of the overlay (a dictionary is entered by reference,
    not copied), and no other dictionary of the store changes, the overlay
    included. With an empty overlay the store is left as it is. *)
Theorem merge_dicts_disjoint_keys :
  forall (fuel : nat) (h : heap) (d1 d2 : loc) (o1 o2 : dictobj),
    h !! d1 = Some o1 ->
    h !! d2 = Some o2 ->
    NoDup (dict_keys (entries o2)) ->
    (forall k, In k (dict_keys (entries o1)) -> dict_mem (entries o2) k = false) ->
    exists h',
      merge_dicts (S fuel) d1 d2 h = Ok (d1, h')
      /\ ents h' d1 = Some (entries o1 ++ entries o2)
      /\ (forall l, l <> d1 -> h' !! l = h !! l)
      /\ (entries o2 = [] -> h' = h).
Proof. exact merge_dicts_as_update. Qed.

Lemma merge_dicts_disjoint_keys_witness :
  exists h',
    merge_dicts 1 1%positive 2%positive extension_store = Ok (1%positive, h')
    /\ ents h' 1%positive
       = Some [("title", VAtom (AStr "Service Documents"));
               ("version", VAtom (AStr "latest"));
               ("x-logo", VAtom (AStr "logo.png"));
               ("contact", VDict 4%positive)]
    /\ h' !! 2%positive = extension_store !! 2%positive
    /\ h' !! 4%positive = extension_store !! 4%positive.
Proof.
  destruct (merge_dicts_disjoint_keys 0 extension_store 1%positive 2%positive
              {| entries := [("title", VAtom (AStr "Service Documents"));
                             ("version", VAtom (AStr "latest"))];
                 version := 0 |}
              {| entries := [("x-logo", VAtom (AStr "logo.png"));
                             ("contact", VDict 4%positive)];
                 version := 0 |} eq_refl eq_refl)
    as (h' & Hrun & Hents & Hother & _).
  - apply (bool_decide_unpack _). vm_compute. reflexivity.
  - intros k [<-|[<-|[]]]; reflexivity.
  - exists h'. split; [exact Hrun|]. split; [exact Hents|].
    split; apply Hother; discriminate.
Defined.

(** ** Deleting and updating entries *)

Section DictDel.
Context {V W : Type}.
Implicit Types (d : list (string * V)).

Lemma dict_del_absent d k : dict_mem d k = false -> dict_del d k = d.
Proof.
  unfold dict_mem. induction d as [|[k0 v0] d IH]; simpl; [reflexivity|].
  destruct (String.eqb k0 k); [discriminate|]. intros H. now rewrite IH.
Qed.

Lemma dict_del_In d k kv : In kv (dict_del d k) -> In kv d.
Proof.
  induction d as [|[k0 v0] d IH]; simpl; [tauto|].
  destruct (String.eqb k0 k); simpl; [auto|]. intros [<-|H]; auto.
Qed.

Lemma dict_del_nodup d k : NoDup (map fst d) -> NoDup (map fst (dict_del d k)).
Proof.
  induction d as [|[k0 v0] d IH]; simpl; intros Hnd; [constructor|].
  apply NoDup_cons in Hnd as [Hk0 Hnd].
  destruct (String.eqb k0 k); simpl; [exact Hnd|].
  apply NoDup_cons. split; [|auto].
  intros Hin. apply Hk0. apply list_elem_of_In in Hin. apply list_elem_of_In.
  apply in_map_iff in Hin as (kv & <- & Hkv). apply in_map. now apply (dict_del_In d k).
Qed.

Lemma dict_get_del d k k' :
  NoDup (map fst d) ->
  dict_get (dict_del d k) k' = if String.eqb k k' then None else dict_get d k'.
Proof.
  induction d as [|[k0 v0] d IH]; simpl; intros Hnd.
  - now destruct (String.eqb k k').
  - apply NoDup_cons in Hnd as [Hk0 Hnd].
    destruct (String.eqb_spec k0 k) as [->|Hne].
    + destruct (String.eqb_spec k k') as [Heq|Hne']; [|reflexivity].
      rewrite <- Heq. apply dict_get_None. now rewrite <- list_elem_of_In.
    + simpl. rewrite (IH Hnd). destruct (String.eqb_spec k0 k') as [->|Hne'];
        [|reflexivity].
      apply String.eqb_neq in Hne. rewrite String.eqb_sym in Hne. now rewrite Hne.
Qed.

Lemma dict_del_map (f : V -> W) d k :
  dict_del (map (fun kv => (fst kv, f (snd kv))) d) k
  = map (fun kv => (fst kv, f (snd kv))) (dict_del d k).
Proof.
  induction d as [|[k0 v0] d IH]; simpl; [reflexivity|].
  destruct (String.eqb k0 k); simpl; [reflexivity | now rewrite IH].
Qed.

Lemma dict_set_map (f : V -> W) d k v :
  dict_set (map (fun kv => (fst kv, f (snd kv))) d) k (f v)
  = map (fun kv => (fst kv, f (snd kv))) (dict_set d k v).
Proof.
  induction d as [|[k0 v0] d IH]; simpl; [reflexivity|].
  destruct (String.eqb k0 k); simpl; [reflexivity | now rewrite IH].
Qed.

Lemma dict_update_map (f : V -> W) d d2 :
  dict_update (map (fun kv => (fst kv, f (snd kv))) d)
              (map (fun kv => (fst kv, f (snd kv))) d2)
  = map (fun kv => (fst kv, f (snd kv))) (dict_update d d2).
Proof.
  unfold dict_update. revert d. induction d2 as [|[k v] d2 IH]; intros d; [reflexivity|].
  cbn [map fold_left fst snd]. rewrite dict_set_map. apply IH.
Qed.

Lemma dict_set_In d k v kv : In kv (dict_set d k v) -> In kv d \/ kv = (k, v).
Proof.
  induction d as [|[k0 v0] d IH]; simpl.
  - intros [<-|[]]. now right.
  - destruct (String.eqb_spec k0 k) as [->|Hne]; simpl.
    + intros [<-|H]; auto.
    + intros [<-|H]; [auto|]. destruct (IH H); auto.
Qed.

Lemma dict_update_In d d2 kv : In kv (dict_update d d2) -> In kv d \/ In kv d2.
Proof.
  unfold dict_update. revert d. induction d2 as [|[k v] d2 IH]; intros d; simpl; [auto|].
  intros H. destruct (IH _ H) as [H1|H1]; [|auto].
  destruct (dict_set_In _ _ _ _ H1) as [H2| ->]; auto.
Qed.

Lemma dict_update_nodup d d2 : NoDup (map fst d) -> NoDup (map fst (dict_update d d2)).
Proof.
  unfold dict_update. revert d. induction d2 as [|[k v] d2 IH]; intros d Hnd; simpl;
    [exact Hnd|].
  apply IH. now apply count_key_set.
Qed.

Lemma dict_get_update d d2 k :
  dict_get (dict_update d d2) k
  = match dict_get (rev d2) k with
    | Some v => Some v
    | None => dict_get d k
    end.
Proof.
  unfold dict_update. revert d. induction d2 as [|[k0 v0] d2 IH]; intros d; simpl;
    [reflexivity|].
  rewrite IH, dict_get_app. destruct (dict_get (rev d2) k); [reflexivity|].
  simpl. rewrite dict_get_set. destruct (String.eqb k0 k); reflexivity.
Qed.

End DictDel.

(** ** Flattening the registry *)

Lemma dict_update_rootkv defs ds :
  dict_update (map rootkv defs) (map rootkv ds) = map rootkv (dict_update defs ds).
Proof. rewrite !rootkv_map. apply (dict_update_map root). Qed.

Lemma dict_del_rootkv cs k : dict_del (map rootkv cs) k = map rootkv (dict_del cs k).
Proof. rewrite !rootkv_map. apply (dict_del_map root). Qed.

Lemma holds_child h l cs k c : holds h (SNode l cs) -> In (k, c) cs -> holds h c.
Proof.
  intros Hh Hin. apply holds_node in Hh as (_ & _ & Hcs).
  rewrite Forall_forall in Hcs. apply list_elem_of_In in Hin. exact (Hcs _ Hin).
Qed.

Lemma root_in_locs c l : root c = VDict l -> In l (locs c).
Proof. destruct c as [a|l' cs]; [discriminate|]. intros [= ->]. now left. Qed.

Lemma locs_stripped c l : In l (locs (stripped c)) -> In l (locs c).
Proof.
  destruct c as [a|s cs]; [tauto|]. cbn [stripped]. rewrite !locs_node.
  intros [->|Hl]; [now left|]. right. unfold children_locs in *.
  apply in_flat_map in Hl as ([k c] & Hin & Hl). apply in_flat_map.
  exists (k, c). split; [now apply (dict_del_In cs "definitions") | exact Hl].
Qed.

Lemma root_stripped c : root (stripped c) = root c.
Proof. now destruct c. Qed.

Lemma flatten_body_shape name c defs h :
  schema_shape c -> holds h c -> NoDup (locs c) ->
  exists h',
    flatten_body name (root c) (map rootkv defs, h)
    = Ok (map rootkv (dict_update defs (nested c)), h')
    /\ holds h' (stripped c)
    /\ (forall l, root c <> VDict l -> h' !! l = h !! l)
    /\ (nested (stripped c) = [] /\ schema_shape (stripped c))
    /\ (stripped c = c -> h' = h).
Proof.
  destruct c as [a|s cs]; [contradiction|]. intros Hschema Hh Hnd.
  pose proof Hh as Hh0. apply holds_node in Hh as (He & Hk & Hcs).
  apply ents_Some in He as (o & Ho & Heo).
  assert (Hlast : nested (stripped (SNode s cs)) = []
                  /\ schema_shape (stripped (SNode s cs))).
  { cbn [stripped nested schema_shape]. rewrite (dict_get_del cs _ _ Hk).
    rewrite String.eqb_refl. auto. }
  cbn [root flatten_body snd]. unfold deref. rewrite Ho.
  cbn [mbind outcome_bind Py.bind]. rewrite Heo, dict_get_rootkv.
  cbn [schema_shape nested stripped] in *.
  destruct (dict_get cs "definitions") as [[a|n ds]|] eqn:Ed; cbn [option_map root].
  - contradiction.
  - pose proof (dict_get_Some_In _ _ _ Ed) as Hin.
    pose proof (holds_child _ _ _ _ _ Hh0 Hin) as Hn.
    apply holds_node in Hn as (Hen & Hkn & _).
    apply ents_Some in Hen as (on & Hon & Heon).
    assert (Hkeys : NoDup (dict_keys (entries on))).
    { rewrite Heon. unfold dict_keys. now rewrite keys_rootkv. }
    rewrite (for_items_pure (fun key value a => dict_set a key value) n on
               (map rootkv defs) h Hon Hkeys).
    cbn [mbind outcome_bind Py.bind]. rewrite (delitem_ok h s o _ Ho).
    cbn [mbind outcome_bind Py.bind]. eexists.
    split; [|split; [|split; [|split; [exact Hlast|]]]].
    + f_equal. f_equal. rewrite Heon. apply dict_update_rootkv.
    + apply holds_node. split; [|split].
      * rewrite ents_insert. cbn [entries]. rewrite Heo. f_equal. apply dict_del_rootkv.
      * now apply dict_del_nodup.
      * apply Forall_forall. intros [k c] Hkc. apply list_elem_of_In in Hkc.
        apply dict_del_In in Hkc. cbn [snd].
        apply (holds_frame h); [|exact (holds_child _ _ _ _ _ Hh0 Hkc)].
        intros l Hl. apply lookup_insert_ne. intros <-.
        rewrite locs_node in Hnd. apply NoDup_cons in Hnd as [Hs _].
        apply Hs. apply list_elem_of_In. exact (child_locs_in cs k c s Hkc Hl).
    + intros l Hl. apply lookup_insert_ne. congruence.
    + intros [= Hsame]. exfalso.
      assert (Hg : dict_get (dict_del cs "definitions") "definitions" = None).
      { rewrite (dict_get_del cs _ _ Hk). now rewrite String.eqb_refl. }
      rewrite Hsame, Ed in Hg. discriminate.
  - exists h. unfold dict_update. cbn [fold_left].
    rewrite dict_del_absent by (unfold dict_mem; now rewrite Ed).
    split; [reflexivity|]. split; [exact Hh0|]. split; [reflexivity|].
    split; [|reflexivity].
    rewrite dict_del_absent in Hlast by (unfold dict_mem; now rewrite Ed). exact Hlast.
Qed.

Lemma root_not_registry m reg k c :
  NoDup (m :: children_locs reg) -> In (k, c) reg -> root c <> VDict m.
Proof.
  intros Hnd Hin Hroot. apply NoDup_cons in Hnd as [Hm _]. apply Hm.
  apply list_elem_of_In. apply (child_locs_in reg k c m Hin). now apply root_in_locs.
Qed.

Lemma flatten_loop m om reg :
  NoDup (map fst reg) -> NoDup (m :: children_locs reg) ->
  Forall (fun kc => schema_shape (snd kc)) reg ->
  entries om = map rootkv reg ->
  forall todo done defs h,
    reg = done ++ todo ->
    h !! m = Some om ->
    Forall (fun kc => holds h (snd kc)) todo ->
    exists h',
      for_items_from flatten_body m (length (entries om)) (version om) (map fst todo)
        (map rootkv defs, h)
      = Ok (map rootkv (hoist defs todo), h')
      /\ h' !! m = Some om
      /\ Forall (fun kc => holds h' (stripped (snd kc))) todo
      /\ (forall l, (forall kc, In kc todo -> root (snd kc) <> VDict l) ->
                    h' !! l = h !! l)
      /\ (Forall (fun kc => stripped (snd kc) = snd kc) todo -> h' = h).
Proof.
  intros Hkeys Hnd Hschema Hom.
  induction todo as [|[k c] todo IH]; intros done defs h Hreg Hm Hheld.
  - exists h. cbn [map for_items_from snd]. rewrite (iter_check_ok _ _ _ Hm).
    repeat split; auto.
  - assert (Hin : In (k, c) reg) by (rewrite Hreg; apply in_app_iff; right; now left).
    apply Forall_cons in Hheld as [Hc Hheld]. cbn [snd] in Hc.
    assert (Hndc : NoDup (locs c)).
    { apply NoDup_cons in Hnd as [_ Hnd]. exact (children_nodup reg k c Hnd Hin). }
    assert (Hsc : schema_shape c).
    { rewrite Forall_forall in Hschema. apply list_elem_of_In in Hin.
      exact (Hschema _ Hin). }
    destruct (flatten_body_shape k c defs h Hsc Hc Hndc)
      as (h1 & Hrun & Hstr & Hsame & _ & Hid).
    assert (Hm1 : h1 !! m = Some om).
    { rewrite Hsame; [exact Hm|]. exact (root_not_registry m reg k c Hnd Hin). }
    assert (Hother : forall k' c' l, In (k', c') todo -> In l (locs c') ->
                                     root c <> VDict l).
    { intros k' c' l Hin' Hl Hroot. apply root_in_locs in Hroot.
      assert (Hin2 : In (k', c') reg)
        by (rewrite Hreg; apply in_app_iff; right; now right).
      assert (Hne : k <> k').
      { intros <-. rewrite Hreg, map_app in Hkeys. apply NoDup_app in Hkeys as (_ & _ & Hk).
        cbn [map fst] in Hk. apply NoDup_cons in Hk as [Hk _]. apply Hk.
        apply list_elem_of_In. now apply (in_map fst) in Hin'. }
      apply NoDup_cons in Hnd as [_ Hnd].
      exact (children_disjoint reg k c k' c' l Hnd Hin Hin2 Hne Hroot Hl). }
    assert (Hheld1 : Forall (fun kc => holds h1 (snd kc)) todo).
    { apply Forall_forall. intros [k' c'] Hin'. apply list_elem_of_In in Hin'.
      rewrite Forall_forall in Hheld. cbn [snd].
      apply (holds_frame h); [|apply (Hheld (k', c')); now apply list_elem_of_In].
      intros l Hl. apply Hsame. exact (Hother k' c' l Hin' Hl). }
    destruct (IH (done ++ [(k, c)]) (dict_update defs (nested c)) h1) as
      (h' & Hloop & Hm' & Hstr' & Hsame' & Hid'); [|exact Hm1|exact Hheld1|].
    { now rewrite <- app_assoc. }
    exists h'. cbn [map for_items_from snd fst].
    rewrite (iter_check_ok _ _ _ Hm). cbn [mbind outcome_bind Py.bind].
    unfold deref. rewrite Hm. cbn [mbind outcome_bind Py.bind].
    rewrite Hom, dict_get_rootkv, (dict_get_In reg k c Hkeys Hin). cbn [option_map].
    rewrite Hrun. cbn [mbind outcome_bind Py.bind]. rewrite <- Hom.
    split; [exact Hloop|]. split; [exact Hm'|]. split; [|split].
    + constructor; [|exact Hstr']. cbn [snd].
      apply (holds_frame h1); [|exact Hstr]. intros l Hl. apply Hsame'.
      intros [k' c'] Hin' Hroot. cbn [snd] in Hroot. apply root_in_locs in Hroot.
      apply locs_stripped in Hl.
      assert (Hin2 : In (k', c') reg)
        by (rewrite Hreg; apply in_app_iff; right; now right).
      assert (Hne : k <> k').
      { intros <-. rewrite Hreg, map_app in Hkeys. apply NoDup_app in Hkeys as (_ & _ & Hk).
        cbn [map fst] in Hk. apply NoDup_cons in Hk as [Hk _]. apply Hk.
        apply list_elem_of_In. now apply (in_map fst) in Hin'. }
      apply NoDup_cons in Hnd as [_ Hnd].
      exact (children_disjoint reg k c k' c' l Hnd Hin Hin2 Hne Hl Hroot).
    + intros l Hl. rewrite Hsame'.
      * apply Hsame. apply (Hl (k, c)). now left.
      * intros kc Hkc. apply Hl. now right.
    + intros Hall. apply Forall_cons in Hall as [Hc0 Hall]. cbn [snd] in Hc0.
      rewrite (Hid' Hall). exact (Hid Hc0).
Qed.

Lemma erase_entries_update a b :
  erase_entries (dict_update a b) = dict_update (erase_entries a) (erase_entries b).
Proof. unfold erase_entries. symmetry. apply (dict_update_map erase). Qed.

Lemma erase_nested c : erase_entries (nested c) = nested_json (erase c).
Proof.
  destruct c as [a|s cs]; [now destruct a|].
  rewrite erase_node. cbn [nested nested_json]. unfold erase_entries at 2.
  rewrite (dict_get_map erase).
  destruct (dict_get cs "definitions") as [[a|n ds]|]; cbn [option_map];
    [now destruct a | now rewrite erase_node | reflexivity].
Qed.

Lemma erase_stripped c : erase (stripped c) = strip_json (erase c).
Proof.
  destruct c as [a|s cs]; [now destruct a|].
  cbn [stripped]. rewrite !erase_node. cbn [strip_json]. f_equal.
  unfold erase_entries. symmetry. apply (dict_del_map erase).
Qed.

Lemma erase_hoist reg :
  forall defs,
    erase_entries (hoist defs reg) = hoist_json (erase_entries defs) (erase_entries reg).
Proof.
  unfold hoist, hoist_json. induction reg as [|[k c] reg IH]; intros defs; [reflexivity|].
  cbn [fold_left map erase_entries fst snd]. rewrite IH, erase_entries_update, erase_nested.
  reflexivity.
Qed.

Lemma hoist_In reg :
  forall defs kv,
    In kv (hoist defs reg) ->
    In kv defs \/ exists kc, In kc reg /\ In kv (nested (snd kc)).
Proof.
  unfold hoist. induction reg as [|kc reg IH]; intros defs kv; cbn [fold_left]; [auto|].
  intros H. destruct (IH _ _ H) as [H1|(kc' & Hin & Hkv)].
  - apply dict_update_In in H1 as [H1|H1]; [auto|]. right. exists kc. split; [now left|auto].
  - right. exists kc'. split; [now right | exact Hkv].
Qed.

Lemma hoist_nodup reg :
  forall defs, NoDup (map fst defs) -> NoDup (map fst (hoist defs reg)).
Proof.
  unfold hoist. induction reg as [|kc reg IH]; intros defs Hnd; cbn [fold_left]; [exact Hnd|].
  apply IH. now apply dict_update_nodup.
Qed.

Lemma flatten_body_stripped name s cs (st : list (string * value) * heap) :
  NoDup (map fst cs) ->
  holds (snd st) (SNode s (dict_del cs "definitions")) ->
  flatten_body name (VDict s) st = Ok st.
Proof.
  intros Hk Hh. apply holds_node in Hh as (He & _ & _).
  apply ents_Some in He as (o & Ho & Heo).
  cbn [flatten_body]. unfold deref. rewrite Ho. cbn [mbind outcome_bind Py.bind].
  rewrite Heo, dict_get_rootkv, (dict_get_del cs _ _ Hk), String.eqb_refl.
  reflexivity.
Qed.

Lemma erase_strip_registry reg :
  erase_entries (map (fun kc => (fst kc, stripped (snd kc))) reg)
  = strip_registry (erase_entries reg).
Proof.
  unfold erase_entries, strip_registry. rewrite !map_map. apply map_ext.
  intros [k c]. cbn [fst snd]. now rewrite erase_stripped.
Qed.

(** The loop over the registry, with the trees it leaves. *)
Lemma flatten_registry_tree :
  forall (h : heap) (_models : loc) (reg : list (string * shape)),
    holds h (SNode _models reg) ->
    NoDup (locs (SNode _models reg)) ->
    Forall (fun kc => schema_shape (snd kc)) reg ->
    exists h',
      for_items flatten_body _models ([], h) = Ok (map rootkv (hoist [] reg), h')
      /\ Forall (fun kc => holds h' (snd kc)) (hoist [] reg)
      /\ holds h' (SNode _models (map (fun kc => (fst kc, stripped (snd kc))) reg))
      /\ (forall l, ~ In l (locs (SNode _models reg)) -> h' !! l = h !! l).
Proof.
  intros h m reg Hh Hnd Hschema. rewrite locs_node in Hnd.
  pose proof Hh as Hh0. apply holds_node in Hh as (He & Hk & Hcs).
  apply ents_Some in He as (om & Hm & Hom).
  destruct (flatten_loop m om reg Hk Hnd Hschema Hom reg [] [] h eq_refl Hm Hcs)
    as (h' & Hloop & Hm' & Hstr & Hsame & _).
  assert (Hout : forall l, (exists k c, In (k, c) reg /\ In l (locs c) /\ root c <> VDict l)
                           \/ ~ In l (m :: children_locs reg) -> h' !! l = h !! l).
  { intros l Hl. apply Hsame. intros [k' c'] Hin' Hroot. cbn [snd] in Hroot.
    pose proof (root_in_locs _ _ Hroot) as Hl'.
    destruct Hl as [(k & c & Hin & Hlc & Hne)|Hl].
    - destruct (String.eqb_spec k k') as [<-|Hkk].
      + pose proof (dict_get_In _ _ _ Hk Hin) as H1.
        pose proof (dict_get_In _ _ _ Hk Hin') as H2.
        rewrite H1 in H2. injection H2 as <-. contradiction.
      + apply NoDup_cons in Hnd as [_ Hnd].
        exact (children_disjoint reg k c k' c' l Hnd Hin Hin' Hkk Hlc Hl').
    - apply Hl. right. exact (child_locs_in reg k' c' l Hin' Hl'). }
  exists h'. split; [|split; [|split]].
  - unfold for_items, deref. cbn [snd]. rewrite Hm. cbn [mbind outcome_bind Py.bind].
    unfold dict_keys.
    replace (map fst (entries om)) with (map fst reg)
      by (rewrite Hom; symmetry; apply keys_rootkv).
    exact Hloop.
  - apply Forall_forall. intros [k d] Hin. apply list_elem_of_In in Hin.
    apply hoist_In in Hin as [[]|([k0 c] & Hin0 & Hkd)]. cbn [snd] in *.
    destruct c as [a|s cs]; [destruct Hkd|]. cbn [nested] in Hkd.
    destruct (dict_get cs "definitions") as [[a|n ds]|] eqn:Ed; try destruct Hkd.
    apply dict_get_Some_In in Ed.
    pose proof (holds_child _ _ _ _ _ Hh0 Hin0) as Hc.
    pose proof (holds_child _ _ _ _ _ Hc Ed) as Hn.
    pose proof (holds_child _ _ _ _ _ Hn Hkd) as Hd.
    apply (holds_frame h); [|exact Hd]. intros l Hl. apply Hout. left.
    assert (Hlcs : In l (children_locs cs)).
    { apply (child_locs_in cs "definitions" (SNode n ds) l Ed).
      rewrite locs_node. right. exact (child_locs_in ds k d l Hkd Hl). }
    exists k0, (SNode s cs). split; [exact Hin0|]. split.
    + rewrite locs_node. now right.
    + intros [= <-]. apply NoDup_cons in Hnd as [_ Hnd].
      pose proof (children_nodup reg k0 _ Hnd Hin0) as Hndc.
      rewrite locs_node in Hndc. apply NoDup_cons in Hndc as [Hs _].
      apply Hs. now apply list_elem_of_In.
  - apply holds_node. split; [|split].
    + apply ents_Some. exists om. split; [exact Hm'|]. rewrite Hom.
      rewrite map_map. apply map_ext. intros [k c]. unfold rootkv. cbn [fst snd].
      now rewrite root_stripped.
    + rewrite map_map. exact Hk.
    + apply Forall_forall. intros kc Hin. apply list_elem_of_In in Hin.
      apply in_map_iff in Hin as ([k c] & <- & Hin). cbn [fst snd].
      rewrite Forall_forall in Hstr. apply list_elem_of_In in Hin.
      exact (Hstr _ Hin).
  - intros l Hl. apply Hout. now right.
Qed.

(** X19. Flattening the registry. For a registry whose schemas are
    dictionaries, with dictionaries as their [definitions], and which is a
    tree of the store: the loop over [_models] returns the nested
    definitions of all schemas, where a name defined by several schemas
    keeps the place of its first definition and the value of its last; it
    deletes [definitions] from every registered schema and changes nothing
    else in the store; so a second run of the loop finds no definitions
    and leaves the store as it is. *)
Theorem registry_flattened :
  forall (h : heap) (_models : loc) (reg : list (string * shape)),
    holds h (SNode _models reg) ->
    NoDup (locs (SNode _models reg)) ->
    Forall (fun kc => schema_shape (snd kc)) reg ->
    exists defs h',
      for_items flatten_body _models ([], h) = Ok (map rootkv defs, h')
      /\ NoDup (map fst defs)
      /\ Forall (fun kc => holds h' (snd kc)) defs
      /\ erase_entries defs = hoist_json [] (erase_entries reg)
      /\ denotes h' (VDict _models) (JDict (strip_registry (erase_entries reg)))
      /\ (forall l, ~ In l (locs (SNode _models reg)) -> h' !! l = h !! l)
      /\ for_items flatten_body _models ([], h') = Ok ([], h')
      /\ (forall (acc registry : list (string * json)) (name key : string) (schema : json),
            NoDup (map fst (nested_json schema)) ->
            dict_get (hoist_json acc (registry ++ [(name, schema)])) key
            = match dict_get (nested_json schema) key with
              | Some v => Some v
              | None => dict_get (hoist_json acc registry) key
              end).
Proof.
  intros h m reg Hh Hnd Hschema.
  destruct (flatten_registry_tree h m reg Hh Hnd Hschema)
    as (h' & Hrun & Hhd & Hrs & Hframe).
  exists (hoist [] reg), h'.
  split; [exact Hrun|]. split; [apply hoist_nodup; constructor|]. split; [exact Hhd|].
  split; [apply erase_hoist|]. split; [|split; [exact Hframe|split]].
  - exists (SNode m (map (fun kc => (fst kc, stripped (snd kc))) reg)).
    split; [exact Hrs|]. split; [reflexivity|].
    now rewrite erase_node, erase_strip_registry.
  - apply holds_node in Hrs as (He & _ & Hstr).
    apply ents_Some in He as (om & Hm' & Hom).
    apply (for_items_noop flatten_body m om ([], h') Hm').
    intros k v Hv. rewrite Hom, dict_get_rootkv, (dict_get_map stripped) in Hv.
    destruct (dict_get reg k) as [c|] eqn:Ec; [|discriminate].
    cbn [option_map] in Hv. injection Hv as <-. rewrite root_stripped.
    apply dict_get_Some_In in Ec.
    pose proof (holds_child _ _ _ _ _ Hh Ec) as Hc.
    rewrite Forall_forall in Hstr, Hschema.
    assert (Hs : holds h' (stripped c)).
    { apply (Hstr (k, stripped c)). apply list_elem_of_In.
      apply (in_map (fun kc => (fst kc, stripped (snd kc))) reg (k, c) Ec). }
    apply list_elem_of_In in Ec. pose proof (Hschema _ Ec) as Hsc. cbn [snd] in Hsc.
    destruct c as [a|s cs]; [contradiction|].
    apply holds_node in Hc as (_ & Hkc & _).
    now apply flatten_body_stripped with (cs := cs).
  - intros acc registry name key schema Hkn. unfold hoist_json.
    rewrite fold_left_app. cbn [fold_left snd]. rewrite dict_get_update.
    assert (Hrev : dict_get (rev (nested_json schema)) key
                   = dict_get (nested_json schema) key).
    { destruct (dict_get (nested_json schema) key) as [v|] eqn:Eg.
      - apply dict_get_In.
        + rewrite map_rev. apply NoDup_ListNoDup, List.NoDup_rev, NoDup_ListNoDup.
          exact Hkn.
        + apply in_rev. rewrite rev_involutive. now apply dict_get_Some_In.
      - apply dict_get_None. apply dict_get_None in Eg. intros Hin. apply Eg.
        rewrite map_rev in Hin. now apply in_rev in Hin. }
    now rewrite Hrev.
Qed.

Lemma registry_store_holds :
  holds registry_store (SNode 3%positive registry_schemas)
  /\ NoDup (locs (SNode 3%positive registry_schemas))
  /\ Forall (fun kc => schema_shape (snd kc)) registry_schemas.
Proof.
  assert (Hnd : forall l : list string, bool_decide (NoDup l) = true -> NoDup l).
  { intros l. apply bool_decide_eq_true_1. }
  split; [|split].
  - cbn [holds registry_schemas fold_right].
    repeat split; try (apply Hnd; reflexivity).
  - apply (bool_decide_unpack _). vm_compute. reflexivity.
  - repeat constructor.
Qed.

Lemma registry_flattened_witness :
  exists defs h',
    for_items flatten_body 3%positive ([], registry_store) = Ok (map rootkv defs, h')
    /\ erase_entries defs = [("Owner", JDict [("type", JStr "object")])]
    /\ denotes h' (VDict 3%positive) (JDict [("Pet", JDict [("title", JStr "Pet")])])
    /\ for_items flatten_body 3%positive ([], h') = Ok ([], h').
Proof.
  destruct registry_store_holds as (Hh & Hnd & Hs).
  destruct (registry_flattened registry_store 3%positive registry_schemas Hh Hnd Hs)
    as (defs & h' & Hrun & _ & _ & He & Hden & _ & Hagain & _).
  exists defs, h'. split; [exact Hrun|]. split; [exact He|]. split; [exact Hden|].
  exact Hagain.
Defined.

(** ** Registering a model *)

Lemma holds_preserved h h' s :
  (forall l o, h !! l = Some o -> h' !! l = Some o) -> holds h s -> holds h' s.
Proof.
  intros Hp Hh. apply (holds_frame h); [|exact Hh].
  intros l Hl. destruct (holds_allocated h s l Hh Hl) as [o Ho].
  rewrite Ho. now apply Hp.
Qed.

Lemma children_locs_set reg name s l :
  In l (children_locs (dict_set reg name s)) -> In l (children_locs reg) \/ In l (locs s).
Proof.
  unfold children_locs. intros Hin. apply in_flat_map in Hin as ([k c] & Hin & Hl).
  apply dict_set_In in Hin as [Hin|[= -> ->]]; [|now right].
  left. apply in_flat_map. exists (k, c). auto.
Qed.

Lemma children_locs_set_nodup reg name s :
  NoDup (children_locs reg) -> NoDup (locs s) ->
  (forall l, In l (locs s) -> ~ In l (children_locs reg)) ->
  NoDup (children_locs (dict_set reg name s)).
Proof.
  induction reg as [|[k0 c0] reg IH]; intros Hnd Hs Hfresh.
  - cbn [dict_set]. unfold children_locs. cbn [flat_map]. now rewrite app_nil_r.
  - change (children_locs ((k0, c0) :: reg)) with (locs c0 ++ children_locs reg) in *.
    apply NoDup_app in Hnd as (Hc0 & Hdis & Hreg). cbn [dict_set].
    destruct (String.eqb k0 name).
    + change (children_locs ((k0, s) :: reg)) with (locs s ++ children_locs reg).
      apply NoDup_app. split; [exact Hs|]. split; [|exact Hreg].
      intros l Hl Hl'. apply list_elem_of_In in Hl, Hl'.
      apply (Hfresh l Hl). apply in_app_iff. now right.
    + change (children_locs ((k0, c0) :: dict_set reg name s))
        with (locs c0 ++ children_locs (dict_set reg name s)).
      apply NoDup_app. split; [exact Hc0|]. split.
      * intros l Hl Hl'. apply list_elem_of_In in Hl'.
        apply children_locs_set in Hl' as [Hl'|Hl'].
        -- apply (Hdis l Hl). now apply list_elem_of_In.
        -- apply (Hfresh l Hl'). apply in_app_iff. left. now apply list_elem_of_In.
      * apply IH; [exact Hreg | exact Hs|].
        intros l Hl Hl'. apply (Hfresh l Hl). apply in_app_iff. now right.
Qed.

Lemma children_locs_set_tree reg name t :
  NoDup (map fst reg) -> NoDup (children_locs reg) -> NoDup (locs t) ->
  (forall k c l, In (k, c) reg -> k <> name -> In l (locs c) -> ~ In l (locs t)) ->
  NoDup (children_locs (dict_set reg name t)).
Proof.
  induction reg as [|[k0 c0] reg IH]; intros Hk Hnd Ht Hsep.
  - cbn [dict_set]. unfold children_locs. cbn [flat_map]. now rewrite app_nil_r.
  - change (children_locs ((k0, c0) :: reg)) with (locs c0 ++ children_locs reg) in *.
    cbn [map fst] in Hk. apply NoDup_cons in Hk as [Hk0 Hk].
    apply NoDup_app in Hnd as (Hc0 & Hdis & Hreg). cbn [dict_set].
    destruct (String.eqb_spec k0 name) as [->|Hne].
    + change (children_locs ((name, t) :: reg)) with (locs t ++ children_locs reg).
      apply NoDup_app. split; [exact Ht|]. split; [|exact Hreg].
      intros l Hl Hl'. apply list_elem_of_In in Hl, Hl'.
      unfold children_locs in Hl'. apply in_flat_map in Hl' as ([k c] & Hin & Hlc).
      apply (Hsep k c l); [now right| |exact Hlc|exact Hl].
      intros ->. apply Hk0. apply list_elem_of_In. now apply (in_map fst reg (name, c)).
    + change (children_locs ((k0, c0) :: dict_set reg name t))
        with (locs c0 ++ children_locs (dict_set reg name t)).
      apply NoDup_app. split; [exact Hc0|]. split.
      * intros l Hl Hl'. apply list_elem_of_In in Hl'.
        apply children_locs_set in Hl' as [Hl'|Hl'].
        -- apply (Hdis l Hl). now apply list_elem_of_In.
        -- apply list_elem_of_In in Hl. apply (Hsep k0 c0 l); auto. now left.
      * apply IH; [exact Hk | exact Hreg | exact Ht|].
        intros k c l Hin. apply Hsep. now right.
Qed.

Lemma dict_set_same {V} (d : list (string * V)) k v :
  dict_get d k = Some v -> dict_set d k v = d.
Proof.
  induction d as [|[k0 v0] d IH]; cbn [dict_get dict_set]; [discriminate|].
  destruct (String.eqb k0 k) eqn:E.
  - intros [= ->]. reflexivity.
  - intros H. now rewrite IH.
Qed.

(** The registry entry of a model is set to the dictionary of its schema. *)
Lemma add_model_shape :
  forall (_models : loc) (name : string) (s : loc) (cs : list (string * shape))
         (h : heap) (reg : list (string * shape)),
    holds h (SNode _models reg) ->
    NoDup (locs (SNode _models reg)) ->
    enterable _models h reg name (SNode s cs) ->
    exists h',
      add_model _models name s h = Ok h'
      /\ ents h' _models = Some (dict_set (map rootkv reg) name (VDict s))
      /\ holds h' (SNode _models (dict_set reg name (SNode s cs)))
      /\ NoDup (locs (SNode _models (dict_set reg name (SNode s cs))))
      /\ (forall l, l <> _models -> h' !! l = h !! l).
Proof.
  intros m name s cs h reg Hh Hnd (Ht & Hnt & Hmt & Hsep).
  pose proof Hh as Hh0. apply holds_node in Hh as (Hem & Hk & Hcs).
  apply ents_Some in Hem as (om & Hm & Hom).
  rewrite locs_node in Hnd. apply NoDup_cons in Hnd as [Hmreg Hndreg].
  unfold add_model. rewrite (setitem_ok h m om name (VDict s) Hm).
  eexists. split; [reflexivity|].
  split; [rewrite ents_insert; cbn [entries]; now rewrite Hom|].
  split; [|split].
  - apply holds_node. split; [|split].
    + rewrite ents_insert. cbn [entries]. rewrite Hom, !rootkv_map. f_equal.
      exact (dict_set_map root reg name (SNode s cs)).
    + now apply count_key_set.
    + apply Forall_forall. intros [k c] Hin. apply list_elem_of_In in Hin. cbn [snd].
      apply dict_set_In in Hin as [Hin|[= -> ->]].
      * apply (holds_frame h); [|exact (holds_child _ _ _ _ _ Hh0 Hin)].
        intros l Hl. apply lookup_insert_ne. intros <-. apply Hmreg.
        apply list_elem_of_In. exact (child_locs_in reg k c m Hin Hl).
      * apply (holds_frame h); [|exact Ht].
        intros l Hl. apply lookup_insert_ne. intros <-. contradiction.
  - rewrite locs_node. apply NoDup_cons. split.
    + intros Hin. apply list_elem_of_In in Hin.
      apply children_locs_set in Hin as [Hin|Hin]; [|contradiction].
      apply Hmreg. now apply list_elem_of_In.
    + now apply children_locs_set_tree.
  - intros l Hl. apply lookup_insert_ne. congruence.
Qed.

(** X20. Registering a model. [add_model] makes the dictionary that
    [model.schema()] returns the entry of the registry under the name of
    the model, by reference: the entry is that very object, in place of the
    one registered under that name if there is one and after the others
    otherwise, and nothing else in the store changes, no dictionary being
    built. When the registry is a tree of the store and the schema is a
    tree that holds no object of the registry but those of the entry it
    replaces, the registry is a tree again and reads as before with the
    schema under that name. Registering again a schema under the name it
    has in the registry leaves the store as it is. *)
Theorem add_model_registers :
  forall (_models : loc) (name : string) (s : loc) (cs : list (string * shape))
         (h : heap) (reg : list (string * shape)),
    holds h (SNode _models reg) ->
    NoDup (locs (SNode _models reg)) ->
    enterable _models h reg name (SNode s cs) ->
    exists h' es,
      add_model _models name s h = Ok h'
      /\ ents h' _models = Some es
      /\ es = dict_set (map rootkv reg) name (VDict s)
      /\ dict_get es name = Some (VDict s)
      /\ holds h' (SNode _models (dict_set reg name (SNode s cs)))
      /\ NoDup (locs (SNode _models (dict_set reg name (SNode s cs))))
      /\ denotes h' (VDict _models)
           (JDict (dict_set (erase_entries reg) name (JDict (erase_entries cs))))
      /\ (forall l, l <> _models -> h' !! l = h !! l)
      /\ (dict_get (map rootkv reg) name = Some (VDict s) -> h' = h).
Proof.
  intros m name s cs h reg Hh Hnd Hent.
  destruct (add_model_shape m name s cs h reg Hh Hnd Hent)
    as (h' & Hrun & Hents & Hh' & Hnd' & Hother).
  exists h', (dict_set (map rootkv reg) name (VDict s)).
  split; [exact Hrun|]. split; [exact Hents|]. split; [reflexivity|].
  split; [apply dict_get_set_eq|]. split; [exact Hh'|]. split; [exact Hnd'|].
  split; [|split; [exact Hother|]].
  - exists (SNode m (dict_set reg name (SNode s cs))).
    split; [exact Hh'|]. split; [reflexivity|].
    rewrite erase_node. f_equal. rewrite <- (erase_node s cs).
    symmetry. exact (dict_set_map erase reg name (SNode s cs)).
  - intros Hsame. apply holds_node in Hh as (Hem & _ & _).
    apply ents_Some in Hem as (om & Hm & Hom).
    unfold add_model in Hrun. rewrite (setitem_ok h m om name (VDict s) Hm) in Hrun.
    injection Hrun as <-. rewrite <- Hom in Hsame.
    rewrite (dict_set_same _ _ _ Hsame).
    assert (Hmem : dict_mem (entries om) name = true)
      by (unfold dict_mem; now rewrite Hsame).
    rewrite Hmem. destruct om as [es ver]. now apply insert_id.
Qed.

Lemma add_model_registers_witness :
  (exists h' es,
      add_model 3%positive "PetQuery" 7%positive models_store = Ok h'
      /\ ents h' 3%positive = Some es
      /\ es = [("Pet", VDict 4%positive); ("PetQuery", VDict 7%positive)]
      /\ denotes h' (VDict 3%positive)
           (JDict [("Pet", JDict [("title", JStr "Pet");
                                  ("definitions",
                                   JDict [("Owner", JDict [("type", JStr "object")])])]);
                   ("PetQuery", JDict [("title", JStr "PetQuery")])]))
  /\ add_model 3%positive "Pet" 4%positive models_store = Ok models_store.
Proof.
  assert (Hnd : forall l : list string, bool_decide (NoDup l) = true -> NoDup l).
  { intros l. apply bool_decide_eq_true_1. }
  assert (Hh : holds models_store (SNode 3%positive registry_schemas)).
  { cbn [holds registry_schemas fold_right]. repeat split; try (apply Hnd; reflexivity). }
  assert (Hn : NoDup (locs (SNode 3%positive registry_schemas))).
  { apply (bool_decide_unpack _). vm_compute. reflexivity. }
  split.
  - destruct (add_model_registers 3%positive "PetQuery" 7%positive
                [("title", SLeaf (AStr "PetQuery"))] models_store registry_schemas Hh Hn)
      as (h' & es & Hrun & Hents & Hes & _ & _ & _ & Hden & _).
    { split; [|split; [|split]].
      - cbn [holds fold_right]. repeat split; try (apply Hnd; reflexivity).
      - apply (bool_decide_unpack _). vm_compute. reflexivity.
      - vm_compute. intros [H|[]]. discriminate H.
      - intros k c l Hin _ Hl [H|[]]. subst l.
        destruct Hin as [[= <- <-]|[]]. vm_compute in Hl.
        repeat (destruct Hl as [Hl|Hl]; try discriminate Hl). exact Hl. }
    exists h', es. split; [exact Hrun|]. split; [exact Hents|]. split; [exact Hes|].
    exact Hden.
  - destruct (add_model_registers 3%positive "Pet" 4%positive
                [("title", SLeaf (AStr "Pet"));
                 ("definitions",
                  SNode 5%positive
                    [("Owner", SNode 6%positive [("type", SLeaf (AStr "object"))])])]
                models_store registry_schemas Hh Hn)
      as (h' & es & Hrun & _ & _ & _ & _ & _ & _ & _ & Hsame).
    { split; [|split; [|split]].
      - cbn [holds fold_right]. repeat split; try (apply Hnd; reflexivity).
      - apply (bool_decide_unpack _). vm_compute. reflexivity.
      - vm_compute. intros H. repeat (destruct H as [H|H]; try discriminate H). exact H.
      - intros k c l Hin Hk. destruct Hin as [[= <- <-]|[]]. now contradiction Hk. }
    rewrite Hrun. f_equal. now apply Hsame.
Defined.

(** ** The literals of the document have one entry per key *)

Lemma wf_values_set (d : list (string * json)) k v :
  Forall (fun kv => wf_json (snd kv)) d -> wf_json v ->
  Forall (fun kv => wf_json (snd kv)) (dict_set d k v).
Proof. intros Hd Hv. now apply dict_set_Forall. Qed.

Lemma json_content_wf name : wf_json (JDict [("content", json_content name)]).
Proof.
  unfold json_content, schema_ref.
  repeat (apply wf_json_dict; split; [apply NoDup_singleton|];
          constructor; [|constructor]; cbn [snd]).
  exact I.
Qed.

Lemma declared_responses_wf exceptions acc flag :
  NoDup (map fst acc) -> Forall (fun kv => wf_json (snd kv)) acc ->
  NoDup (map fst (fst (fold_left
                   (fun '(responses, has_2xx) '(code, msg) =>
                      (dict_set responses code (JDict [("description", JStr msg)]),
                       if startswith code "2" then true else has_2xx))
                   exceptions (acc, flag))))
  /\ Forall (fun kv => wf_json (snd kv))
       (fst (fold_left
               (fun '(responses, has_2xx) '(code, msg) =>
                  (dict_set responses code (JDict [("description", JStr msg)]),
                   if startswith code "2" then true else has_2xx))
               exceptions (acc, flag))).
Proof.
  revert acc flag. induction exceptions as [|[c m] rest IH]; intros acc flag Hnd Hwf; simpl.
  - auto.
  - apply IH; [now apply count_key_set|]. apply wf_values_set; [exact Hwf|].
    apply wf_json_dict. split; [apply NoDup_singleton | repeat constructor].
Qed.

Lemma responses_wf func : wf_json (JDict (responses_of func)).
Proof.
  apply wf_json_dict. unfold responses_of.
  assert (Hd : NoDup (map fst (fst (match f_exceptions func with
                                    | Some exceptions => declared_responses exceptions
                                    | None => ([], false)
                                    end)))
               /\ Forall (fun kv => wf_json (snd kv))
                    (fst (match f_exceptions func with
                          | Some exceptions => declared_responses exceptions
                          | None => ([], false)
                          end))).
  { destruct (f_exceptions func) as [ex|]; [|split; constructor].
    apply declared_responses_wf; constructor. }
  destruct (match f_exceptions func with
            | Some exceptions => declared_responses exceptions
            | None => ([], false)
            end) as [responses has_2xx]. cbn [fst] in Hd. destruct Hd as [Hnd Hwf].
  assert (Hdesc : forall msg, wf_json (JDict [("description", JStr msg)])).
  { intros msg. apply wf_json_dict. split; [apply NoDup_singleton | repeat constructor]. }
  assert (H1 : NoDup (map fst
                 (match f_response func with
                  | Some response =>
                      dict_set responses "200"
                        (JDict [("description", JStr "Successful Response");
                                ("content", json_content response)])
                  | None =>
                      if negb has_2xx
                      then dict_set responses "200"
                             (JDict [("description", JStr "Successful Response")])
                      else responses
                  end))
               /\ Forall (fun kv => wf_json (snd kv))
                    (match f_response func with
                     | Some response =>
                         dict_set responses "200"
                           (JDict [("description", JStr "Successful Response");
                                   ("content", json_content response)])
                     | None =>
                         if negb has_2xx
                         then dict_set responses "200"
                                (JDict [("description", JStr "Successful Response")])
                         else responses
                     end)).
  { destruct (f_response func) as [resp|]; [|destruct has_2xx; cbn [negb]].
    - split; [now apply count_key_set|]. apply wf_values_set; [exact Hwf|].
      apply wf_json_dict. split.
      + apply (bool_decide_unpack _). vm_compute. reflexivity.
      + constructor; [exact I|]. constructor; [|constructor]. cbn [snd].
        pose proof (json_content_wf resp) as Hc. apply wf_json_dict in Hc as [_ Hc].
        apply Forall_cons in Hc as [Hc _]. exact Hc.
    - auto.
    - split; [now apply count_key_set|]. now apply wf_values_set. }
  destruct H1 as [Hnd1 Hwf1].
  destruct (is_some (f_query func) || is_some (f_body func)
            || is_some (f_form func) || is_some (f_response func)).
  - split; [now apply count_key_set | now apply wf_values_set].
  - auto.
Qed.

Lemma operation_wf func method parameters :
  wf_json (JDict (operation func method parameters)).
Proof.
  apply wf_json_dict. split; [apply operation_keys_nodup|].
  unfold operation. destruct (get_summary_desc func) as [summary desc].
  match goal with
  | |- context [with_view_func ?f ?m ?s ?p] =>
      pose proof (with_view_func_request f m s p) as H1;
      destruct (with_view_func f m s p) as [spec1 params]
  end.
  cbn [fst] in H1. subst spec1.
  apply wf_values_set; [|apply responses_wf].
  apply wf_values_set; [|exact I].
  destruct (request_schema func method) as [name|].
  - apply wf_values_set; [repeat constructor | apply json_content_wf].
  - repeat constructor.
Qed.

Lemma visit_method_wf func path parameters acc method :
  Forall (fun kv => Forall (fun mv => wf_json (snd mv)) (snd kv)) (fst acc) ->
  Forall (fun kv => Forall (fun mv => wf_json (snd mv)) (snd kv))
    (fst (visit_method func path parameters acc method)).
Proof.
  destruct acc as [routes tags]. rewrite visit_method_eq.
  destruct (skipped method); [auto|]. cbn [fst]. intros Hall.
  apply dict_set_Forall; [exact Hall|]. cbn [snd].
  apply wf_values_set; [|apply operation_wf].
  destruct (dict_get routes path) as [item|] eqn:E; [|constructor].
  apply dict_get_Some_In in E. rewrite Forall_forall in Hall.
  apply list_elem_of_In in E. exact (Hall _ E).
Qed.

Lemma visit_rule_wf pca self acc r acc' :
  visit_rule pca self acc r = Ok acc' ->
  Forall (fun kv => Forall (fun mv => wf_json (snd mv)) (snd kv)) (fst acc) ->
  Forall (fun kv => Forall (fun mv => wf_json (snd mv)) (snd kv)) (fst acc').
Proof.
  unfold visit_rule. destruct (own_route self r); [now intros [= <-]|].
  destruct (dict_get (view_functions (app self)) (r_endpoint r)) as [func|];
    [|discriminate].
  destruct (parse_url pca (r_rule r)) as [[path parameters]| | |];
    cbn [mbind outcome_bind Py.bind]; try discriminate.
  destruct (_bypass self func); [now intros [= <-]|].
  destruct acc as [routes tags]. intros [= <-] Hall. cbn [fst] in Hall.
  set (acc0 := (if dict_mem routes path then routes else dict_set routes path [], tags)).
  assert (H0 : Forall (fun kv => Forall (fun mv => wf_json (snd mv)) (snd kv)) (fst acc0)).
  { subst acc0. cbn [fst]. destruct (dict_mem routes path); [exact Hall|].
    apply dict_set_Forall; [exact Hall | constructor]. }
  clearbody acc0. revert acc0 H0.
  induction (r_methods r) as [|m ms IH]; intros acc0 H0; [exact H0|].
  cbn [fold_left]. apply IH. now apply visit_method_wf.
Qed.

Lemma visit_rules_wf pca self rules :
  forall acc acc',
    visit_rules pca self rules acc = Ok acc' ->
    Forall (fun kv => Forall (fun mv => wf_json (snd mv)) (snd kv)) (fst acc) ->
    Forall (fun kv => Forall (fun mv => wf_json (snd mv)) (snd kv)) (fst acc').
Proof.
  induction rules as [|r rules IH]; intros acc acc'; cbn [visit_rules].
  - now intros [= <-].
  - destruct (visit_rule pca self acc r) as [acc1| | |] eqn:E;
      cbn [mbind outcome_bind Py.bind]; try discriminate.
    intros Hrest Hall. apply (IH acc1 acc' Hrest).
    exact (visit_rule_wf pca self acc r acc1 E Hall).
Qed.

Lemma paths_wf pca self routes tags :
  collect_routes pca self = Ok (routes, tags) -> wf_json (JDict (paths_json routes)).
Proof.
  intros Hrun. unfold collect_routes in Hrun.
  destruct (visit_rules_inv pca self _ _ _ Hrun) as [(Hr & Hitems & _ & _) _].
  { split; [|constructor]. repeat split; constructor. }
  pose proof (visit_rules_wf pca self _ _ _ Hrun (Forall_nil_2 _)) as Hwf.
  cbn [fst snd] in *. apply wf_json_dict. unfold paths_json. split.
  - rewrite map_map. exact Hr.
  - apply Forall_forall. intros kv Hin. apply list_elem_of_In in Hin.
    apply in_map_iff in Hin as ([path item] & <- & Hin). cbn [fst snd].
    apply list_elem_of_In in Hin. rewrite Forall_forall in Hitems, Hwf.
    apply wf_json_dict. split; [exact (Hitems _ Hin) | exact (Hwf _ Hin)].
Qed.

(** ** New dictionaries *)

Lemma new_dict_spec es h :
  exists l, new_dict es h = (l, <[l := {| entries := es; version := 0 |}]> h)
            /\ h !! l = None.
Proof.
  exists (fresh (dom h)). split; [reflexivity|].
  apply not_elem_of_dom. apply is_fresh.
Qed.

Lemma preserved_insert h l o : h !! l = None -> preserved h (<[l := o]> h).
Proof.
  intros Hl l' o' Hl'. rewrite lookup_insert_ne; [exact Hl'|]. congruence.
Qed.

Lemma preserved_trans h1 h2 h3 : preserved h1 h2 -> preserved h2 h3 -> preserved h1 h3.
Proof. intros H12 H23 l o Hl. auto. Qed.

Lemma preserved_refl h : preserved h h.
Proof. intros l o Hl. exact Hl. Qed.

Lemma holds_new h l cs :
  h !! l = None -> NoDup (map fst cs) -> Forall (fun kc => holds h (snd kc)) cs ->
  holds (<[l := {| entries := map rootkv cs; version := 0 |}]> h) (SNode l cs).
Proof.
  intros Hl Hk Hcs. apply holds_node. split; [apply ents_insert|]. split; [exact Hk|].
  eapply Forall_impl; [exact Hcs|]. intros kc Hkc.
  apply (holds_preserved h); [now apply preserved_insert | exact Hkc].
Qed.

(** ** The loops keep the dictionaries of the store *)

Lemma allocated_in_insert h l o o' : h !! l = Some o -> allocated_in h (<[l := o']> h).
Proof.
  intros Hl l' Hl'. destruct (decide (l' = l)) as [->|Hne].
  - rewrite lookup_insert_eq. eauto.
  - now rewrite lookup_insert_ne by congruence.
Qed.

Lemma for_items_from_allocated {A}
    (body : string -> value -> A * heap -> outcome (A * heap)) d size ver ks :
  (forall k v st st', body k v st = Ok st' -> allocated_in (snd st) (snd st')) ->
  forall st st',
    for_items_from body d size ver ks st = Ok st' -> allocated_in (snd st) (snd st').
Proof.
  intros Hbody. induction ks as [|k ks IH]; intros st st'; cbn [for_items_from].
  - destruct (iter_check (snd st) d size ver); cbn [mbind outcome_bind Py.bind];
      try discriminate. intros [= <-] l Hl. exact Hl.
  - destruct (iter_check (snd st) d size ver); cbn [mbind outcome_bind Py.bind];
      try discriminate.
    destruct (deref (snd st) d) as [o| | |]; cbn [mbind outcome_bind Py.bind];
      try discriminate.
    destruct (dict_get (entries o) k) as [v|]; [|discriminate].
    destruct (body k v st) as [st1| | |] eqn:E; cbn [mbind outcome_bind Py.bind];
      try discriminate.
    intros Hrest l Hl. apply (IH st1 st' Hrest). exact (Hbody k v st st1 E l Hl).
Qed.

Lemma for_items_allocated {A}
    (body : string -> value -> A * heap -> outcome (A * heap)) d :
  (forall k v st st', body k v st = Ok st' -> allocated_in (snd st) (snd st')) ->
  forall st st', for_items body d st = Ok st' -> allocated_in (snd st) (snd st').
Proof.
  intros Hbody st st'. unfold for_items.
  destruct (deref (snd st) d) as [o| | |]; cbn [mbind outcome_bind Py.bind];
    try discriminate.
  now apply for_items_from_allocated.
Qed.

Lemma flatten_body_allocated name schema st st' :
  flatten_body name schema st = Ok st' -> allocated_in (snd st) (snd st').
Proof.
  unfold flatten_body. destruct schema as [a|s]; [discriminate|].
  destruct (deref (snd st) s) as [o| | |] eqn:Es; cbn [mbind outcome_bind Py.bind];
    try discriminate.
  destruct (dict_get (entries o) "definitions") as [[a|n]|].
  - discriminate.
  - destruct (for_items _ n st) as [[definitions h1]| | |] eqn:E;
      cbn [mbind outcome_bind Py.bind]; try discriminate.
    apply for_items_allocated in E; [|intros k v st0 st1 [= <-] l Hl; exact Hl].
    cbn [snd] in E. unfold delitem.
    destruct (deref h1 s) as [o1| | |] eqn:Es1; cbn [mbind outcome_bind Py.bind];
      try discriminate.
    intros [= <-] l Hl. cbn [snd]. unfold deref in Es1.
    destruct (h1 !! s) as [o1'|] eqn:E1; [|discriminate].
    apply (allocated_in_insert h1 s o1'); [exact E1 | now apply E].
  - intros [= <-] l Hl. exact Hl.
Qed.

(** ** The assembled document *)

Lemma paths_json_eq (routes : routes_t) :
  map (fun '(path, methods) => (path, JDict methods)) routes = paths_json routes.
Proof. unfold paths_json. apply map_ext. now intros [p m]. Qed.

(** X21. The document of [generate_spec]. When the rule loop returns
    [routes] and [tags], the registry is a tree of the store whose schemas
    are dictionaries, the caller's [info] and [extra_props] are
    dictionaries of the store that share nothing with the registry, and no
    key of [extra_props] is one of [openapi], [info], [tags], [paths],
    [components], [definitions]: [generate_spec] returns a new dictionary
    that reads as those six entries, in this order, followed by the
    entries of [extra_props]. Its [paths] are the routes, its [tags] the
    tag entries, its [components.schemas] the registered schemas without
    their [definitions], and its [definitions] the nested definitions of
    all schemas. Its [info] is the caller's dictionary itself, not a copy.
    The registry is left without the nested definitions, and no other
    dictionary that existed changes. One round of fuel is enough. *)
Theorem generate_spec_document :
  forall (parse_converter_args : tokenizer)
         (_models : loc) (fuel : nat) (self : OpenAPI) (h : heap)
         (routes : routes_t) (tags : tags_t) (reg ics ecs : list (string * shape)),
    collect_routes parse_converter_args self = Ok (routes, tags) ->
    holds h (SNode _models reg) ->
    NoDup (locs (SNode _models reg)) ->
    Forall (fun kc => schema_shape (snd kc)) reg ->
    holds h (SNode (info self) ics) ->
    holds h (SNode (extra_props self) ecs) ->
    (forall l, In l (locs (SNode (info self) ics))
               \/ In l (locs (SNode (extra_props self) ecs)) ->
               ~ In l (locs (SNode _models reg))) ->
    (forall k, In k ["openapi"; "info"; "tags"; "paths"; "components"; "definitions"] ->
               dict_mem ecs k = false) ->
    exists data h' es,
      generate_spec parse_converter_args _models (S fuel) self h = Ok (data, h')
      /\ h !! data = None
      /\ denotes h' (VDict data)
           (JDict (document_json self routes tags (erase_entries ics) (erase_entries reg)
                   ++ erase_entries ecs))
      /\ ents h' data = Some es
      /\ dict_get es "info" = Some (VDict (info self))
      /\ denotes h' (VDict _models) (JDict (strip_registry (erase_entries reg)))
      /\ (forall l o, h !! l = Some o -> ~ In l (locs (SNode _models reg)) ->
                      h' !! l = Some o).
Proof.
  intros pca m fuel self h routes tags reg ics ecs Hroutes Hreg Hnd Hschema Hinfo Hextra
    Hdis Hkeys.
  unfold generate_spec. rewrite Hroutes. cbn [mbind outcome_bind Py.bind].
  destruct (flatten_registry_tree h m reg Hreg Hnd Hschema)
    as (h1 & Hfl & Hhd & Hstripped & Hframe).
  set (defs := hoist [] reg) in *.
  assert (Hkd : NoDup (map fst defs)) by (apply hoist_nodup; constructor).
  assert (Hed : erase_entries defs = hoist_json [] (erase_entries reg))
    by apply erase_hoist.
  assert (Hden : denotes h1 (VDict m) (JDict (strip_registry (erase_entries reg)))).
  { exists (SNode m (map (fun kc => (fst kc, stripped (snd kc))) reg)).
    split; [exact Hstripped|]. split; [reflexivity|].
    now rewrite erase_node, erase_strip_registry. }
  rewrite Hfl. cbn [mbind outcome_bind Py.bind].
  assert (Hal1 : allocated_in h h1).
  { apply for_items_allocated in Hfl; [exact Hfl|].
    intros k v st st'. apply flatten_body_allocated. }
  assert (Hout1 : forall s, holds h s ->
                            (forall l, In l (locs s) -> ~ In l (locs (SNode m reg))) ->
                            holds h1 s).
  { intros s Hs Hl. apply (holds_frame h); [|exact Hs]. intros l Hin. apply Hframe. auto. }
  pose proof (Hout1 _ Hinfo (fun l Hl => Hdis l (or_introl Hl))) as Hinfo1.
  pose proof (Hout1 _ Hextra (fun l Hl => Hdis l (or_intror Hl))) as Hextra1.
  rewrite paths_json_eq.
  destruct (alloc_built (JDict (paths_json routes)) (paths_wf pca self routes tags Hroutes) h1)
    as (ps & h2 & Ha & Hps & Hep & _ & Hfp & Hp12).
  rewrite Ha.
  destruct Hden as (rs & Hrs & Hroot & Hers).
  destruct rs as [a|m' rcs]; [discriminate|]. injection Hroot as ->.
  rewrite erase_node in Hers. injection Hers as Hers.
  pose proof Hrs as Hrs0. apply holds_node in Hrs as (Hem & Hkr & Hcr).
  apply ents_Some in Hem as (om & Hm1 & Hom).
  unfold deref. rewrite (Hp12 m om Hm1). cbn [mbind outcome_bind Py.bind].
  destruct (new_dict_spec (entries om) h2) as (ls & -> & Hls).
  set (h3 := <[ls := {| entries := entries om; version := 0 |}]> h2).
  destruct (new_dict_spec [("schemas", VDict ls)] h3) as (lc & -> & Hlc).
  set (h4 := <[lc := {| entries := [("schemas", VDict ls)]; version := 0 |}]> h3).
  destruct (new_dict_spec (map rootkv defs) h4) as (ld & -> & Hld).
  set (h5 := <[ld := {| entries := map rootkv defs; version := 0 |}]> h4).
  set (six := [("openapi", VAtom (AStr (openapi_version self)));
               ("info", VDict (info self));
               ("tags", VAtom (AList (map snd tags)));
               ("paths", root ps);
               ("components", VDict lc);
               ("definitions", VDict ld)]).
  destruct (new_dict_spec six h5) as (data & -> & Hdata).
  set (h6 := <[data := {| entries := six; version := 0 |}]> h5).
  assert (P23 : preserved h2 h3) by now apply preserved_insert.
  assert (P34 : preserved h3 h4) by now apply preserved_insert.
  assert (P45 : preserved h4 h5) by now apply preserved_insert.
  assert (P56 : preserved h5 h6) by now apply preserved_insert.
  assert (P15 : preserved h1 h5).
  { intros l o Hl. apply P45, P34, P23, Hp12, Hl. }
  pose proof Hextra1 as Hex. apply holds_node in Hex as (Hee & Hke & Hce).
  apply ents_Some in Hee as (oe & Hoe & Heoe).
  destruct (merge_dicts_as_update fuel h6 data (extra_props self)
              {| entries := six; version := 0 |} oe)
    as (h7 & Hrun & Hents & Hother & _).
  { apply lookup_insert_eq. }
  { apply P56, P15, Hoe. }
  { rewrite Heoe. unfold dict_keys. now rewrite keys_rootkv. }
  { intros k Hk. rewrite Heoe, dict_mem_rootkv. apply Hkeys.
    subst six. cbn [entries dict_keys map fst] in Hk. exact Hk. }
  rewrite Hrun. cbn [mbind outcome_bind Py.bind].
  assert (P57 : preserved h5 h7).
  { intros l o Hl. rewrite Hother; [now apply P56|]. intros ->. congruence. }
  assert (P17 : preserved h1 h7) by exact (preserved_trans _ _ _ P15 P57).
  exists data, h7, (six ++ entries oe).
  split; [reflexivity|]. split; [|split; [|split; [exact Hents|split; [reflexivity|split]]]].
  - destruct (h !! data) as [o|] eqn:E; [|reflexivity]. exfalso.
    destruct (Hal1 data) as [o1 Ho1]; [eauto|].
    apply P15 in Ho1. congruence.
  - set (children :=
           [("openapi", SLeaf (AStr (openapi_version self)));
            ("info", SNode (info self) ics);
            ("tags", SLeaf (AList (map snd tags)));
            ("paths", ps);
            ("components", SNode lc [("schemas", SNode ls rcs)]);
            ("definitions", SNode ld defs)]).
    exists (SNode data (children ++ ecs)). split; [|split; [reflexivity|]].
    + apply holds_node. split; [|split].
      * rewrite Hents. cbn [entries]. rewrite map_app, Heoe. reflexivity.
      * rewrite map_app. apply NoDup_app. split; [|split; [|exact Hke]].
        -- apply (bool_decide_unpack _). vm_compute. reflexivity.
        -- intros k Hk Hk'. apply list_elem_of_In in Hk, Hk'.
           apply dict_mem_true in Hk'. rewrite (Hkeys k Hk) in Hk'. discriminate.
        
      * apply Forall_app. split.
        -- subst children.
           apply Forall_cons. split; [exact I|].
           apply Forall_cons. split; [exact (holds_preserved h1 h7 _ P17 Hinfo1)|].
           apply Forall_cons. split; [exact I|].
           apply Forall_cons. split.
           { apply (holds_preserved h2 h7); [|exact Hps].
             intros l o Hl. apply P57, P45, P34, P23, Hl. }
           apply Forall_cons. split.
           { apply (holds_preserved h4 h7); [intros l o Hl; apply P57, P45, Hl|].
             apply (holds_new h3 lc [("schemas", SNode ls rcs)] Hlc);
               [apply NoDup_singleton|].
             apply Forall_cons. split; [|constructor]. cbn [snd]. subst h3. rewrite Hom.
             apply (holds_new h2 ls rcs Hls Hkr).
             eapply Forall_impl; [exact Hcr|]. intros kc Hkc.
             exact (holds_preserved h1 h2 _ Hp12 Hkc). }
           apply Forall_cons. split; [|constructor].
           apply (holds_preserved h5 h7 _ P57). subst h5.
           apply (holds_new h4 ld defs Hld Hkd).
           eapply Forall_impl; [exact Hhd|]. intros kc Hkc.
           apply (holds_preserved h1 h4); [|exact Hkc].
           intros l o Hl. apply P34, P23, Hp12, Hl.
        -- eapply Forall_impl; [exact Hce|]. intros kc Hkc.
           exact (holds_preserved h1 h7 _ P17 Hkc).
    + rewrite erase_node. f_equal.
      assert (Happ : forall a b, erase_entries (a ++ b) = erase_entries a ++ erase_entries b)
        by (intros a b; apply map_app).
      assert (Hcons : forall k c cs,
                 erase_entries ((k, c) :: cs) = (k, erase c) :: erase_entries cs)
        by reflexivity.
      rewrite Happ. f_equal. subst children.
      rewrite !Hcons, !erase_node, !Hcons, !erase_node. cbn [erase json_of_atom].
      unfold document_json. rewrite Hep, Hers, Hed. reflexivity.
  - exists (SNode m rcs). split; [|split; [reflexivity|]].
    + exact (holds_preserved h1 h7 _ P17 Hrs0).
    + rewrite erase_node. now rewrite Hers.
  - intros l o Hl Hnl. apply P17. rewrite Hframe; auto.
Qed.


Lemma generate_spec_document_witness :
  exists (data : loc) (h' : heap) (routes : routes_t) (tags : tags_t),
    generate_spec ArgTokenizer.parse_int_args 3%positive 1 mixed_instance registry_store
    = Ok (data, h')
    /\ registry_store !! data = None
    /\ denotes h' (VDict data)
         (JDict [("openapi", JStr "3.0.2");
                 ("info", JDict [("title", JStr "Service Documents");
                                 ("version", JStr "latest")]);
                 ("tags", JList (map snd tags));
                 ("paths", JDict (paths_json routes));
                 ("components",
                  JDict [("schemas", JDict [("Pet", JDict [("title", JStr "Pet")])])]);
                 ("definitions", JDict [("Owner", JDict [("type", JStr "object")])])]).
Proof.
  assert (Hnd : forall l : list string, bool_decide (NoDup l) = true -> NoDup l).
  { intros l. apply bool_decide_eq_true_1. }
  destruct registry_store_holds as (Hh & Hn & Hs).
  destruct (collect_routes ArgTokenizer.parse_int_args mixed_instance)
    as [[routes tags]| | |] eqn:E; try (vm_compute in E; discriminate E).
  destruct (generate_spec_document ArgTokenizer.parse_int_args 3%positive 0
              mixed_instance registry_store routes tags registry_schemas
              [("title", SLeaf (AStr "Service Documents"));
               ("version", SLeaf (AStr "latest"))] [] E Hh Hn Hs)
    as (data & h' & es & Hrun & Hfresh & Hden & _).
  - cbn [holds fold_right]. repeat split; try (apply Hnd; reflexivity).
  - cbn [holds fold_right]. repeat split; try (apply Hnd; reflexivity).
  - intros l Hl Hl'. vm_compute in Hl, Hl'.
    destruct Hl as [[<-|[]]|[<-|[]]]; repeat (destruct Hl' as [Hl'|Hl']; try discriminate Hl');
      exact Hl'.
  - reflexivity.
  - exists data, h', routes, tags. split; [exact Hrun|]. split; [exact Hfresh|].
    rewrite app_nil_r in Hden. exact Hden.
Defined.

(** ** The decorator *)

Lemma str_inj (a b : Z) : str a = str b -> a = b.
Proof.
  unfold str. intros H.
  assert (Hn : forall z, Z.to_int z <> Decimal.Pos Decimal.Nil
                         /\ Z.to_int z <> Decimal.Neg Decimal.Nil).
  { intros [|p|p]; split; try discriminate; intros [= Hp];
      exact (DecimalPos.Unsigned.to_uint_nonnil p Hp). }
  apply DecimalZ.to_int_inj.
  destruct (Hn a) as [Ha1 Ha2], (Hn b) as [Hb1 Hb2].
  pose proof (NilZero.isi _ Ha1 Ha2) as Ia. pose proof (NilZero.isi _ Hb1 Hb2) as Ib.
  rewrite H in Ia. rewrite Ia in Ib. now injection Ib.
Qed.

Lemma register_cases m model set st st' :
  register m model set st = Returned st' ->
  (truth model = false /\ st' = st)
  \/ (exists name schema,
        model = Some (BaseModelClass name schema)
        /\ add_model m name schema (snd st) = Ok (snd st')
        /\ fst st' = set name (fst st)).
Proof.
  unfold register. destruct (truth model) eqn:Et.
  - destruct model as [[name schema|name|b]|]; try discriminate.
    destruct (add_model m name schema (snd st)) as [h'| | |] eqn:Ea; try discriminate.
    intros [= <-]. right. exists name, schema. auto.
  - intros [= <-]. now left.
Qed.

Lemma register_declared m model set st st' (get : handler -> option string) :
  (forall v w, get (set v w) = Some v) ->
  register m model set st = Returned st' ->
  get (fst st') = declared model (get (fst st))
  /\ (truth model = true -> exists name schema, model = Some (BaseModelClass name schema)).
Proof.
  intros Hset H. apply register_cases in H as [[Ht ->]|(name & schema & -> & _ & ->)].
  - split; [|congruence]. destruct model as [[| |[]]|]; try discriminate; reflexivity.
  - split; [apply Hset | eauto].
Qed.

Lemma register_other m model set st st' {A} (get : handler -> A) :
  (forall v w, get (set v w) = get w) ->
  register m model set st = Returned st' -> get (fst st') = get (fst st).
Proof.
  intros Hset H. apply register_cases in H as [[Ht ->]|(name & schema & -> & _ & ->)];
    [reflexivity | apply Hset].
Qed.

Lemma api_errs_ok exceptions :
  forall acc errs,
    api_errs exceptions acc = Returned errs ->
    Forall (fun e => e <> NotAPIError) exceptions
    /\ errs = fold_left (fun acc e => match e with
                                      | APIError code msg => dict_set acc (str code) msg
                                      | NotAPIError => acc
                                      end) exceptions acc.
Proof.
  induction exceptions as [|[code msg|] rest IH]; intros acc errs; cbn [api_errs fold_left].
  - intros [= <-]. split; [constructor | reflexivity].
  - intros H. destruct (IH _ _ H) as [Hall ->]. split; [|reflexivity].
    constructor; [discriminate | exact Hall].
  - discriminate.
Qed.

(** X22. The wrapper of [openapi_docs]. When the decorator returns, the
    wrapper has the name, the documentation text and the view class of the
    function and is marked with the class [OpenAPI]: an instance of that
    class bypasses it in no mode, and an instance of another class, such
    as a subclass, bypasses it in every mode but [greedy]. Its [tags] are
    the tags given, or those of the function when none is given. For each
    of query, body, form and response, the model is the annotation of the
    function, or its underscore attribute when the annotation is missing
    or false; a model that is given is a subclass of [BaseModel] and the
    wrapper has its name as attribute, and otherwise the wrapper keeps the
    attribute of the function. Every element of [exceptions] is an
    [APIError]. *)
Theorem openapi_docs_wrapper :
  forall (_models : loc) (response : option pymodel) (exceptions : list pyerror)
         (tags : list string) (func : pyfunc) (h : heap) (w : pyfunc) (h' : heap),
    openapi_docs _models response exceptions tags func h = Returned (w, h') ->
    let query := or_ (dict_get (fn_annotations func) "query") (fn__query func) in
    let body := or_ (dict_get (fn_annotations func) "body") (fn__body func) in
    let form := or_ (dict_get (fn_annotations func) "form") (fn__form func) in
    f_openapi (fn_handler w) = Some (PClass "OpenAPI")
    /\ f_name (fn_handler w) = f_name (fn_handler func)
    /\ f_doc (fn_handler w) = f_doc (fn_handler func)
    /\ f_view_class (fn_handler w) = f_view_class (fn_handler func)
    /\ f_tags (fn_handler w)
       = match tags with [] => f_tags (fn_handler func) | _ => Some tags end
    /\ f_query (fn_handler w) = declared query (f_query (fn_handler func))
    /\ f_body (fn_handler w) = declared body (f_body (fn_handler func))
    /\ f_form (fn_handler w) = declared form (f_form (fn_handler func))
    /\ f_response (fn_handler w) = declared response (f_response (fn_handler func))
    /\ Forall (fun model => truth model = true ->
                 exists name schema, model = Some (BaseModelClass name schema))
         [query; body; form; response]
    /\ Forall (fun e => e <> NotAPIError) exceptions
    /\ (forall self, cls self = "OpenAPI" -> _bypass self (fn_handler w) = false)
    /\ (forall self, cls self <> "OpenAPI" -> mode self <> "greedy" ->
                     _bypass self (fn_handler w) = true).
Proof.
  intros m response exceptions tags func h w h' H query body form.
  unfold openapi_docs in H. fold query body form in H.
  then_cases H. injection H as <- <-. cbn [fn_handler].
  pose proof (api_errs_ok _ _ _ E3) as [Herrs _].
  pose proof (register_declared _ _ set_query _ _ f_query (fun _ _ => eq_refl) E) as [Hq Hq'].
  pose proof (register_declared _ _ set_body _ _ f_body (fun _ _ => eq_refl) E0) as [Hb Hb'].
  pose proof (register_declared _ _ set_form _ _ f_form (fun _ _ => eq_refl) E1) as [Hf Hf'].
  pose proof (register_declared _ _ set_response _ _ f_response (fun _ _ => eq_refl) E2) as [Hr Hr'].
  assert (Hfield : forall {A} (get : handler -> A),
             (forall v w, get (set_query v w) = get w) ->
             (forall v w, get (set_body v w) = get w) ->
             (forall v w, get (set_form v w) = get w) ->
             (forall v w, get (set_response v w) = get w) ->
             get (fst st2) = get (fn_handler func)).
  { intros A get G1 G2 G3 G4.
    rewrite (register_other _ _ _ _ _ get G4 E2), (register_other _ _ _ _ _ get G3 E1),
      (register_other _ _ _ _ _ get G2 E0), (register_other _ _ _ _ _ get G1 E).
    reflexivity. }
  assert (Hmarker : f_openapi
            (set_openapi (PClass "OpenAPI")
               match tags with
               | [] => match st3 with
                       | [] => fst st2
                       | _ :: _ => set_exceptions st3 (fst st2)
                       end
               | _ :: _ => set_tags tags match st3 with
                                         | [] => fst st2
                                         | _ :: _ => set_exceptions st3 (fst st2)
                                         end
               end) = Some (PClass "OpenAPI")) by reflexivity.
  split; [exact Hmarker|].
  split; [destruct tags, st3; cbn; apply (Hfield _ f_name); reflexivity|].
  split; [destruct tags, st3; cbn; apply (Hfield _ f_doc); reflexivity|].
  split; [destruct tags, st3; cbn; apply (Hfield _ f_view_class); reflexivity|].
  split; [destruct tags, st3; cbn; try reflexivity; apply (Hfield _ f_tags); reflexivity|].
  split.
  { destruct tags, st3; cbn [set_openapi set_tags set_exceptions f_query];
      rewrite (register_other _ _ set_response _ _ f_query (fun _ _ => eq_refl) E2),
        (register_other _ _ set_form _ _ f_query (fun _ _ => eq_refl) E1),
        (register_other _ _ set_body _ _ f_query (fun _ _ => eq_refl) E0); exact Hq. }
  split.
  { destruct tags, st3; cbn [set_openapi set_tags set_exceptions f_body];
      rewrite (register_other _ _ set_response _ _ f_body (fun _ _ => eq_refl) E2),
        (register_other _ _ set_form _ _ f_body (fun _ _ => eq_refl) E1), Hb;
      now rewrite (register_other _ _ set_query _ _ f_body (fun _ _ => eq_refl) E). }
  split.
  { destruct tags, st3; cbn [set_openapi set_tags set_exceptions f_form];
      rewrite (register_other _ _ set_response _ _ f_form (fun _ _ => eq_refl) E2), Hf,
        (register_other _ _ set_body _ _ f_form (fun _ _ => eq_refl) E0);
      now rewrite (register_other _ _ set_query _ _ f_form (fun _ _ => eq_refl) E). }
  split.
  { destruct tags, st3; cbn [set_openapi set_tags set_exceptions f_response];
      rewrite Hr, (register_other _ _ set_form _ _ f_response (fun _ _ => eq_refl) E1),
        (register_other _ _ set_body _ _ f_response (fun _ _ => eq_refl) E0);
      now rewrite (register_other _ _ set_query _ _ f_response (fun _ _ => eq_refl) E). }
  split; [repeat constructor; assumption|].
  split; [exact Herrs|].
  split.
  - intros self Hcls. unfold _bypass. rewrite Hmarker, Hcls. cbn [default truthy].
    destruct (String.eqb (mode self) "greedy"); [reflexivity|].
    destruct (String.eqb (mode self) "strict").
    + destruct (decide (PClass "OpenAPI" = PClass "OpenAPI")) as [|Hne];
        [reflexivity | now contradiction Hne].
    + destruct (bool_decide_reflect (PClass "OpenAPI" = PClass "OpenAPI")) as [|Hne];
        [reflexivity | now contradiction Hne].
  - intros self Hcls Hmode. unfold _bypass. rewrite Hmarker. cbn [default truthy].
    apply String.eqb_neq in Hmode. rewrite Hmode.
    destruct (String.eqb (mode self) "strict").
    + match goal with
      | |- context [decide ?P] => destruct (decide P) as [Heq|]
      end; [|reflexivity].
      cbv [id] in Heq. congruence.
    + match goal with
      | |- context [bool_decide ?P] => destruct (bool_decide_reflect P) as [Heq|]
      end; [|reflexivity].
      cbv [id] in Heq. congruence.
Qed.

Lemma openapi_docs_wrapper_witness :
  exists w h',
    openapi_docs 3%positive (Some pet_model) [APIError 404 "Not found"] ["pets"]
      list_pets models_store = Returned (w, h')
    /\ f_openapi (fn_handler w) = Some (PClass "OpenAPI")
    /\ f_query (fn_handler w) = Some "PetQuery"
    /\ f_response (fn_handler w) = Some "Pet"
    /\ _bypass mixed_instance (fn_handler w) = false.
Proof.
  destruct (openapi_docs 3%positive (Some pet_model) [APIError 404 "Not found"] ["pets"]
              list_pets models_store) as [[w h']|f] eqn:E;
    [|vm_compute in E; discriminate E].
  exists w, h'. split; [reflexivity|].
  destruct (openapi_docs_wrapper _ _ _ _ _ _ _ _ E)
    as (Hm & _ & _ & _ & _ & Hq & _ & _ & Hr & _ & _ & Hb & _).
  split; [exact Hm|]. split; [exact Hq|]. split; [exact Hr|]. now apply Hb.
Defined.

Lemma map_rootkv_enter tree model reg :
  map rootkv (enter_tree tree model reg) = enter_value model (map rootkv reg).
Proof.
  destruct model as [[name s| |]|]; try reflexivity.
  cbn [enter_tree enter_value]. rewrite !rootkv_map. symmetry.
  exact (dict_set_map root reg name (schema_tree tree s)).
Qed.

Lemma erase_entries_enter tree model reg :
  erase_entries (enter_tree tree model reg) = enter tree model (erase_entries reg).
Proof.
  destruct model as [[name s| |]|]; try reflexivity.
  cbn [enter_tree enter]. symmetry.
  exact (dict_set_map erase reg name (schema_tree tree s)).
Qed.

(** A schema that can be entered can still be entered once another one
    has been, under the same name or sharing no object with it. *)
Lemma enterable_step m h h' reg name t name2 t2 :
  (forall l, l <> m -> h' !! l = h !! l) ->
  enterable m h reg name2 t2 ->
  (name <> name2 -> forall l, In l (locs t) -> ~ In l (locs t2)) ->
  enterable m h' (dict_set reg name t) name2 t2.
Proof.
  intros Hother (Ht & Hn & Hm & Hsep) Hdis.
  split; [|split; [exact Hn|split; [exact Hm|]]].
  - apply (holds_frame h); [|exact Ht]. intros l Hl. apply Hother.
    intros ->. contradiction.
  - intros k c l Hin Hk Hl. apply dict_set_In in Hin as [Hin|[= -> ->]].
    + now apply (Hsep k c l).
    + now apply (Hdis Hk l).
Qed.

Lemma register_shape m tree model set w h reg :
  model_ok m h reg tree model ->
  holds h (SNode m reg) -> NoDup (locs (SNode m reg)) ->
  exists h',
    register m model set (w, h)
    = Returned (match model with
                | Some (BaseModelClass name _) => set name w
                | _ => w
                end, h')
    /\ holds h' (SNode m (enter_tree tree model reg))
    /\ NoDup (locs (SNode m (enter_tree tree model reg)))
    /\ (forall l, l <> m -> h' !! l = h !! l)
    /\ (forall model2,
          model_ok m h reg tree model2 ->
          separate_models tree [model; model2] ->
          model_ok m h' (enter_tree tree model reg) tree model2).
Proof.
  intros Hok Hh Hnd. unfold register. destruct (truth model) eqn:Et.
  - destruct (Hok Et) as (name & s & -> & Hent). cbn [snd fst].
    destruct (add_model_shape m name s (tree s) h reg Hh Hnd Hent)
      as (h' & Hrun & _ & Hh' & Hnd' & Hother).
    rewrite Hrun. exists h'.
    split; [reflexivity|]. split; [exact Hh'|]. split; [exact Hnd'|].
    split; [exact Hother|].
    intros model2 Hok2 Hsep Ht2. destruct (Hok2 Ht2) as (name2 & s2 & -> & Hent2).
    exists name2, s2. split; [reflexivity|]. cbn [enter_tree].
    apply (enterable_step m h h' reg name (schema_tree tree s) name2 _ Hother Hent2).
    intros Hne l. apply (Hsep name s name2 s2 l); cbn [In]; auto.
  - exists h. split.
    + destruct model as [[| |[]]|]; try discriminate; reflexivity.
    + assert (He : enter_tree tree model reg = reg)
        by (destruct model as [[| |[]]|]; try discriminate; reflexivity).
      rewrite He. split; [exact Hh|]. split; [exact Hnd|]. split; [reflexivity|auto].
Qed.

Lemma api_errs_returns exceptions :
  Forall (fun e => e <> NotAPIError) exceptions ->
  forall acc, exists errs, api_errs exceptions acc = Returned errs.
Proof.
  induction 1 as [|[code msg|] rest He Hrest IH]; intros acc; cbn [api_errs].
  - eauto.
  - apply IH.
  - contradiction.
Qed.

Lemma map_rootkv_enter_all tree models :
  forall reg,
    map rootkv (fold_left (fun r model => enter_tree tree model r) models reg)
    = fold_left (fun es model => enter_value model es) models (map rootkv reg).
Proof.
  induction models as [|model models IH]; intros reg; [reflexivity|].
  cbn [fold_left]. now rewrite IH, map_rootkv_enter.
Qed.

Lemma erase_entries_enter_all tree models :
  forall reg,
    erase_entries (fold_left (fun r model => enter_tree tree model r) models reg)
    = fold_left (fun registry model => enter tree model registry) models
        (erase_entries reg).
Proof.
  induction models as [|model models IH]; intros reg; [reflexivity|].
  cbn [fold_left]. now rewrite IH, erase_entries_enter.
Qed.

(** The four registrations of the decorator, on the registry as a tree. *)
Lemma openapi_docs_runs :
  forall (_models : loc) (response : option pymodel) (exceptions : list pyerror)
         (tags : list string) (func : pyfunc) (h : heap) (reg : list (string * shape))
         (tree : schema_trees),
    Forall (model_ok _models h reg tree) (models_of response func) ->
    separate_models tree (models_of response func) ->
    Forall (fun e => e <> NotAPIError) exceptions ->
    holds h (SNode _models reg) ->
    NoDup (locs (SNode _models reg)) ->
    exists w h',
      openapi_docs _models response exceptions tags func h = Returned (w, h')
      /\ holds h' (SNode _models
                     (fold_left (fun r model => enter_tree tree model r)
                        (models_of response func) reg))
      /\ NoDup (locs (SNode _models
                        (fold_left (fun r model => enter_tree tree model r)
                           (models_of response func) reg)))
      /\ (forall l, l <> _models -> h' !! l = h !! l).
Proof.
  intros m response exceptions tags func h reg tree Hmodels Hsep Herrs Hh Hnd.
  unfold models_of in *.
  set (query := or_ (dict_get (fn_annotations func) "query") (fn__query func)) in *.
  set (body := or_ (dict_get (fn_annotations func) "body") (fn__body func)) in *.
  set (form := or_ (dict_get (fn_annotations func) "form") (fn__form func)) in *.
  assert (Hpair : forall a b, In a [query; body; form; response] ->
                              In b [query; body; form; response] ->
                              separate_models tree [a; b]).
  { intros a b Ha Hb name1 s1 name2 s2 l H1 H2. apply Hsep.
    - destruct H1 as [<-|[<-|[]]]; assumption.
    - destruct H2 as [<-|[<-|[]]]; assumption. }
  apply Forall_cons in Hmodels as [Hq Hmodels]. apply Forall_cons in Hmodels as [Hb Hmodels].
  apply Forall_cons in Hmodels as [Hf Hmodels]. apply Forall_cons in Hmodels as [Hr _].
  unfold openapi_docs. fold query body form.
  destruct (register_shape m tree query set_query (fn_handler func) h reg Hq Hh Hnd)
    as (h1 & -> & Hh1 & Hnd1 & Hp1 & Hok1). cbn [then_].
  set (reg1 := enter_tree tree query reg) in *.
  match goal with
  | |- context [register m body set_body (?w, h1)] =>
      destruct (register_shape m tree body set_body w h1 reg1)
        as (h2 & -> & Hh2 & Hnd2 & Hp2 & Hok2);
        [apply Hok1; [exact Hb | apply Hpair; cbn [In]; auto] | exact Hh1 | exact Hnd1 |]
  end. cbn [then_].
  set (reg2 := enter_tree tree body reg1) in *.
  match goal with
  | |- context [register m form set_form (?w, h2)] =>
      destruct (register_shape m tree form set_form w h2 reg2)
        as (h3 & -> & Hh3 & Hnd3 & Hp3 & Hok3);
        [apply Hok2; [apply Hok1; [exact Hf | apply Hpair; cbn [In]; auto]
                     | apply Hpair; cbn [In]; auto] | exact Hh2 | exact Hnd2 |]
  end. cbn [then_].
  set (reg3 := enter_tree tree form reg2) in *.
  match goal with
  | |- context [register m response set_response (?w, h3)] =>
      destruct (register_shape m tree response set_response w h3 reg3)
        as (h4 & -> & Hh4 & Hnd4 & Hp4 & _);
        [apply Hok3; [apply Hok2; [apply Hok1; [exact Hr | apply Hpair; cbn [In]; auto]
                                  | apply Hpair; cbn [In]; auto]
                     | apply Hpair; cbn [In]; auto] | exact Hh3 | exact Hnd3 |]
  end. cbn [then_].
  destruct (api_errs_returns exceptions Herrs []) as (errs & ->). cbn [then_ snd].
  eexists _, h4. split; [reflexivity|]. cbn [fold_left].
  split; [exact Hh4|]. split; [exact Hnd4|].
  intros l Hl. rewrite (Hp4 l Hl), (Hp3 l Hl), (Hp2 l Hl). now apply Hp1.
Qed.

(** X23. The decorator returns and registers. For a registry that is a
    tree of the store, models that are subclasses of [BaseModel] when they
    are given, whose schema dictionaries are trees of the store that hold
    no object of the registry but those of the entry under the name of the
    model, and share no object when the names of the models differ, and
    exceptions that are all [APIError]s: [openapi_docs] returns; the
    registry then has the schema dictionary of each given model as its
    entry under the name of the model, by reference, in the order query,
    body, form, response, a later model replacing an earlier one of the
    same name; it reads as before with those schemas entered; it is a tree
    again, whose schemas are dictionaries with dictionaries as
    [definitions] when that held before and holds of the schemas of the
    models; and nothing else in the store changes. *)
Theorem openapi_docs_registers :
  forall (_models : loc) (response : option pymodel) (exceptions : list pyerror)
         (tags : list string) (func : pyfunc) (h : heap) (reg : list (string * shape))
         (tree : schema_trees),
    Forall (model_ok _models h reg tree) (models_of response func) ->
    separate_models tree (models_of response func) ->
    Forall (fun e => e <> NotAPIError) exceptions ->
    holds h (SNode _models reg) ->
    NoDup (locs (SNode _models reg)) ->
    exists w h' reg',
      openapi_docs _models response exceptions tags func h = Returned (w, h')
      /\ holds h' (SNode _models reg')
      /\ NoDup (locs (SNode _models reg'))
      /\ ents h' _models
         = Some (fold_left (fun es model => enter_value model es)
                   (models_of response func) (map rootkv reg))
      /\ erase_entries reg'
         = fold_left (fun registry model => enter tree model registry)
             (models_of response func) (erase_entries reg)
      /\ denotes h' (VDict _models)
           (JDict (fold_left (fun registry model => enter tree model registry)
                     (models_of response func) (erase_entries reg)))
      /\ (forall l, l <> _models -> h' !! l = h !! l)
      /\ (Forall (fun kc => schema_shape (snd kc)) reg ->
          (forall name s,
              In (Some (BaseModelClass name s)) (models_of response func) ->
              schema_shape (schema_tree tree s)) ->
          Forall (fun kc => schema_shape (snd kc)) reg').
Proof.
  intros m response exceptions tags func h reg tree Hmodels Hsep Herrs Hh Hnd.
  destruct (openapi_docs_runs m response exceptions tags func h reg tree
              Hmodels Hsep Herrs Hh Hnd) as (w & h' & Hrun & Hh' & Hnd' & Hother).
  exists w, h', (fold_left (fun r model => enter_tree tree model r)
                   (models_of response func) reg).
  split; [exact Hrun|]. split; [exact Hh'|]. split; [exact Hnd'|].
  split; [|split; [apply erase_entries_enter_all|split; [|split; [exact Hother|]]]].
  - pose proof Hh' as He. apply holds_node in He as (He & _ & _). rewrite He. f_equal.
    apply map_rootkv_enter_all.
  - exists (SNode m (fold_left (fun r model => enter_tree tree model r)
                       (models_of response func) reg)).
    split; [exact Hh'|]. split; [reflexivity|].
    rewrite erase_node. now rewrite erase_entries_enter_all.
  - intros Hall Hshape. revert Hall Hshape. clear.
    generalize (models_of response func). intros models. revert reg.
    induction models as [|model models IH]; intros reg Hall Hshape; [exact Hall|].
    cbn [fold_left]. apply IH.
    + destruct model as [[name s| |]|]; try exact Hall.
      cbn [enter_tree]. apply dict_set_Forall; [exact Hall|]. cbn [snd].
      apply (Hshape name s). now left.
    + intros name s Hin. apply (Hshape name s). now right.
Qed.

Lemma models_store_ok :
  holds models_store (SNode 3%positive registry_schemas)
  /\ NoDup (locs (SNode 3%positive registry_schemas))
  /\ Forall (model_ok 3%positive models_store registry_schemas models_trees)
       (models_of (Some pet_model) list_pets)
  /\ separate_models models_trees (models_of (Some pet_model) list_pets).
Proof.
  assert (Hnd : forall l : list string, bool_decide (NoDup l) = true -> NoDup l).
  { intros l. apply bool_decide_eq_true_1. }
  split; [|split; [|split]].
  - cbn [holds registry_schemas fold_right]. repeat split; try (apply Hnd; reflexivity).
  - apply (bool_decide_unpack _). vm_compute. reflexivity.
  - repeat constructor; intros Ht; try discriminate Ht.
    + exists "PetQuery", 7%positive. split; [reflexivity|].
      split; [|split; [|split]].
      * cbn. repeat split; try (apply Hnd; reflexivity).
      * apply (bool_decide_unpack _). vm_compute. reflexivity.
      * vm_compute. intros [H|[]]. discriminate H.
      * intros k c l Hin _ Hl [H|[]]. subst l.
        destruct Hin as [[= <- <-]|[]]. vm_compute in Hl.
        repeat (destruct Hl as [Hl|Hl]; try discriminate Hl). exact Hl.
    + exists "Pet", 4%positive. split; [reflexivity|].
      split; [|split; [|split]].
      * cbn. repeat split; try (apply Hnd; reflexivity).
      * apply (bool_decide_unpack _). vm_compute. reflexivity.
      * vm_compute. intros H. repeat (destruct H as [H|H]; try discriminate H). exact H.
      * intros k c l Hin Hk. destruct Hin as [[= <- <-]|[]]. now contradiction Hk.
  - intros name1 s1 name2 s2 l H1 H2 Hne Hl1 Hl2.
    vm_compute in H1, H2.
    destruct H1 as [[= <- <-]|[H1|[H1|[[= <- <-]|[]]]]]; try discriminate H1;
      destruct H2 as [[= <- <-]|[H2|[H2|[[= <- <-]|[]]]]]; try discriminate H2;
      try (now contradiction Hne);
      vm_compute in Hl1, Hl2;
      repeat (destruct Hl1 as [Hl1|Hl1]; try (exact Hl1));
      subst l; repeat (destruct Hl2 as [Hl2|Hl2]; try discriminate Hl2); exact Hl2.
Qed.

Lemma openapi_docs_registers_witness :
  exists w h',
    openapi_docs 3%positive (Some pet_model) [APIError 404 "Not found"] ["pets"]
      list_pets models_store = Returned (w, h')
    /\ ents h' 3%positive = Some [("Pet", VDict 4%positive); ("PetQuery", VDict 7%positive)]
    /\ denotes h' (VDict 3%positive)
         (JDict [("Pet", JDict [("title", JStr "Pet");
                                ("definitions",
                                 JDict [("Owner", JDict [("type", JStr "object")])])]);
                 ("PetQuery", JDict [("title", JStr "PetQuery")])]).
Proof.
  destruct models_store_ok as (Hh & Hnd & Hok & Hsep).
  destruct (openapi_docs_registers 3%positive (Some pet_model) [APIError 404 "Not found"]
              ["pets"] list_pets models_store registry_schemas models_trees Hok Hsep)
    as (w & h' & reg' & Hrun & _ & _ & Hents & _ & Hden & _).
  - repeat constructor. discriminate.
  - exact Hh.
  - exact Hnd.
  - exists w, h'. split; [exact Hrun|]. split; [exact Hents | exact Hden].
Defined.

Lemma errs_fold_nonempty exceptions :
  forall acc,
    acc <> [] ->
    fold_left (fun acc e => match e with
                            | APIError code msg => dict_set acc (str code) msg
                            | NotAPIError => acc
                            end) exceptions acc <> [].
Proof.
  induction exceptions as [|[code msg|] rest IH]; intros acc Hacc; cbn [fold_left]; auto.
  apply IH. destruct acc as [|[k v] acc]; [contradiction|]. simpl.
  destruct (String.eqb k (str code)); discriminate.
Qed.

Lemma errs_fold_nodup exceptions :
  forall acc,
    NoDup (map fst acc) ->
    NoDup (map fst (fold_left (fun acc e => match e with
                                            | APIError code msg => dict_set acc (str code) msg
                                            | NotAPIError => acc
                                            end) exceptions acc)).
Proof.
  induction exceptions as [|[code msg|] rest IH]; intros acc Hacc; cbn [fold_left]; auto.
  apply IH. now apply count_key_set.
Qed.

Lemma errs_fold_In exceptions :
  forall acc key msg,
    In (key, msg) (fold_left (fun acc e => match e with
                                           | APIError code msg => dict_set acc (str code) msg
                                           | NotAPIError => acc
                                           end) exceptions acc) ->
    In (key, msg) acc \/ exists code, key = str code /\ In (APIError code msg) exceptions.
Proof.
  induction exceptions as [|[code msg0|] rest IH]; intros acc key msg; cbn [fold_left].
  - auto.
  - intros H. destruct (IH _ _ _ H) as [H1|(c & -> & Hin)].
    + apply dict_set_In in H1 as [H1|[= -> ->]]; [auto|].
      right. exists code. split; [reflexivity | now left].
    + right. exists c. split; [reflexivity | now right].
  - intros H. destruct (IH _ _ _ H) as [H1|(c & -> & Hin)]; [auto|].
    right. exists c. split; [reflexivity | now right].
Qed.

Lemma errs_fold_get exceptions :
  forall acc key,
    (forall code msg, In (APIError code msg) exceptions -> str code <> key) ->
    dict_get (fold_left (fun acc e => match e with
                                      | APIError code msg => dict_set acc (str code) msg
                                      | NotAPIError => acc
                                      end) exceptions acc) key
    = dict_get acc key.
Proof.
  induction exceptions as [|[code msg0|] rest IH]; intros acc key Hno; cbn [fold_left].
  - reflexivity.
  - rewrite IH by (intros c m Hin; apply (Hno c m); now right).
    apply dict_get_set_ne. apply (Hno code msg0). now left.
  - apply IH. intros c m Hin. apply (Hno c m). now right.
Qed.

(** X24. The declared exceptions. When the decorator returns and
    [exceptions] is empty, the wrapper keeps the [exceptions] of the
    function. Otherwise its [exceptions] map the decimal writing of the
    code of every error to a message: the keys are pairwise distinct,
    every entry comes from an error of the list, and the message of a code
    is that of the last error with the code. *)
Theorem openapi_docs_exceptions :
  forall (_models : loc) (response : option pymodel) (exceptions : list pyerror)
         (tags : list string) (func : pyfunc) (h : heap) (w : pyfunc) (h' : heap),
    openapi_docs _models response exceptions tags func h = Returned (w, h') ->
    match exceptions with
    | [] => f_exceptions (fn_handler w) = f_exceptions (fn_handler func)
    | _ =>
        exists errs,
          f_exceptions (fn_handler w) = Some errs
          /\ NoDup (dict_keys errs)
          /\ (forall key msg, In (key, msg) errs ->
                exists code, key = str code /\ In (APIError code msg) exceptions)
          /\ (forall before code msg after,
                exceptions = before ++ APIError code msg :: after ->
                (forall msg', ~ In (APIError code msg') after) ->
                dict_get errs (str code) = Some msg)
    end.
Proof.
  intros m response exceptions tags func h w h' H.
  unfold openapi_docs in H. then_cases H. injection H as <- <-. cbn [fn_handler].
  pose proof (api_errs_ok _ _ _ E3) as [Hall Herrs].
  assert (Hkeep : f_exceptions (fst st2) = f_exceptions (fn_handler func)).
  { rewrite (register_other _ _ set_response _ _ f_exceptions (fun _ _ => eq_refl) E2),
      (register_other _ _ set_form _ _ f_exceptions (fun _ _ => eq_refl) E1),
      (register_other _ _ set_body _ _ f_exceptions (fun _ _ => eq_refl) E0),
      (register_other _ _ set_query _ _ f_exceptions (fun _ _ => eq_refl) E).
    reflexivity. }
  destruct exceptions as [|e rest].
  - cbn [fold_left] in Herrs. subst st3. destruct tags; exact Hkeep.
  - set (exceptions := e :: rest) in *.
    assert (Hne : st3 <> []).
    { rewrite Herrs. subst exceptions. apply Forall_cons in Hall as [He _].
      destruct e as [code msg|]; [|contradiction]. cbn [fold_left].
      apply errs_fold_nonempty. discriminate. }
    exists st3. split; [destruct st3; [contradiction|]; destruct tags; reflexivity|].
    split; [|split].
    + rewrite Herrs. apply errs_fold_nodup. constructor.
    + intros key msg Hin. rewrite Herrs in Hin.
      apply errs_fold_In in Hin as [[]|Hin]. exact Hin.
    + intros before code msg after Heq Hlast. rewrite Herrs, Heq, fold_left_app.
      cbn [fold_left]. rewrite errs_fold_get.
      * apply dict_get_set_eq.
      * intros c msg' Hin Hstr. apply str_inj in Hstr. subst c.
        exact (Hlast msg' Hin).
Qed.

Lemma openapi_docs_exceptions_witness :
  exists w h' errs,
    openapi_docs 3%positive None
      [APIError 404 "Not found"; APIError 409 "Conflict"; APIError 404 "Gone"] []
      list_pets models_store = Returned (w, h')
    /\ f_exceptions (fn_handler w) = Some errs
    /\ dict_get errs "404" = Some "Gone".
Proof.
  destruct (openapi_docs 3%positive None
              [APIError 404 "Not found"; APIError 409 "Conflict"; APIError 404 "Gone"] []
              list_pets models_store) as [[w h']|f] eqn:E;
    [|vm_compute in E; discriminate E].
  destruct (openapi_docs_exceptions _ _ _ _ _ _ _ _ E) as (errs & He & _ & _ & Hlast).
  exists w, h', errs. split; [reflexivity|]. split; [exact He|].
  apply (Hlast [APIError 404 "Not found"; APIError 409 "Conflict"] 404%Z "Gone" []);
    [reflexivity | intros msg' []].
Defined.

(** ** A decorated handler in the document *)

Lemma responses_of_response func name :
  f_response func = Some name ->
  dict_get (responses_of func) "200"
  = Some (JDict [("description", JStr "Successful Response");
                 ("content", json_content name)])
  /\ dict_get (responses_of func) "400" = Some (description "Validation Error").
Proof.
  intros Hr. unfold responses_of. rewrite Hr.
  destruct (match f_exceptions func with
            | Some exceptions => declared_responses exceptions
            | None => ([], false)
            end) as [responses has_2xx].
  cbn [is_some]. rewrite !orb_true_r. split.
  - rewrite dict_get_set_ne by discriminate. apply dict_get_set_eq.
  - apply dict_get_set_eq.
Qed.

(** X25. The reference of a declared response resolves. For a function
    decorated with a response model, under the conditions of X23: the
    decorator returns; the [200] response of the wrapper references
    [#/components/schemas/] followed by the name of the model and its
    [400] response is the validation error; and the registry has the
    schema dictionary of the model as its entry under that name, so that
    the [components.schemas] of a document assembled afterwards hold what
    it reads as, without its [definitions]. *)
Theorem decorated_response_resolves :
  forall (_models : loc) (name : string) (s : loc)
         (exceptions : list pyerror) (tags : list string) (func : pyfunc)
         (h : heap) (reg : list (string * shape)) (tree : schema_trees),
    Forall (model_ok _models h reg tree) (models_of (Some (BaseModelClass name s)) func) ->
    separate_models tree (models_of (Some (BaseModelClass name s)) func) ->
    Forall (fun e => e <> NotAPIError) exceptions ->
    holds h (SNode _models reg) ->
    NoDup (locs (SNode _models reg)) ->
    exists w h' es registry,
      openapi_docs _models (Some (BaseModelClass name s)) exceptions tags func h
      = Returned (w, h')
      /\ dict_get (responses_of (fn_handler w)) "200"
         = Some (JDict [("description", JStr "Successful Response");
                        ("content",
                         JDict [("application/json",
                                 JDict [("schema",
                                         JDict [("$ref",
                                                 JStr ("#/components/schemas/" +:+ name))])])])])
      /\ dict_get (responses_of (fn_handler w)) "400"
         = Some (JDict [("description", JStr "Validation Error")])
      /\ ents h' _models = Some es
      /\ dict_get es name = Some (VDict s)
      /\ denotes h' (VDict _models) (JDict registry)
      /\ dict_get registry name = Some (JDict (erase_entries (tree s)))
      /\ dict_get (strip_registry registry) name
         = Some (JDict (dict_del (erase_entries (tree s)) "definitions")).
Proof.
  intros m name s exceptions tags func h reg tree Hmodels Hsep Herrs Hh Hnd.
  destruct (openapi_docs_runs m (Some (BaseModelClass name s)) exceptions tags func
              h reg tree Hmodels Hsep Herrs Hh Hnd) as (w & h' & Hrun & Hh' & _).
  set (reg' := fold_left (fun r model => enter_tree tree model r)
                 (models_of (Some (BaseModelClass name s)) func) reg) in *.
  exists w, h', (map rootkv reg'), (erase_entries reg'). split; [exact Hrun|].
  assert (Hresp : f_response (fn_handler w) = Some name).
  { unfold openapi_docs in Hrun. then_cases Hrun.
    injection Hrun as <- _. cbn [fn_handler].
    apply register_cases in E2 as [[Ht _]|(name' & s' & Heq & _ & Hset)];
      [discriminate Ht|].
    injection Heq as <- <-. rewrite Hset. destruct st3, tags; reflexivity. }
  destruct (responses_of_response (fn_handler w) name Hresp) as [H200 H400].
  split; [exact H200|]. split; [exact H400|].
  split; [now apply holds_node in Hh' as (He & _ & _)|].
  assert (Hlast : exists r, reg' = dict_set r name (schema_tree tree s)).
  { subst reg'. unfold models_of. cbn [fold_left enter_tree]. eauto. }
  destruct Hlast as (r & Hr).
  split; [|split; [|split]].
  - rewrite Hr, dict_get_rootkv, dict_get_set_eq. reflexivity.
  - exists (SNode m reg'). split; [exact Hh'|]. split; [reflexivity | apply erase_node].
  - rewrite Hr. unfold erase_entries at 1. rewrite (dict_get_map erase), dict_get_set_eq.
    cbn [option_map]. f_equal. exact (erase_node s (tree s)).
  - unfold strip_registry. rewrite (dict_get_map strip_json), Hr.
    unfold erase_entries at 1. rewrite (dict_get_map erase), dict_get_set_eq.
    cbn [option_map]. f_equal. unfold schema_tree. now rewrite erase_node.
Qed.

Lemma decorated_response_resolves_witness :
  exists w h' registry,
    openapi_docs 3%positive (Some pet_model) [] [] list_pets models_store
    = Returned (w, h')
    /\ denotes h' (VDict 3%positive) (JDict registry)
    /\ dict_get registry "Pet"
       = Some (JDict [("title", JStr "Pet");
                      ("definitions",
                       JDict [("Owner", JDict [("type", JStr "object")])])])
    /\ dict_get (strip_registry registry) "Pet" = Some (JDict [("title", JStr "Pet")]).
Proof.
  destruct models_store_ok as (Hh & Hnd & Hok & Hsep).
  destruct (decorated_response_resolves 3%positive "Pet" 4%positive [] []
              list_pets models_store registry_schemas models_trees Hok Hsep)
    as (w & h' & es & registry & Hrun & _ & _ & _ & _ & Hden & Hget & Hstrip).
  - constructor.
  - exact Hh.
  - exact Hnd.
  - exists w, h', registry. auto.
Defined.

(** ** The singleton of [add_openapi_spec] *)

Lemma visit_rules_cached pca self d e rules :
  forall acc,
    visit_rules pca (set_extra_props (set_spec self d) e) rules acc
    = visit_rules pca self rules acc.
Proof.
  induction rules as [|r rules IH]; intros acc; [reflexivity|].
  cbn [visit_rules].
  assert (Hr : visit_rule pca (set_extra_props (set_spec self d) e) acc r
               = visit_rule pca self acc r) by (destruct self; reflexivity).
  rewrite Hr. destruct (visit_rule pca self acc r); cbn [mbind outcome_bind Py.bind]; auto.
Qed.

(** X26. Once the singleton of [add_openapi_spec] exists, a call uses
    nothing of its arguments but the mode, which must be one of the three,
    and the extra properties: two calls that agree on these give the same
    result, whatever application, endpoint, prefix, version and info they
    name; and when the singleton has its document, every call with a valid
    mode returns that document and leaves the store as it is. A call with
    another mode raises an [AssertionError], with or without singleton. *)
Theorem add_openapi_spec_singleton :
  forall (parse_converter_args : tokenizer)
         (_models : loc) (fuel : nat) (singleton : OpenAPI) (args args' : OpenAPI)
         (h : heap),
    let valid (a : OpenAPI) :=
      String.eqb (mode a) "normal" || String.eqb (mode a) "greedy"
      || String.eqb (mode a) "strict" in
    (valid args = true -> valid args' = true ->
     extra_props args = extra_props args' ->
     add_openapi_spec parse_converter_args _models fuel (Some singleton) args h
     = add_openapi_spec parse_converter_args _models fuel (Some singleton) args' h)
    /\ (valid args = true ->
        forall data, _spec singleton = Some data ->
          add_openapi_spec parse_converter_args _models fuel (Some singleton) args h
          = Ok (data, Some (set_extra_props singleton (extra_props args)), h))
    /\ (valid args = false ->
        forall s, add_openapi_spec parse_converter_args _models fuel s args h
                  = Raise AssertionError)
    /\ (valid args = true ->
        add_openapi_spec parse_converter_args _models fuel None args h
        = match generate_spec parse_converter_args _models fuel args h with
          | Ok (data, h') =>
              Ok (data, Some (set_spec (set_extra_props (set_spec args None)
                                          (extra_props args)) (Some data)), h')
          | Raise e => Raise e
          | Undefined => Undefined
          | OutOfFuel => OutOfFuel
          end).
Proof.
  intros pca m fuel singleton args args' h valid. subst valid. cbv beta.
  split; [|split; [|split]].
  - intros H1 H2 He. unfold add_openapi_spec. rewrite H1, H2, He. reflexivity.
  - intros H1 data Hd. unfold add_openapi_spec. rewrite H1. cbn [negb].
    unfold spec. cbn [_spec set_extra_props]. rewrite Hd. reflexivity.
  - intros H1 s. unfold add_openapi_spec. rewrite H1. reflexivity.
  - intros H1. unfold add_openapi_spec. rewrite H1. cbn [negb].
    assert (Hg : generate_spec pca m fuel
                   (set_extra_props (set_spec args None) (extra_props args)) h
                 = generate_spec pca m fuel args h).
    { unfold generate_spec, collect_routes. cbn [app set_extra_props set_spec].
      rewrite (visit_rules_cached pca args None (extra_props args)).
      destruct args; reflexivity. }
    unfold spec. cbn [_spec set_extra_props set_spec]. fold (set_spec args None).
    fold (set_extra_props (set_spec args None) (extra_props args)). rewrite Hg.
    destruct (generate_spec pca m fuel args h) as [[data h']| | |]; reflexivity.
Qed.

Lemma add_openapi_spec_singleton_witness :
  add_openapi_spec ArgTokenizer.parse_int_args 3%positive 0
    (Some (set_spec strict_instance (Some 1%positive))) mixed_instance registry_store
  = Ok (1%positive,
        Some (set_extra_props (set_spec strict_instance (Some 1%positive))
                (extra_props mixed_instance)),
        registry_store).
Proof.
  destruct (add_openapi_spec_singleton ArgTokenizer.parse_int_args 3%positive 0
              (set_spec strict_instance (Some 1%positive)) mixed_instance mixed_instance
              registry_store) as (_ & H & _).
  exact (H eq_refl 1%positive eq_refl).
Defined.

(** ** The objects of the assembled document *)

Lemma NoDup_app_sub {A} (X Y W : list A) :
  NoDup (X ++ Y) -> NoDup W -> (forall l, In l W -> In l Y) -> NoDup (X ++ W).
Proof.
  intros Hxy Hw Hsub. apply NoDup_app in Hxy as (Hx & Hdis & _).
  apply NoDup_app. split; [exact Hx|]. split; [|exact Hw].
  intros l Hl Hl'. apply (Hdis l Hl). apply list_elem_of_In, Hsub.
  now apply list_elem_of_In.
Qed.

Lemma NoDup_fresh_app (h : heap) (A B : list loc) :
  NoDup A -> NoDup B ->
  (forall l, In l A -> h !! l = None) -> (forall l, In l B -> is_Some (h !! l)) ->
  NoDup (A ++ B).
Proof.
  intros Ha Hb Hfresh Halloc. apply NoDup_app. split; [exact Ha|]. split; [|exact Hb].
  intros l Hl Hl'. apply list_elem_of_In in Hl, Hl'.
  destruct (Halloc l Hl') as [o Ho]. rewrite (Hfresh l Hl) in Ho. discriminate.
Qed.

Lemma NoDup_fresh_cons (h : heap) (l : loc) (B : list loc) :
  NoDup B -> h !! l = None -> (forall l', In l' B -> is_Some (h !! l')) ->
  NoDup (l :: B).
Proof.
  intros Hb Hfresh Halloc. apply NoDup_cons. split; [|exact Hb].
  intros Hl. apply list_elem_of_In in Hl.
  destruct (Halloc l Hl) as [o Ho]. rewrite Hfresh in Ho. discriminate.
Qed.

Lemma NoDup_flat_map_sub {A B} (f g : A -> list B) (xs : list A) :
  NoDup (flat_map g xs) ->
  (forall x, In x xs -> NoDup (f x) /\ forall l, In l (f x) -> In l (g x)) ->
  NoDup (flat_map f xs).
Proof.
  induction xs as [|x xs IH]; intros Hnd Hf; [constructor|].
  cbn [flat_map] in *. apply NoDup_app in Hnd as (Hx & Hdis & Hxs).
  destruct (Hf x (or_introl eq_refl)) as [Hfx Hsub].
  apply NoDup_app. split; [exact Hfx|]. split.
  - intros l Hl Hl'. apply list_elem_of_In in Hl, Hl'.
    apply in_flat_map in Hl' as (y & Hy & Hly).
    apply (Hdis l); [apply list_elem_of_In; auto|].
    apply list_elem_of_In, in_flat_map. exists y. split; [exact Hy|].
    now apply (Hf y (or_intror Hy)).
  - apply IH; [exact Hxs|]. intros y Hy. apply Hf. now right.
Qed.

Lemma flat_map_app_perm {A B} (f1 f2 : A -> list B) (xs : list A) :
  flat_map (fun x => f1 x ++ f2 x) xs ≡ₚ flat_map f1 xs ++ flat_map f2 xs.
Proof.
  induction xs as [|x xs IH]; [reflexivity|].
  cbn [flat_map]. rewrite IH. solve_Permutation.
Qed.

Lemma children_locs_del_nodup (cs : list (string * shape)) (k : string) :
  NoDup (children_locs cs) -> NoDup (children_locs (dict_del cs k)).
Proof.
  induction cs as [|[k0 c0] cs IH]; intros Hnd; [exact Hnd|].
  change (children_locs ((k0, c0) :: cs)) with (locs c0 ++ children_locs cs) in Hnd.
  pose proof Hnd as Hnd0. apply NoDup_app in Hnd as (Hc0 & Hdis & Hcs).
  cbn [dict_del]. destruct (String.eqb k0 k); [exact Hcs|].
  change (children_locs ((k0, c0) :: dict_del cs k))
    with (locs c0 ++ children_locs (dict_del cs k)).
  apply (NoDup_app_sub _ (children_locs cs)); [exact Hnd0 | now apply IH|].
  intros l Hl. unfold children_locs in *. apply in_flat_map in Hl as ([k1 c1] & Hin & Hl).
  apply in_flat_map. exists (k1, c1). split; [now apply (dict_del_In cs k) | exact Hl].
Qed.

Lemma dict_del_key (cs : list (string * shape)) (k k' : string) (c : shape) :
  NoDup (map fst cs) -> In (k', c) (dict_del cs k) -> k' <> k.
Proof.
  intros Hk Hin ->.
  pose proof (dict_get_In _ _ _ (dict_del_nodup cs k Hk) Hin) as Hget.
  rewrite (dict_get_del cs k k Hk), String.eqb_refl in Hget. discriminate.
Qed.

(** A registered schema falls into the schema without its [definitions]
    and the nested definitions, which share no object. *)
Lemma schema_split_locs (h : heap) (c : shape) :
  holds h c -> NoDup (locs c) ->
  NoDup (locs (stripped c) ++ children_locs (nested c))
  /\ forall l, In l (locs (stripped c) ++ children_locs (nested c)) -> In l (locs c).
Proof.
  destruct c as [a|s cs]; intros Hh Hnd; [split; [constructor | intros l []]|].
  pose proof Hh as Hh0. apply holds_node in Hh as (_ & Hk & _).
  rewrite locs_node in Hnd. apply NoDup_cons in Hnd as [Hs Hcs].
  assert (Hstr : NoDup (locs (stripped (SNode s cs)))).
  { cbn [stripped]. rewrite locs_node. apply NoDup_cons. split.
    - intros Hl. apply Hs. apply list_elem_of_In.
      apply list_elem_of_In in Hl.
      assert (H : In s (locs (stripped (SNode s cs)))) by (cbn [stripped]; rewrite locs_node; now right).
      apply locs_stripped in H. rewrite locs_node in H.
      destruct H as [_|H]; [|exact H].
      unfold children_locs in *. apply in_flat_map in Hl as ([k1 c1] & Hin & Hl).
      apply in_flat_map. exists (k1, c1). split; [now apply (dict_del_In cs "definitions") | exact Hl].
    - now apply children_locs_del_nodup. }
  cbn [nested]. destruct (dict_get cs "definitions") as [[a|n ds]|] eqn:Ed.
  1, 3: change (children_locs []) with (@nil loc); rewrite app_nil_r;
        (split; [exact Hstr | intros l Hl; now apply locs_stripped]).
  apply dict_get_Some_In in Ed.
  pose proof (children_nodup cs _ _ Hcs Ed) as Hn. rewrite locs_node in Hn.
  apply NoDup_cons in Hn as [_ Hds].
  assert (Hsub : forall l, In l (children_locs ds) -> In l (children_locs cs)).
  { intros l Hl. apply (child_locs_in cs "definitions" (SNode n ds) l Ed).
    rewrite locs_node. now right. }
  split.
  - apply NoDup_app. split; [exact Hstr|]. split; [|exact Hds].
    intros l Hl Hl'. apply list_elem_of_In in Hl, Hl'.
    cbn [stripped] in Hl. rewrite locs_node in Hl. destruct Hl as [<-|Hl].
    + apply Hs, list_elem_of_In, Hsub, Hl'.
    + unfold children_locs in Hl. apply in_flat_map in Hl as ([k1 c1] & Hin & Hl).
      pose proof (dict_del_key cs _ _ _ Hk Hin) as Hne.
      apply dict_del_In in Hin.
      apply (children_disjoint cs k1 c1 "definitions" (SNode n ds) l Hcs Hin Ed Hne Hl).
      rewrite locs_node. now right.
  - intros l Hl. apply in_app_iff in Hl as [Hl|Hl]; [now apply locs_stripped|].
    rewrite locs_node. right. now apply Hsub.
Qed.

Lemma children_locs_update (a b : list (string * shape)) (l : loc) :
  In l (children_locs (dict_update a b)) ->
  In l (children_locs a) \/ In l (children_locs b).
Proof.
  unfold children_locs. intros Hl. apply in_flat_map in Hl as ([k c] & Hin & Hl).
  apply dict_update_In in Hin as [Hin|Hin]; [left|right];
    apply in_flat_map; exists (k, c); auto.
Qed.

Lemma children_locs_update_nodup (b : list (string * shape)) :
  forall a, NoDup (children_locs a ++ children_locs b) ->
            NoDup (children_locs (dict_update a b)).
Proof.
  unfold dict_update.
  induction b as [|[k c] b IH]; intros a Hnd; cbn [fold_left fst snd].
  - change (children_locs []) with (@nil loc) in Hnd. now rewrite app_nil_r in Hnd.
  - change (children_locs ((k, c) :: b)) with (locs c ++ children_locs b) in Hnd.
    apply NoDup_app in Hnd as (Ha & Hdis & Hcb).
    apply NoDup_app in Hcb as (Hc & Hdcb & Hb).
    apply IH. apply NoDup_app. split; [|split; [|exact Hb]].
    + apply children_locs_set_nodup; [exact Ha | exact Hc|].
      intros l Hl Hl'. apply list_elem_of_In in Hl, Hl'. apply (Hdis l Hl').
      apply list_elem_of_In, in_app_iff. left. now apply list_elem_of_In.
    + intros l Hl Hl'. apply list_elem_of_In in Hl.
      apply children_locs_set in Hl as [Hl|Hl].
      * apply list_elem_of_In in Hl. apply (Hdis l Hl).
        apply list_elem_of_In, in_app_iff. right. now apply list_elem_of_In.
      * apply list_elem_of_In in Hl. exact (Hdcb l Hl Hl').
Qed.

Lemma hoist_locs (reg : list (string * shape)) :
  forall defs,
    NoDup (children_locs defs
           ++ flat_map (fun kc => children_locs (nested (snd kc))) reg) ->
    NoDup (children_locs (hoist defs reg))
    /\ forall l, In l (children_locs (hoist defs reg)) ->
                 In l (children_locs defs
                       ++ flat_map (fun kc => children_locs (nested (snd kc))) reg).
Proof.
  unfold hoist.
  induction reg as [|kc reg IH]; intros defs Hnd; cbn [fold_left flat_map] in *.
  - rewrite app_nil_r in *. auto.
  - rewrite app_assoc in Hnd.
    destruct (IH (dict_update defs (nested (snd kc)))) as [H1 H2].
    + pose proof Hnd as Hnd0. apply NoDup_app in Hnd as (Hl & Hdis & Hr).
      apply NoDup_app. split; [now apply children_locs_update_nodup|]. split; [|exact Hr].
      intros l Hl1 Hl2. apply (Hdis l); [|exact Hl2].
      apply list_elem_of_In, in_app_iff. apply list_elem_of_In in Hl1.
      now apply children_locs_update.
    + split; [exact H1|]. intros l Hl. apply H2 in Hl.
      rewrite app_assoc. apply in_app_iff in Hl as [Hl|Hl]; apply in_app_iff; [left|now right].
      apply in_app_iff. now apply children_locs_update.
Qed.

(** The schemas without their [definitions] and the hoisted definitions
    share no object, and have no object that the registry had not. *)
Lemma registry_split_locs (h : heap) (reg : list (string * shape)) :
  Forall (fun kc => holds h (snd kc)) reg ->
  NoDup (children_locs reg) ->
  NoDup (children_locs (map (fun kc => (fst kc, stripped (snd kc))) reg)
         ++ children_locs (hoist [] reg))
  /\ forall l, In l (children_locs (map (fun kc => (fst kc, stripped (snd kc))) reg)
                     ++ children_locs (hoist [] reg)) ->
               In l (children_locs reg).
Proof.
  intros Hh Hnd.
  set (S := fun kc : string * shape => locs (stripped (snd kc))).
  set (N := fun kc : string * shape => children_locs (nested (snd kc))).
  assert (Hstr : children_locs (map (fun kc => (fst kc, stripped (snd kc))) reg)
                 = flat_map S reg).
  { unfold children_locs. rewrite flat_map_concat_map, map_map, <- flat_map_concat_map.
    reflexivity. }
  assert (Hper : forall x, In x reg ->
             NoDup (S x ++ N x) /\ forall l, In l (S x ++ N x) -> In l (locs (snd x))).
  { intros [k c] Hin. subst S N. cbn [snd]. apply (schema_split_locs h).
    - rewrite Forall_forall in Hh. apply list_elem_of_In in Hin. exact (Hh _ Hin).
    - exact (children_nodup reg k c Hnd Hin). }
  assert (Hall : NoDup (flat_map S reg ++ flat_map N reg)).
  { rewrite <- flat_map_app_perm.
    apply (NoDup_flat_map_sub _ (fun kc => locs (snd kc))); [|exact Hper].
    unfold children_locs in Hnd.
    replace (flat_map (fun kc : string * shape => locs (snd kc)) reg)
      with (flat_map (fun '(_, c) => locs c) reg); [exact Hnd|].
    apply flat_map_ext. now intros [k c]. }
  assert (Hsub : forall l, In l (flat_map S reg ++ flat_map N reg) ->
                           In l (children_locs reg)).
  { intros l Hl.
    assert (Hx : exists x, In x reg /\ In l (S x ++ N x)).
    { apply in_app_iff in Hl as [Hl|Hl]; apply in_flat_map in Hl as (x & Hx & Hl);
        exists x; (split; [exact Hx|]); apply in_app_iff; auto. }
    destruct Hx as ([k c] & Hx & Hlx).
    apply (child_locs_in reg k c l Hx). exact (proj2 (Hper _ Hx) l Hlx). }
  destruct (hoist_locs reg []) as [Hh1 Hh2].
  { change (children_locs []) with (@nil loc). cbn [app].
    apply NoDup_app in Hall as (_ & _ & Hn). exact Hn. }
  rewrite Hstr. split.
  - apply (NoDup_app_sub _ (flat_map N reg)); [exact Hall | exact Hh1 | exact Hh2].
  - intros l Hl. apply Hsub. apply in_app_iff in Hl as [Hl|Hl]; apply in_app_iff; [now left|].
    right. exact (Hh2 l Hl).
Qed.

Lemma children_allocated (h : heap) (cs : list (string * shape)) (l : loc) :
  Forall (fun kc => holds h (snd kc)) cs -> In l (children_locs cs) ->
  is_Some (h !! l).
Proof.
  intros Hcs Hl. unfold children_locs in Hl. apply in_flat_map in Hl as ([k c] & Hin & Hl).
  rewrite Forall_forall in Hcs. apply list_elem_of_In in Hin.
  exact (holds_allocated h c l (Hcs _ Hin) Hl).
Qed.

Lemma fresh_step (h : heap) (l : loc) (o : dictobj) (B : list loc) :
  NoDup B -> (forall l', In l' B -> is_Some (h !! l')) -> h !! l = None ->
  NoDup (l :: B) /\ forall l', In l' (l :: B) -> is_Some (<[l := o]> h !! l').
Proof.
  intros Hb Halloc Hfresh. split; [now apply (NoDup_fresh_cons h)|].
  intros l' [<-|Hl'].
  - rewrite lookup_insert_eq. eauto.
  - destruct (Halloc l' Hl') as [o' Ho']. exists o'.
    rewrite lookup_insert_ne; [exact Ho'|]. congruence.
Qed.

(** ** The document under any extra properties *)

(** X27. The document of [generate_spec] under any [extra_props]. When the
    rule loop returns [routes] and [tags], the schemas of the registry are
    dictionaries, and the caller's [info], the [extra_props] and the
    registry are trees of the store that share no dictionary: with enough
    fuel [generate_spec] returns a new dictionary that reads as the merge
    of the six entries of the document with [extra_props]. An entry of
    [extra_props] thus replaces the entry of the document under its key,
    or is merged into it when both are dictionaries, and the other entries
    follow the six. The [extra_props] are left with the entries whose key
    is none of the six, and no dictionary outside [info], [extra_props]
    and the registry changes. *)
Theorem generate_spec_merges_extra :
  forall (parse_converter_args : tokenizer)
         (_models : loc) (self : OpenAPI) (h : heap)
         (routes : routes_t) (tags : tags_t) (reg ics ecs : list (string * shape)),
    collect_routes parse_converter_args self = Ok (routes, tags) ->
    holds h (SNode _models reg) ->
    Forall (fun kc => schema_shape (snd kc)) reg ->
    holds h (SNode (info self) ics) ->
    holds h (SNode (extra_props self) ecs) ->
    NoDup (locs (SNode (info self) ics) ++ locs (SNode (extra_props self) ecs)
           ++ locs (SNode _models reg)) ->
    let document :=
      document_json self routes tags (erase_entries ics) (erase_entries reg) in
    exists n, forall fuel, n <= fuel ->
      exists data h',
        generate_spec parse_converter_args _models fuel self h = Ok (data, h')
        /\ h !! data = None
        /\ denotes h' (VDict data) (JDict (merge_spec document (erase_entries ecs)))
        /\ denotes h' (VDict (extra_props self))
             (JDict (filter (fun kv => dict_mem document (fst kv) = false)
                            (erase_entries ecs)))
        /\ (forall l o, h !! l = Some o ->
                        ~ In l (locs (SNode (info self) ics)
                                ++ locs (SNode (extra_props self) ecs)
                                ++ locs (SNode _models reg)) ->
                        h' !! l = Some o).
Proof.
  intros pca m self h routes tags reg ics ecs Hroutes Hreg Hschema Hinfo Hextra Hsep
    document.
  assert (HndR : NoDup (locs (SNode m reg))).
  { apply NoDup_app in Hsep as (_ & _ & H). now apply NoDup_app in H as (_ & _ & H). }
  assert (HdisI : forall l, In l (locs (SNode (info self) ics)) ->
                            ~ In l (locs (SNode m reg))).
  { intros l Hl Hl'. apply NoDup_app in Hsep as (_ & H & _).
    apply (H l); [now apply list_elem_of_In|].
    apply list_elem_of_In, in_app_iff. now right. }
  assert (HdisE : forall l, In l (locs (SNode (extra_props self) ecs)) ->
                            ~ In l (locs (SNode m reg))).
  { intros l Hl Hl'. apply NoDup_app in Hsep as (_ & _ & H).
    apply NoDup_app in H as (_ & H & _).
    apply (H l); now apply list_elem_of_In. }
  destruct (flatten_registry_tree h m reg Hreg HndR Hschema)
    as (h1 & Hfl & Hhd & Hrs & Hframe).
  set (defs := hoist [] reg) in *.
  set (rcs := map (fun kc => (fst kc, stripped (snd kc))) reg) in *.
  assert (Hkd : NoDup (map fst defs)) by (apply hoist_nodup; constructor).
  assert (Hal1 : allocated_in h h1).
  { apply for_items_allocated in Hfl; [exact Hfl|].
    intros k v st st'. apply flatten_body_allocated. }
  assert (Hinfo1 : holds h1 (SNode (info self) ics)).
  { apply (holds_frame h); [|exact Hinfo]. intros l Hl. apply Hframe. auto. }
  assert (Hextra1 : holds h1 (SNode (extra_props self) ecs)).
  { apply (holds_frame h); [|exact Hextra]. intros l Hl. apply Hframe. auto. }
  destruct (alloc_built (JDict (paths_json routes)) (paths_wf pca self routes tags Hroutes) h1)
    as (ps & h2 & Ha & Hps & Hep & Hnps & Hfp & Hp12).
  pose proof Hrs as Hrs0. apply holds_node in Hrs as (Hem & Hkr & Hcr).
  apply ents_Some in Hem as (om & Hm1 & Hom).
  destruct (new_dict_spec (entries om) h2) as (ls & Els & Hls).
  set (h3 := <[ls := {| entries := entries om; version := 0 |}]> h2) in *.
  destruct (new_dict_spec [("schemas", VDict ls)] h3) as (lc & Elc & Hlc).
  set (h4 := <[lc := {| entries := [("schemas", VDict ls)]; version := 0 |}]> h3) in *.
  destruct (new_dict_spec (map rootkv defs) h4) as (ld & Eld & Hld).
  set (h5 := <[ld := {| entries := map rootkv defs; version := 0 |}]> h4) in *.
  set (six := [("openapi", VAtom (AStr (openapi_version self)));
               ("info", VDict (info self));
               ("tags", VAtom (AList (map snd tags)));
               ("paths", root ps);
               ("components", VDict lc);
               ("definitions", VDict ld)]).
  destruct (new_dict_spec six h5) as (data & Edata & Hdata).
  set (h6 := <[data := {| entries := six; version := 0 |}]> h5) in *.
  set (children :=
         [("openapi", SLeaf (AStr (openapi_version self)));
          ("info", SNode (info self) ics);
          ("tags", SLeaf (AList (map snd tags)));
          ("paths", ps);
          ("components", SNode lc [("schemas", SNode ls rcs)]);
          ("definitions", SNode ld defs)]).
  exists (depth (SNode data children)). intros fuel Hfuel.
  assert (P23 : preserved h2 h3) by now apply preserved_insert.
  assert (P34 : preserved h3 h4) by now apply preserved_insert.
  assert (P45 : preserved h4 h5) by now apply preserved_insert.
  assert (P56 : preserved h5 h6) by now apply preserved_insert.
  assert (P16 : preserved h1 h6).
  { intros l o Hl. apply P56, P45, P34, P23, Hp12, Hl. }
  assert (Hdoc : holds h6 (SNode data children)).
  { subst h6. apply (holds_new h5 data children Hdata).
    { apply (bool_decide_unpack _). vm_compute. reflexivity. }
    subst children.
    apply Forall_cons. split; [exact I|].
    apply Forall_cons. split.
    { apply (holds_preserved h1 h5); [|exact Hinfo1].
      intros l o Hl. apply P45, P34, P23, Hp12, Hl. }
    apply Forall_cons. split; [exact I|].
    apply Forall_cons. split.
    { apply (holds_preserved h2 h5); [|exact Hps].
      intros l o Hl. apply P45, P34, P23, Hl. }
    apply Forall_cons. split.
    { apply (holds_preserved h4 h5 _ P45).
      apply (holds_new h3 lc [("schemas", SNode ls rcs)] Hlc);
        [apply NoDup_singleton|].
      apply Forall_cons. split; [|constructor]. cbn [snd]. subst h3. rewrite Hom.
      apply (holds_new h2 ls rcs Hls Hkr).
      eapply Forall_impl; [exact Hcr|]. intros kc Hkc.
      exact (holds_preserved h1 h2 _ Hp12 Hkc). }
    apply Forall_cons. split; [|constructor].
    subst h5. apply (holds_new h4 ld defs Hld Hkd).
    eapply Forall_impl; [exact Hhd|]. intros kc Hkc.
    apply (holds_preserved h1 h4); [|exact Hkc].
    intros l o Hl. apply P34, P23, Hp12, Hl. }
  assert (Hext6 : holds h6 (SNode (extra_props self) ecs))
    by exact (holds_preserved h1 h6 _ P16 Hextra1).
  assert (Hlocs : locs (SNode data children)
                  = data :: (info self :: children_locs ics) ++ locs ps
                         ++ (lc :: ls :: children_locs rcs) ++ ld :: children_locs defs).
  { subst children. rewrite locs_node. unfold children_locs at 1.
    cbn [flat_map]. rewrite !locs_node.
    change (children_locs [("schemas", SNode ls rcs)]) with (locs (SNode ls rcs) ++ []).
    rewrite locs_node. cbn [locs app]. rewrite !app_nil_r. reflexivity. }
  destruct (registry_split_locs h reg) as [Hspl Hsplsub].
  { now apply holds_node in Hreg as (_ & _ & H). }
  { rewrite locs_node in HndR. now apply NoDup_cons in HndR as [_ H]. }
  fold defs rcs in Hspl, Hsplsub.
  set (B0 := locs (SNode (info self) ics) ++ locs (SNode (extra_props self) ecs)
             ++ (children_locs rcs ++ children_locs defs)).
  assert (N0 : NoDup B0).
  { subst B0.
    apply (NoDup_app_sub _ (locs (SNode (extra_props self) ecs) ++ locs (SNode m reg)));
      [exact Hsep| |].
    - apply NoDup_app in Hsep as (_ & _ & H).
      apply (NoDup_app_sub _ (locs (SNode m reg))); [exact H | exact Hspl|].
      intros l Hl. rewrite locs_node. right. now apply Hsplsub.
    - intros l Hl. apply in_app_iff in Hl as [Hl|Hl]; apply in_app_iff; [now left|right].
      rewrite locs_node. right. now apply Hsplsub. }
  assert (A0 : forall l, In l B0 -> is_Some (h1 !! l)).
  { intros l Hl. subst B0.
    apply in_app_iff in Hl as [Hl|Hl]; [exact (holds_allocated h1 _ l Hinfo1 Hl)|].
    apply in_app_iff in Hl as [Hl|Hl]; [exact (holds_allocated h1 _ l Hextra1 Hl)|].
    apply in_app_iff in Hl as [Hl|Hl].
    - exact (children_allocated h1 rcs l Hcr Hl).
    - exact (children_allocated h1 defs l Hhd Hl). }
  assert (N1 : NoDup (locs ps ++ B0)) by exact (NoDup_fresh_app h1 _ _ Hnps N0 Hfp A0).
  assert (A1 : forall l, In l (locs ps ++ B0) -> is_Some (h2 !! l)).
  { intros l Hl.
    apply in_app_iff in Hl as [Hl|Hl]; [exact (holds_allocated h2 ps l Hps Hl)|].
    destruct (A0 l Hl) as [o Ho]. exists o. now apply Hp12. }
  destruct (fresh_step h2 ls {| entries := entries om; version := 0 |} _ N1 A1 Hls)
    as [N2 A2]. fold h3 in A2.
  destruct (fresh_step h3 lc {| entries := [("schemas", VDict ls)]; version := 0 |}
              _ N2 A2 Hlc) as [N3 A3]. fold h4 in A3.
  destruct (fresh_step h4 ld {| entries := map rootkv defs; version := 0 |} _ N3 A3 Hld)
    as [N4 A4]. fold h5 in A4.
  destruct (fresh_step h5 data {| entries := six; version := 0 |} _ N4 A4 Hdata)
    as [N5 _].
  assert (Hperm : locs (SNode data children) ++ locs (SNode (extra_props self) ecs)
                  ≡ₚ data :: ld :: lc :: ls :: locs ps ++ B0).
  { rewrite Hlocs. subst B0. rewrite !locs_node. solve_Permutation. }
  assert (Hsep6 : NoDup (locs (SNode data children)
                         ++ locs (SNode (extra_props self) ecs))).
  { rewrite Hperm. exact N5. }
  destruct (merge_dicts_shape fuel data children (extra_props self) ecs h6
              Hfuel Hdoc Hext6 Hsep6)
    as (h7 & Hrun & ca' & Hh7 & Her & _ & Hother & _ & Hrest).
  assert (Hchildren : erase_entries children = document).
  { subst children document. unfold document_json.
    assert (Hcons : forall k c cs,
               erase_entries ((k, c) :: cs) = (k, erase c) :: erase_entries cs)
      by reflexivity.
    rewrite !Hcons, !erase_node, !Hcons, !erase_node. cbn [erase json_of_atom].
    rewrite Hep.
    replace (erase_entries rcs) with (strip_registry (erase_entries reg)).
    - replace (erase_entries defs) with (hoist_json [] (erase_entries reg));
        [reflexivity|]. symmetry. apply (erase_hoist reg []).
    - subst rcs. symmetry. apply erase_strip_registry. }
  exists data, h7. split; [|split; [|split; [|split]]].
  - unfold generate_spec. rewrite Hroutes. cbn [mbind outcome_bind Py.bind].
    rewrite Hfl. cbn [mbind outcome_bind Py.bind]. rewrite paths_json_eq, Ha.
    unfold deref. rewrite (Hp12 m om Hm1). cbn [mbind outcome_bind Py.bind].
    rewrite Els, Elc, Eld. fold six. rewrite Edata, Hrun. reflexivity.
  - destruct (h !! data) as [o|] eqn:E; [|reflexivity]. exfalso.
    destruct (Hal1 data) as [o1 Ho1]; [eauto|].
    apply Hp12, P23, P34, P45 in Ho1. congruence.
  - exists (SNode data ca'). split; [exact Hh7|]. split; [reflexivity|].
    now rewrite erase_node, Her, Hchildren.
  - exists (SNode (extra_props self)
              (filter (fun kc => dict_mem children (fst kc) = false) ecs)).
    split; [exact Hrest|]. split; [reflexivity|].
    now rewrite erase_node, erase_remaining, Hchildren.
  - intros l o Hl Hnl.
    assert (Hl1 : h1 !! l = Some o).
    { rewrite Hframe; [exact Hl|]. intros Hin. apply Hnl.
      apply in_app_iff. right. apply in_app_iff. now right. }
    rewrite Hother; [now apply P16| |].
    + intros Hin.
      assert (Hin' : In l (data :: ld :: lc :: ls :: locs ps ++ B0)).
      { apply list_elem_of_In. rewrite <- Hperm. apply list_elem_of_In, in_app_iff.
        now left. }
      destruct Hin' as [<-|[<-|[<-|[<-|Hin']]]].
      * apply Hp12, P23, P34, P45 in Hl1. congruence.
      * apply Hp12, P23, P34 in Hl1. congruence.
      * apply Hp12, P23 in Hl1. congruence.
      * apply Hp12 in Hl1. congruence.
      * apply in_app_iff in Hin' as [Hin'|Hin'];
          [rewrite (Hfp l Hin') in Hl1; discriminate|].
        apply Hnl. subst B0.
        apply in_app_iff in Hin' as [Hin'|Hin']; apply in_app_iff; [now left|right].
        apply in_app_iff in Hin' as [Hin'|Hin']; apply in_app_iff; [now left|right].
        rewrite locs_node. right. now apply Hsplsub.
    + intros Hin. apply Hnl. apply in_app_iff. right. apply in_app_iff. now left.
Qed.

Lemma generate_spec_merges_extra_witness :
  exists n, forall fuel, n <= fuel ->
    exists (data : loc) (h' : heap) (routes : routes_t) (tags : tags_t),
      generate_spec ArgTokenizer.parse_int_args 3%positive fuel mixed_instance
        override_store
      = Ok (data, h')
      /\ denotes h' (VDict data)
           (JDict [("openapi", JStr "3.1.0");
                   ("info", JDict [("title", JStr "Service Documents");
                                   ("version", JStr "latest");
                                   ("contact", JStr "dev@example.org")]);
                   ("tags", JList (map snd tags));
                   ("paths", JDict (paths_json routes));
                   ("components",
                    JDict [("schemas", JDict [("Pet", JDict [("title", JStr "Pet")])])]);
                   ("definitions", JDict [("Owner", JDict [("type", JStr "object")])]);
                   ("x-logo", JStr "logo.png")])
      /\ denotes h' (VDict 2%positive) (JDict [("x-logo", JStr "logo.png")]).
Proof.
  assert (Hnd : forall l : list string, bool_decide (NoDup l) = true -> NoDup l).
  { intros l. apply bool_decide_eq_true_1. }
  destruct registry_store_holds as (_ & _ & Hs).
  destruct (collect_routes ArgTokenizer.parse_int_args mixed_instance)
    as [[routes tags]| | |] eqn:E; try (vm_compute in E; discriminate E).
  destruct (generate_spec_merges_extra ArgTokenizer.parse_int_args 3%positive
              mixed_instance override_store routes tags registry_schemas
              [("title", SLeaf (AStr "Service Documents"));
               ("version", SLeaf (AStr "latest"))]
              [("openapi", SLeaf (AStr "3.1.0"));
               ("info", SNode 7%positive [("contact", SLeaf (AStr "dev@example.org"))]);
               ("x-logo", SLeaf (AStr "logo.png"))] E)
    as (n & Hn).
  - cbn [holds registry_schemas fold_right]. repeat split; try (apply Hnd; reflexivity).
  - exact Hs.
  - cbn [holds fold_right]. repeat split; try (apply Hnd; reflexivity).
  - cbn [holds fold_right]. repeat split; try (apply Hnd; reflexivity).
  - apply (bool_decide_unpack _). vm_compute. reflexivity.
  - exists n. intros fuel Hfuel.
    destruct (Hn fuel Hfuel) as (data & h' & Hrun & _ & Hden & Hextra & _).
    exists data, h', routes, tags. split; [exact Hrun|]. split; [exact Hden | exact Hextra].
Defined.
